(** * The profile pipeline of the GitHub scraper: link classification,
      the developers store and the claim-and-process loop.

    Sources embedded here:
    - [src/scrapers/profile_scraper.py]  ([_extract_social_links],
      [fetch_profile], the per-item body of [scrape_profiles]);
    - [src/database/repository.py]       ([get_cursor],
      [insert_usernames_batch], [claim_batch_for_processing],
      [update_profile], [mark_as_failed], [increment_retry_count]);
    - [src/utils/github_client.py], [src/utils/metrics.py],
      [src/config/settings.py], [src/database/models.py]. *)

From Stdlib Require Import ZArith Lia Bool Ascii String List DecimalString DecimalNat.
From stdpp Require Import base tactics option list strings gmap sorting.

Local Open Scope string_scope.
Local Open Scope Z_scope.

(** ** Text helpers (Python [str] operations used by the scraper)

    Text is a [string] of 8-bit characters; letter case is the ASCII
    one. *)

Module Text.

Definition code (c : ascii) : nat := nat_of_ascii c.

Definition in_range (lo hi : nat) (c : ascii) : bool :=
  (Nat.leb lo (code c) && Nat.leb (code c) hi)%bool.

Definition is_upper : ascii -> bool := in_range 65 90.
Definition is_lower : ascii -> bool := in_range 97 122.
Definition is_digit : ascii -> bool := in_range 48 57.
Definition is_alnum (c : ascii) : bool :=
  (is_upper c || is_lower c || is_digit c)%bool.

(** [str.lower] on one character. *)
Definition lower_char (c : ascii) : ascii :=
  if is_upper c then ascii_of_nat (code c + 32) else c.

Fixpoint lower (s : string) : string :=
  match s with
  | EmptyString => EmptyString
  | String c s' => String (lower_char c) (lower s')
  end.

(** Python truthiness of a [str]: the empty string is falsy. *)
Definition nonempty (s : string) : bool :=
  match s with EmptyString => false | String _ _ => true end.

(** Truthiness of an optional text ([None] and [''] are falsy). *)
Definition truthy (o : option string) : bool :=
  match o with Some s => nonempty s | None => false end.

(** [sep.join(parts)]. *)
Fixpoint join (sep : string) (parts : list string) : string :=
  match parts with
  | [] => EmptyString
  | [p] => p
  | p :: rest => p ++ sep ++ join sep rest
  end.

Fixpoint take (n : nat) (s : string) : string :=
  match n, s with
  | S n', String c s' => String c (take n' s')
  | _, _ => EmptyString
  end.

(** [needle in hay]. *)
Fixpoint contains (needle hay : string) : bool :=
  if String.prefix needle hay then true
  else match hay with
       | EmptyString => false
       | String _ hay' => contains needle hay'
       end.

(** [x in xs] on a list of texts. *)
Definition mem (x : string) (xs : list string) : bool :=
  existsb (String.eqb x) xs.

End Text.

(** ** The fragment of Python's [re] the scraper uses

    A backtracking matcher with Python's priorities: [?] and [+] are
    greedy, an alternation tries its left branch first, [search] returns
    the leftmost match. Every pattern of the scraper has at most one
    capturing group, so one capture slot is enough. *)

Module Re.

Inductive regex : Type :=
| Lit (s : string)               (* literal text *)
| Plus (cls : ascii -> bool)     (* [...]+ *)
| Opt (r : regex)                (* (?:r)? *)
| Alt (r1 r2 : regex)            (* r1|r2 *)
| Seq (r1 r2 : regex)            (* r1r2 *)
| Group (r : regex).             (* (r), group 1 *)

Definition char_eq (ignorecase : bool) (a b : ascii) : bool :=
  if ignorecase then Ascii.eqb (Text.lower_char a) (Text.lower_char b)
  else Ascii.eqb a b.

(** Consume literal [l] at the head of [s]. *)
Fixpoint lit (ic : bool) (l s : string) : option string :=
  match l with
  | EmptyString => Some s
  | String a l' =>
      match s with
      | String b s' => if char_eq ic a b then lit ic l' s' else None
      | EmptyString => None
      end
  end.

Section Backtracking.
Context {X : Type}.

(** One or more characters of [cls], longest run first. *)
Fixpoint many1 (cls : ascii -> bool) (s : string)
         (k : string -> option X) : option X :=
  match s with
  | String c s' =>
      if cls c then
        match many1 cls s' k with
        | Some x => Some x
        | None => k s'
        end
      else None
  | EmptyString => None
  end.

(** [run ic r s cap k]: match [r] at the head of [s], then continue
    with [k] on the rest and the capture; [None] makes the matcher
    backtrack. *)
Fixpoint run (ic : bool) (r : regex) (s : string) (cap : option string)
         (k : string -> option string -> option X) : option X :=
  match r with
  | Lit l =>
      match lit ic l s with
      | Some s' => k s' cap
      | None => None
      end
  | Plus cls => many1 cls s (fun s' => k s' cap)
  | Opt r1 =>
      match run ic r1 s cap k with
      | Some x => Some x
      | None => k s cap
      end
  | Alt r1 r2 =>
      match run ic r1 s cap k with
      | Some x => Some x
      | None => run ic r2 s cap k
      end
  | Seq r1 r2 =>
      run ic r1 s cap (fun s' cap' => run ic r2 s' cap' k)
  | Group r1 =>
      run ic r1 s cap
          (fun s' _ =>
             k s' (Some (Text.take (String.length s - String.length s') s)))
  end.
End Backtracking.

(** [re.match]: the matched text and group 1, if [r] matches at the
    head of [s]. *)
Definition match_at (ic : bool) (r : regex) (s : string)
  : option (string * option string) :=
  run ic r s None
      (fun s' cap =>
         Some (Text.take (String.length s - String.length s') s, cap)).

(** [re.search(r, s, flags).group(1)]: leftmost match. *)
Fixpoint search (ic : bool) (r : regex) (s : string) : option (option string) :=
  match match_at ic r s with
  | Some (_, cap) => Some cap
  | None =>
      match s with
      | EmptyString => None
      | String _ s' => search ic r s'
      end
  end.

(** [re.findall(r, s)] for a pattern without groups: the successive
    non-overlapping matches, left to right. [skip] counts the
    characters of the last match still to step over. *)
Fixpoint findall_from (r : regex) (skip : nat) (s : string) : list string :=
  match skip with
  | S n =>
      match s with
      | String _ s' => findall_from r n s'
      | EmptyString => []
      end
  | O =>
      match match_at false r s with
      | Some (m, _) =>
          m :: match s with
               | String _ s' => findall_from r (Nat.pred (String.length m)) s'
               | EmptyString => []
               end
      | None =>
          match s with
          | String _ s' => findall_from r O s'
          | EmptyString => []
          end
      end
  end.

Definition findall (r : regex) (s : string) : list string :=
  findall_from r O s.

End Re.

(** ** Link classification ([ProfileScraper._extract_social_links]) *)

Module Links.
Import Re.

(** The attributes of a PyGithub [NamedUser] the scraper reads.
    [created_at] and [updated_at] hold the ISO text that
    [fetch_profile] derives with [isoformat()]. *)
Record NamedUser : Type := {
  login : string;
  name : option string;
  email : option string;
  bio : option string;
  location : option string;
  company : option string;
  blog : option string;
  twitter_username : option string;
  hireable : option bool;
  followers : Z;
  following : Z;
  public_repos : Z;
  public_gists : Z;
  created_at : option string;
  updated_at : option string;
  html_url : option string;
  avatar_url : option string
}.

(** The [social_links] dict: the ten platform keys in insertion order,
    each with its URL or [None], and the list under ['other_links']. *)
Record social_links : Type := {
  platforms : list (string * option string);
  other_links : list string
}.

Definition initial_links : social_links :=
  {| platforms :=
       [("twitter", None); ("linkedin", None); ("facebook", None);
        ("instagram", None); ("telegram", None); ("youtube", None);
        ("medium", None); ("dev_to", None); ("hashnode", None);
        ("stackoverflow", None)];
     other_links := [] |}.

(** [social_links[platform]] *)
Fixpoint dict_get (d : list (string * option string)) (key : string)
  : option string :=
  match d with
  | [] => None
  | (k, v) :: d' => if String.eqb k key then v else dict_get d' key
  end.

(** [social_links[platform] = v] for a key already in the dict. *)
Fixpoint dict_set (d : list (string * option string)) (key : string)
         (v : option string) : list (string * option string) :=
  match d with
  | [] => []
  | (k, w) :: d' =>
      if String.eqb k key then (k, v) :: d' else (k, w) :: dict_set d' key v
  end.

Definition set_platform (sl : social_links) (key : string) (v : option string)
  : social_links :=
  {| platforms := dict_set (platforms sl) key v;
     other_links := other_links sl |}.

(** Character classes of the patterns. *)
Definition is_char (ch : string) (c : ascii) : bool :=
  match ch with
  | String a EmptyString => Ascii.eqb a c
  | _ => false
  end.

Definition word (c : ascii) : bool := (Text.is_alnum c || is_char "_" c)%bool.
Definition alnum_dash (c : ascii) : bool := (Text.is_alnum c || is_char "-" c)%bool.
Definition alnum_dot (c : ascii) : bool := (Text.is_alnum c || is_char "." c)%bool.
Definition word_dot (c : ascii) : bool := (word c || is_char "." c)%bool.
Definition word_dash (c : ascii) : bool := (word c || is_char "-" c)%bool.

(** [\s] on ASCII. *)
Definition is_space (c : ascii) : bool :=
  (Text.in_range 9 13 c || Text.in_range 28 32 c)%bool.

(** The negated class of the URL pattern: anything but white space,
    angle brackets, the double quote (code 34), braces, the bar, the
    backslash, the caret, the backquote and square brackets. *)
Definition url_char (c : ascii) : bool :=
  negb (is_space c
        || is_char "<" c || is_char ">" c || Nat.eqb (Text.code c) 34
        || is_char "{" c || is_char "}" c || is_char "|" c || is_char "\" c
        || is_char "^" c || is_char "`" c || is_char "[" c || is_char "]" c)%bool.

(** [(?:https?://)?] and [(?:www\.)?] *)
Definition scheme : regex := Seq (Lit "http") (Seq (Opt (Lit "s")) (Lit "://")).
Definition opt_scheme : regex := Opt scheme.
Definition opt_www : regex := Opt (Lit "www.").

Definition seqs (rs : list regex) : regex :=
  fold_right Seq (Lit EmptyString) rs.

(** The [patterns] dict, in insertion order. *)
Definition patterns : list (string * regex) :=
  [("twitter",
     seqs [opt_scheme; opt_www; Alt (Lit "twitter.com") (Lit "x.com");
           Lit "/"; Group (Plus word)]);
   ("linkedin",
     seqs [opt_scheme; opt_www; Lit "linkedin.com/in/"; Group (Plus alnum_dash)]);
   ("facebook",
     seqs [opt_scheme; opt_www; Lit "facebook.com/"; Group (Plus alnum_dot)]);
   ("instagram",
     seqs [opt_scheme; opt_www; Lit "instagram.com/"; Group (Plus word_dot)]);
   ("telegram",
     seqs [opt_scheme; Alt (Lit "t.me") (Lit "telegram.me"); Lit "/";
           Group (Plus word)]);
   ("youtube",
     seqs [opt_scheme; opt_www; Lit "youtube.com/";
           Opt (Alt (Lit "c/") (Alt (Lit "channel/") (Lit "@")));
           Group (Plus word_dash)]);
   ("medium",
     seqs [opt_scheme; opt_www; Lit "medium.com/"; Opt (Lit "@");
           Group (Plus word_dash)]);
   ("dev_to",
     seqs [opt_scheme; opt_www; Lit "dev.to/"; Group (Plus word_dash)]);
   ("hashnode",
     seqs [opt_scheme; Group (Plus word_dash); Lit ".hashnode.dev"]);
   ("stackoverflow",
     seqs [opt_scheme; opt_www; Lit "stackoverflow.com/users/";
           Group (Plus Text.is_digit)])].

(** The [if]/[elif] chain that builds the canonical URL from group 1;
    [None] when no branch applies (the dict entry is left alone). *)
Definition canonical (platform g : string) : option string :=
  if String.eqb platform "twitter" then Some ("https://twitter.com/" ++ g)
  else if String.eqb platform "linkedin" then Some ("https://linkedin.com/in/" ++ g)
  else if String.eqb platform "facebook" then Some ("https://facebook.com/" ++ g)
  else if String.eqb platform "instagram" then Some ("https://instagram.com/" ++ g)
  else if String.eqb platform "telegram" then Some ("https://t.me/" ++ g)
  else if String.eqb platform "youtube" then Some ("https://youtube.com/@" ++ g)
  else if String.eqb platform "medium" then Some ("https://medium.com/@" ++ g)
  else if String.eqb platform "dev_to" then Some ("https://dev.to/" ++ g)
  else if String.eqb platform "hashnode" then Some ("https://" ++ g ++ ".hashnode.dev")
  else if String.eqb platform "stackoverflow"
       then Some ("https://stackoverflow.com/users/" ++ g)
  else None.

(** One turn of [for platform, pattern in patterns.items()]. *)
Definition classify_one (combined_text : string) (sl : social_links)
           (entry : string * regex) : social_links :=
  let '(platform, pattern) := entry in
  if Text.truthy (dict_get (platforms sl) platform) then sl
  else
    match search true pattern combined_text with
    | Some (Some g) =>
        match canonical platform g with
        | Some url => set_platform sl platform (Some url)
        | None => sl
        end
    | _ => sl
    end.

Definition url_pattern : regex := Seq (Lit "http") (Seq (Opt (Lit "s"))
                                  (Seq (Lit "://") (Plus url_char))).

Definition known_domains : list string :=
  ["twitter.com"; "x.com"; "linkedin.com"; "facebook.com";
   "instagram.com"; "t.me"; "telegram.me"; "youtube.com";
   "medium.com"; "dev.to"; "hashnode.dev"; "stackoverflow.com"].

(** One turn of [for url in all_urls]. *)
Definition collect_other (sl : social_links) (url : string) : social_links :=
  if existsb (fun domain => Text.contains domain (Text.lower url)) known_domains
  then sl
  else if Text.mem url (other_links sl) then sl
  else {| platforms := platforms sl;
          other_links := (other_links sl ++ [url])%list |}.

Definition _extract_social_links (user : NamedUser) : social_links :=
  let text_to_search :=
    ((if Text.truthy (bio user) then [default EmptyString (bio user)] else [])
     ++ (if Text.truthy (blog user) then [default EmptyString (blog user)] else []))%list in
  let social0 :=
    match twitter_username user with
    | Some t =>
        if Text.nonempty t
        then set_platform initial_links "twitter" (Some ("https://twitter.com/" ++ t))
        else initial_links
    | None => initial_links
    end in
  let combined_text := Text.join " " text_to_search in
  let social1 := fold_left (classify_one combined_text) patterns social0 in
  let all_urls := findall url_pattern combined_text in
  fold_left collect_other all_urls social1.

End Links.

(** ** [src/database/models.py] *)

Module Models.

Inductive EnrichmentStatus : Type :=
| INITIAL        (* Username collected *)
| PROCESSING     (* Currently being processed (claimed) *)
| PROFILED       (* GitHub profile fetched *)
| ENHANCED       (* Social media scraped *)
| FAILED.        (* Failed after max retries *)

#[global] Instance EnrichmentStatus_eq_dec : EqDecision EnrichmentStatus.
Proof. solve_decision. Defined.

Definition status_eqb (a b : EnrichmentStatus) : bool := bool_decide (a = b).

End Models.

(** ** [src/config/settings.py] *)

Module Settings.

Record ScraperConfig : Type := {
  TARGET_PROFILES : Z;
  BATCH_SIZE : Z;
  RATE_LIMIT_DELAY : Z;        (* seconds between requests *)
  TOKEN_ROTATION_DELAY : Z;    (* seconds to wait after rate limit *)
  MAX_RETRIES : nat;
  RETRY_DELAY : Z;             (* seconds *)
  EXPONENTIAL_BACKOFF : bool
}.

(** The dataclass defaults. *)
Definition defaults : ScraperConfig :=
  {| TARGET_PROFILES := 10000;
     BATCH_SIZE := 100;
     RATE_LIMIT_DELAY := 2;
     TOKEN_ROTATION_DELAY := 60;
     MAX_RETRIES := 3;
     RETRY_DELAY := 5;
     EXPONENTIAL_BACKOFF := true |}.

End Settings.

(** ** The profile dict handed from [fetch_profile] to [update_profile] *)

(** One entry of [top_repos]. *)
Module TopRepo.

Record top_repo : Type := {
  name : string;
  stars : Z;
  language : option string;
  url : option string;
  description : option string
}.

End TopRepo.

Module Profile.

Record profile : Type := {
  username : string;
  name : option string;
  email : option string;
  bio : option string;
  location : option string;
  company : option string;
  blog : option string;
  twitter_username : option string;
  hireable : option bool;
  followers : Z;
  following : Z;
  public_repos : Z;
  public_gists : Z;
  created_at : option string;
  updated_at : option string;
  profile_url : option string;
  avatar_url : option string;
  social_links : Links.social_links;
  top_repos : list TopRepo.top_repo
}.

End Profile.

(** ** [src/database/repository.py]: the store

    Timestamps are seconds on the server clock. [INTEGER] columns are
    integers of [Z]; whatever makes the server reject a statement (a
    value out of a column's range or length, a constraint, a lost
    connection) is a fault of that statement, see [execute]. One
    transaction runs at a time. *)

Module Database.
Import Models.

(** The profile columns of [developers], written together by
    [update_profile]. *)
Record profile_columns : Type := {
  name : option string;
  email : option string;
  bio : option string;
  location : option string;
  company : option string;
  blog : option string;
  twitter_username : option string;
  hireable : option bool;
  followers : option Z;
  following : option Z;
  public_repos : option Z;
  public_gists : option Z;
  profile_url : option string;
  avatar_url : option string;
  created_at : option Z;
  updated_at : option Z
}.

(** A row of [developers]. *)
Record developer : Type := {
  id : Z;
  username : string;
  enrichment_status : EnrichmentStatus;
  retry_count : Z;
  last_error : option string;
  processing_started_at : option Z;
  claimed_by : option string;
  columns : profile_columns;
  scraped_at : option Z;
  profiled_at : option Z;
  enhanced_at : option Z
}.

(** A row of [social_links]. A column name that [developers] has too
    carries the prefix of its table. *)
Record social_link : Type := {
  sl_id : Z;
  sl_developer_id : Z;
  platform : string;
  url : string;
  verified : bool;
  sl_scraped_at : option Z
}.

(** A row of [repositories]. *)
Record repository : Type := {
  repo_id : Z;
  repo_developer_id : Z;
  repo_name : string;
  stars : option Z;
  language : option string;
  repo_url : option string;
  description : option string;
  repo_order : Z
}.

(** The three tables, rows in insertion order. *)
Record tables : Type := {
  developers : list developer;
  social_links : list social_link;
  repositories : list repository
}.

(** The next value of each [SERIAL] sequence. Sequences are not
    transactional: a rollback does not give values back. *)
Record sequences : Type := {
  developers_id_seq : Z;
  social_links_id_seq : Z;
  repositories_id_seq : Z
}.

Record database : Type := {
  db_tables : tables;
  db_sequences : sequences
}.

Definition empty_tables : tables :=
  {| developers := []; social_links := []; repositories := [] |}.

Definition empty_database : database :=
  {| db_tables := empty_tables;
     db_sequences := {| developers_id_seq := 1;
                        social_links_id_seq := 1;
                        repositories_id_seq := 1 |} |}.

(** *** Statements, cursors and transactions *)

(** What one SQL statement does: its result set, the number of rows it
    affected, and the new tables and sequences. *)
Record stmt_result (A : Type) : Type := {
  rows : A;
  affected : Z;
  new_tables : tables;
  new_sequences : sequences
}.
Arguments rows {A} _.
Arguments affected {A} _.
Arguments new_tables {A} _.
Arguments new_sequences {A} _.

Definition statement (A : Type) : Type := tables -> sequences -> stmt_result A.

(** The state of an open transaction: the working tables, the
    sequences, the cursor's [rowcount] and the fault schedule.
    [fault = Some n] says that the calls to the server succeed [n]
    more times and the next one raises; [None] that none raises. *)
Record txstate : Type := {
  tx_tables : tables;
  tx_sequences : sequences;
  rowcount : Z;
  fault : option nat
}.

Inductive outcome (A : Type) : Type :=
| Done (a : A) (st : txstate)
| Raise (st : txstate).
Arguments Done {A} _ _.
Arguments Raise {A} _.

Definition tx (A : Type) : Type := txstate -> outcome A.

Definition ret {A} (a : A) : tx A := fun st => Done a st.

Definition bind {A B} (m : tx A) (f : A -> tx B) : tx B :=
  fun st =>
    match m st with
    | Done a st' => f a st'
    | Raise st' => Raise st'
    end.

Declare Scope tx_scope.
Delimit Scope tx_scope with tx.
Notation "'let!' x ':=' m 'in' k" := (bind m (fun x => k))
  (at level 10, x name, m at level 100, k at level 200) : tx_scope.
Notation "'do!' m 'in' k" := (bind m (fun _ => k))
  (at level 10, m at level 100, k at level 200) : tx_scope.

(** [cursor.execute(stmt)]: one call to the server. *)
Definition execute {A} (stmt : statement A) : tx A :=
  fun st =>
    let run (left : option nat) :=
      let r := stmt (tx_tables st) (tx_sequences st) in
      Done (rows r)
           {| tx_tables := new_tables r;
              tx_sequences := new_sequences r;
              rowcount := affected r;
              fault := left |} in
    match fault st with
    | Some O => Raise st
    | Some (S n) => run (Some n)
    | None => run None
    end.

(** [cursor.rowcount] *)
Definition cursor_rowcount : tx Z := fun st => Done (rowcount st) st.

(** What a repository method gives its caller. *)
Inductive result (A : Type) : Type :=
| Returned (a : A)
| Exception.
Arguments Returned {A} _.
Arguments Exception {A}.

(** [with self.get_cursor() as cursor: body]: a fresh cursor
    ([rowcount] is -1), the body, then [commit()]; anything raised, by
    the body or by the commit, is answered with [rollback()] and
    raised again. *)
Definition get_cursor {A} (body : tx A) (flt : option nat) (db : database)
  : result A * database :=
  let rollback (st : txstate) :=
    (Exception, {| db_tables := db_tables db; db_sequences := tx_sequences st |}) in
  match body {| tx_tables := db_tables db; tx_sequences := db_sequences db;
                rowcount := -1; fault := flt |} with
  | Done a st =>
      match fault st with
      | Some O => rollback st
      | _ => (Returned a, {| db_tables := tx_tables st;
                              db_sequences := tx_sequences st |})
      end
  | Raise st => rollback st
  end.

(** Statements joined by [;] and sent in one call: the cursor reports
    the last one. *)
Fixpoint joined (first : statement unit) (more : list (statement unit))
  : statement unit :=
  match more with
  | [] => first
  | next :: more' =>
      fun t s =>
        let r := first t s in
        joined next more' (new_tables r) (new_sequences r)
  end.

(** [psycopg2.extras._paginate] *)
Fixpoint paginate_fuel {A} (fuel : nat) (page_size : nat) (l : list A)
  : list (list A) :=
  match fuel with
  | O => []
  | S fuel' =>
      match l with
      | [] => []
      | _ => take page_size l :: paginate_fuel fuel' page_size (drop page_size l)
      end
  end.

Definition _paginate {A} (page_size : nat) (l : list A) : list (list A) :=
  paginate_fuel (length l) page_size l.

(** [psycopg2.extras.execute_batch(cur, sql, argslist, page_size)]:
    every page of at most [page_size] argument tuples becomes one
    multi-statement command. The library documents that afterwards
    [cursor.rowcount] is not a total: it is what the last statement of
    the last page reported. *)
Fixpoint execute_pages (pages : list (list (statement unit))) : tx unit :=
  match pages with
  | [] => ret tt
  | page :: pages' =>
      match page with
      | [] => execute_pages pages'
      | first :: more =>
          (do! execute (joined first more) in execute_pages pages')%tx
      end
  end.

Definition execute_batch {A} (sql : A -> statement unit) (argslist : list A)
           (page_size : nat) : tx unit :=
  execute_pages (_paginate page_size (map sql argslist)).

End Database.

(** ** [src/database/repository.py]: [DatabaseRepository]

    Every method takes the server time [now] of its transaction
    ([NOW()], [CURRENT_TIMESTAMP]) and the fault schedule of its calls
    to the server. *)

Module Repository.
Import Models Database.

(** [UPDATE developers SET ... WHERE cond RETURNING out] *)
Definition update_developers {A} (cond : developer -> bool)
           (set : developer -> developer) (out : developer -> A)
  : statement (list A) :=
  fun t s =>
    {| rows := map (fun d => out (set d)) (filter (fun d => cond d = true) (developers t));
       affected := Z.of_nat (length (filter (fun d => cond d = true) (developers t)));
       new_tables :=
         {| developers := map (fun d => if cond d then set d else d) (developers t);
            social_links := social_links t;
            repositories := repositories t |};
       new_sequences := s |}.

(** [cursor.fetchone()] on a result set. *)
Definition fetchone {A} (rs : list A) : option A := head rs.

(** The bookkeeping columns of a row, rewritten. *)
Definition with_bookkeeping (d : developer) (status : EnrichmentStatus)
           (retries : Z) (error : option string)
           (started : option Z) (owner : option string) : developer :=
  {| id := id d;
     username := username d;
     enrichment_status := status;
     retry_count := retries;
     last_error := error;
     processing_started_at := started;
     claimed_by := owner;
     columns := columns d;
     scraped_at := scraped_at d;
     profiled_at := profiled_at d;
     enhanced_at := enhanced_at d |}.

(** *** Username operations *)

Definition no_profile : profile_columns :=
  {| name := None; email := None; bio := None; location := None;
     company := None; blog := None; twitter_username := None;
     hireable := None;
     followers := Some 0; following := Some 0;
     public_repos := Some 0; public_gists := Some 0;
     profile_url := None; avatar_url := None;
     created_at := None; updated_at := None |}.

(** The row that [INSERT INTO developers (username, enrichment_status)
    VALUES (u, 'INITIAL')] creates, with the column defaults. *)
Definition new_developer (new_id : Z) (u : string) (now : Z) : developer :=
  {| id := new_id;
     username := u;
     enrichment_status := INITIAL;
     retry_count := 0;
     last_error := None;
     processing_started_at := None;
     claimed_by := None;
     columns := no_profile;
     scraped_at := Some now;
     profiled_at := None;
     enhanced_at := None |}.

Definition has_username (u : string) (d : developer) : bool :=
  String.eqb (username d) u.

Definition next_developer_id (s : sequences) : sequences :=
  {| developers_id_seq := developers_id_seq s + 1;
     social_links_id_seq := social_links_id_seq s;
     repositories_id_seq := repositories_id_seq s |}.

(** [INSERT INTO developers ... ON CONFLICT (username) DO NOTHING]:
    the sequence value is drawn before the conflict is seen. *)
Definition insert_username (now : Z) (u : string) : statement unit :=
  fun t s =>
    if existsb (has_username u) (developers t) then
      {| rows := tt; affected := 0;
         new_tables := t; new_sequences := next_developer_id s |}
    else
      {| rows := tt; affected := 1;
         new_tables :=
           {| developers := developers t ++ [new_developer (developers_id_seq s) u now];
              social_links := social_links t;
              repositories := repositories t |};
         new_sequences := next_developer_id s |}.

Definition insert_usernames_batch_tx (now : Z) (usernames : list string) : tx Z :=
  (do! execute_batch (insert_username now) usernames 100 in
   cursor_rowcount)%tx.

Definition insert_usernames_batch (now : Z) (usernames : list string)
  : option nat -> database -> result Z * database :=
  get_cursor (insert_usernames_batch_tx now usernames).

(** [SELECT COUNT( * ) FROM developers WHERE enrichment_status = status] *)
Definition count_by_status (status : EnrichmentStatus) : statement Z :=
  fun t s =>
    {| rows := Z.of_nat (length (filter (fun d => enrichment_status d = status)
                                        (developers t)));
       affected := 1; new_tables := t; new_sequences := s |}.

Definition get_username_count_by_status (status : EnrichmentStatus)
  : option nat -> database -> result Z * database :=
  get_cursor (execute (count_by_status status)).

(** *** Claiming *)

(** [processing_started_at < NOW() - INTERVAL 'timeout_minutes minutes'];
    a comparison with [NULL] is not true. *)
Definition older_than (started : option Z) (now timeout_minutes : Z) : bool :=
  match started with
  | Some t => t <? now - 60 * timeout_minutes
  | None => false
  end.

Definition is_stale (now timeout_minutes : Z) (d : developer) : bool :=
  status_eqb (enrichment_status d) PROCESSING
  && older_than (processing_started_at d) now timeout_minutes.

(** Step 1: release stale claims. *)
Definition release_stale (from_status : EnrichmentStatus)
           (now timeout_minutes : Z) : statement (list unit) :=
  update_developers
    (is_stale now timeout_minutes)
    (fun d => with_bookkeeping d from_status (retry_count d) (last_error d) None None)
    (fun _ => tt).

(** [ORDER BY id] *)
Fixpoint insert_by_id (d : developer) (sorted : list developer) : list developer :=
  match sorted with
  | [] => [d]
  | e :: rest => if id d <=? id e then d :: e :: rest
                 else e :: insert_by_id d rest
  end.

Definition order_by_id (l : list developer) : list developer :=
  fold_right insert_by_id [] l.

(** [SELECT id FROM developers WHERE enrichment_status = from_status
     ORDER BY id LIMIT limit FOR UPDATE SKIP LOCKED]; no other
    transaction is open, so no row is locked. *)
Definition select_claimable (from_status : EnrichmentStatus) (limit : nat)
           (t : tables) : list Z :=
  map id (take limit
               (order_by_id
                  (filter (fun d => enrichment_status d = from_status)
                          (developers t)))).

Definition id_in (ids : list Z) (d : developer) : bool :=
  existsb (Z.eqb (id d)) ids.

(** Step 2: claim a batch. *)
Definition claim_rows (from_status : EnrichmentStatus) (limit : nat)
           (instance_id : string) (now : Z) : statement (list string) :=
  fun t s =>
    update_developers
      (id_in (select_claimable from_status limit t))
      (fun d => with_bookkeeping d PROCESSING (retry_count d) (last_error d)
                                 (Some now) (Some instance_id))
      username t s.

Definition claim_batch_for_processing_tx (from_status : EnrichmentStatus)
           (limit : nat) (instance_id : string) (timeout_minutes : Z)
           (now : Z) : tx (list string) :=
  (do! execute (release_stale from_status now timeout_minutes) in
   let! stale_released := cursor_rowcount in
   let! claimed := execute (claim_rows from_status limit instance_id now) in
   ret claimed)%tx.

Definition claim_batch_for_processing (from_status : EnrichmentStatus)
           (limit : nat) (instance_id : string) (timeout_minutes : Z)
           (now : Z) : option nat -> database -> result (list string) * database :=
  get_cursor (claim_batch_for_processing_tx from_status limit instance_id
                                            timeout_minutes now).

(** *** Error handling *)

Definition mark_failed_stmt (uname error_message : string) : statement (list unit) :=
  update_developers
    (has_username uname)
    (fun d => with_bookkeeping d FAILED (retry_count d + 1) (Some error_message)
                               None None)
    (fun _ => tt).

Definition mark_as_failed (uname error_message : string)
  : option nat -> database -> result unit * database :=
  get_cursor (do! execute (mark_failed_stmt uname error_message) in ret tt)%tx.

Definition increment_retry_stmt (uname error_message : string)
           (back_to_status : EnrichmentStatus) : statement (list Z) :=
  update_developers
    (has_username uname)
    (fun d => with_bookkeeping d back_to_status (retry_count d + 1)
                               (Some error_message) None None)
    retry_count.

Definition increment_retry_count (uname error_message : string)
           (back_to_status : EnrichmentStatus)
  : option nat -> database -> result Z * database :=
  get_cursor
    (let! rs := execute (increment_retry_stmt uname error_message back_to_status) in
     ret (match fetchone rs with Some n => n | None => 0 end))%tx.

(** *** Profile operations *)

Section UpdateProfile.

(** [datetime.fromisoformat], [None] when it raises [ValueError]. *)
Variable fromisoformat : string -> option Z.

(** [dt_string.replace('Z', '+00:00')] *)
Fixpoint replace_Z (s : string) : string :=
  match s with
  | EmptyString => EmptyString
  | String c s' =>
      if Ascii.eqb c "Z"%char then "+00:00" ++ replace_Z s'
      else String c (replace_Z s')
  end.

Definition _parse_datetime (dt_string : option string) : option Z :=
  match dt_string with
  | Some s => if Text.nonempty s then fromisoformat (replace_Z s) else None
  | None => None
  end.

(** The [SET] list of the [UPDATE] in [update_profile]. *)
Definition set_profile (p : Profile.profile) (now : Z) (d : developer)
  : developer :=
  {| id := id d;
     username := username d;
     enrichment_status := PROFILED;
     retry_count := 0;
     last_error := None;
     processing_started_at := None;
     claimed_by := None;
     columns :=
       {| name := Profile.name p;
          email := Profile.email p;
          bio := Profile.bio p;
          location := Profile.location p;
          company := Profile.company p;
          blog := Profile.blog p;
          twitter_username := Profile.twitter_username p;
          hireable := Profile.hireable p;
          followers := Some (Profile.followers p);
          following := Some (Profile.following p);
          public_repos := Some (Profile.public_repos p);
          public_gists := Some (Profile.public_gists p);
          profile_url := Profile.profile_url p;
          avatar_url := Profile.avatar_url p;
          created_at := _parse_datetime (Profile.created_at p);
          updated_at := _parse_datetime (Profile.updated_at p) |};
     scraped_at := scraped_at d;
     profiled_at := Some now;
     enhanced_at := enhanced_at d |}.

Definition update_profile_stmt (p : Profile.profile) (now : Z)
  : statement (list Z) :=
  update_developers (has_username (Profile.username p)) (set_profile p now) id.

(** [INSERT INTO social_links ... ON CONFLICT (developer_id, platform)
    DO UPDATE SET url = EXCLUDED.url] *)
Definition same_link (developer_id : Z) (plat : string) (l : social_link) : bool :=
  (sl_developer_id l =? developer_id) && String.eqb (platform l) plat.

Definition set_url (new_url : string) (l : social_link) : social_link :=
  {| sl_id := sl_id l; sl_developer_id := sl_developer_id l;
     platform := platform l; url := new_url;
     verified := verified l; sl_scraped_at := sl_scraped_at l |}.

Definition next_social_link_id (s : sequences) : sequences :=
  {| developers_id_seq := developers_id_seq s;
     social_links_id_seq := social_links_id_seq s + 1;
     repositories_id_seq := repositories_id_seq s |}.

Definition upsert_social_link (now : Z) (row : Z * string * string)
  : statement unit :=
  let '(developer_id, plat, new_url) := row in
  fun t s =>
    {| rows := tt; affected := 1;
       new_tables :=
         {| developers := developers t;
            social_links :=
              if existsb (same_link developer_id plat) (social_links t)
              then map (fun l => if same_link developer_id plat l
                                 then set_url new_url l else l)
                       (social_links t)
              else social_links t ++
                   [{| sl_id := social_links_id_seq s;
                       sl_developer_id := developer_id;
                       platform := plat; url := new_url;
                       verified := false; sl_scraped_at := Some now |}];
            repositories := repositories t |};
       new_sequences := next_social_link_id s |}.

(** [str(n)] for a count. *)
Definition str_of_nat (n : nat) : string :=
  NilEmpty.string_of_uint (Nat.to_uint n).

(** [enumerate(l)] *)
Definition enumerate {A} (l : list A) : list (nat * A) :=
  combine (seq 0 (length l)) l.

(** The [social_data] list of [_insert_social_links]. *)
Definition social_data (developer_id : Z) (sl : Links.social_links)
  : list (Z * string * string) :=
  omap (fun '(plat, u) =>
          match u with
          | Some u' =>
              if Text.nonempty u' && negb (String.eqb plat "other_links")
              then Some (developer_id, plat, u') else None
          | None => None
          end)
       (Links.platforms sl)
  ++ map (fun '(idx, u) => (developer_id, "other_" ++ str_of_nat (idx + 1), u))
         (enumerate (Links.other_links sl)).

Definition _insert_social_links (now : Z) (developer_id : Z)
           (sl : Links.social_links) : tx unit :=
  match social_data developer_id sl with
  | [] => ret tt
  | data => execute_batch (upsert_social_link now) data 50
  end.

(** [INSERT INTO repositories ... ON CONFLICT (developer_id, name)
    DO UPDATE SET stars, language, url, description, repo_order] *)
Definition same_repo (developer_id : Z) (nm : string) (r : repository) : bool :=
  (repo_developer_id r =? developer_id) && String.eqb (repo_name r) nm.

Definition repo_row (rid developer_id : Z) (idx : nat) (r : TopRepo.top_repo)
  : repository :=
  {| repo_id := rid;
     repo_developer_id := developer_id;
     repo_name := TopRepo.name r;
     stars := Some (TopRepo.stars r);
     language := TopRepo.language r;
     repo_url := TopRepo.url r;
     description := TopRepo.description r;
     repo_order := Z.of_nat idx |}.

Definition next_repository_id (s : sequences) : sequences :=
  {| developers_id_seq := developers_id_seq s;
     social_links_id_seq := social_links_id_seq s;
     repositories_id_seq := repositories_id_seq s + 1 |}.

Definition upsert_repository (developer_id : Z) (row : nat * TopRepo.top_repo)
  : statement unit :=
  let '(idx, r) := row in
  fun t s =>
    {| rows := tt; affected := 1;
       new_tables :=
         {| developers := developers t;
            social_links := social_links t;
            repositories :=
              if existsb (same_repo developer_id (TopRepo.name r)) (repositories t)
              then map (fun old => if same_repo developer_id (TopRepo.name r) old
                                   then repo_row (repo_id old) developer_id idx r
                                   else old)
                       (repositories t)
              else repositories t ++
                   [repo_row (repositories_id_seq s) developer_id idx r] |};
       new_sequences := next_repository_id s |}.

Definition _insert_repositories (developer_id : Z)
           (repos : list TopRepo.top_repo) : tx unit :=
  match enumerate repos with
  | [] => ret tt
  | data => execute_batch (upsert_repository developer_id) data 50
  end.

Definition update_profile_tx (p : Profile.profile) (now : Z) : tx (option Z) :=
  (let! rs := execute (update_profile_stmt p now) in
   match fetchone rs with
   | Some developer_id =>
       do! _insert_social_links now developer_id (Profile.social_links p) in
       do! _insert_repositories developer_id (Profile.top_repos p) in
       ret (Some developer_id)
   | None => ret None
   end)%tx.

Definition update_profile (p : Profile.profile) (now : Z)
  : option nat -> database -> result (option Z) * database :=
  get_cursor (update_profile_tx p now).

End UpdateProfile.

End Repository.

(** ** [src/utils/metrics.py] *)

Module Metrics.

Record ScraperMetrics : Type := {
  total_processed : Z;
  total_success : Z;
  total_failed : Z;
  total_retries : Z;
  rate_limit_hits : Z
}.

Definition fresh : ScraperMetrics :=
  {| total_processed := 0; total_success := 0; total_failed := 0;
     total_retries := 0; rate_limit_hits := 0 |}.

(** [MetricsCollector]: the [metrics] dict and the [enabled] flag. *)
Record MetricsCollector : Type := {
  enabled : bool;
  username_scraper : ScraperMetrics;
  profile_scraper : ScraperMetrics;
  social_scraper : ScraperMetrics
}.

(** The [if]/[elif] chain on the metric name. *)
Definition bump (m : ScraperMetrics) (metric : string) (value : Z)
  : ScraperMetrics :=
  if String.eqb metric "processed" then
    {| total_processed := total_processed m + value;
       total_success := total_success m; total_failed := total_failed m;
       total_retries := total_retries m; rate_limit_hits := rate_limit_hits m |}
  else if String.eqb metric "success" then
    {| total_processed := total_processed m;
       total_success := total_success m + value; total_failed := total_failed m;
       total_retries := total_retries m; rate_limit_hits := rate_limit_hits m |}
  else if String.eqb metric "failed" then
    {| total_processed := total_processed m;
       total_success := total_success m; total_failed := total_failed m + value;
       total_retries := total_retries m; rate_limit_hits := rate_limit_hits m |}
  else if String.eqb metric "retries" then
    {| total_processed := total_processed m;
       total_success := total_success m; total_failed := total_failed m;
       total_retries := total_retries m + value; rate_limit_hits := rate_limit_hits m |}
  else if String.eqb metric "rate_limit" then
    {| total_processed := total_processed m;
       total_success := total_success m; total_failed := total_failed m;
       total_retries := total_retries m; rate_limit_hits := rate_limit_hits m + value |}
  else m.

Definition increment (c : MetricsCollector) (scraper metric : string)
           (value : Z) : MetricsCollector :=
  if negb (enabled c) then c
  else if String.eqb scraper "username_scraper" then
    {| enabled := enabled c;
       username_scraper := bump (username_scraper c) metric value;
       profile_scraper := profile_scraper c;
       social_scraper := social_scraper c |}
  else if String.eqb scraper "profile_scraper" then
    {| enabled := enabled c;
       username_scraper := username_scraper c;
       profile_scraper := bump (profile_scraper c) metric value;
       social_scraper := social_scraper c |}
  else if String.eqb scraper "social_scraper" then
    {| enabled := enabled c;
       username_scraper := username_scraper c;
       profile_scraper := profile_scraper c;
       social_scraper := bump (social_scraper c) metric value |}
  else c.

End Metrics.

(** ** [src/utils/github_client.py] *)

Module GitHubClient.

Record GitHubClientManager : Type := {
  tokens : list string;
  current_token_index : nat
}.

Definition rotate_token (m : GitHubClientManager) : GitHubClientManager :=
  {| tokens := tokens m;
     current_token_index :=
       Nat.modulo (current_token_index m + 1) (length (tokens m)) |}.

End GitHubClient.

(** ** [src/scrapers/profile_scraper.py]: fetching and the per-item loop *)

Module ProfileScraper.
Import Models Database.

(** The exceptions the [try] of [fetch_profile] tells apart: its first
    [except] clause names [RateLimitExceededException], the second
    takes every other [Exception], the 404 of a deleted account
    ([UnknownObjectException]) included. *)
Inductive exception_class : Type :=
| RateLimitExceededException
| UnknownObjectException
| OtherException.

(** What the remote API does with one attempt: the user and the
    [get_repos] listing (an entry is [None] when reading that
    repository raises), or an exception with its text. *)
Inductive attempt : Type :=
| Fetched (user : Links.NamedUser) (repos : list (option TopRepo.top_repo))
| Raises (e : exception_class) (text : string).

(** The state of one worker instance and of the store it talks to. *)
Record world : Type := {
  db : database;
  metrics : Metrics.MetricsCollector;
  github_client : GitHubClient.GitHubClientManager;
  clock : Z;              (* seconds; [time.sleep] advances it *)
  slept : list Z;         (* the [time.sleep] calls so far, in order *)
  api_calls : nat;        (* attempts sent to the remote API *)
  transactions : nat      (* transactions opened on the store *)
}.

Definition set_db (w : world) (d : database) : world :=
  {| db := d; metrics := metrics w; github_client := github_client w;
     clock := clock w; slept := slept w; api_calls := api_calls w;
     transactions := S (transactions w) |}.

Definition metrics_increment (metric : string) (w : world) : world :=
  {| db := db w;
     metrics := Metrics.increment (metrics w) "profile_scraper" metric 1;
     github_client := github_client w;
     clock := clock w; slept := slept w; api_calls := api_calls w;
     transactions := transactions w |}.

(** [time.sleep(seconds)] *)
Definition sleep (seconds : Z) (w : world) : world :=
  {| db := db w; metrics := metrics w; github_client := github_client w;
     clock := clock w + seconds; slept := (slept w ++ [seconds])%list;
     api_calls := api_calls w; transactions := transactions w |}.

Definition count_api_call (w : world) : world :=
  {| db := db w; metrics := metrics w; github_client := github_client w;
     clock := clock w; slept := slept w; api_calls := S (api_calls w);
     transactions := transactions w |}.

Section Scraper.

Variable config : Settings.ScraperConfig.
(** [self.instance_id] *)
Variable instance_id : string.
(** [datetime.fromisoformat] *)
Variable fromisoformat : string -> option Z.
(** The remote API: the answer to the [k]-th attempt of this worker. *)
Variable github : string -> nat -> attempt.
(** The fault schedule of the [k]-th transaction of this worker, and
    the text of the exception a faulty store raises. *)
Variable faults : nat -> option nat.
Variable store_error : string.

(** [GitHubClientManager.handle_rate_limit] *)
Definition handle_rate_limit (w : world) : world :=
  sleep (Settings.TOKEN_ROTATION_DELAY config)
        {| db := db w; metrics := metrics w;
           github_client := GitHubClient.rotate_token (github_client w);
           clock := clock w; slept := slept w; api_calls := api_calls w;
           transactions := transactions w |}.

(** A repository method called by the worker. *)
Definition call_db {A} (method : Z -> option nat -> database -> result A * database)
           (w : world) : result A * world :=
  let '(r, d) := method (clock w) (faults (transactions w)) (db w) in
  (r, set_db w d).

(** The profile dict built at the end of the [try] block. *)
Definition build_profile (user : Links.NamedUser)
           (repos : list (option TopRepo.top_repo)) : Profile.profile :=
  {| Profile.username := Links.login user;
     Profile.name := Links.name user;
     Profile.email := Links.email user;
     Profile.bio := Links.bio user;
     Profile.location := Links.location user;
     Profile.company := Links.company user;
     Profile.blog := Links.blog user;
     Profile.twitter_username := Links.twitter_username user;
     Profile.hireable := Links.hireable user;
     Profile.followers := Links.followers user;
     Profile.following := Links.following user;
     Profile.public_repos := Links.public_repos user;
     Profile.public_gists := Links.public_gists user;
     Profile.created_at := Links.created_at user;
     Profile.updated_at := Links.updated_at user;
     Profile.profile_url := Links.html_url user;
     Profile.avatar_url := Links.avatar_url user;
     Profile.social_links := Links._extract_social_links user;
     Profile.top_repos := omap (fun r => r) (take 5 repos) |}.

(** [RETRY_DELAY * (2 ** attempt if EXPONENTIAL_BACKOFF else 1)] *)
Definition backoff_delay (attempt_no : nat) : Z :=
  Settings.RETRY_DELAY config
  * (if Settings.EXPONENTIAL_BACKOFF config then 2 ^ Z.of_nat attempt_no else 1).

(** [for attempt in range(MAX_RETRIES)], at turn [attempt_no] with
    [remaining] turns left, this one included. Falling out of the
    loop reaches the final [return None]. *)
Fixpoint fetch_profile_from (remaining attempt_no : nat) (uname : string)
         (w : world) : result (option Profile.profile) * world :=
  match remaining with
  | O => (Returned None, w)
  | S remaining' =>
      match github uname (api_calls w) with
      | Fetched user repos =>
          (Returned (Some (build_profile user repos)), count_api_call w)
      | Raises RateLimitExceededException _ =>
          let w1 := metrics_increment "rate_limit" (count_api_call w) in
          let w2 := handle_rate_limit w1 in
          let w3 := metrics_increment "retries" w2 in
          fetch_profile_from remaining' (S attempt_no) uname w3
      | Raises _ text =>
          let w1 := metrics_increment "retries" (count_api_call w) in
          if Z.of_nat attempt_no <? Z.of_nat (Settings.MAX_RETRIES config) - 1 then
            fetch_profile_from remaining' (S attempt_no) uname
                               (sleep (backoff_delay attempt_no) w1)
          else
            match call_db (fun _ => Repository.mark_as_failed uname text) w1 with
            | (Returned _, w2) => (Returned None, w2)
            | (Exception, w2) => (Exception, w2)
            end
      end
  end.

Definition fetch_profile (uname : string) (w : world)
  : result (option Profile.profile) * world :=
  fetch_profile_from (Settings.MAX_RETRIES config) 0 uname w.

(** The [except Exception] handler of the loop body in
    [scrape_profiles]; an exception of [increment_retry_count]
    itself leaves the loop. *)
Definition on_error (uname : string) (processed : Z) (w : world)
  : result Z * world :=
  let w1 := metrics_increment "failed" w in
  match call_db (fun _ => Repository.increment_retry_count
                            uname store_error INITIAL) w1 with
  | (Returned _, w2) => (Returned processed, w2)
  | (Exception, w2) => (Exception, w2)
  end.

(** The body of [for username in claimed_usernames]; [processed] is
    the local counter. *)
Definition process_username (uname : string) (processed : Z) (w : world)
  : result Z * world :=
  let w0 := metrics_increment "processed" w in
  match fetch_profile uname w0 with
  | (Exception, w1) => on_error uname processed w1
  | (Returned None, w1) =>
      let w2 := metrics_increment "failed" w1 in
      (Returned processed, sleep (Settings.RATE_LIMIT_DELAY config) w2)
  | (Returned (Some profile), w1) =>
      match call_db (Repository.update_profile fromisoformat profile) w1 with
      | (Exception, w2) => on_error uname processed w2
      | (Returned None, w2) =>
          (Returned processed, sleep (Settings.RATE_LIMIT_DELAY config) w2)
      | (Returned (Some developer_id), w2) =>
          if developer_id =? 0 then
            (Returned processed, sleep (Settings.RATE_LIMIT_DELAY config) w2)
          else
            let w3 := metrics_increment "success" w2 in
            match call_db (fun _ => Repository.get_username_count_by_status PROFILED)
                          w3 with
            | (Exception, w4) => on_error uname (processed + 1) w4
            | (Returned _, w4) =>
                (Returned (processed + 1),
                 sleep (Settings.RATE_LIMIT_DELAY config) w4)
            end
      end
  end.

(** [for username in claimed_usernames: ...] *)
Fixpoint process_batch (claimed : list string) (processed : Z) (w : world)
  : result Z * world :=
  match claimed with
  | [] => (Returned processed, w)
  | uname :: rest =>
      match process_username uname processed w with
      | (Returned processed', w') => process_batch rest processed' w'
      | (Exception, w') => (Exception, w')
      end
  end.

(** The claim at the head of one turn of the [while True] loop. *)
Definition claim (w : world) : result (list string) * world :=
  call_db (Repository.claim_batch_for_processing INITIAL 50 instance_id 30) w.

End Scraper.

End ProfileScraper.

(** ** [src/database/repository.py]: the read methods *)

Module Queries.
Import Models Database Repository.

(** A statement the server rejects outright. *)
Definition raise {A} : tx A := fun st => Raise st.

(** [SELECT username FROM developers WHERE enrichment_status = status],
    with [LIMIT n] appended when [limit] is given. No [ORDER BY]: the
    server is free in the order, the rows come here in table order. *)
Definition select_usernames (status : EnrichmentStatus) (limit : option nat)
  : statement (list string) :=
  fun t s =>
    let matching :=
      map username (filter (fun d => enrichment_status d = status) (developers t)) in
    let selected := match limit with
                    | Some n => take n matching
                    | None => matching
                    end in
    {| rows := selected; affected := Z.of_nat (length selected);
       new_tables := t; new_sequences := s |}.

(** [get_usernames_by_status(status, limit)]. [if limit:] drops a
    limit of [None] and of 0 alike; a negative [LIMIT] is refused by
    the server. *)
Definition get_usernames_by_status (status : EnrichmentStatus) (limit : option Z)
  : option nat -> database -> result (list string) * database :=
  get_cursor
    (match limit with
     | None => execute (select_usernames status None)
     | Some n =>
         if n =? 0 then execute (select_usernames status None)
         else if n <? 0 then raise
         else execute (select_usernames status (Some (Z.to_nat n)))
     end).

(** [EnrichmentStatus.value] *)
Definition status_value (status : EnrichmentStatus) : string :=
  match status with
  | INITIAL => "INITIAL"
  | PROCESSING => "PROCESSING"
  | PROFILED => "PROFILED"
  | ENHANCED => "ENHANCED"
  | FAILED => "FAILED"
  end.

Definition all_statuses : list EnrichmentStatus :=
  [INITIAL; PROCESSING; PROFILED; ENHANCED; FAILED].

Definition count_status (status : EnrichmentStatus) (t : tables) : Z :=
  Z.of_nat (length (filter (fun d => enrichment_status d = status) (developers t))).

(** A query that changes nothing. *)
Definition query {A} (answer : tables -> A) : statement A :=
  fun t s => {| rows := answer t; affected := 1; new_tables := t; new_sequences := s |}.

(** [SELECT enrichment_status, COUNT( * ) FROM developers GROUP BY
    enrichment_status]: one row per status that occurs. *)
Definition group_by_status (t : tables) : list (EnrichmentStatus * Z) :=
  omap (fun status =>
          if 0 <? count_status status t then Some (status, count_status status t)
          else None)
       all_statuses.

(** [COUNT( * ) ... WHERE email IS NOT NULL] *)
Definition count_with_email (t : tables) : Z :=
  Z.of_nat (length (filter (fun d => is_Some (email (columns d))) (developers t))).

(** [COUNT(DISTINCT developer_id) FROM social_links] *)
Definition count_with_social (t : tables) : Z :=
  Z.of_nat (length (remove_dups (map sl_developer_id (social_links t)))).

(** A [numeric] cast to [INTEGER]: to the nearest, a half away from
    zero. [num / den] with [0 < den]. *)
Definition round_div (num den : Z) : Z :=
  if 0 <=? num then (2 * num + den) / (2 * den)
  else - ((2 * (- num) + den) / (2 * den)).

(** [AVG(col)::INTEGER] over the rows that are PROFILED or ENHANCED;
    [NULL]s are skipped, and no value at all gives [NULL]. *)
Definition avg_integer (col : developer -> option Z) (t : tables) : option Z :=
  let values :=
    omap col (filter (fun d => enrichment_status d = PROFILED
                               \/ enrichment_status d = ENHANCED)
                     (developers t)) in
  match values with
  | [] => None
  | _ => Some (round_div (foldr Z.add 0 values) (Z.of_nat (length values)))
  end.

(** [x or 0] *)
Definition or_zero (x : option Z) : Z :=
  match x with Some v => v | None => 0 end.

(** The [stats] dict of [get_stats], filled query by query. *)
Definition get_stats_tx : tx (gmap string Z) :=
  (let! groups := execute (query group_by_status) in
   let stats0 : gmap string Z :=
     foldl (fun stats '(status, n) =>
              <[ ("status_" ++ Text.lower (status_value status))%string := n ]> stats)
           ∅ groups in
   let! total := execute (query (fun t => Z.of_nat (length (developers t)))) in
   let stats1 := <[ "total_developers"%string := total ]> stats0 in
   let! with_email := execute (query count_with_email) in
   let stats2 := <[ "developers_with_email"%string := with_email ]> stats1 in
   let! with_social := execute (query count_with_social) in
   let stats3 := <[ "developers_with_social"%string := with_social ]> stats2 in
   let! avg_followers := execute (query (avg_integer (fun d => followers (columns d)))) in
   let stats4 := <[ "avg_followers"%string := or_zero avg_followers ]> stats3 in
   let! avg_repos := execute (query (avg_integer (fun d => public_repos (columns d)))) in
   let stats5 := <[ "avg_repos"%string := or_zero avg_repos ]> stats4 in
   let! failed := execute (query (count_status FAILED)) in
   ret (<[ "failed_count"%string := failed ]> stats5))%tx.

Definition get_stats : option nat -> database -> result (gmap string Z) * database :=
  get_cursor get_stats_tx.

(** [stats.get(key, 0)] *)
Definition stats_get (stats : gmap string Z) (key : string) : Z :=
  default 0 (stats !! key).

End Queries.

(** ** [src/database/repository.py]: connecting and retrying *)

Module Connection.
Import Models Database.

(** A [DatabaseRepository] with its connection: whether [self.conn] is
    set, the store behind it, the sleeps so far, and how many times the
    server was asked for a connection and for a transaction. *)
Record session : Type := {
  connected : bool;
  store : database;
  slept : list Z;
  connect_calls : nat;
  transactions : nat
}.

Section Retry.

Variable config : Settings.ScraperConfig.
(** Whether the server accepts the [k]-th request for a connection. *)
Variable accepts : nat -> bool.
(** The fault schedule of the [k]-th transaction, and whether the
    connection is found closed after it failed. *)
Variable faults : nat -> option nat.
Variable closed_after : nat -> bool.

(** [self.retry_delay * (2 ** attempt if EXPONENTIAL_BACKOFF else 1)] *)
Definition retry_sleep (attempt_no : nat) : Z :=
  Settings.RETRY_DELAY config
  * (if Settings.EXPONENTIAL_BACKOFF config then 2 ^ Z.of_nat attempt_no else 1).

Definition sleep (seconds : Z) (s : session) : session :=
  {| connected := connected s; store := store s;
     slept := (slept s ++ [seconds])%list;
     connect_calls := connect_calls s; transactions := transactions s |}.

Definition count_connect (ok : bool) (s : session) : session :=
  {| connected := if ok then true else connected s; store := store s;
     slept := slept s; connect_calls := S (connect_calls s);
     transactions := transactions s |}.

(** [connect]: [for attempt in range(self.max_retries)]. *)
Fixpoint connect_from (remaining attempt_no : nat) (s : session)
  : result unit * session :=
  match remaining with
  | O => (Returned tt, s)
  | S remaining' =>
      if accepts (connect_calls s) then (Returned tt, count_connect true s)
      else
        let s1 := count_connect false s in
        if Z.of_nat attempt_no <? Z.of_nat (Settings.MAX_RETRIES config) - 1
        then connect_from remaining' (S attempt_no) (sleep (retry_sleep attempt_no) s1)
        else (Exception, s1)
  end.

Definition connect (s : session) : result unit * session :=
  connect_from (Settings.MAX_RETRIES config) 0 s.

(** One [with self.get_cursor() as cursor: cursor.execute(query)] of
    [execute_with_retry]; the value is [cursor.fetchall()] when [fetch]
    is set and [cursor.rowcount] otherwise. *)
Definition attempt_tx {A} (stmt : statement A) (fetch : bool) : tx (A + Z) :=
  (let! rs := execute stmt in
   if fetch then ret (inl rs)
   else let! n := cursor_rowcount in ret (inr n))%tx.

Definition run_attempt {A} (stmt : statement A) (fetch : bool) (s : session)
  : result (A + Z) * session :=
  let '(r, d) := get_cursor (attempt_tx stmt fetch) (faults (transactions s)) (store s) in
  (r, {| connected := connected s; store := d; slept := slept s;
         connect_calls := connect_calls s; transactions := S (transactions s) |}).

(** [execute_with_retry]. A failed attempt that is not the last sleeps
    and, if the connection is found closed, connects again; an exception
    of that [connect] leaves the method. *)
Fixpoint execute_with_retry_from {A} (remaining attempt_no : nat)
         (stmt : statement A) (fetch : bool) (s : session)
  : result (option (A + Z)) * session :=
  match remaining with
  | O => (Returned None, s)
  | S remaining' =>
      match run_attempt stmt fetch s with
      | (Returned v, s1) => (Returned (Some v), s1)
      | (Exception, s1) =>
          if Z.of_nat attempt_no <? Z.of_nat (Settings.MAX_RETRIES config) - 1 then
            let s2 := sleep (retry_sleep attempt_no) s1 in
            if closed_after (transactions s) then
              match connect s2 with
              | (Returned _, s3) =>
                  execute_with_retry_from remaining' (S attempt_no) stmt fetch s3
              | (Exception, s3) => (Exception, s3)
              end
            else execute_with_retry_from remaining' (S attempt_no) stmt fetch s2
          else (Exception, s1)
      end
  end.

Definition execute_with_retry {A} (stmt : statement A) (fetch : bool) (s : session)
  : result (option (A + Z)) * session :=
  execute_with_retry_from (Settings.MAX_RETRIES config) 0 stmt fetch s.

End Retry.

End Connection.

(** ** [src/config/settings.py]: the GitHub tokens, and the client built
    on them *)

Module Tokens.

(** [f"GITHUB_TOKEN_{i}" if i > 1 else "GITHUB_TOKEN"] *)
Definition token_key (i : nat) : string :=
  if Nat.ltb 1 i
  then ("GITHUB_TOKEN_" ++ NilEmpty.string_of_uint (Nat.to_uint i))%string
  else "GITHUB_TOKEN"%string.

(** [GitHubConfig.__post_init__] when [TOKENS] is not given: the tokens
    of the environment [getenv], or [None] for the [ValueError]. *)
Definition load_tokens (getenv : string -> option string) : option (list string) :=
  let tokens :=
    omap (fun i => match getenv (token_key i) with
                   | Some token => if Text.nonempty token then Some token else None
                   | None => None
                   end)
         (seq 1 9) in
  match tokens with
  | [] => None
  | _ => Some tokens
  end.

(** [GitHubClientManager.__init__]: [self.tokens[0]] raises on an empty
    list. *)
Definition new_manager (tokens : list string)
  : option GitHubClient.GitHubClientManager :=
  match tokens with
  | [] => None
  | _ => Some {| GitHubClient.tokens := tokens;
                 GitHubClient.current_token_index := 0 |}
  end.

(** The token of the current client, [self.tokens[self.current_token_index]]. *)
Definition current_token (m : GitHubClient.GitHubClientManager) : option string :=
  GitHubClient.tokens m !! GitHubClient.current_token_index m.

End Tokens.

(** ** [src/scrapers/profile_scraper.py]: [scrape_profiles] *)

Module ProfileLoop.
Import Models Database ProfileScraper.

Section Loop.

Variable config : Settings.ScraperConfig.
Variable instance_id : string.
Variable fromisoformat : string -> option Z.
Variable github : string -> nat -> attempt.
Variable faults : nat -> option nat.
Variable store_error : string.

(** [self.db.get_username_count_by_status(EnrichmentStatus.PROFILED)] *)
Definition count_profiled (w : world) : result Z * world :=
  call_db faults (fun _ => Repository.get_username_count_by_status PROFILED) w.

(** [while True: ...] with [fuel] turns at most; [None] when the turns
    run out before the loop is left. The value is the local counter
    [processed] that the method logs at its end. An exception of the
    store outside the [try] of the loop body leaves the method. *)
Fixpoint scrape_loop (fuel : nat) (processed : Z) (w : world)
  : option (result Z * world) :=
  match fuel with
  | O => None
  | S fuel' =>
      match count_profiled w with
      | (Exception, w1) => Some (Exception, w1)
      | (Returned profiled_count, w1) =>
          if Settings.TARGET_PROFILES config <=? profiled_count
          then Some (Returned processed, w1)
          else
            match claim instance_id faults w1 with
            | (Exception, w2) => Some (Exception, w2)
            | (Returned [], w2) => Some (Returned processed, w2)
            | (Returned claimed, w2) =>
                match process_batch config fromisoformat github faults store_error
                                    claimed processed w2 with
                | (Exception, w3) => Some (Exception, w3)
                | (Returned processed', w3) => scrape_loop fuel' processed' w3
                end
            end
      end
  end.

Definition scrape_profiles (fuel : nat) (w : world) : option (result Z * world) :=
  match count_profiled w with
  | (Exception, w1) => Some (Exception, w1)
  | (Returned profiled_count, w1) =>
      if Settings.TARGET_PROFILES config <=? profiled_count
      then Some (Returned 0, w1)
      else scrape_loop fuel 0 w1
  end.

End Loop.

End ProfileLoop.

(** ** [src/scrapers/username_scraper.py]: [search_users] *)

Module SearchSettings.

(** The fields of [ScraperConfig] and [GitHubConfig] that only the
    username search reads. *)
Record SearchConfig : Type := {
  LOCATIONS : list string;
  YEARS_START : Z;
  YEARS_END : Z;
  TARGET_USERNAMES : Z;
  SEARCH_MAX_RESULTS : Z       (* GitHub API limitation *)
}.

(** The dataclass defaults. *)
Definition defaults : SearchConfig :=
  {| LOCATIONS :=
       ["Kyiv"; "Kiev"; "Kharkiv"; "Kharkov"; "Odesa"; "Odessa";
        "Dnipro"; "Dnipropetrovsk"; "Lviv"; "Lvov"; "Zaporizhzhia";
        "Kryvyi Rih"; "Mykolaiv"; "Mariupol"; "Vinnytsia"; "Kherson";
        "Poltava"; "Ukraine"]%string;
     YEARS_START := 2015;
     YEARS_END := 2025;
     TARGET_USERNAMES := 12000;
     SEARCH_MAX_RESULTS := 1000 |}.

(** [list(range(self.YEARS_START, self.YEARS_END))] *)
Definition years (c : SearchConfig) : list Z :=
  map (fun i => YEARS_START c + Z.of_nat i)
      (seq 0 (Z.to_nat (YEARS_END c - YEARS_START c))).

End SearchSettings.

Module UsernameScraper.
Import Models Database ProfileScraper.

(** The worker, the local [batch_usernames], and, on the side of the
    remote API, the logins it has handed out to this run so far. *)
Record state : Type := {
  world_of : world;
  batch_usernames : list string;
  served : list string
}.

Definition lift (f : world -> world) (st : state) : state :=
  {| world_of := f (world_of st);
     batch_usernames := batch_usernames st;
     served := served st |}.

(** [metrics.increment(self.scraper_name, metric, value)] *)
Definition metrics_increment (metric : string) (value : Z) (st : state) : state :=
  lift (fun w =>
          {| db := db w;
             metrics := Metrics.increment (metrics w) "username_scraper" metric value;
             github_client := github_client w;
             clock := clock w; slept := ProfileScraper.slept w;
             api_calls := api_calls w;
             transactions := ProfileScraper.transactions w |})
       st.

(** How the [for user in users] loop was left: its end or a [break],
    or an exception on its way to the [except] clauses. An exception of
    the store is not a rate limit. *)
Inductive loop_exit : Type :=
| Finished
| Raised (e : exception_class).

Section Search.

Variable config : Settings.ScraperConfig.
Variable search : SearchSettings.SearchConfig.
(** The remote API: what the [k]-th search of this worker yields for a
    location and a year, login by login, and how the listing ends:
    [None] when it is exhausted, or the exception raised instead of the
    next user. *)
Variable github_search : string -> Z -> nat -> list string * option exception_class.
Variable faults : nat -> option nat.

Definition db_call {A} (method : Z -> option nat -> database -> result A * database)
           (st : state) : result A * state :=
  let '(r, w) := call_db faults method (world_of st) in
  (r, {| world_of := w; batch_usernames := batch_usernames st; served := served st |}).

(** [self.db.get_username_count_by_status(EnrichmentStatus.INITIAL)] *)
Definition count_initial (st : state) : result Z * state :=
  db_call (fun _ => Repository.get_username_count_by_status INITIAL) st.

(** [inserted = self.db.insert_usernames_batch(batch_usernames)], the
    metric, and [batch_usernames = []]. *)
Definition save_batch (st : state) : result unit * state :=
  match db_call (fun now => Repository.insert_usernames_batch
                              now (batch_usernames st)) st with
  | (Returned inserted, st1) =>
      let st2 := metrics_increment "success" inserted st1 in
      (Returned tt, {| world_of := world_of st2; batch_usernames := [];
                       served := served st2 |})
  | (Exception, st1) => (Exception, st1)
  end.

(** [if batch_usernames: ...] *)
Definition save_remaining (st : state) : result unit * state :=
  match batch_usernames st with
  | [] => (Returned tt, st)
  | _ => save_batch st
  end.

(** [batch_usernames.append(user.login)], with the API's record of
    the login it handed out, and the [processed] metric. *)
Definition take_user (user_login : string) (st : state) : state :=
  metrics_increment
    "processed" 1
    {| world_of := world_of st;
       batch_usernames := (batch_usernames st ++ [user_login])%list;
       served := (served st ++ [user_login])%list |}.

(** [for user in users: ...] over what the listing still has to give;
    [count] users were taken before. *)
Fixpoint iterate (items : list string) (ending : option exception_class)
         (count : Z) (st : state) : loop_exit * state :=
  match items with
  | [] =>
      match ending with
      | None => (Finished, st)
      | Some e => (Raised e, st)
      end
  | user_login :: rest =>
      let st1 := take_user user_login st in
      let count' := count + 1 in
      let saved :=
        if Settings.BATCH_SIZE config <=? Z.of_nat (length (batch_usernames st1))
        then save_batch st1 else (Returned tt, st1) in
      match saved with
      | (Exception, st2) => (Raised OtherException, st2)
      | (Returned _, st2) =>
          match count_initial st2 with
          | (Exception, st3) => (Raised OtherException, st3)
          | (Returned current_count, st3) =>
              if SearchSettings.TARGET_USERNAMES search <=? current_count
              then (Finished, st3)
              else if SearchSettings.SEARCH_MAX_RESULTS search <=? count'
                   then (Finished, st3)
                   else iterate rest ending count' st3
          end
      end
  end.

(** The second [except] clause. *)
Definition on_failure (st : state) : result unit * state :=
  (Returned tt,
   lift (sleep (Settings.RATE_LIMIT_DELAY config)) (metrics_increment "failed" 1 st)).

(** The [try] statement of one location and year. An exception of the
    store in the first [except] clause leaves the method. *)
Definition one_search (location : string) (year : Z) (st : state)
  : result unit * state :=
  let '(items, ending) := github_search location year (api_calls (world_of st)) in
  match iterate items ending 0 (lift count_api_call st) with
  | (Finished, st1) =>
      match save_remaining st1 with
      | (Exception, st2) => on_failure st2
      | (Returned _, st2) =>
          match count_initial st2 with
          | (Exception, st3) => on_failure st3
          | (Returned _, st3) =>
              (Returned tt, lift (sleep (Settings.RATE_LIMIT_DELAY config)) st3)
          end
      end
  | (Raised RateLimitExceededException, st1) =>
      match save_remaining st1 with
      | (Exception, st2) => (Exception, st2)
      | (Returned _, st2) =>
          (Returned tt,
           lift (handle_rate_limit config) (metrics_increment "rate_limit" 1 st2))
      end
  | (Raised _, st1) => on_failure st1
  end.

(** [for year in self.config.years: ...]; the check at its head is
    outside the [try]. *)
Fixpoint years_loop (location : string) (years : list Z) (st : state)
  : result unit * state :=
  match years with
  | [] => (Returned tt, st)
  | year :: years' =>
      match count_initial st with
      | (Exception, st1) => (Exception, st1)
      | (Returned current_count, st1) =>
          if SearchSettings.TARGET_USERNAMES search <=? current_count
          then (Returned tt, st1)
          else
            match one_search location year st1 with
            | (Exception, st2) => (Exception, st2)
            | (Returned _, st2) => years_loop location years' st2
            end
      end
  end.

(** [for location in self.config.LOCATIONS: ...] *)
Fixpoint locations_loop (locations : list string) (st : state)
  : result unit * state :=
  match locations with
  | [] => (Returned tt, st)
  | location :: locations' =>
      match years_loop location (SearchSettings.years search) st with
      | (Exception, st1) => (Exception, st1)
      | (Returned _, st1) =>
          match count_initial st1 with
          | (Exception, st2) => (Exception, st2)
          | (Returned current_count, st2) =>
              if SearchSettings.TARGET_USERNAMES search <=? current_count
              then (Returned tt, st2)
              else locations_loop locations' st2
          end
      end
  end.

(** The save after the loops: it does not empty the list. *)
Definition final_save (st : state) : result unit * state :=
  match batch_usernames st with
  | [] => (Returned tt, st)
  | _ =>
      match db_call (fun now => Repository.insert_usernames_batch
                                  now (batch_usernames st)) st with
      | (Returned inserted, st1) =>
          (Returned tt, metrics_increment "success" inserted st1)
      | (Exception, st1) => (Exception, st1)
      end
  end.

(** [search_users] *)
Definition search_users (w : world) : result unit * state :=
  let st := {| world_of := w; batch_usernames := []; served := [] |} in
  match count_initial st with
  | (Exception, st1) => (Exception, st1)
  | (Returned _, st1) =>
      match locations_loop (SearchSettings.LOCATIONS search) st1 with
      | (Exception, st2) => (Exception, st2)
      | (Returned _, st2) =>
          match final_save st2 with
          | (Exception, st3) => (Exception, st3)
          | (Returned _, st3) =>
              match count_initial st3 with
              | (Exception, st4) => (Exception, st4)
              | (Returned _, st4) => (Returned tt, st4)
              end
          end
      end
  end.

End Search.

End UsernameScraper.

(** * Scenarios, operations and invariants *)

(** ** Link classification: the scenario *)

Definition scenario_bio : string :=
  "LinkedIn: linkedin.com/in/johndoe, see t.me/johndoe".

Definition scenario_links : Links.social_links :=
  {| Links.platforms :=
       [("twitter", None);
        ("linkedin", Some "https://linkedin.com/in/johndoe");
        ("facebook", None); ("instagram", None);
        ("telegram", Some "https://t.me/johndoe");
        ("youtube", None); ("medium", None); ("dev_to", None);
        ("hashnode", None); ("stackoverflow", None)];
     Links.other_links := [] |}.

Definition johndoe : Links.NamedUser :=
  {| Links.login := "johndoe"; Links.name := Some "John Doe";
     Links.email := None; Links.bio := Some scenario_bio;
     Links.location := Some "Kyiv"; Links.company := None;
     Links.blog := None; Links.twitter_username := None;
     Links.hireable := Some true;
     Links.followers := 12; Links.following := 3;
     Links.public_repos := 7; Links.public_gists := 0;
     Links.created_at := Some "2015-03-01T10:00:00+00:00";
     Links.updated_at := None;
     Links.html_url := Some "https://github.com/johndoe";
     Links.avatar_url := None |}.

(** ** The write operations of the store, as one type *)

Import Models Database.

Inductive operation : Type :=
| InsertBatch (usernames : list string)
| ClaimBatch (from_status : EnrichmentStatus) (limit : nat)
             (instance_id : string) (timeout_minutes : Z)
| CommitProfile (p : Profile.profile)
| RecordFailure (uname error_message : string)
| RecordRetry (uname error_message : string) (back_to_status : EnrichmentStatus).

(** Forget what a method returned, keep whether it returned. *)
Definition completed {A} (r : result A * database) : bool * database :=
  match r with
  | (Returned _, d) => (true, d)
  | (Exception, d) => (false, d)
  end.

(** Run one operation as one transaction at server time [now] under the
    fault schedule [flt]. *)
Definition run (fromisoformat : string -> option Z) (op : operation)
           (now : Z) (flt : option nat) (d : database) : bool * database :=
  match op with
  | InsertBatch usernames =>
      completed (Repository.insert_usernames_batch now usernames flt d)
  | ClaimBatch from_status limit instance_id timeout_minutes =>
      completed (Repository.claim_batch_for_processing
                   from_status limit instance_id timeout_minutes now flt d)
  | CommitProfile p =>
      completed (Repository.update_profile fromisoformat p now flt d)
  | RecordFailure uname error_message =>
      completed (Repository.mark_as_failed uname error_message flt d)
  | RecordRetry uname error_message back_to_status =>
      completed (Repository.increment_retry_count
                   uname error_message back_to_status flt d)
  end.

(** A history: operations with the time and the fault schedule of
    each, run in order. *)
Fixpoint run_all (fromisoformat : string -> option Z)
         (history : list (operation * Z * option nat)) (d : database) : database :=
  match history with
  | [] => d
  | (op, now, flt) :: rest =>
      run_all fromisoformat rest (run fromisoformat op now flt d).2
  end.

(** [op] is a profile commit for the username [u]. *)
Definition commits_username (op : operation) (u : string) : Prop :=
  exists p, op = CommitProfile p /\ Profile.username p = u.

(** ** The status invariant *)

(** Each claim field is set exactly when the row is PROCESSING. *)
Definition claim_fields_consistent (d : developer) : Prop :=
  (claimed_by d <> None <-> enrichment_status d = PROCESSING)
  /\ (processing_started_at d <> None <-> enrichment_status d = PROCESSING).

Definition status_invariant (d : database) : Prop :=
  Forall claim_fields_consistent (developers (db_tables d)).

(** The invariant is kept by [op], whatever the store, the time and the
    faults. *)
Definition keeps_status_invariant (op : operation) : Prop :=
  forall fromisoformat now flt d,
    status_invariant d -> status_invariant (run fromisoformat op now flt d).2.

(** An operation that hands rows back does not hand them back as
    PROCESSING. *)
Definition returns_to_claimable (op : operation) : Prop :=
  match op with
  | ClaimBatch from_status _ _ _ => from_status <> PROCESSING
  | RecordRetry _ _ back_to_status => back_to_status <> PROCESSING
  | _ => True
  end.

(** A row for examples: [u] with the given bookkeeping. *)
Definition row (rid : Z) (u : string) (status : EnrichmentStatus) (retries : Z)
           (started : option Z) (owner : option string) : developer :=
  Repository.with_bookkeeping (Repository.new_developer rid u 0)
                              status retries None started owner.

Definition store_of (rows : list developer) : database :=
  {| db_tables := {| developers := rows; social_links := []; repositories := [] |};
     db_sequences := {| developers_id_seq := 1 + Z.of_nat (length rows);
                        social_links_id_seq := 1;
                        repositories_id_seq := 1 |} |}.

Definition no_parse : string -> option Z := fun _ => None.

(** ** Statements run one after the other *)

(** The tables and sequences after running [stmts] in order, and what
    the cursor would report ([count] if there is no statement). *)
Fixpoint apply_statements (stmts : list (statement unit))
         (t : tables) (s : sequences) (count : Z) : tables * sequences * Z :=
  match stmts with
  | [] => (t, s, count)
  | stmt :: rest =>
      let r := stmt t s in
      apply_statements rest (new_tables r) (new_sequences r) (affected r)
  end.

(** ** What the methods commit *)

Import Repository.

(** The tables a claim commits: the release, then the claim proper. *)
Definition tables_after_claim (from_status : EnrichmentStatus) (limit : nat)
           (instance_id : string) (timeout_minutes now : Z) (d : database) : tables :=
  let r1 := release_stale from_status now timeout_minutes
                          (db_tables d) (db_sequences d) in
  new_tables (claim_rows from_status limit instance_id now
                         (new_tables r1) (new_sequences r1)).

Definition claimed_by_claim (from_status : EnrichmentStatus) (limit : nat)
           (instance_id : string) (timeout_minutes now : Z) (d : database)
  : list string :=
  let r1 := release_stale from_status now timeout_minutes
                          (db_tables d) (db_sequences d) in
  rows (claim_rows from_status limit instance_id now
                   (new_tables r1) (new_sequences r1)).

(** The tables and the count an insert batch commits. *)
Definition after_insert (now : Z) (usernames : list string) (d : database)
  : tables * sequences * Z :=
  apply_statements (map (insert_username now) usernames)
                   (db_tables d) (db_sequences d) (-1).

(** The child rows [update_profile] writes for developer [developer_id],
    run after the [UPDATE] of the developer row. *)
Definition child_statements (p : Profile.profile) (now developer_id : Z)
  : list (statement unit) :=
  map (upsert_social_link now) (social_data developer_id (Profile.social_links p))
  ++ map (upsert_repository developer_id) (enumerate (Profile.top_repos p)).

Definition tables_after_commit (fromisoformat : string -> option Z)
           (p : Profile.profile) (now developer_id : Z) (d : database) : tables :=
  let r1 := update_profile_stmt fromisoformat p now (db_tables d) (db_sequences d) in
  (apply_statements (child_statements p now developer_id)
                    (new_tables r1) (new_sequences r1) (affected r1)).1.1.

(** ** Retry accounting *)

(** The retry count the row [r] is expected to have after [op], given
    whether [op] returned: a profile commit that returned resets the
    rows of its username, a failure or a retry that returned adds one to
    the rows of its username, and nothing else touches the count. *)
Definition expected_retries (op : operation) (returned : bool) (r : developer) : Z :=
  match op with
  | CommitProfile p =>
      if returned && has_username (Profile.username p) r then 0 else retry_count r
  | RecordFailure uname _ | RecordRetry uname _ _ =>
      if returned && has_username uname r then retry_count r + 1 else retry_count r
  | InsertBatch _ | ClaimBatch _ _ _ _ => retry_count r
  end.

(** ** Claims *)

(** The row [r] as the stale release leaves it, and as a claim by
    [instance_id] at [now] leaves it. *)
Definition released (from_status : EnrichmentStatus) (r : developer) : developer :=
  with_bookkeeping r from_status (retry_count r) (last_error r) None None.

Definition claimed (instance_id : string) (now : Z) (r : developer) : developer :=
  with_bookkeeping r PROCESSING (retry_count r) (last_error r)
                   (Some now) (Some instance_id).

(** The developers table between the two steps of a claim. *)
Definition developers_after_release (from_status : EnrichmentStatus)
           (timeout_minutes now : Z) (d : database) : list developer :=
  developers (new_tables (release_stale from_status now timeout_minutes
                                        (db_tables d) (db_sequences d))).

(** [id] is the primary key of [developers]. *)
Definition unique_ids (d : database) : Prop :=
  NoDup (map id (developers (db_tables d))).

(** ** Profile commits *)

(** The profile columns a commit of [p] writes. *)
Definition columns_of (fromisoformat : string -> option Z) (p : Profile.profile)
  : profile_columns :=
  {| name := Profile.name p;
     email := Profile.email p;
     bio := Profile.bio p;
     location := Profile.location p;
     company := Profile.company p;
     blog := Profile.blog p;
     twitter_username := Profile.twitter_username p;
     hireable := Profile.hireable p;
     followers := Some (Profile.followers p);
     following := Some (Profile.following p);
     public_repos := Some (Profile.public_repos p);
     public_gists := Some (Profile.public_gists p);
     profile_url := Profile.profile_url p;
     avatar_url := Profile.avatar_url p;
     created_at := _parse_datetime fromisoformat (Profile.created_at p);
     updated_at := _parse_datetime fromisoformat (Profile.updated_at p) |}.

(** What a commit of [p] at [now] makes of the bookkeeping and profile
    columns of a row. *)
Definition profiled_as (fromisoformat : string -> option Z) (p : Profile.profile)
           (now : Z) (r : developer) : Prop :=
  enrichment_status r = PROFILED
  /\ profiled_at r = Some now
  /\ retry_count r = 0
  /\ last_error r = None
  /\ claimed_by r = None
  /\ processing_started_at r = None
  /\ columns r = columns_of fromisoformat p.

(** The key of the social link [l] is written by [data]. *)
Definition link_written (data : list (Z * string * string)) (l : social_link) : Prop :=
  exists u, (sl_developer_id l, platform l, u) ∈ data.

(** No social link is deleted: each old row is found again with its id
    and key, and as it was unless [data] writes its key. *)
Definition links_kept (data : list (Z * string * string))
           (old new : list social_link) : Prop :=
  forall l, l ∈ old ->
    exists l', l' ∈ new
               /\ sl_id l' = sl_id l
               /\ sl_developer_id l' = sl_developer_id l
               /\ platform l' = platform l
               /\ (~ link_written data l -> l' = l).

Definition has_link (developer_id : Z) (plat u : string) (ls : list social_link)
  : Prop :=
  exists l, l ∈ ls /\ sl_developer_id l = developer_id
            /\ platform l = plat /\ url l = u.

(** The key of the repository row [r] is written by the commit of
    [repos] for [developer_id]. *)
Definition repo_written (developer_id : Z) (repos : list TopRepo.top_repo)
           (r : repository) : Prop :=
  repo_developer_id r = developer_id
  /\ exists tr, tr ∈ repos /\ TopRepo.name tr = repo_name r.

Definition repos_kept (developer_id : Z) (repos : list TopRepo.top_repo)
           (old new : list repository) : Prop :=
  forall r, r ∈ old ->
    exists r', r' ∈ new
               /\ repo_id r' = repo_id r
               /\ repo_developer_id r' = repo_developer_id r
               /\ repo_name r' = repo_name r
               /\ (~ repo_written developer_id repos r -> r' = r).

Definition has_repo (developer_id : Z) (idx : nat) (tr : TopRepo.top_repo)
           (rs : list repository) : Prop :=
  exists r, r ∈ rs /\ r = repo_row (repo_id r) developer_id idx tr.

(** The claim read literally: after a commit that returned, the social
    links of the developer are exactly the ones of the new profile. *)
Definition links_replaced (developer_id : Z) (p : Profile.profile)
           (new : list social_link) : Prop :=
  forall l, l ∈ new -> sl_developer_id l = developer_id ->
    (developer_id, platform l, url l)
    ∈ social_data developer_id (Profile.social_links p).

(** A profile and a store for examples: johndoe, already known to the
    store with a Medium link and a repository from an earlier commit. *)
Definition johndoe_profile : Profile.profile :=
  {| Profile.username := "johndoe";
     Profile.name := Some "John Doe";
     Profile.email := None;
     Profile.bio := Some scenario_bio;
     Profile.location := Some "Kyiv";
     Profile.company := None;
     Profile.blog := None;
     Profile.twitter_username := None;
     Profile.hireable := Some true;
     Profile.followers := 12;
     Profile.following := 3;
     Profile.public_repos := 7;
     Profile.public_gists := 0;
     Profile.created_at := Some "2015-03-01T10:00:00+00:00";
     Profile.updated_at := None;
     Profile.profile_url := Some "https://github.com/johndoe";
     Profile.avatar_url := None;
     Profile.social_links := scenario_links;
     Profile.top_repos :=
       [{| TopRepo.name := "scraper"; TopRepo.stars := 5;
           TopRepo.language := Some "Python";
           TopRepo.url := Some "https://github.com/johndoe/scraper";
           TopRepo.description := None |}] |}.

Definition old_medium_link : social_link :=
  {| sl_id := 1; sl_developer_id := 1; platform := "medium";
     url := "https://medium.com/@johndoe"; verified := false;
     sl_scraped_at := Some 0 |}.

Definition johndoe_store : database :=
  {| db_tables :=
       {| developers := [row 1 "johndoe" PROCESSING 2 (Some 40) (Some "host-1")];
          social_links := [old_medium_link];
          repositories :=
            [{| repo_id := 1; repo_developer_id := 1; repo_name := "old-repo";
                stars := Some 1; language := None; repo_url := None;
                description := None; repo_order := 0 |}] |};
     db_sequences := {| developers_id_seq := 2; social_links_id_seq := 2;
                        repositories_id_seq := 2 |} |}.

(** ** Fetching a profile *)

Import ProfileScraper.

(** What the handler of [RateLimitExceededException] does to the worker
    after the attempt was sent: both metrics, the rotation and the
    cooldown. *)
Definition rate_limited (config : Settings.ScraperConfig) (w : world) : world :=
  metrics_increment
    "retries"
    (handle_rate_limit config
                       (metrics_increment "rate_limit" (count_api_call w))).

(** The same, [n] times in a row. *)
Fixpoint rate_limited_times (config : Settings.ScraperConfig) (n : nat) (w : world)
  : world :=
  match n with
  | O => w
  | S n' => rate_limited_times config n' (rate_limited config w)
  end.

Definition is_rate_limit (a : attempt) : bool :=
  match a with
  | Raises RateLimitExceededException _ => true
  | _ => false
  end.

(** An exception of the second [except] clause. *)
Definition is_failure (a : attempt) : bool :=
  match a with
  | Raises RateLimitExceededException _ => false
  | Raises _ _ => true
  | Fetched _ _ => false
  end.

(** How many of the answers [start], ..., [start + n - 1] to [uname]
    are failures of the second clause. *)
Fixpoint failures_among (github : string -> nat -> attempt) (uname : string)
         (start n : nat) : nat :=
  match n with
  | O => O
  | S n' => (if is_failure (github uname start) then 1 else 0)
            + failures_among github uname (S start) n'
  end.

(** C5 read literally: quota answers are outside the budget, so a fetch
    whose answers before the first success hold fewer than MAX_RETRIES
    failures returns the profile. *)
Definition quota_outside_budget (config : Settings.ScraperConfig)
           (github : string -> nat -> attempt) : Prop :=
  forall faults uname w n user repos,
    github uname (api_calls w + n)%nat = Fetched user repos ->
    (forall k, (k < n)%nat ->
               exists e text, github uname (api_calls w + k)%nat = Raises e text) ->
    (failures_among github uname (api_calls w) n < Settings.MAX_RETRIES config)%nat ->
    (fetch_profile config github faults uname w).1
    = Returned (Some (build_profile user repos)).

(** C6 read literally: a permanent error ends the fetch at once, with
    one attempt sent and no sleep. *)
Definition permanent_not_retried (config : Settings.ScraperConfig)
           (github : string -> nat -> attempt) : Prop :=
  forall faults uname w text,
    github uname (api_calls w) = Raises UnknownObjectException text ->
    api_calls (fetch_profile config github faults uname w).2 = S (api_calls w)
    /\ slept (fetch_profile config github faults uname w).2 = slept w.

(** A worker at rest on a store. *)
Definition worker_on (d : database) : world :=
  {| db := d;
     metrics := {| Metrics.enabled := true;
                   Metrics.username_scraper := Metrics.fresh;
                   Metrics.profile_scraper := Metrics.fresh;
                   Metrics.social_scraper := Metrics.fresh |};
     github_client := {| GitHubClient.tokens := ["token-1"; "token-2"];
                         GitHubClient.current_token_index := 0 |};
     clock := 100; slept := []; api_calls := 0; transactions := 0 |}.

(** Remote APIs for examples. *)
Definition always_rate_limited : string -> nat -> attempt :=
  fun _ _ => Raises RateLimitExceededException "403 rate limit exceeded".

Definition rate_limited_thrice : string -> nat -> attempt :=
  fun _ k => if (k <? 3)%nat
             then Raises RateLimitExceededException "403 rate limit exceeded"
             else Fetched johndoe [].

Definition always_not_found : string -> nat -> attempt :=
  fun _ _ => Raises UnknownObjectException "404 Not Found".

Definition no_faults : nat -> option nat := fun _ => None.

(** The end of a fetch whose last attempt failed with [text]: the row is
    marked FAILED and the fetch returns [None], unless the store raises. *)
Definition finish_failed (faults : nat -> option nat) (uname text : string)
           (w : world) : result (option Profile.profile) * world :=
  match call_db faults (fun _ => mark_as_failed uname text) w with
  | (Returned _, w') => (Returned None, w')
  | (Exception, w') => (Exception, w')
  end.

(** The row [r] after [mark_as_failed] with [text]. *)
Definition failed_with (text : string) (r : developer) : developer :=
  with_bookkeeping r FAILED (retry_count r + 1) (Some text) None None.

(** * More of the code: what the properties below speak of *)

(** ** Token rotation *)

(** [rotate_token], [n] times. *)
Definition rotations (n : nat) (m : GitHubClient.GitHubClientManager)
  : GitHubClient.GitHubClientManager :=
  Nat.iter n GitHubClient.rotate_token m.

(** An environment for examples: the first and the third token set, the
    second one empty. *)
Definition example_env : string -> option string :=
  fun key =>
    if String.eqb key "GITHUB_TOKEN" then Some "ghp_first"
    else if String.eqb key "GITHUB_TOKEN_2" then Some EmptyString
    else if String.eqb key "GITHUB_TOKEN_3" then Some "ghp_third"
    else None.

(** ** Connecting *)

(** A session that has not connected yet, on a store. *)
Definition new_session (d : database) : Connection.session :=
  {| Connection.connected := false; Connection.store := d;
     Connection.slept := []; Connection.connect_calls := 0;
     Connection.transactions := 0 |}.

(** A server that refuses the first [k] connections. *)
Definition accepts_from (k : nat) : nat -> bool := fun n => Nat.leb k n.

(** ** Reading the store *)

Import Queries.

(** The key of [status] in the [stats] dict. *)
Definition status_key (status : EnrichmentStatus) : string :=
  ("status_" ++ Text.lower (status_value status))%string.

(** The usernames of the rows in [status], in table order. *)
Definition usernames_in (status : EnrichmentStatus) (d : database) : list string :=
  map username (filter (fun r => enrichment_status r = status)
                       (developers (db_tables d))).

(** Every social link and every repository belongs to a developer of
    the table (the foreign keys of the schema). *)
Definition foreign_keys_valid (t : tables) : Prop :=
  Forall (fun l => sl_developer_id l ∈ map id (developers t)) (social_links t)
  /\ Forall (fun r => repo_developer_id r ∈ map id (developers t)) (repositories t).

(** ** Claiming in id order *)

Definition by_id (a b : developer) : Prop := id a <= id b.

(** The rows a claim can take: those in [from_status] once the stale
    claims are released. *)
Definition claimable (from_status : EnrichmentStatus) (timeout_minutes now : Z)
           (d : database) : list developer :=
  filter (fun r => enrichment_status r = from_status)
         (developers_after_release from_status timeout_minutes now d).

(** Three unclaimed rows, stored out of id order. *)
Definition three_initial : database :=
  store_of [row 3 "carol" INITIAL 0 None None;
            row 1 "alice" INITIAL 0 None None;
            row 2 "bob" INITIAL 0 None None].

(** ** The constraints of the schema ([create_tables]) *)

(** Sequences only go up. *)
Definition seq_le (s s' : sequences) : Prop :=
  developers_id_seq s <= developers_id_seq s'
  /\ social_links_id_seq s <= social_links_id_seq s'
  /\ repositories_id_seq s <= repositories_id_seq s'.

(** [UNIQUE (developer_id, platform)] and [UNIQUE (developer_id, name)] *)
Definition link_key (l : social_link) : Z * string := (sl_developer_id l, platform l).
Definition repo_key (r : repository) : Z * string := (repo_developer_id r, repo_name r).

(** The primary keys, the three [UNIQUE] constraints and the two
    foreign keys of the schema; and every [SERIAL] id in a table was
    drawn from its sequence, which has moved on since. *)
Record schema_constraints (t : tables) (s : sequences) : Prop := {
  developers_pkey : NoDup (map id (developers t));
  developers_username_key : NoDup (map username (developers t));
  developers_serial : Forall (fun i => i < developers_id_seq s) (map id (developers t));
  social_links_pkey : NoDup (map sl_id (social_links t));
  social_links_key : NoDup (map link_key (social_links t));
  social_links_serial :
    Forall (fun i => i < social_links_id_seq s) (map sl_id (social_links t));
  repositories_pkey : NoDup (map repo_id (repositories t));
  repositories_key : NoDup (map repo_key (repositories t));
  repositories_serial :
    Forall (fun i => i < repositories_id_seq s) (map repo_id (repositories t));
  foreign_keys : foreign_keys_valid t
}.

Definition store_ok (d : database) : Prop :=
  schema_constraints (db_tables d) (db_sequences d).

(** A statement that keeps the constraints, from tables with [P] to
    tables and rows with [Q]. *)
Definition stmt_keeps {A} (P : tables -> Prop) (stmt : statement A)
           (Q : A -> tables -> Prop) : Prop :=
  forall t s,
    schema_constraints t s -> P t ->
    schema_constraints (new_tables (stmt t s)) (new_sequences (stmt t s))
    /\ seq_le s (new_sequences (stmt t s))
    /\ Q (rows (stmt t s)) (new_tables (stmt t s)).

(** The same for a piece of a transaction; if it raises, the sequences
    have still only gone up. *)
Definition tx_keeps {A} (P : tables -> Prop) (body : tx A)
           (Q : A -> tables -> Prop) : Prop :=
  forall st,
    schema_constraints (tx_tables st) (tx_sequences st) -> P (tx_tables st) ->
    match body st with
    | Done a st' =>
        schema_constraints (tx_tables st') (tx_sequences st')
        /\ seq_le (tx_sequences st) (tx_sequences st')
        /\ Q a (tx_tables st')
    | Raise st' => seq_le (tx_sequences st) (tx_sequences st')
    end.

(** The developer [developer_id] is in the table. *)
Definition has_developer (developer_id : Z) (t : tables) : Prop :=
  developer_id ∈ map id (developers t).

(** A remote API whose first answer is a timeout and whose later answers
    are the user [johndoe] with two repositories, the second of them
    unreadable. *)
Definition fails_once : string -> nat -> attempt :=
  fun _ k =>
    match k with
    | O => Raises OtherException "timed out"
    | _ => Fetched johndoe
                   [Some {| TopRepo.name := "dotfiles"; TopRepo.stars := 3;
                            TopRepo.language := None; TopRepo.url := None;
                            TopRepo.description := None |};
                    None]
    end.

(** ** The shape of the extracted social links *)

(** The other links: without repetition, none of them on a known
    domain. *)
Definition other_links_ok (sl : Links.social_links) : Prop :=
  NoDup (Links.other_links sl)
  /\ Forall (fun u => existsb (fun domain => Text.contains domain (Text.lower u))
                              Links.known_domains = false)
            (Links.other_links sl).

(** Every URL stored under a platform starts with the secure scheme. *)
Definition platforms_https (sl : Links.social_links) : Prop :=
  forall key u, Links.dict_get (Links.platforms sl) key = Some u ->
                exists rest, u = ("https://" ++ rest)%string.

(** A user whose bio links to another account than the handle of the
    profile, and to a site of their own. *)
Definition with_handle : Links.NamedUser :=
  {| Links.login := "janedoe"; Links.name := None;
     Links.email := None;
     Links.bio := Some "old account x.com/jane_old, notes at https://jane.example.org/notes";
     Links.location := None; Links.company := None;
     Links.blog := Some "https://jane.example.org/notes";
     Links.twitter_username := Some "janedoe";
     Links.hireable := None;
     Links.followers := 0; Links.following := 0;
     Links.public_repos := 0; Links.public_gists := 0;
     Links.created_at := None; Links.updated_at := None;
     Links.html_url := None; Links.avatar_url := None |}.

(** ** The status machine, as the methods implement it *)

(** The statuses [op] can give a row that was stored before it. *)
Definition may_produce (op : operation) (status : EnrichmentStatus) : Prop :=
  match op with
  | InsertBatch _ => False
  | ClaimBatch from_status _ _ _ => status = from_status \/ status = PROCESSING
  | CommitProfile _ => status = PROFILED
  | RecordFailure _ _ => status = FAILED
  | RecordRetry _ _ back_to_status => status = back_to_status
  end.

(** The rows [op] looks at: a claim those in its status and the
    claimed ones, the other updates the rows of their username. *)
Definition addresses (op : operation) (r : developer) : Prop :=
  match op with
  | InsertBatch _ => False
  | ClaimBatch from_status _ _ _ =>
      enrichment_status r = from_status \/ enrichment_status r = PROCESSING
  | CommitProfile p => username r = Profile.username p
  | RecordFailure uname _ => username r = uname
  | RecordRetry uname _ _ => username r = uname
  end.

(** ** Counting in the metrics *)

(** From [w] to [w'] the profile scraper's counters [processed],
    [success] and [failed] went up by [dp], [ds] and [df] if metrics
    are enabled, the collector is untouched if they are not, and the
    counters of the other scrapers are as they were. *)
Definition counted (dp ds df : Z) (w w' : world) : Prop :=
  Metrics.enabled (metrics w') = Metrics.enabled (metrics w)
  /\ Metrics.username_scraper (metrics w') = Metrics.username_scraper (metrics w)
  /\ Metrics.social_scraper (metrics w') = Metrics.social_scraper (metrics w)
  /\ (Metrics.enabled (metrics w) = true ->
      Metrics.total_processed (Metrics.profile_scraper (metrics w'))
      = Metrics.total_processed (Metrics.profile_scraper (metrics w)) + dp
      /\ Metrics.total_success (Metrics.profile_scraper (metrics w'))
         = Metrics.total_success (Metrics.profile_scraper (metrics w)) + ds
      /\ Metrics.total_failed (Metrics.profile_scraper (metrics w'))
         = Metrics.total_failed (Metrics.profile_scraper (metrics w)) + df)
  /\ (Metrics.enabled (metrics w) = false -> metrics w' = metrics w).

(** A remote API that answers every request with the user [johndoe]. *)
Definition always_johndoe : string -> nat -> attempt :=
  fun _ _ => Fetched johndoe [].

(** A store whose second transaction fails at its first statement. *)
Definition second_fails : nat -> option nat :=
  fun k => match k with 1%nat => Some 0%nat | _ => None end.

(** ** The whole loop of [scrape_profiles] *)

(** Rows that still wait for a profile: unclaimed or claimed. *)
Definition is_pending (r : developer) : bool :=
  status_eqb (enrichment_status r) INITIAL
  || status_eqb (enrichment_status r) PROCESSING.

Definition count_pending (l : list developer) : nat :=
  length (filter (fun r => is_pending r = true) l).

Definition pending (d : database) : nat :=
  count_pending (developers (db_tables d)).

(** A remote API that answers every request with the user asked for. *)
Definition answers_as_asked (github : string -> nat -> attempt) : Prop :=
  forall u k, exists user repos,
      github u k = Fetched user repos /\ Links.login user = u.

(** What working through the usernames [claimed] does to a row. *)
Definition profiled_rows (claimed : list string) (r r' : developer) : Prop :=
  username r' = username r /\ id r' = id r
  /\ (username r ∈ claimed -> enrichment_status r' = PROFILED)
  /\ (username r ∉ claimed -> r' = r).

(** An API for examples: every username is a user without a profile
    text. *)
Definition plain_user (u : string) : Links.NamedUser :=
  {| Links.login := u; Links.name := None; Links.email := None;
     Links.bio := None; Links.location := None; Links.company := None;
     Links.blog := None; Links.twitter_username := None;
     Links.hireable := None;
     Links.followers := 0; Links.following := 0;
     Links.public_repos := 0; Links.public_gists := 0;
     Links.created_at := None; Links.updated_at := None;
     Links.html_url := None; Links.avatar_url := None |}.

Definition everyone_exists : string -> nat -> attempt :=
  fun u _ => Fetched (plain_user u) [].

(** ** The username search *)

(** The username [u] has a row in the store of [st]. *)
Definition stored (u : string) (st : UsernameScraper.state) : Prop :=
  u ∈ map username (developers (db_tables (db (UsernameScraper.world_of st)))).

(** Every login the API handed out is in the store or still in the
    batch. *)
Definition no_loss (st : UsernameScraper.state) : Prop :=
  forall u, u ∈ UsernameScraper.served st ->
            u ∈ UsernameScraper.batch_usernames st \/ stored u st.

Definition searches (st : UsernameScraper.state) : nat :=
  api_calls (UsernameScraper.world_of st).

(** From [st] to [st']: nothing is lost, no row disappears, and at most
    [k] searches were sent. *)
Definition advance (k : nat) (st st' : UsernameScraper.state) : Prop :=
  (no_loss st -> no_loss st')
  /\ (forall u, stored u st -> stored u st')
  /\ (searches st' <= searches st + k)%nat.

(** A remote API for examples: the first search lists two users and is
    then cut off by the rate limit, the others find nobody. *)
Definition two_then_limit : string -> Z -> nat -> list string * option exception_class :=
  fun _ _ k =>
    match k with
    | O => (["alice"; "bob"]%string, Some RateLimitExceededException)
    | _ => ([], None)
    end.

Definition one_city : SearchSettings.SearchConfig :=
  {| SearchSettings.LOCATIONS := ["Kyiv"]%string;
     SearchSettings.YEARS_START := 2015;
     SearchSettings.YEARS_END := 2017;
     SearchSettings.TARGET_USERNAMES := 12000;
     SearchSettings.SEARCH_MAX_RESULTS := 1000 |}.

(** Every login the API handed out has a row. *)
Definition all_stored (st : UsernameScraper.state) : Prop :=
  forall u, u ∈ UsernameScraper.served st -> stored u st.

(** * Properties *)

Local Open Scope list_scope.

(** ** Link classification *)

(** C9. The classification reads nothing but the bio, the blog and the
    handle field of the user: whatever the other attributes are, a user
    with the scenario's bio, no blog and no handle is classified as
    linkedin = https://linkedin.com/in/johndoe and telegram =
    https://t.me/johndoe, every other platform [None], no other link. *)
Theorem extract_social_links_scenario (user : Links.NamedUser) :
  Links.bio user = Some scenario_bio ->
  Links.blog user = None ->
  Links.twitter_username user = None ->
  Links._extract_social_links user = scenario_links.
Proof.
  destruct user as [lg nm em bi lo co bl tw hi fo fg pr pg ca ua hu au].
  simpl. intros -> -> ->. vm_compute. reflexivity.
Qed.

Lemma extract_social_links_scenario_witness :
  Links._extract_social_links johndoe = scenario_links.
Proof.
  apply (extract_social_links_scenario johndoe); reflexivity.
Defined.

(** ** Transactions *)

Section TransactionFacts.
Context {A : Type}.
Implicit Types (body : tx A) (stmt : statement A).

(** A method that raises leaves the three tables as they were. *)
Lemma get_cursor_rollback body flt d d' :
  get_cursor body flt d = (Exception, d') -> db_tables d' = db_tables d.
Proof.
  unfold get_cursor.
  destruct (body _) as [a st|st]; [destruct (fault st) as [[|n]|]|];
    intros [= <-]; reflexivity.
Qed.

(** A method that returns has committed the tables its body reached. *)
Lemma get_cursor_commit body flt d a d' :
  get_cursor body flt d = (Returned a, d') ->
  exists st,
    body {| tx_tables := db_tables d; tx_sequences := db_sequences d;
            rowcount := -1; fault := flt |} = Done a st
    /\ db_tables d' = tx_tables st /\ db_sequences d' = tx_sequences st.
Proof.
  unfold get_cursor.
  destruct (body _) as [a0 st|st]; [destruct (fault st) as [[|n]|] eqn:Hf|];
    intros [= <- <-]; eauto.
Qed.

(** With no fault scheduled a body that finishes is committed. *)
Lemma get_cursor_done body d a st :
  body {| tx_tables := db_tables d; tx_sequences := db_sequences d;
          rowcount := -1; fault := None |} = Done a st ->
  fault st = None ->
  get_cursor body None d
  = (Returned a, {| db_tables := tx_tables st; db_sequences := tx_sequences st |}).
Proof. unfold get_cursor. intros -> ->. reflexivity. Qed.

Lemma execute_cases stmt st :
  (execute stmt st = Raise st /\ fault st = Some O)
  \/ exists st',
      execute stmt st = Done (rows (stmt (tx_tables st) (tx_sequences st))) st'
      /\ tx_tables st' = new_tables (stmt (tx_tables st) (tx_sequences st))
      /\ tx_sequences st' = new_sequences (stmt (tx_tables st) (tx_sequences st))
      /\ rowcount st' = affected (stmt (tx_tables st) (tx_sequences st))
      /\ fault st' = match fault st with Some n => Some (Nat.pred n) | None => None end
      /\ fault st <> Some O.
Proof.
  unfold execute. destruct (fault st) as [[|n]|] eqn:Hf.
  - left. split; reflexivity.
  - right. eexists. repeat split; simpl; congruence.
  - right. eexists. repeat split; simpl; congruence.
Qed.

End TransactionFacts.

(** ** Batches *)

Lemma joined_apply first more t s count :
  (new_tables (joined first more t s),
   new_sequences (joined first more t s),
   affected (joined first more t s))
  = apply_statements (first :: more) t s count.
Proof.
  revert first t s count.
  induction more as [|next more IH]; intros first t s count; simpl.
  - reflexivity.
  - rewrite (IH next _ _ (affected (first t s))). reflexivity.
Qed.

Lemma apply_statements_app l1 l2 t s count :
  apply_statements (l1 ++ l2) t s count
  = let '(t1, s1, c1) := apply_statements l1 t s count in
    apply_statements l2 t1 s1 c1.
Proof.
  revert t s count. induction l1 as [|stmt l1 IH]; intros t s count; simpl.
  - reflexivity.
  - apply IH.
Qed.

Lemma paginate_fuel_concat {A} (fuel page_size : nat) (l : list A) :
  (0 < page_size)%nat -> (length l <= fuel)%nat ->
  concat (paginate_fuel fuel page_size l) = l.
Proof.
  intros Hp. revert l.
  induction fuel as [|fuel IH]; intros l Hl.
  - destruct l; [reflexivity | simpl in Hl; lia].
  - destruct l as [|x l']; [reflexivity|].
    cbn [paginate_fuel concat].
    rewrite IH.
    + apply take_drop.
    + rewrite length_drop. simpl in *. lia.
Qed.

Lemma paginate_concat {A} (page_size : nat) (l : list A) :
  (0 < page_size)%nat -> concat (_paginate page_size l) = l.
Proof. intros Hp. apply paginate_fuel_concat; [exact Hp | reflexivity]. Qed.

(** A batch either raises or has run all its statements, in order. *)
Lemma execute_pages_cases pages st :
  (exists st', execute_pages pages st = Raise st')
  \/ (exists st',
        execute_pages pages st = Done tt st'
        /\ (tx_tables st', tx_sequences st', rowcount st')
           = apply_statements (concat pages) (tx_tables st) (tx_sequences st)
                              (rowcount st)
        /\ (fault st = None -> fault st' = None)).
Proof.
  revert st. induction pages as [|page pages IH]; intros st.
  - right. exists st. repeat split; auto.
  - destruct page as [|first more].
    + simpl. apply IH.
    + cbn [execute_pages]. rewrite concat_cons. unfold bind.
      destruct (execute_cases (joined first more) st)
        as [[-> _]|(st1 & -> & Ht & Hs & Hc & Hf & _)].
      * left. eauto.
      * destruct (IH st1) as [[st' ->]|(st' & -> & Hall & Hnf)].
        -- left. eauto.
        -- right. exists st'. split; [reflexivity|]. split.
           ++ rewrite Hall, Ht, Hs, Hc, apply_statements_app.
              rewrite <- (joined_apply first more _ _ (rowcount st)).
              reflexivity.
           ++ intros Hn. apply Hnf. rewrite Hf, Hn. reflexivity.
Qed.

(** Without a fault a batch does not raise. *)
Lemma execute_pages_no_fault pages st :
  fault st = None -> exists st', execute_pages pages st = Done tt st'.
Proof.
  revert st. induction pages as [|page pages IH]; intros st Hf.
  - exists st. reflexivity.
  - destruct page as [|first more]; [simpl; auto|].
    cbn [execute_pages]. unfold bind.
    destruct (execute_cases (joined first more) st)
      as [[_ Hbad]|(st1 & -> & _ & _ & _ & Hf1 & _)]; [congruence|].
    apply IH. rewrite Hf1, Hf. reflexivity.
Qed.

Lemma execute_batch_cases {A} (sql : A -> statement unit) args page_size st :
  (0 < page_size)%nat ->
  (exists st', execute_batch sql args page_size st = Raise st')
  \/ (exists st',
        execute_batch sql args page_size st = Done tt st'
        /\ (tx_tables st', tx_sequences st', rowcount st')
           = apply_statements (map sql args) (tx_tables st) (tx_sequences st)
                              (rowcount st)
        /\ (fault st = None -> fault st' = None)).
Proof.
  intros Hp. unfold execute_batch.
  destruct (execute_pages_cases (_paginate page_size (map sql args)) st)
    as [H|(st' & H1 & H2 & H3)]; [left; exact H|].
  right. exists st'. rewrite paginate_concat in H2 by exact Hp. auto.
Qed.

Lemma execute_batch_no_fault {A} (sql : A -> statement unit) args page_size st :
  fault st = None -> exists st', execute_batch sql args page_size st = Done tt st'.
Proof. apply execute_pages_no_fault. Qed.

(** ** What each method commits *)

Import Repository.

Lemma update_developers_rows {A} cond set (out : developer -> A) t s :
  developers (new_tables (update_developers cond set out t s))
  = map (fun d => if cond d then set d else d) (developers t).
Proof. reflexivity. Qed.

(** A method made of one statement: it raises and changes nothing, or
    it returns and the statement is committed. *)
Lemma one_statement_cases {A B} (stmt : statement A) (f : A -> B) flt d :
  (exists d', get_cursor (bind (execute stmt) (fun rs => ret (f rs))) flt d
              = (Exception, d')
              /\ db_tables d' = db_tables d)
  \/ (exists d', get_cursor (bind (execute stmt) (fun rs => ret (f rs))) flt d
                 = (Returned (f (rows (stmt (db_tables d) (db_sequences d)))), d')
                 /\ db_tables d' = new_tables (stmt (db_tables d) (db_sequences d))).
Proof.
  unfold get_cursor, bind, execute, ret.
  destruct flt as [[|[|n]]|]; simpl; eauto.
Qed.

Lemma mark_as_failed_cases uname msg flt d :
  (exists d', mark_as_failed uname msg flt d = (Exception, d')
              /\ db_tables d' = db_tables d)
  \/ (exists d', mark_as_failed uname msg flt d = (Returned tt, d')
                 /\ db_tables d'
                    = new_tables (mark_failed_stmt uname msg (db_tables d)
                                                   (db_sequences d))).
Proof. apply (one_statement_cases (mark_failed_stmt uname msg) (fun _ => tt)). Qed.

Lemma increment_retry_count_cases uname msg back flt d :
  (exists d', increment_retry_count uname msg back flt d = (Exception, d')
              /\ db_tables d' = db_tables d)
  \/ (exists n d', increment_retry_count uname msg back flt d = (Returned n, d')
                   /\ db_tables d'
                      = new_tables (increment_retry_stmt uname msg back (db_tables d)
                                                         (db_sequences d))).
Proof.
  destruct (one_statement_cases
              (increment_retry_stmt uname msg back)
              (fun rs => match fetchone rs with Some n => n | None => 0 end)
              flt d) as [H|(d' & H1 & H2)]; [left; exact H|].
  right. eauto.
Qed.

Lemma claim_batch_cases from limit owner timeout now flt d :
  (exists d', claim_batch_for_processing from limit owner timeout now flt d
              = (Exception, d')
              /\ db_tables d' = db_tables d)
  \/ (exists d', claim_batch_for_processing from limit owner timeout now flt d
                 = (Returned (claimed_by_claim from limit owner timeout now d), d')
                 /\ db_tables d' = tables_after_claim from limit owner timeout now d).
Proof.
  unfold claim_batch_for_processing, claim_batch_for_processing_tx,
    claimed_by_claim, tables_after_claim, get_cursor, bind, execute,
    cursor_rowcount, ret.
  destruct flt as [[|[|[|n]]]|]; simpl; eauto.
Qed.

Lemma claim_batch_no_fault from limit owner timeout now d :
  claim_batch_for_processing from limit owner timeout now None d
  = (Returned (claimed_by_claim from limit owner timeout now d),
     {| db_tables := tables_after_claim from limit owner timeout now d;
        db_sequences := db_sequences d |}).
Proof. reflexivity. Qed.

Lemma insert_usernames_batch_cases now usernames flt d :
  (exists d', insert_usernames_batch now usernames flt d = (Exception, d')
              /\ db_tables d' = db_tables d)
  \/ (exists d', insert_usernames_batch now usernames flt d
                 = (Returned (after_insert now usernames d).2, d')
                 /\ db_tables d' = (after_insert now usernames d).1.1).
Proof.
  destruct (insert_usernames_batch now usernames flt d) as [[c|] d'] eqn:E.
  - right. exists d'. unfold insert_usernames_batch in E.
    apply get_cursor_commit in E as (st & Hbody & Ht & _).
    unfold insert_usernames_batch_tx, bind, cursor_rowcount in Hbody.
    match type of Hbody with
    | context [execute_batch ?sql ?args ?n ?st0] =>
        destruct (execute_batch_cases sql args n st0 ltac:(lia))
          as [[st' Hr]|(st' & Hr & Hall & _)]; rewrite Hr in Hbody
    end; [discriminate|].
    injection Hbody as <- <-. simpl in Hall.
    unfold after_insert. rewrite <- Hall, Ht. split; reflexivity.
  - left. exists d'. split; [reflexivity|].
    eapply get_cursor_rollback. exact E.
Qed.

Lemma insert_usernames_batch_no_fault now usernames d :
  exists d', insert_usernames_batch now usernames None d
             = (Returned (after_insert now usernames d).2, d')
             /\ db_tables d' = (after_insert now usernames d).1.1.
Proof.
  destruct (insert_usernames_batch_cases now usernames None d)
    as [(d' & E & _)|H]; [exfalso|exact H].
  unfold insert_usernames_batch, insert_usernames_batch_tx, get_cursor,
    bind, cursor_rowcount in E.
  match type of E with
  | context [execute_batch ?sql ?args ?n ?st0] =>
      destruct (execute_batch_cases sql args n st0 ltac:(lia))
        as [[st' Hr]|(st' & Hr & _ & Hf)];
      [destruct (execute_batch_no_fault sql args n st0 eq_refl) as [st'' Hd];
       congruence|]
  end.
  rewrite Hr in E. rewrite Hf in E by reflexivity. discriminate.
Qed.

Section CommitProfileFacts.
Variable fromisoformat : string -> option Z.

Lemma insert_social_links_cases now developer_id sl st :
  (exists st', _insert_social_links now developer_id sl st = Raise st')
  \/ (exists st',
        _insert_social_links now developer_id sl st = Done tt st'
        /\ (tx_tables st', tx_sequences st', rowcount st')
           = apply_statements
               (map (upsert_social_link now) (social_data developer_id sl))
               (tx_tables st) (tx_sequences st) (rowcount st)
        /\ (fault st = None -> fault st' = None)).
Proof.
  unfold _insert_social_links.
  destruct (social_data developer_id sl) as [|x data] eqn:E.
  - right. exists st. auto.
  - apply execute_batch_cases. lia.
Qed.

Lemma insert_repositories_cases developer_id repos st :
  (exists st', _insert_repositories developer_id repos st = Raise st')
  \/ (exists st',
        _insert_repositories developer_id repos st = Done tt st'
        /\ (tx_tables st', tx_sequences st', rowcount st')
           = apply_statements
               (map (upsert_repository developer_id) (enumerate repos))
               (tx_tables st) (tx_sequences st) (rowcount st)
        /\ (fault st = None -> fault st' = None)).
Proof.
  unfold _insert_repositories.
  destruct (enumerate repos) as [|x data] eqn:E.
  - right. exists st. auto.
  - apply execute_batch_cases. lia.
Qed.

Lemma update_profile_tx_cases p now st :
  let r1 := update_profile_stmt fromisoformat p now (tx_tables st) (tx_sequences st) in
  (exists st', update_profile_tx fromisoformat p now st = Raise st')
  \/ (exists st',
        update_profile_tx fromisoformat p now st = Done None st'
        /\ fetchone (rows r1) = None
        /\ tx_tables st' = new_tables r1
        /\ (fault st = None -> fault st' = None))
  \/ (exists developer_id st',
        update_profile_tx fromisoformat p now st = Done (Some developer_id) st'
        /\ fetchone (rows r1) = Some developer_id
        /\ tx_tables st'
           = (apply_statements (child_statements p now developer_id)
                               (new_tables r1) (new_sequences r1) (affected r1)).1.1
        /\ (fault st = None -> fault st' = None)).
Proof.
  intros r1. unfold update_profile_tx, bind.
  destruct (execute_cases (update_profile_stmt fromisoformat p now) st)
    as [[-> _]|(st1 & -> & Ht1 & Hs1 & Hc1 & Hf1 & _)]; [left; eauto|].
  fold r1 in Ht1, Hs1, Hc1 |- *.
  assert (Hnf1 : fault st = None -> fault st1 = None).
  { intros Hn. rewrite Hf1, Hn. reflexivity. }
  destruct (fetchone (rows r1)) as [developer_id|] eqn:Hone.
  - destruct (insert_social_links_cases now developer_id (Profile.social_links p) st1)
      as [[st' ->]|(st2 & -> & Hall2 & Hnf2)]; [left; eauto|].
    destruct (insert_repositories_cases developer_id (Profile.top_repos p) st2)
      as [[st' ->]|(st3 & -> & Hall3 & Hnf3)]; [left; eauto|].
    right. right. exists developer_id, st3. unfold ret.
    split; [reflexivity|]. split; [reflexivity|]. split; [|auto].
    unfold child_statements. rewrite apply_statements_app.
    rewrite <- Ht1, <- Hs1, <- Hc1, <- Hall2, <- Hall3. reflexivity.
  - right. left. exists st1. unfold ret. auto.
Qed.

Lemma update_profile_cases p now flt d :
  let r1 := update_profile_stmt fromisoformat p now (db_tables d) (db_sequences d) in
  (exists d', update_profile fromisoformat p now flt d = (Exception, d')
              /\ db_tables d' = db_tables d)
  \/ (exists d', update_profile fromisoformat p now flt d = (Returned None, d')
                 /\ fetchone (rows r1) = None
                 /\ db_tables d' = new_tables r1)
  \/ (exists developer_id d',
        update_profile fromisoformat p now flt d = (Returned (Some developer_id), d')
        /\ fetchone (rows r1) = Some developer_id
        /\ db_tables d' = tables_after_commit fromisoformat p now developer_id d).
Proof.
  intros r1.
  destruct (update_profile fromisoformat p now flt d) as [[[developer_id|]|] d'] eqn:E.
  - right. right. exists developer_id, d'. split; [reflexivity|].
    apply get_cursor_commit in E as (st & Hbody & Ht & _).
    destruct (update_profile_tx_cases p now
                {| tx_tables := db_tables d; tx_sequences := db_sequences d;
                   rowcount := -1; fault := flt |})
      as [[st' H]|[(st' & H & _)|(i & st' & H & Hone & Htab & _)]];
      rewrite H in Hbody; try discriminate.
    injection Hbody as <- <-. simpl in Hone, Htab.
    split; [exact Hone|]. rewrite Ht, Htab. reflexivity.
  - right. left. exists d'. split; [reflexivity|].
    apply get_cursor_commit in E as (st & Hbody & Ht & _).
    destruct (update_profile_tx_cases p now
                {| tx_tables := db_tables d; tx_sequences := db_sequences d;
                   rowcount := -1; fault := flt |})
      as [[st' H]|[(st' & H & Hone & Htab & _)|(i & st' & H & _)]];
      rewrite H in Hbody; try discriminate.
    injection Hbody as <-. simpl in Hone, Htab.
    split; [exact Hone|]. rewrite Ht, Htab. reflexivity.
  - left. exists d'. split; [reflexivity|].
    eapply get_cursor_rollback. exact E.
Qed.

(** Without a fault [update_profile] returns. *)
Lemma update_profile_no_fault p now d :
  exists r d', update_profile fromisoformat p now None d = (Returned r, d').
Proof.
  unfold update_profile, get_cursor.
  destruct (update_profile_tx_cases p now
              {| tx_tables := db_tables d; tx_sequences := db_sequences d;
                 rowcount := -1; fault := None |})
    as [[st' H]|[(st' & H & _ & _ & Hf)|(i & st' & H & _ & _ & Hf)]].
  - exfalso. revert H. unfold update_profile_tx, bind, execute. simpl.
    destruct (fetchone _) as [developer_id|]; [|discriminate].
    match goal with
    | |- context [_insert_social_links ?n ?i ?sl ?st0] =>
        destruct (insert_social_links_cases n i sl st0)
          as [[st1 H1]|(st1 & H1 & _ & Hf1)]
    end.
    + revert H1. unfold _insert_social_links.
      destruct (social_data _ _) as [|x data]; [discriminate|].
      match goal with
      | |- context [execute_batch ?sql ?args ?n ?st0] =>
          destruct (execute_batch_no_fault sql args n st0 eq_refl) as [st2 ->]
      end. discriminate.
    + rewrite H1.
      match goal with
      | |- context [_insert_repositories ?i ?rs ?st0] =>
          destruct (insert_repositories_cases i rs st0)
            as [[st2 H2]|(st2 & H2 & _)]
      end; [|rewrite H2; discriminate].
      revert H2. unfold _insert_repositories.
      destruct (enumerate _) as [|x data]; [discriminate|].
      match goal with
      | |- context [execute_batch ?sql ?args ?n ?st0] =>
          destruct (execute_batch_no_fault sql args n st0 (Hf1 eq_refl)) as [st3 ->]
      end. discriminate.
  - rewrite H, (Hf eq_refl). eauto.
  - rewrite H, (Hf eq_refl). eauto.
Qed.

End CommitProfileFacts.

(** ** The developers table under each statement *)

Lemma apply_statements_keep {X} (proj : tables -> X) stmts t s count :
  Forall (fun stmt : statement unit =>
            forall t0 s0, proj (new_tables (stmt t0 s0)) = proj t0) stmts ->
  proj (apply_statements stmts t s count).1.1 = proj t.
Proof.
  intros H. revert t s count.
  induction H as [|stmt stmts Hstmt _ IH]; intros t s count; simpl.
  - reflexivity.
  - rewrite IH. apply Hstmt.
Qed.

Lemma child_statements_keep_developers p now developer_id t s count :
  developers (apply_statements (child_statements p now developer_id) t s count).1.1
  = developers t.
Proof.
  apply (apply_statements_keep developers).
  unfold child_statements. apply Forall_app. split; apply Forall_forall.
  - intros stmt Hin t0 s0. apply list_elem_of_In, in_map_iff in Hin.
    destruct Hin as ([[i pl] u] & <- & _). reflexivity.
  - intros stmt Hin t0 s0. apply list_elem_of_In, in_map_iff in Hin.
    destruct Hin as ([i r] & <- & _). reflexivity.
Qed.

Lemma tables_after_commit_developers fromisoformat p now developer_id d :
  developers (tables_after_commit fromisoformat p now developer_id d)
  = map (fun r => if has_username (Profile.username p) r
                  then set_profile fromisoformat p now r else r)
        (developers (db_tables d)).
Proof.
  unfold tables_after_commit. rewrite child_statements_keep_developers.
  reflexivity.
Qed.

(** Inserted usernames go to the end of the table; the rows already
    there are not touched. *)
Lemma insert_statements_developers now usernames t s count :
  exists fresh,
    developers (apply_statements (map (insert_username now) usernames) t s count).1.1
    = developers t ++ fresh
    /\ Forall (fun r => exists i u, r = new_developer i u now /\ u ∈ usernames) fresh.
Proof.
  revert t s count.
  induction usernames as [|u us IH]; intros t s count; simpl.
  - exists []. rewrite app_nil_r. split; [reflexivity | constructor].
  - assert (Hstep :
      (new_tables (insert_username now u t s) = t
       \/ new_tables (insert_username now u t s)
          = {| developers := developers t ++ [new_developer (developers_id_seq s) u now];
               social_links := social_links t;
               repositories := repositories t |})).
    { unfold insert_username.
      destruct (existsb (has_username u) (developers t)); [left | right]; reflexivity. }
    destruct (IH (new_tables (insert_username now u t s))
                 (new_sequences (insert_username now u t s))
                 (affected (insert_username now u t s))) as (fresh & -> & Hf).
    assert (Hf' : Forall (fun r => exists i u0, r = new_developer i u0 now
                                               /\ u0 ∈ u :: us) fresh).
    { eapply Forall_impl; [exact Hf|]. intros r (i & u' & -> & Hin).
      exists i, u'. split; [reflexivity | right; exact Hin]. }
    destruct Hstep as [-> | ->].
    + exists fresh. split; [reflexivity | exact Hf'].
    + simpl. exists (new_developer (developers_id_seq s) u now :: fresh).
      split; [rewrite <- app_assoc; reflexivity|].
      constructor; [|exact Hf'].
      exists (developers_id_seq s), u. split; [reflexivity | left].
Qed.

Lemma after_insert_developers now usernames d :
  exists fresh,
    developers (after_insert now usernames d).1.1
    = developers (db_tables d) ++ fresh
    /\ Forall (fun r => exists i u, r = new_developer i u now /\ u ∈ usernames) fresh.
Proof. apply insert_statements_developers. Qed.

Lemma tables_after_claim_developers from limit owner timeout now d :
  developers (tables_after_claim from limit owner timeout now d)
  = map (fun r =>
           if id_in (select_claimable
                       from limit
                       (new_tables (release_stale from now timeout
                                                  (db_tables d) (db_sequences d)))) r
           then with_bookkeeping r PROCESSING (retry_count r) (last_error r)
                                 (Some now) (Some owner)
           else r)
        (map (fun r =>
                if is_stale now timeout r
                then with_bookkeeping r from (retry_count r) (last_error r) None None
                else r)
             (developers (db_tables d))).
Proof. reflexivity. Qed.

(** ** The status invariant *)

Lemma consistent_unclaimed d status retries error :
  status <> PROCESSING ->
  claim_fields_consistent (with_bookkeeping d status retries error None None).
Proof.
  intros Hs. unfold claim_fields_consistent. simpl.
  split; split; intros H; congruence.
Qed.

Lemma consistent_claimed d retries error now owner :
  claim_fields_consistent
    (with_bookkeeping d PROCESSING retries error (Some now) (Some owner)).
Proof.
  unfold claim_fields_consistent. simpl.
  split; split; intros H; congruence.
Qed.

Lemma consistent_profiled fromisoformat p now d :
  claim_fields_consistent (set_profile fromisoformat p now d).
Proof.
  unfold claim_fields_consistent. simpl.
  split; split; intros H; congruence.
Qed.

Lemma consistent_new i u now : claim_fields_consistent (new_developer i u now).
Proof.
  unfold claim_fields_consistent. simpl.
  split; split; intros H; congruence.
Qed.

Lemma Forall_map_if {A} (P : A -> Prop) (cond : A -> bool) (f : A -> A) l :
  (forall x, P x -> cond x = true -> P (f x)) ->
  Forall P l -> Forall P (map (fun x => if cond x then f x else x) l).
Proof.
  intros Hf Hl. induction Hl as [|x l Hx _ IH]; simpl; constructor; auto.
  destruct (cond x) eqn:E; auto.
Qed.

(** One operation keeps the invariant, when it does not return rows to
    PROCESSING. *)
Lemma status_invariant_step (op : operation) (fromisoformat : string -> option Z)
      (now : Z) (flt : option nat) (d : database) :
  returns_to_claimable op ->
  status_invariant d ->
  status_invariant (run fromisoformat op now flt d).2.
Proof.
  unfold status_invariant. intros Hop Hinv.
  destruct op as [usernames|from limit owner timeout|p|uname msg|uname msg back];
    simpl in Hop |- *.
  - destruct (insert_usernames_batch_cases now usernames flt d)
      as [(d' & E & Ht)|(d' & E & Ht)]; rewrite E; simpl; rewrite Ht;
      [exact Hinv|].
    destruct (after_insert_developers now usernames d) as (fresh & -> & Hfresh).
    apply Forall_app. split; [exact Hinv|].
    eapply Forall_impl; [exact Hfresh|].
    intros r (i & u & -> & _). apply consistent_new.
  - destruct (claim_batch_cases from limit owner timeout now flt d)
      as [(d' & E & Ht)|(d' & E & Ht)]; rewrite E; simpl; rewrite Ht;
      [exact Hinv|].
    rewrite tables_after_claim_developers.
    apply Forall_map_if; [intros; apply consistent_claimed|].
    apply Forall_map_if; [intros; apply consistent_unclaimed; exact Hop|].
    exact Hinv.
  - destruct (update_profile_cases fromisoformat p now flt d)
      as [(d' & E & Ht)|[(d' & E & _ & Ht)|(i & d' & E & _ & Ht)]];
      rewrite E; simpl; rewrite Ht; [exact Hinv| |].
    + apply Forall_map_if; [intros; apply consistent_profiled | exact Hinv].
    + rewrite tables_after_commit_developers.
      apply Forall_map_if; [intros; apply consistent_profiled | exact Hinv].
  - destruct (mark_as_failed_cases uname msg flt d)
      as [(d' & E & Ht)|(d' & E & Ht)]; rewrite E; simpl; rewrite Ht;
      [exact Hinv|].
    apply Forall_map_if; [|exact Hinv].
    intros; apply consistent_unclaimed; discriminate.
  - destruct (increment_retry_count_cases uname msg back flt d)
      as [(d' & E & Ht)|(n & d' & E & Ht)]; rewrite E; simpl; rewrite Ht;
      [exact Hinv|].
    apply Forall_map_if; [|exact Hinv].
    intros; apply consistent_unclaimed; exact Hop.
Qed.

(** C3, as the code has it. A store in which each claim field is set
    exactly on the PROCESSING rows stays so under every write operation
    (insert, claim with its stale release, commit of a profile, failure
    and retry bookkeeping), at any time and under any fault, and so
    after any history of such operations, provided the status to which a
    claim or a retry returns rows is not PROCESSING itself. *)
Theorem status_invariant_kept (fromisoformat : string -> option Z)
        (history : list (operation * Z * option nat)) (d : database) :
  Forall (fun step => returns_to_claimable step.1.1) history ->
  status_invariant d ->
  status_invariant (run_all fromisoformat history d).
Proof.
  intros Hops. revert d.
  induction Hops as [|[[op now] flt] rest Hop _ IH]; intros d Hinv; simpl.
  - exact Hinv.
  - apply IH. apply status_invariant_step; assumption.
Qed.

Lemma status_invariant_kept_witness :
  status_invariant
    (run_all no_parse
             [(ClaimBatch INITIAL 1 "host-1" 30, 7200, None);
              (RecordRetry "bob" "connection lost" INITIAL, 7300, None)]
             (store_of [row 1 "alice" PROCESSING 0 (Some 0) (Some "host-2");
                        row 2 "bob" INITIAL 0 None None])).
Proof.
  apply (status_invariant_kept no_parse).
  - repeat constructor; simpl; discriminate.
  - unfold status_invariant. simpl.
    repeat constructor; simpl; congruence.
Defined.

(** C3 as stated fails: a retry told to return the row to PROCESSING
    leaves a PROCESSING row with both claim fields empty. *)
Lemma status_invariant_counterexample :
  ~ (forall op : operation, keeps_status_invariant op).
Proof.
  intros H.
  specialize (H (RecordRetry "alice" "boom" PROCESSING) no_parse 60 None
                (store_of [row 1 "alice" PROCESSING 0 (Some 0) (Some "host-1")])).
  assert (Hinv : status_invariant
                   (store_of [row 1 "alice" PROCESSING 0 (Some 0) (Some "host-1")])).
  { unfold status_invariant. simpl. repeat constructor; simpl; congruence. }
  specialize (H Hinv). unfold status_invariant in H. simpl in H.
  apply Forall_inv in H. destruct H as [H _]. simpl in H.
  apply H; reflexivity.
Qed.

(** ** Retry accounting *)

Lemma lookup_map {A B} (f : A -> B) (l : list A) (i : nat) :
  map f l !! i = f <$> (l !! i).
Proof.
  revert i. induction l as [|x l IH]; intros [|i]; simpl; auto.
Qed.

(** What one operation does to the retry count of the row at a given
    place. *)
Lemma retry_count_step (op : operation) (fromisoformat : string -> option Z)
      (now : Z) (flt : option nat) (d : database) (i : nat) (r : developer) :
  developers (db_tables d) !! i = Some r ->
  exists r',
    developers (db_tables (run fromisoformat op now flt d).2) !! i = Some r'
    /\ id r' = id r
    /\ username r' = username r
    /\ retry_count r' = expected_retries op (run fromisoformat op now flt d).1 r
    /\ (retry_count r' < retry_count r ->
        exists p, op = CommitProfile p
                  /\ (run fromisoformat op now flt d).1 = true
                  /\ username r = Profile.username p
                  /\ retry_count r' = 0).
Proof.
  intros Hr.
  assert (Hsame : forall d', db_tables d' = db_tables d ->
            exists r', developers (db_tables d') !! i = Some r'
                       /\ id r' = id r /\ username r' = username r
                       /\ retry_count r' = retry_count r).
  { intros d' ->. exists r. auto. }
  assert (Hmap : forall (cond : developer -> bool) (f : developer -> developer) d',
            developers (db_tables d')
            = map (fun x => if cond x then f x else x) (developers (db_tables d)) ->
            developers (db_tables d') !! i = Some (if cond r then f r else r)).
  { intros cond f d' ->. rewrite lookup_map, Hr. reflexivity. }
  destruct op as [usernames|from limit owner timeout|p|uname msg|uname msg back];
    simpl.
  - destruct (insert_usernames_batch_cases now usernames flt d)
      as [(d' & E & Ht)|(d' & E & Ht)]; rewrite E; simpl.
    + destruct (Hsame d' Ht) as (r' & H1 & H2 & H3 & H4).
      exists r'. repeat split; auto. lia.
    + exists r. repeat split; auto; [|lia].
      rewrite Ht.
      destruct (after_insert_developers now usernames d) as (fresh & -> & _).
      apply lookup_app_l_Some. exact Hr.
  - destruct (claim_batch_cases from limit owner timeout now flt d)
      as [(d' & E & Ht)|(d' & E & Ht)]; rewrite E; simpl.
    + destruct (Hsame d' Ht) as (r' & H1 & H2 & H3 & H4).
      exists r'. repeat split; auto. lia.
    + rewrite Ht, tables_after_claim_developers, !lookup_map, Hr. simpl.
      eexists. split; [reflexivity|].
      destruct (is_stale now timeout r);
        match goal with |- context [id_in ?ids ?x] => destruct (id_in ids x) end;
        simpl; repeat split; auto; lia.
  - destruct (update_profile_cases fromisoformat p now flt d)
      as [(d' & E & Ht)|[(d' & E & Hone & Ht)|(j & d' & E & Hone & Ht)]];
      rewrite E; simpl.
    + destruct (Hsame d' Ht) as (r' & H1 & H2 & H3 & H4).
      exists r'. repeat split; auto. lia.
    + rewrite (Hmap (has_username (Profile.username p))
                    (set_profile fromisoformat p now) d')
        by (rewrite Ht; reflexivity).
      eexists. split; [reflexivity|].
      destruct (has_username (Profile.username p) r) eqn:Hu; simpl;
        repeat split; auto; try lia.
      intros _. exists p. repeat split; auto.
      apply String.eqb_eq. exact Hu.
    + rewrite (Hmap (has_username (Profile.username p))
                    (set_profile fromisoformat p now) d')
        by (rewrite Ht; apply tables_after_commit_developers).
      eexists. split; [reflexivity|].
      destruct (has_username (Profile.username p) r) eqn:Hu; simpl;
        repeat split; auto; try lia.
      intros _. exists p. repeat split; auto.
      apply String.eqb_eq. exact Hu.
  - destruct (mark_as_failed_cases uname msg flt d)
      as [(d' & E & Ht)|(d' & E & Ht)]; rewrite E; simpl.
    + destruct (Hsame d' Ht) as (r' & H1 & H2 & H3 & H4).
      exists r'. repeat split; auto. lia.
    + rewrite (Hmap (has_username uname)
                    (fun x => with_bookkeeping x FAILED (retry_count x + 1)
                                               (Some msg) None None) d')
        by (rewrite Ht; reflexivity).
      eexists. split; [reflexivity|].
      destruct (has_username uname r); simpl; repeat split; auto; lia.
  - destruct (increment_retry_count_cases uname msg back flt d)
      as [(d' & E & Ht)|(n & d' & E & Ht)]; rewrite E; simpl.
    + destruct (Hsame d' Ht) as (r' & H1 & H2 & H3 & H4).
      exists r'. repeat split; auto. lia.
    + rewrite (Hmap (has_username uname)
                    (fun x => with_bookkeeping x back (retry_count x + 1)
                                               (Some msg) None None) d')
        by (rewrite Ht; reflexivity).
      eexists. split; [reflexivity|].
      destruct (has_username uname r); simpl; repeat split; auto; lia.
Qed.

(** C8. Under any operation, at any time and under any fault, the row
    at a given place keeps its id and username, and its retry count
    becomes exactly: 0 if the operation is a profile commit of its
    username that returned; one more if it is a failure or a retry of its
    username that returned; the same otherwise. So the count goes down
    only through a successful profile commit, which makes it 0, and over
    any history without a profile commit of its username it does not go
    down. *)
Theorem retry_count_monotone (fromisoformat : string -> option Z)
        (d : database) (i : nat) (r : developer) :
  developers (db_tables d) !! i = Some r ->
  (forall op now flt,
      exists r',
        developers (db_tables (run fromisoformat op now flt d).2) !! i = Some r'
        /\ id r' = id r
        /\ username r' = username r
        /\ retry_count r' = expected_retries op (run fromisoformat op now flt d).1 r
        /\ (retry_count r' < retry_count r ->
            exists p, op = CommitProfile p
                      /\ (run fromisoformat op now flt d).1 = true
                      /\ username r = Profile.username p
                      /\ retry_count r' = 0))
  /\ (forall history,
         Forall (fun step : operation * Z * option nat =>
                   ~ commits_username step.1.1 (username r)) history ->
         exists r',
           developers (db_tables (run_all fromisoformat history d)) !! i = Some r'
           /\ id r' = id r
           /\ username r' = username r
           /\ retry_count r <= retry_count r').
Proof.
  intros Hr. split.
  - intros op now flt. apply retry_count_step. exact Hr.
  - intros history Hno. revert d r Hr Hno.
    induction history as [|[[op now] flt] rest IH]; intros d r Hr Hno; simpl.
    + exists r. repeat split; auto. lia.
    + apply Forall_cons in Hno as [Hop Hrest].
      destruct (retry_count_step op fromisoformat now flt d i r Hr)
        as (r1 & Hr1 & Hid1 & Hu1 & _ & Hdown).
      destruct (IH _ r1 Hr1) as (r' & Hr' & Hid' & Hu' & Hle).
      { rewrite Hu1. exact Hrest. }
      exists r'. split; [exact Hr'|]. split; [congruence|]. split; [congruence|].
      destruct (Z.lt_ge_cases (retry_count r1) (retry_count r)) as [Hlt|Hge]; [|lia].
      exfalso. destruct (Hdown Hlt) as (p & -> & _ & Hp & _).
      apply Hop. exists p. auto.
Qed.

Lemma retry_count_monotone_witness :
  exists r',
    developers
      (db_tables (run no_parse (RecordFailure "alice" "boom") 60 None
                      (store_of [row 1 "alice" PROCESSING 2 (Some 0) (Some "host-1")])).2)
      !! 0%nat = Some r'
    /\ id r' = 1
    /\ username r' = "alice"%string
    /\ retry_count r' = 3.
Proof.
  destruct (retry_count_monotone
              no_parse
              (store_of [row 1 "alice" PROCESSING 2 (Some 0) (Some "host-1")])
              0%nat (row 1 "alice" PROCESSING 2 (Some 0) (Some "host-1"))
              eq_refl) as [Hstep _].
  destruct (Hstep (RecordFailure "alice" "boom") 60 None)
    as (r' & H1 & H2 & H3 & H4 & _).
  exists r'. repeat split; assumption.
Defined.

(** ** Claiming *)

Lemma insert_by_id_perm r l : insert_by_id r l ≡ₚ r :: l.
Proof.
  induction l as [|e l IH]; simpl; [reflexivity|].
  destruct (id r <=? id e); [reflexivity|].
  rewrite IH. apply Permutation_swap.
Qed.

Lemma order_by_id_perm l : order_by_id l ≡ₚ l.
Proof.
  induction l as [|r l IH]; simpl; [reflexivity|].
  rewrite insert_by_id_perm, IH. reflexivity.
Qed.

(** A claimable id belongs to a row that has the status claimed from. *)
Lemma select_claimable_sound from limit t i :
  i ∈ select_claimable from limit t ->
  exists r, r ∈ developers t /\ enrichment_status r = from /\ id r = i.
Proof.
  unfold select_claimable. intros Hin.
  apply list_elem_of_In, in_map_iff in Hin. destruct Hin as (r & Hid & Hr).
  apply list_elem_of_In in Hr.
  apply (subseteq_take limit) in Hr. rewrite order_by_id_perm in Hr.
  apply list_elem_of_filter in Hr. destruct Hr as [Hs Hr].
  exists r. auto.
Qed.

(** With a limit that covers the table every row of that status is
    claimable. *)
Lemma select_claimable_complete from limit t r :
  (length (developers t) <= limit)%nat ->
  r ∈ developers t -> enrichment_status r = from ->
  id r ∈ select_claimable from limit t.
Proof.
  unfold select_claimable. intros Hlen Hr Hs.
  apply list_elem_of_In, in_map_iff. exists r. split; [reflexivity|].
  apply list_elem_of_In. rewrite take_ge.
  - rewrite order_by_id_perm. apply list_elem_of_filter. auto.
  - rewrite order_by_id_perm.
    etransitivity; [apply length_filter | exact Hlen].
Qed.

Lemma id_in_spec ids r : id_in ids r = true <-> id r ∈ ids.
Proof.
  unfold id_in. rewrite existsb_exists. split.
  - intros (x & Hin & Heq). apply Z.eqb_eq in Heq. subst x.
    apply list_elem_of_In. exact Hin.
  - intros Hin. exists (id r). split; [apply list_elem_of_In; exact Hin|].
    apply Z.eqb_refl.
Qed.

(** The usernames a claim returns are those of the rows it updates. *)
Lemma claim_rows_returned from limit owner now t s x :
  x ∈ developers t ->
  id_in (select_claimable from limit t) x = true ->
  username x ∈ rows (claim_rows from limit owner now t s).
Proof.
  intros Hx Hin. unfold claim_rows, update_developers. simpl.
  apply list_elem_of_In, in_map_iff. exists x. split; [reflexivity|].
  apply list_elem_of_In, list_elem_of_filter. auto.
Qed.

Lemma unique_key {A} (key : A -> Z) (l : list A) a b :
  NoDup (map key l) -> a ∈ l -> b ∈ l -> key a = key b -> a = b.
Proof.
  induction l as [|x l IH]; simpl; intros Hnd Ha Hb Hk.
  - inversion Ha.
  - apply NoDup_cons in Hnd as [Hx Hnd].
    apply elem_of_cons in Ha as [->|Ha]; apply elem_of_cons in Hb as [->|Hb]; auto.
    + exfalso. apply Hx. rewrite Hk.
      apply list_elem_of_In, in_map, list_elem_of_In. exact Hb.
    + exfalso. apply Hx. rewrite <- Hk.
      apply list_elem_of_In, in_map, list_elem_of_In. exact Ha.
Qed.

Lemma release_keeps_ids from timeout now d :
  map id (developers_after_release from timeout now d)
  = map id (developers (db_tables d)).
Proof.
  unfold developers_after_release, release_stale.
  rewrite update_developers_rows, map_map.
  apply map_ext. intros r. destruct (is_stale now timeout r); reflexivity.
Qed.

Lemma is_stale_processing now timeout r t :
  enrichment_status r = PROCESSING ->
  processing_started_at r = Some t ->
  is_stale now timeout r = (t <? now - 60 * timeout).
Proof.
  intros Hs Ht. unfold is_stale, status_eqb, older_than. rewrite Hs, Ht.
  reflexivity.
Qed.

Lemma released_not_stale from now timeout r :
  is_stale now timeout (released from r) = false.
Proof. unfold is_stale, released. simpl. apply andb_false_r. Qed.

Lemma after_release_lookup from timeout now d i r :
  developers (db_tables d) !! i = Some r ->
  developers_after_release from timeout now d !! i
  = Some (if is_stale now timeout r then released from r else r).
Proof.
  intros Hr. unfold developers_after_release, release_stale.
  rewrite update_developers_rows, lookup_map, Hr. reflexivity.
Qed.

Lemma after_claim_lookup from limit owner timeout now d i x :
  developers_after_release from timeout now d !! i = Some x ->
  developers (tables_after_claim from limit owner timeout now d) !! i
  = Some (if id_in (select_claimable
                      from limit
                      (new_tables (release_stale from now timeout
                                                 (db_tables d) (db_sequences d)))) x
          then claimed owner now x else x).
Proof.
  intros Hx. unfold tables_after_claim, claim_rows.
  rewrite update_developers_rows, lookup_map.
  unfold developers_after_release in Hx. rewrite Hx. reflexivity.
Qed.

(** C2. Take a PROCESSING row claimed at [t] and a claim call made at
    [now] that does not raise. If [t] is older than [now] minus the
    timeout, the release step resets the row to [from_status] with both
    claim fields empty; the call then ends with the row either so
    released or claimed anew by this very call (and then among the
    usernames it returns); a released row is claimable: any later claim
    from the same status whose limit covers the table returns it. If [t]
    is not older, the release step leaves the row alone, and (ids being
    unique) the call leaves it alone too, unless it claims from
    PROCESSING itself. *)
Theorem stale_claim_recovery (from : EnrichmentStatus) (limit : nat)
        (owner : string) (timeout now : Z) (d : database)
        (i : nat) (r : developer) (t : Z) :
  developers (db_tables d) !! i = Some r ->
  enrichment_status r = PROCESSING ->
  processing_started_at r = Some t ->
  exists d' r',
    claim_batch_for_processing from limit owner timeout now None d
    = (Returned (claimed_by_claim from limit owner timeout now d), d')
    /\ developers (db_tables d') !! i = Some r'
    /\ (t < now - 60 * timeout ->
        developers_after_release from timeout now d !! i = Some (released from r)
        /\ enrichment_status (released from r) = from
        /\ claimed_by (released from r) = None
        /\ processing_started_at (released from r) = None
        /\ (r' = released from r
            \/ (r' = claimed owner now (released from r)
                /\ username r ∈ claimed_by_claim from limit owner timeout now d))
        /\ forall limit2 owner2 timeout2 now2,
            r' = released from r ->
            (length (developers (db_tables d')) <= limit2)%nat ->
            username r ∈ claimed_by_claim from limit2 owner2 timeout2 now2 d')
    /\ (now - 60 * timeout <= t ->
        developers_after_release from timeout now d !! i = Some r
        /\ (unique_ids d ->
            r' = r
            \/ (from = PROCESSING
                /\ r' = claimed owner now r
                /\ username r ∈ claimed_by_claim from limit owner timeout now d))).
Proof.
  intros Hr Hs Ht.
  pose proof (after_release_lookup from timeout now d i r Hr) as Hx.
  rewrite (is_stale_processing now timeout r t Hs Ht) in Hx.
  set (t1 := new_tables (release_stale from now timeout (db_tables d) (db_sequences d))).
  eexists. eexists. split; [apply claim_batch_no_fault|]. cbn [db_tables].
  split; [eapply after_claim_lookup; exact Hx|]. fold t1.
  assert (Hret : forall x,
            developers_after_release from timeout now d !! i = Some x ->
            id_in (select_claimable from limit t1) x = true ->
            username x ∈ claimed_by_claim from limit owner timeout now d).
  { intros x Hxi Hin. unfold claimed_by_claim.
    apply claim_rows_returned; [|exact Hin].
    eapply list_elem_of_lookup_2. exact Hxi. }
  split.
  - intros Hold. apply Z.ltb_lt in Hold. rewrite Hold in Hx |- *.
    split; [exact Hx|]. do 3 (split; [reflexivity|]). split.
    + destruct (id_in (select_claimable from limit t1) (released from r)) eqn:Hin;
        [right | left; reflexivity].
      split; [reflexivity|]. apply (Hret _ Hx Hin).
    + intros limit2 owner2 timeout2 now2 Hrel Hlen.
      destruct (id_in (select_claimable from limit t1) (released from r)) eqn:Hin;
        [discriminate Hrel|].
      set (d' := {| db_tables := tables_after_claim from limit owner timeout now d;
                    db_sequences := db_sequences d |}) in *.
      assert (Hi : developers (db_tables d') !! i = Some (released from r)).
      { unfold d'. cbn [db_tables]. erewrite after_claim_lookup by exact Hx.
        fold t1. rewrite Hin. reflexivity. }
      pose proof (after_release_lookup from timeout2 now2 d' i _ Hi) as Hx2.
      rewrite released_not_stale in Hx2.
      unfold claimed_by_claim.
      change (username r) with (username (released from r)).
      apply claim_rows_returned.
      * eapply list_elem_of_lookup_2. exact Hx2.
      * apply id_in_spec. apply select_claimable_complete.
        -- fold (developers_after_release from timeout2 now2 d').
           rewrite <- (length_map id), release_keeps_ids, length_map. exact Hlen.
        -- eapply list_elem_of_lookup_2. exact Hx2.
        -- reflexivity.
  - intros Hnew. apply Z.ltb_ge in Hnew. rewrite Hnew in Hx |- *.
    split; [exact Hx|]. intros Huniq.
    destruct (id_in (select_claimable from limit t1) r) eqn:Hin;
      [right | left; reflexivity].
    assert (Hfrom : from = PROCESSING).
    { apply id_in_spec, select_claimable_sound in Hin.
      destruct Hin as (r2 & Hr2 & Hs2 & Hid).
      assert (r2 = r) as ->; [|congruence].
      apply (unique_key id (developers_after_release from timeout now d)).
      - rewrite release_keeps_ids. exact Huniq.
      - exact Hr2.
      - eapply list_elem_of_lookup_2. exact Hx.
      - exact Hid. }
    split; [exact Hfrom|]. split; [reflexivity|]. apply (Hret _ Hx Hin).
Qed.

Lemma stale_claim_recovery_witness :
  exists d' r',
    claim_batch_for_processing INITIAL 50 "host-1" 30 7200 None
      (store_of [row 1 "alice" PROCESSING 0 (Some 3600) (Some "host-2");
                 row 2 "bob" PROCESSING 0 (Some 6300) (Some "host-2")])
    = (Returned ["alice"%string], d')
    /\ developers (db_tables d') !! 0%nat = Some r'
    /\ developers_after_release
         INITIAL 30 7200
         (store_of [row 1 "alice" PROCESSING 0 (Some 3600) (Some "host-2");
                    row 2 "bob" PROCESSING 0 (Some 6300) (Some "host-2")])
       !! 0%nat
       = Some (released INITIAL (row 1 "alice" PROCESSING 0 (Some 3600) (Some "host-2"))).
Proof.
  destruct (stale_claim_recovery
              INITIAL 50 "host-1" 30 7200
              (store_of [row 1 "alice" PROCESSING 0 (Some 3600) (Some "host-2");
                         row 2 "bob" PROCESSING 0 (Some 6300) (Some "host-2")])
              0%nat (row 1 "alice" PROCESSING 0 (Some 3600) (Some "host-2")) 3600
              eq_refl eq_refl eq_refl)
    as (d' & r' & Hcall & Hrow & Hstale & _).
  exists d', r'. split; [exact Hcall|]. split; [exact Hrow|].
  apply Hstale. reflexivity.
Defined.

(** The two instants of the stale-recovery example, for a timeout of
    [m > 0] minutes: a claim made two timeouts ago is stale, one made
    half a timeout ago is not. *)
Lemma stale_threshold_examples (now m : Z) (r : developer) :
  0 < m ->
  enrichment_status r = PROCESSING ->
  (processing_started_at r = Some (now - 2 * (60 * m)) ->
   is_stale now m r = true)
  /\ (processing_started_at r = Some (now - (60 * m) / 2) ->
      is_stale now m r = false).
Proof.
  intros Hm Hs. split; intros Ht.
  - rewrite (is_stale_processing _ _ _ _ Hs Ht). apply Z.ltb_lt. lia.
  - rewrite (is_stale_processing _ _ _ _ Hs Ht). apply Z.ltb_ge.
    assert (60 * m / 2 <= 60 * m) by (apply Z.div_le_upper_bound; lia). lia.
Qed.

(** ** Profile commits *)

Lemma apply_statements_preserve (Q : tables -> Prop) stmts t s count :
  Forall (fun stmt : statement unit =>
            forall t0 s0, Q t0 -> Q (new_tables (stmt t0 s0))) stmts ->
  Q t -> Q (apply_statements stmts t s count).1.1.
Proof.
  intros H. revert t s count.
  induction H as [|stmt stmts Hstmt _ IH]; intros t s count Ht; simpl.
  - exact Ht.
  - apply IH, Hstmt, Ht.
Qed.

Lemma Forall_map_statements {A} (P : statement unit -> Prop)
      (sql : A -> statement unit) (args : list A) :
  (forall a, a ∈ args -> P (sql a)) -> Forall P (map sql args).
Proof.
  intros H. apply Forall_forall. intros stmt Hin.
  apply list_elem_of_In, in_map_iff in Hin. destruct Hin as (a & <- & Ha).
  apply H, list_elem_of_In, Ha.
Qed.

(** *** Social links *)

Lemma upsert_social_link_rows now developer_id plat u t s :
  social_links (new_tables (upsert_social_link now (developer_id, plat, u) t s))
  = if existsb (same_link developer_id plat) (social_links t)
    then map (fun l => if same_link developer_id plat l then set_url u l else l)
             (social_links t)
    else social_links t ++
         [{| sl_id := social_links_id_seq s; sl_developer_id := developer_id;
             platform := plat; url := u; verified := false;
             sl_scraped_at := Some now |}].
Proof. reflexivity. Qed.

Lemma same_link_spec developer_id plat l :
  same_link developer_id plat l = true
  <-> sl_developer_id l = developer_id /\ platform l = plat.
Proof.
  unfold same_link. rewrite andb_true_iff, Z.eqb_eq, String.eqb_eq. reflexivity.
Qed.

Lemma links_kept_refl data ls : links_kept data ls ls.
Proof. intros l Hl. exists l. auto. Qed.

Lemma links_kept_trans data l1 l2 l3 :
  links_kept data l1 l2 -> links_kept data l2 l3 -> links_kept data l1 l3.
Proof.
  intros H12 H23 l Hl.
  destruct (H12 l Hl) as (l' & Hl' & Hi & Hd & Hp & Hsame).
  destruct (H23 l' Hl') as (l'' & Hl'' & Hi' & Hd' & Hp' & Hsame').
  exists l''. repeat split; try congruence.
  intros Hnw. rewrite <- (Hsame Hnw). apply Hsame'.
  intros [u Hu]. apply Hnw. exists u. rewrite Hd, Hp in Hu. exact Hu.
Qed.

Lemma upsert_social_link_keeps data now developer_id plat u t s :
  (developer_id, plat, u) ∈ data ->
  links_kept data (social_links t)
             (social_links (new_tables (upsert_social_link
                                          now (developer_id, plat, u) t s))).
Proof.
  intros Hin l Hl. rewrite upsert_social_link_rows.
  destruct (existsb (same_link developer_id plat) (social_links t)).
  - exists (if same_link developer_id plat l then set_url u l else l).
    split.
    { apply list_elem_of_In, in_map_iff. exists l.
      split; [reflexivity | apply list_elem_of_In, Hl]. }
    destruct (same_link developer_id plat l) eqn:E; simpl; repeat split; auto.
    intros Hnw. exfalso. apply Hnw. apply same_link_spec in E as [Hd Hp].
    exists u. rewrite Hd, Hp. exact Hin.
  - exists l. repeat split; auto. apply elem_of_app. left. exact Hl.
Qed.

Lemma upsert_social_link_writes now developer_id plat u t s :
  has_link developer_id plat u
           (social_links (new_tables (upsert_social_link
                                        now (developer_id, plat, u) t s))).
Proof.
  rewrite upsert_social_link_rows.
  destruct (existsb (same_link developer_id plat) (social_links t)) eqn:E.
  - apply existsb_exists in E as (l & Hl & Hsame).
    exists (set_url u l). split.
    + apply list_elem_of_In, in_map_iff. exists l. rewrite Hsame. auto.
    + apply same_link_spec in Hsame as [Hd Hp]. simpl. auto.
  - eexists. split; [apply elem_of_app; right; apply list_elem_of_singleton; reflexivity|].
    simpl. auto.
Qed.

Lemma upsert_social_link_leaves now developer_id plat u dev' plat' u' t s :
  plat' <> plat ->
  has_link developer_id plat u (social_links t) ->
  has_link developer_id plat u
           (social_links (new_tables (upsert_social_link now (dev', plat', u') t s))).
Proof.
  intros Hne (l & Hl & Hd & Hp & Hu). rewrite upsert_social_link_rows.
  exists l. split; [|auto].
  destruct (existsb (same_link dev' plat') (social_links t)).
  - apply list_elem_of_In, in_map_iff. exists l.
    split; [|apply list_elem_of_In, Hl].
    destruct (same_link dev' plat' l) eqn:E; [|reflexivity].
    apply same_link_spec in E as [_ E]. congruence.
  - apply elem_of_app. left. exact Hl.
Qed.

(** *** Repositories *)

Lemma upsert_repository_rows developer_id idx tr t s :
  repositories (new_tables (upsert_repository developer_id (idx, tr) t s))
  = if existsb (same_repo developer_id (TopRepo.name tr)) (repositories t)
    then map (fun old => if same_repo developer_id (TopRepo.name tr) old
                         then repo_row (repo_id old) developer_id idx tr else old)
             (repositories t)
    else repositories t ++ [repo_row (repositories_id_seq s) developer_id idx tr].
Proof. reflexivity. Qed.

Lemma same_repo_spec developer_id nm r :
  same_repo developer_id nm r = true
  <-> repo_developer_id r = developer_id /\ repo_name r = nm.
Proof.
  unfold same_repo. rewrite andb_true_iff, Z.eqb_eq, String.eqb_eq. reflexivity.
Qed.

Lemma repos_kept_refl developer_id repos rs : repos_kept developer_id repos rs rs.
Proof. intros r Hr. exists r. auto. Qed.

Lemma repos_kept_trans developer_id repos l1 l2 l3 :
  repos_kept developer_id repos l1 l2 -> repos_kept developer_id repos l2 l3 ->
  repos_kept developer_id repos l1 l3.
Proof.
  intros H12 H23 r Hr.
  destruct (H12 r Hr) as (r' & Hr' & Hi & Hd & Hn & Hsame).
  destruct (H23 r' Hr') as (r'' & Hr'' & Hi' & Hd' & Hn' & Hsame').
  exists r''. repeat split; try congruence.
  intros Hnw. rewrite <- (Hsame Hnw). apply Hsame'.
  intros [Hdev (tr & Htr & Hname)]. apply Hnw. split; [congruence|].
  exists tr. split; [exact Htr | congruence].
Qed.

Lemma upsert_repository_keeps developer_id repos idx tr t s :
  tr ∈ repos ->
  repos_kept developer_id repos (repositories t)
             (repositories (new_tables (upsert_repository developer_id (idx, tr) t s))).
Proof.
  intros Hin r Hr. rewrite upsert_repository_rows.
  destruct (existsb (same_repo developer_id (TopRepo.name tr)) (repositories t)).
  - exists (if same_repo developer_id (TopRepo.name tr) r
            then repo_row (repo_id r) developer_id idx tr else r).
    split.
    { apply list_elem_of_In, in_map_iff. exists r.
      split; [reflexivity | apply list_elem_of_In, Hr]. }
    destruct (same_repo developer_id (TopRepo.name tr) r) eqn:E.
    + apply same_repo_spec in E as [Hd Hn]. simpl. repeat split; auto.
      intros Hnw. exfalso. apply Hnw. split; [exact Hd|]. exists tr. auto.
    + repeat split; auto.
  - exists r. repeat split; auto. apply elem_of_app. left. exact Hr.
Qed.

Lemma upsert_repository_writes developer_id idx tr t s :
  has_repo developer_id idx tr
           (repositories (new_tables (upsert_repository developer_id (idx, tr) t s))).
Proof.
  rewrite upsert_repository_rows.
  destruct (existsb (same_repo developer_id (TopRepo.name tr)) (repositories t)) eqn:E.
  - apply existsb_exists in E as (r & Hr & Hsame).
    exists (repo_row (repo_id r) developer_id idx tr). split; [|reflexivity].
    apply list_elem_of_In, in_map_iff. exists r. rewrite Hsame. auto.
  - eexists. split; [apply elem_of_app; right; apply list_elem_of_singleton; reflexivity|].
    reflexivity.
Qed.

Lemma upsert_repository_leaves developer_id idx tr idx' tr' t s :
  TopRepo.name tr' <> TopRepo.name tr ->
  has_repo developer_id idx tr (repositories t) ->
  has_repo developer_id idx tr
           (repositories (new_tables (upsert_repository developer_id (idx', tr') t s))).
Proof.
  intros Hne (r & Hr & Heq). rewrite upsert_repository_rows.
  exists r. split; [|exact Heq].
  destruct (existsb (same_repo developer_id (TopRepo.name tr')) (repositories t)).
  - apply list_elem_of_In, in_map_iff. exists r.
    split; [|apply list_elem_of_In, Hr].
    destruct (same_repo developer_id (TopRepo.name tr') r) eqn:E; [|reflexivity].
    apply same_repo_spec in E as [_ E]. rewrite Heq in E. simpl in E. congruence.
  - apply elem_of_app. left. exact Hr.
Qed.

(** *** The whole commit *)

Lemma apply_statements_split l1 l2 t s count :
  apply_statements (l1 ++ l2) t s count
  = apply_statements l2 (apply_statements l1 t s count).1.1
                     (apply_statements l1 t s count).1.2
                     (apply_statements l1 t s count).2.
Proof.
  rewrite apply_statements_app.
  destruct (apply_statements l1 t s count) as [[t1 s1] c1]. reflexivity.
Qed.

Lemma enumerate_elem {A} (l : list A) idx x :
  (idx, x) ∈ enumerate l -> x ∈ l.
Proof.
  unfold enumerate. intros H. apply list_elem_of_In in H.
  apply in_combine_r in H. apply list_elem_of_In, H.
Qed.

Lemma child_statements_links_kept p now developer_id t s count :
  links_kept (social_data developer_id (Profile.social_links p))
             (social_links t)
             (social_links
                (apply_statements (child_statements p now developer_id) t s count).1.1).
Proof.
  apply (apply_statements_preserve
           (fun t' => links_kept (social_data developer_id (Profile.social_links p))
                                 (social_links t) (social_links t')));
    [|apply links_kept_refl].
  unfold child_statements. apply Forall_app. split; apply Forall_map_statements.
  - intros [[dev plat] u] Hin t0 s0 H0.
    eapply links_kept_trans; [exact H0|].
    apply upsert_social_link_keeps. exact Hin.
  - intros [idx tr] _ t0 s0 H0. exact H0.
Qed.

Lemma child_statements_repos_kept p now developer_id t s count :
  repos_kept developer_id (Profile.top_repos p)
             (repositories t)
             (repositories
                (apply_statements (child_statements p now developer_id) t s count).1.1).
Proof.
  apply (apply_statements_preserve
           (fun t' => repos_kept developer_id (Profile.top_repos p)
                                 (repositories t) (repositories t')));
    [|apply repos_kept_refl].
  unfold child_statements. apply Forall_app. split; apply Forall_map_statements.
  - intros [[dev plat] u] _ t0 s0 H0. exact H0.
  - intros [idx tr] Hin t0 s0 H0.
    eapply repos_kept_trans; [exact H0|].
    apply upsert_repository_keeps. eapply enumerate_elem. exact Hin.
Qed.

(** The last entry of [social_data] for a platform is the link found
    after the commit. *)
Lemma child_statements_link_written p now developer_id t s count pre dev plat u post :
  social_data developer_id (Profile.social_links p) = pre ++ (dev, plat, u) :: post ->
  Forall (fun e : Z * string * string => e.1.2 <> plat) post ->
  has_link dev plat u
           (social_links
              (apply_statements (child_statements p now developer_id) t s count).1.1).
Proof.
  intros Hdata Hpost. unfold child_statements. rewrite Hdata.
  rewrite map_app, map_cons, <- app_assoc, <- app_comm_cons.
  rewrite apply_statements_split. cbn [apply_statements].
  rewrite apply_statements_split.
  apply (apply_statements_preserve (fun t' => has_link dev plat u (social_links t'))).
  { apply Forall_map_statements. intros [idx tr] _ t0 s0 H0. exact H0. }
  apply (apply_statements_preserve (fun t' => has_link dev plat u (social_links t'))).
  { apply Forall_forall. intros stmt Hin.
    apply list_elem_of_In, in_map_iff in Hin. destruct Hin as ([[dev' plat'] u'] & <- & He).
    intros t0 s0 H0. apply upsert_social_link_leaves; [|exact H0].
    rewrite Forall_forall in Hpost.
    apply (Hpost (dev', plat', u')), list_elem_of_In, He. }
  apply upsert_social_link_writes.
Qed.

(** The last entry of [top_repos] for a name is the repository found
    after the commit, with its rank. *)
Lemma child_statements_repo_written p now developer_id t s count pre idx tr post :
  enumerate (Profile.top_repos p) = pre ++ (idx, tr) :: post ->
  Forall (fun e : nat * TopRepo.top_repo => TopRepo.name e.2 <> TopRepo.name tr) post ->
  has_repo developer_id idx tr
           (repositories
              (apply_statements (child_statements p now developer_id) t s count).1.1).
Proof.
  intros Hdata Hpost. unfold child_statements. rewrite Hdata.
  rewrite apply_statements_split.
  rewrite map_app, map_cons, apply_statements_split. cbn [apply_statements].
  apply (apply_statements_preserve (fun t' => has_repo developer_id idx tr (repositories t'))).
  { apply Forall_forall. intros stmt Hin.
    apply list_elem_of_In, in_map_iff in Hin. destruct Hin as ([idx' tr'] & <- & He).
    intros t0 s0 H0. apply upsert_repository_leaves; [|exact H0].
    rewrite Forall_forall in Hpost.
    apply (Hpost (idx', tr')), list_elem_of_In, He. }
  apply upsert_repository_writes.
Qed.

Lemma map_if_no_match {A} (cond : A -> bool) (f : A -> A) (l : list A) :
  filter (fun x => cond x = true) l = [] ->
  map (fun x => if cond x then f x else x) l = l.
Proof.
  induction l as [|x l IH]; simpl; [reflexivity|].
  rewrite filter_cons. destruct (decide (cond x = true)) as [E|E].
  - discriminate.
  - intros H. rewrite (IH H). destruct (cond x); congruence.
Qed.

Lemma update_profile_stmt_none fromisoformat p now t s :
  fetchone (rows (update_profile_stmt fromisoformat p now t s)) = None ->
  new_tables (update_profile_stmt fromisoformat p now t s) = t
  /\ Forall (fun r => username r <> Profile.username p) (developers t).
Proof.
  unfold update_profile_stmt, update_developers, fetchone. simpl. intros H.
  assert (Hnil : filter (fun r => has_username (Profile.username p) r = true)
                        (developers t) = []).
  { destruct (filter _ (developers t)); [reflexivity | discriminate H]. }
  split.
  - rewrite (map_if_no_match _ _ _ Hnil). destruct t; reflexivity.
  - apply Forall_forall. intros r Hr Hu.
    assert (Hin : r ∈ filter (fun r => has_username (Profile.username p) r = true)
                             (developers t)).
    { apply list_elem_of_filter. split; [|exact Hr]. apply String.eqb_eq, Hu. }
    rewrite Hnil in Hin. inversion Hin.
Qed.

Lemma update_profile_stmt_some fromisoformat p now t s developer_id :
  fetchone (rows (update_profile_stmt fromisoformat p now t s)) = Some developer_id ->
  exists r, r ∈ developers t /\ username r = Profile.username p /\ id r = developer_id.
Proof.
  unfold update_profile_stmt, update_developers, fetchone. simpl. intros H.
  destruct (filter _ (developers t)) as [|r rest] eqn:E; [discriminate H|].
  injection H as H. exists r.
  assert (Hin : r ∈ filter (fun r => has_username (Profile.username p) r = true)
                           (developers t)) by (rewrite E; left).
  apply list_elem_of_filter in Hin as [Hu Hr].
  split; [exact Hr|]. split; [apply String.eqb_eq, Hu | exact H].
Qed.

(** C4, as the code has it. [update_profile] is all or nothing, at any
    time and under any fault: either it raises and the three tables are
    as before; or it returns [None], no row has the username and the
    tables are as before; or it returns the id of a row of that
    username, and then every row of that username has the profile
    columns of [p], status PROFILED, [profiled_at = now], retry count 0
    and no error or claim, every other row is as before, and the child
    rows are upserted: no social link and no repository is deleted, one
    whose key the profile does not write is left as it was, and for
    each platform and each repository name the last entry of the
    profile is in the table. Without a fault it returns. *)
Theorem commit_profile_atomic (fromisoformat : string -> option Z)
        (p : Profile.profile) (now : Z) (flt : option nat) (d : database) :
  (flt = None ->
   exists r d', update_profile fromisoformat p now flt d = (Returned r, d'))
  /\ ((exists d', update_profile fromisoformat p now flt d = (Exception, d')
                  /\ db_tables d' = db_tables d)
      \/ (exists d', update_profile fromisoformat p now flt d = (Returned None, d')
                     /\ db_tables d' = db_tables d
                     /\ Forall (fun r => username r <> Profile.username p)
                               (developers (db_tables d)))
      \/ (exists developer_id d',
            update_profile fromisoformat p now flt d = (Returned (Some developer_id), d')
            /\ (exists r, r ∈ developers (db_tables d)
                          /\ username r = Profile.username p
                          /\ id r = developer_id)
            /\ developers (db_tables d')
               = map (fun r => if has_username (Profile.username p) r
                               then set_profile fromisoformat p now r else r)
                     (developers (db_tables d))
            /\ (forall r', r' ∈ developers (db_tables d') ->
                           username r' = Profile.username p ->
                           profiled_as fromisoformat p now r')
            /\ links_kept (social_data developer_id (Profile.social_links p))
                          (social_links (db_tables d)) (social_links (db_tables d'))
            /\ (forall pre dev plat u post,
                   social_data developer_id (Profile.social_links p)
                   = pre ++ (dev, plat, u) :: post ->
                   Forall (fun e : Z * string * string => e.1.2 <> plat) post ->
                   has_link dev plat u (social_links (db_tables d')))
            /\ repos_kept developer_id (Profile.top_repos p)
                          (repositories (db_tables d)) (repositories (db_tables d'))
            /\ (forall pre idx tr post,
                   enumerate (Profile.top_repos p) = pre ++ (idx, tr) :: post ->
                   Forall (fun e : nat * TopRepo.top_repo =>
                             TopRepo.name e.2 <> TopRepo.name tr) post ->
                   has_repo developer_id idx tr (repositories (db_tables d'))))).
Proof.
  split.
  { intros ->. apply update_profile_no_fault. }
  destruct (update_profile_cases fromisoformat p now flt d)
    as [H|[(d' & E & Hone & Ht)|(developer_id & d' & E & Hone & Ht)]].
  - left. exact H.
  - right. left. exists d'. split; [exact E|].
    destruct (update_profile_stmt_none _ _ _ _ _ Hone) as [Hsame Hno].
    split; [congruence | exact Hno].
  - right. right. exists developer_id, d'. split; [exact E|].
    split; [eapply update_profile_stmt_some; exact Hone|].
    assert (Hdev : developers (db_tables d')
                   = map (fun r => if has_username (Profile.username p) r
                                   then set_profile fromisoformat p now r else r)
                         (developers (db_tables d))).
    { rewrite Ht. apply tables_after_commit_developers. }
    split; [exact Hdev|]. split.
    { intros r' Hr' Hu. rewrite Hdev in Hr'.
      apply list_elem_of_In, in_map_iff in Hr'. destruct Hr' as (r & <- & _).
      destruct (has_username (Profile.username p) r) eqn:Hhas.
      - unfold profiled_as, columns_of. simpl. repeat split; reflexivity.
      - apply String.eqb_eq in Hu. unfold has_username in Hhas. congruence. }
    rewrite Ht. unfold tables_after_commit.
    set (r1 := update_profile_stmt fromisoformat p now (db_tables d) (db_sequences d)).
    split.
    { exact (child_statements_links_kept p now developer_id (new_tables r1)
                                         (new_sequences r1) (affected r1)). }
    split; [intros pre dev plat u post; apply child_statements_link_written|].
    split.
    { exact (child_statements_repos_kept p now developer_id (new_tables r1)
                                         (new_sequences r1) (affected r1)). }
    intros pre idx tr post. apply child_statements_repo_written.
Qed.

Lemma commit_profile_atomic_witness :
  exists r d', update_profile no_parse johndoe_profile 100 None johndoe_store
               = (Returned r, d').
Proof.
  apply (commit_profile_atomic no_parse johndoe_profile 100 None johndoe_store).
  reflexivity.
Defined.

(** C4 as stated fails in one word: the child rows are not replaced.
    The Medium link of an earlier commit is still in the table after a
    commit whose profile has no Medium link. *)
Lemma commit_profile_counterexample :
  exists d',
    update_profile no_parse johndoe_profile 100 None johndoe_store
    = (Returned (Some 1), d')
    /\ old_medium_link ∈ social_links (db_tables d')
    /\ ~ links_replaced 1 johndoe_profile (social_links (db_tables d')).
Proof.
  eexists. split; [vm_compute; reflexivity|]. cbn [db_tables social_links].
  assert (Hin : old_medium_link ∈
                [old_medium_link;
                 {| sl_id := 2; sl_developer_id := 1; platform := "linkedin";
                    url := "https://linkedin.com/in/johndoe"; verified := false;
                    sl_scraped_at := Some 100 |};
                 {| sl_id := 3; sl_developer_id := 1; platform := "telegram";
                    url := "https://t.me/johndoe"; verified := false;
                    sl_scraped_at := Some 100 |}]) by left.
  split; [exact Hin|].
  intros H. specialize (H old_medium_link Hin eq_refl).
  vm_compute in H.
  apply list_elem_of_In in H. simpl in H.
  destruct H as [H|[H|[]]]; discriminate H.
Qed.

(** ** Inserting usernames *)

Lemma insert_username_cases now u t s :
  (existsb (has_username u) (developers t) = true
   /\ new_tables (insert_username now u t s) = t
   /\ affected (insert_username now u t s) = 0)
  \/ (existsb (has_username u) (developers t) = false
      /\ new_tables (insert_username now u t s)
         = {| developers := developers t ++ [new_developer (developers_id_seq s) u now];
              social_links := social_links t;
              repositories := repositories t |}
      /\ affected (insert_username now u t s) = 1).
Proof.
  unfold insert_username.
  destruct (existsb (has_username u) (developers t)); [left | right]; auto.
Qed.

Lemma has_username_elem u l :
  existsb (has_username u) l = true <-> u ∈ map username l.
Proof.
  rewrite existsb_exists. split.
  - intros (r & Hr & Hu). apply String.eqb_eq in Hu. subst u.
    apply list_elem_of_In, in_map, Hr.
  - intros Hin. apply list_elem_of_In, in_map_iff in Hin.
    destruct Hin as (r & <- & Hr). exists r. split; [exact Hr|].
    apply String.eqb_refl.
Qed.

(** Usernames stay unique: a username already in the table gets no
    second row. *)
Lemma insert_statements_unique now usernames t s count :
  NoDup (map username (developers t)) ->
  NoDup (map username
             (developers
                (apply_statements (map (insert_username now) usernames) t s count).1.1)).
Proof.
  revert t s count.
  induction usernames as [|u us IH]; intros t s count Hnd; simpl; [exact Hnd|].
  apply IH.
  destruct (insert_username_cases now u t s) as [(_ & -> & _)|(Hnew & -> & _)];
    [exact Hnd|].
  simpl. rewrite map_app. simpl. apply NoDup_app. split; [exact Hnd|].
  split; [|apply NoDup_singleton].
  intros x Hx Hx'. apply list_elem_of_singleton in Hx'. subst x.
  apply has_username_elem in Hx. congruence.
Qed.

(** Inserting usernames that are all in the table changes no table. *)
Lemma insert_statements_present now usernames t s count :
  Forall (fun u => u ∈ map username (developers t)) usernames ->
  (apply_statements (map (insert_username now) usernames) t s count).1.1 = t.
Proof.
  intros H. revert s count.
  induction H as [|u us Hu _ IH]; intros s count; simpl; [reflexivity|].
  destruct (insert_username_cases now u t s) as [(_ & -> & _)|(Hnew & _)].
  - apply IH.
  - apply has_username_elem in Hu. congruence.
Qed.

(** Every inserted username is in the table afterwards. *)
Lemma insert_statements_stored now usernames t s count u :
  u ∈ map username (developers t) \/ u ∈ usernames ->
  u ∈ map username
        (developers
           (apply_statements (map (insert_username now) usernames) t s count).1.1).
Proof.
  revert t s count.
  induction usernames as [|v us IH]; intros t s count Hu; simpl.
  - destruct Hu as [Hu|Hu]; [exact Hu | inversion Hu].
  - apply IH.
    destruct (insert_username_cases now v t s) as [(Hold & -> & _)|(_ & -> & _)].
    + destruct Hu as [Hu|Hu]; [left; exact Hu|].
      apply elem_of_cons in Hu as [->|Hu]; [left | right; exact Hu].
      apply has_username_elem, Hold.
    + simpl. rewrite map_app. simpl.
      destruct Hu as [Hu|Hu]; [left; apply elem_of_app; left; exact Hu|].
      apply elem_of_cons in Hu as [->|Hu]; [left | right; exact Hu].
      apply elem_of_app. right. left.
Qed.

(** What the cursor reports after the batch is what its last statement
    reported: never more than one row. *)
Lemma insert_statements_count now usernames t s count :
  count <= 1 ->
  (apply_statements (map (insert_username now) usernames) t s count).2 <= 1.
Proof.
  revert t s count.
  induction usernames as [|u us IH]; intros t s count Hc; simpl; [exact Hc|].
  apply IH.
  destruct (insert_username_cases now u t s) as [(_ & _ & ->)|(_ & _ & ->)]; lia.
Qed.

(** Idempotence of [insert_usernames_batch]: without a fault it
    returns; usernames stay unique and every username of the list is
    stored; a second insert of the same list changes no table. *)
Lemma insert_usernames_batch_idempotent now now2 usernames d :
  NoDup (map username (developers (db_tables d))) ->
  exists n d', insert_usernames_batch now usernames None d = (Returned n, d')
    /\ NoDup (map username (developers (db_tables d')))
    /\ Forall (fun u => u ∈ map username (developers (db_tables d'))) usernames
    /\ exists n2 d'', insert_usernames_batch now2 usernames None d' = (Returned n2, d'')
                      /\ db_tables d'' = db_tables d'.
Proof.
  intros Hnd.
  destruct (insert_usernames_batch_no_fault now usernames d) as (d' & E & Ht).
  assert (Hstored : Forall (fun u => u ∈ map username (developers (db_tables d')))
                           usernames).
  { apply Forall_forall. intros u Hu. rewrite Ht.
    apply insert_statements_stored. right. exact Hu. }
  eexists. exists d'. split; [exact E|].
  split; [rewrite Ht; apply insert_statements_unique; exact Hnd|].
  split; [exact Hstored|].
  destruct (insert_usernames_batch_no_fault now2 usernames d') as (d'' & E2 & Ht2).
  eexists. exists d''. split; [exact E2|].
  rewrite Ht2. apply insert_statements_present. exact Hstored.
Qed.

(** The count [insert_usernames_batch] returns is never above 1,
    however many rows it inserts. *)
Lemma insert_usernames_batch_count now usernames flt d n d' :
  insert_usernames_batch now usernames flt d = (Returned n, d') -> n <= 1.
Proof.
  intros E.
  destruct (insert_usernames_batch_cases now usernames flt d)
    as [(d1 & E1 & _)|(d1 & E1 & _)]; rewrite E1 in E; [discriminate|].
  injection E as <- _. apply insert_statements_count. lia.
Qed.

(** C7, at the failing input. Two new usernames inserted into the empty
    store: both rows are created, and the method returns 1. *)
Theorem insert_usernames_batch_returns_last_rowcount :
  exists d',
    insert_usernames_batch 0 ["alice"; "bob"]%string None empty_database
    = (Returned 1, d')
    /\ map username (developers (db_tables d')) = ["alice"; "bob"]%string
    /\ (length (developers (db_tables d'))
        - length (developers (db_tables empty_database)) = 2)%nat.
Proof. eexists. split; [vm_compute; reflexivity|]. split; reflexivity. Qed.

(** ** Fetching a profile *)

Section FetchFacts.
Variable config : Settings.ScraperConfig.
Variable github : string -> nat -> attempt.
Variable faults : nat -> option nat.

Local Abbreviation fetch_from := (fetch_profile_from config github faults).

Lemma metrics_increment_enabled metric w :
  Metrics.enabled (metrics w) = true ->
  Metrics.enabled (metrics (metrics_increment metric w)) = true
  /\ Metrics.profile_scraper (metrics (metrics_increment metric w))
     = Metrics.bump (Metrics.profile_scraper (metrics w)) metric 1
  /\ Metrics.username_scraper (metrics (metrics_increment metric w))
     = Metrics.username_scraper (metrics w)
  /\ Metrics.social_scraper (metrics (metrics_increment metric w))
     = Metrics.social_scraper (metrics w).
Proof.
  intros He. unfold metrics_increment, Metrics.increment. simpl.
  rewrite He. simpl. auto.
Qed.

(** What one rate-limit answer costs the worker. *)
Lemma rate_limited_effects w :
  db (rate_limited config w) = db w
  /\ transactions (rate_limited config w) = transactions w
  /\ api_calls (rate_limited config w) = S (api_calls w)
  /\ slept (rate_limited config w)
     = slept w ++ [Settings.TOKEN_ROTATION_DELAY config]
  /\ clock (rate_limited config w) = clock w + Settings.TOKEN_ROTATION_DELAY config
  /\ github_client (rate_limited config w)
     = GitHubClient.rotate_token (github_client w)
  /\ (Metrics.enabled (metrics w) = true ->
      Metrics.enabled (metrics (rate_limited config w)) = true
      /\ Metrics.rate_limit_hits (Metrics.profile_scraper (metrics (rate_limited config w)))
         = Metrics.rate_limit_hits (Metrics.profile_scraper (metrics w)) + 1
      /\ Metrics.total_retries (Metrics.profile_scraper (metrics (rate_limited config w)))
         = Metrics.total_retries (Metrics.profile_scraper (metrics w)) + 1
      /\ Metrics.total_failed (Metrics.profile_scraper (metrics (rate_limited config w)))
         = Metrics.total_failed (Metrics.profile_scraper (metrics w))
      /\ Metrics.total_success (Metrics.profile_scraper (metrics (rate_limited config w)))
         = Metrics.total_success (Metrics.profile_scraper (metrics w))
      /\ Metrics.total_processed (Metrics.profile_scraper (metrics (rate_limited config w)))
         = Metrics.total_processed (Metrics.profile_scraper (metrics w))).
Proof.
  repeat (split; [reflexivity|]).
  intros He. unfold rate_limited, handle_rate_limit, sleep, count_api_call,
               metrics_increment, Metrics.increment. simpl.
  rewrite He. simpl. repeat split; reflexivity.
Qed.

(** A rate-limit answer ends the turn of the loop: the next turn runs
    with one attempt less to go. *)
Lemma fetch_rate_limited_step remaining attempt_no uname w text :
  github uname (api_calls w) = Raises RateLimitExceededException text ->
  fetch_from (S remaining) attempt_no uname w
  = fetch_from remaining (S attempt_no) uname (rate_limited config w).
Proof. intros H. simpl. rewrite H. reflexivity. Qed.

Lemma call_db_api_calls {A} (method : Z -> option nat -> database -> result A * database) w :
  api_calls (call_db faults method w).2 = api_calls w
  /\ slept (call_db faults method w).2 = slept w.
Proof.
  unfold call_db. destruct (method _ _ _) as [r d]. split; reflexivity.
Qed.

(** Whatever the answers, a fetch sends at most the attempts it has
    left. *)
Lemma fetch_from_bound remaining attempt_no uname w :
  (api_calls (fetch_from remaining attempt_no uname w).2
   <= api_calls w + remaining)%nat.
Proof.
  revert attempt_no w.
  induction remaining as [|remaining IH]; intros attempt_no w; simpl; [lia|].
  destruct (github uname (api_calls w)) as [user repos|[| |] text]; simpl.
  - lia.
  - etransitivity; [apply IH|]. simpl. lia.
  - destruct (_ <? _).
    + etransitivity; [apply IH|]. simpl. lia.
    + match goal with
      | |- context [call_db faults ?m ?w0] =>
          pose proof (call_db_api_calls m w0) as [Hc _];
          destruct (call_db faults m w0) as [[u|] w2]
      end; simpl in *; rewrite Hc; lia.
  - destruct (_ <? _).
    + etransitivity; [apply IH|]. simpl. lia.
    + match goal with
      | |- context [call_db faults ?m ?w0] =>
          pose proof (call_db_api_calls m w0) as [Hc _];
          destruct (call_db faults m w0) as [[u|] w2]
      end; simpl in *; rewrite Hc; lia.
Qed.

Lemma rate_limited_times_api_calls n w :
  api_calls (rate_limited_times config n w) = (api_calls w + n)%nat.
Proof.
  revert w. induction n as [|n IH]; intros w; simpl; [lia|].
  rewrite IH. simpl. lia.
Qed.

(** When every attempt left is answered by a rate limit, the loop runs
    out and the fetch returns [None]. *)
Lemma fetch_all_rate_limited remaining attempt_no uname w :
  (forall k, (k < remaining)%nat ->
             is_rate_limit (github uname (api_calls w + k)%nat) = true) ->
  fetch_from remaining attempt_no uname w
  = (Returned None, rate_limited_times config remaining w).
Proof.
  revert attempt_no w.
  induction remaining as [|remaining IH]; intros attempt_no w Hall; [reflexivity|].
  assert (H0 : is_rate_limit (github uname (api_calls w)) = true).
  { rewrite <- (Nat.add_0_r (api_calls w)). apply Hall. lia. }
  destruct (github uname (api_calls w)) as [user repos|[| |] text] eqn:E;
    try discriminate H0.
  rewrite (fetch_rate_limited_step _ _ _ _ _ E). simpl.
  apply IH. intros k Hk.
  replace (api_calls (rate_limited config w) + k)%nat
    with (api_calls w + S k)%nat by (simpl; lia).
  apply Hall. lia.
Qed.

Lemma rate_limited_times_effects n w :
  db (rate_limited_times config n w) = db w
  /\ transactions (rate_limited_times config n w) = transactions w
  /\ (Metrics.enabled (metrics w) = true ->
      Metrics.enabled (metrics (rate_limited_times config n w)) = true
      /\ Metrics.rate_limit_hits
           (Metrics.profile_scraper (metrics (rate_limited_times config n w)))
         = Metrics.rate_limit_hits (Metrics.profile_scraper (metrics w)) + Z.of_nat n
      /\ Metrics.total_retries
           (Metrics.profile_scraper (metrics (rate_limited_times config n w)))
         = Metrics.total_retries (Metrics.profile_scraper (metrics w)) + Z.of_nat n
      /\ Metrics.total_failed
           (Metrics.profile_scraper (metrics (rate_limited_times config n w)))
         = Metrics.total_failed (Metrics.profile_scraper (metrics w))
      /\ Metrics.total_success
           (Metrics.profile_scraper (metrics (rate_limited_times config n w)))
         = Metrics.total_success (Metrics.profile_scraper (metrics w))
      /\ Metrics.total_processed
           (Metrics.profile_scraper (metrics (rate_limited_times config n w)))
         = Metrics.total_processed (Metrics.profile_scraper (metrics w))).
Proof.
  revert w. induction n as [|n IH]; intros w.
  - simpl. repeat split; auto; lia.
  - cbn [rate_limited_times].
    destruct (IH (rate_limited config w)) as (Hd & Ht & Hm).
    destruct (rate_limited_effects w) as (Hd1 & Ht1 & _ & _ & _ & _ & Hm1).
    split; [congruence|]. split; [congruence|].
    intros He. destruct (Hm1 He) as (He1 & H1 & H2 & H3 & H4 & H5).
    destruct (Hm He1) as (He2 & G1 & G2 & G3 & G4 & G5).
    repeat split; try congruence; lia.
Qed.

End FetchFacts.

(** C5, as the code has it. A rate-limit answer costs one turn of
    [for attempt in range(MAX_RETRIES)] like any other answer: the
    handler counts the hit and the retry, rotates the token, sleeps the
    fixed cooldown, and the loop goes on with one attempt less; so a
    fetch never sends more than MAX_RETRIES attempts, and when all of
    them are answered by a rate limit it returns [None]. *)
Theorem rate_limit_consumes_attempt (config : Settings.ScraperConfig)
        (github : string -> nat -> attempt) (faults : nat -> option nat)
        (uname : string) (w : world) :
  (api_calls (fetch_profile config github faults uname w).2
   <= api_calls w + Settings.MAX_RETRIES config)%nat
  /\ (forall remaining attempt_no w0 text,
         github uname (api_calls w0) = Raises RateLimitExceededException text ->
         fetch_profile_from config github faults (S remaining) attempt_no uname w0
         = fetch_profile_from config github faults remaining (S attempt_no) uname
                              (rate_limited config w0)
         /\ api_calls (rate_limited config w0) = S (api_calls w0)
         /\ slept (rate_limited config w0)
            = slept w0 ++ [Settings.TOKEN_ROTATION_DELAY config]
         /\ github_client (rate_limited config w0)
            = GitHubClient.rotate_token (github_client w0)
         /\ db (rate_limited config w0) = db w0
         /\ (Metrics.enabled (metrics w0) = true ->
             Metrics.rate_limit_hits
               (Metrics.profile_scraper (metrics (rate_limited config w0)))
             = Metrics.rate_limit_hits (Metrics.profile_scraper (metrics w0)) + 1
             /\ Metrics.total_retries
                  (Metrics.profile_scraper (metrics (rate_limited config w0)))
                = Metrics.total_retries (Metrics.profile_scraper (metrics w0)) + 1))
  /\ ((forall k, (k < Settings.MAX_RETRIES config)%nat ->
                 is_rate_limit (github uname (api_calls w + k)%nat) = true) ->
      fetch_profile config github faults uname w
      = (Returned None,
         rate_limited_times config (Settings.MAX_RETRIES config) w)).
Proof.
  split; [apply fetch_from_bound|]. split.
  - intros remaining attempt_no w0 text H.
    split; [eapply fetch_rate_limited_step; exact H|].
    destruct (rate_limited_effects config w0) as (Hd & _ & Ha & Hs & _ & Hg & Hm).
    repeat (split; [assumption|]).
    intros He. destruct (Hm He) as (_ & H1 & H2 & _). auto.
  - apply fetch_all_rate_limited.
Qed.

Lemma rate_limit_consumes_attempt_witness :
  fetch_profile Settings.defaults always_rate_limited no_faults "johndoe"
                (worker_on (store_of [row 1 "johndoe" PROCESSING 0 (Some 100)
                                          (Some "host-1")]))
  = (Returned None,
     rate_limited_times
       Settings.defaults 3
       (worker_on (store_of [row 1 "johndoe" PROCESSING 0 (Some 100)
                                 (Some "host-1")]))).
Proof.
  apply (rate_limit_consumes_attempt Settings.defaults always_rate_limited no_faults
                                     "johndoe").
  intros k _. reflexivity.
Defined.

(** C5 as stated fails: three rate-limit answers use up the three
    attempts, and the profile that a fourth attempt would fetch is never
    asked for, although no failure was counted. *)
Lemma rate_limit_budget_counterexample :
  ~ quota_outside_budget Settings.defaults rate_limited_thrice.
Proof.
  intros H.
  specialize (H no_faults "johndoe"%string (worker_on empty_database) 3%nat
                johndoe [] eq_refl).
  assert (Hraises : forall k, (k < 3)%nat ->
            exists e text,
              rate_limited_thrice "johndoe" (api_calls (worker_on empty_database) + k)%nat
              = Raises e text).
  { intros k Hk. exists RateLimitExceededException, "403 rate limit exceeded"%string.
    destruct k as [|[|[|k]]]; [reflexivity | reflexivity | reflexivity | lia]. }
  specialize (H Hraises).
  assert (Hcount : (failures_among rate_limited_thrice "johndoe"
                                   (api_calls (worker_on empty_database)) 3
                    < Settings.MAX_RETRIES Settings.defaults)%nat).
  { vm_compute. lia. }
  specialize (H Hcount).
  assert (Hcode : (fetch_profile Settings.defaults rate_limited_thrice no_faults
                                 "johndoe" (worker_on empty_database)).1
                  = Returned None) by (vm_compute; reflexivity).
  rewrite Hcode in H. discriminate H.
Qed.

(** C10. If every one of the MAX_RETRIES attempts of a claimed item is
    answered by a rate limit, [fetch_profile] returns [None] and the
    loop body of [scrape_profiles] goes on to the next item without a
    single call to the store: the only metric of the item's outcome it
    counts is [failed]. A row of the store that was PROCESSING is so
    still, with its claim, neither FAILED nor handed back; it leaves
    that state only when a later claim finds it stale and releases it. *)
Theorem quota_exhaustion_leaves_item_processing
        (config : Settings.ScraperConfig) (fromisoformat : string -> option Z)
        (github : string -> nat -> attempt) (faults : nat -> option nat)
        (store_error uname : string) (processed : Z) (w : world) :
  (forall k, (k < Settings.MAX_RETRIES config)%nat ->
             is_rate_limit (github uname (api_calls w + k)%nat) = true) ->
  fetch_profile config github faults uname (metrics_increment "processed" w)
  = (Returned None,
     rate_limited_times config (Settings.MAX_RETRIES config)
                        (metrics_increment "processed" w))
  /\ exists w',
      process_username config fromisoformat github faults store_error
                       uname processed w
      = (Returned processed, w')
      /\ db w' = db w
      /\ transactions w' = transactions w
      /\ (Metrics.enabled (metrics w) = true ->
          Metrics.total_failed (Metrics.profile_scraper (metrics w'))
          = Metrics.total_failed (Metrics.profile_scraper (metrics w)) + 1
          /\ Metrics.total_success (Metrics.profile_scraper (metrics w'))
             = Metrics.total_success (Metrics.profile_scraper (metrics w))
          /\ Metrics.total_processed (Metrics.profile_scraper (metrics w'))
             = Metrics.total_processed (Metrics.profile_scraper (metrics w)) + 1
          /\ Metrics.rate_limit_hits (Metrics.profile_scraper (metrics w'))
             = Metrics.rate_limit_hits (Metrics.profile_scraper (metrics w))
               + Z.of_nat (Settings.MAX_RETRIES config)
          /\ Metrics.total_retries (Metrics.profile_scraper (metrics w'))
             = Metrics.total_retries (Metrics.profile_scraper (metrics w))
               + Z.of_nat (Settings.MAX_RETRIES config))
      /\ forall i r t,
          developers (db_tables (db w)) !! i = Some r ->
          enrichment_status r = PROCESSING ->
          processing_started_at r = Some t ->
          developers (db_tables (db w')) !! i = Some r
          /\ forall from timeout now,
              (developers_after_release from timeout now (db w') !! i
               = Some (released from r)
               <-> t < now - 60 * timeout).
Proof.
  intros Hall.
  assert (Hfetch :
            fetch_profile config github faults uname (metrics_increment "processed" w)
            = (Returned None,
               rate_limited_times config (Settings.MAX_RETRIES config)
                                  (metrics_increment "processed" w))).
  { apply fetch_all_rate_limited. exact Hall. }
  split; [exact Hfetch|].
  unfold process_username. rewrite Hfetch.
  set (w0 := metrics_increment "processed" w) in *.
  set (w1 := rate_limited_times config (Settings.MAX_RETRIES config) w0) in *.
  exists (sleep (Settings.RATE_LIMIT_DELAY config) (metrics_increment "failed" w1)).
  split; [reflexivity|].
  destruct (rate_limited_times_effects config (Settings.MAX_RETRIES config) w0)
    as (Hd & Ht & Hm).
  fold w1 in Hd, Ht, Hm.
  assert (Hdb : db (sleep (Settings.RATE_LIMIT_DELAY config)
                          (metrics_increment "failed" w1)) = db w).
  { transitivity (db w1); [reflexivity|]. rewrite Hd. reflexivity. }
  split; [exact Hdb|].
  split; [transitivity (transactions w1); [reflexivity | rewrite Ht; reflexivity]|].
  split.
  - intros He.
    destruct (metrics_increment_enabled "processed" w He) as (He0 & Hp0 & _).
    fold w0 in He0, Hp0.
    destruct (Hm He0) as (He1 & H1 & H2 & H3 & H4 & H5).
    rewrite Hp0 in H1, H2, H3, H4, H5. simpl in H1, H2, H3, H4, H5.
    destruct (metrics_increment_enabled "failed" w1 He1) as (_ & Hp1 & _).
    cbn [sleep metrics]. rewrite Hp1. simpl.
    rewrite H1, H2, H3, H4, H5. repeat split; reflexivity.
  - intros i r t Hr Hs Hstart. rewrite Hdb.
    split; [exact Hr|]. intros from timeout now.
    rewrite (after_release_lookup from timeout now _ i r Hr).
    rewrite (is_stale_processing now timeout r t Hs Hstart).
    destruct (t <? now - 60 * timeout) eqn:E.
    + apply Z.ltb_lt in E. split; auto.
    + apply Z.ltb_ge in E. split; [|lia].
      intros [= Heq]. exfalso.
      assert (Hp : processing_started_at r = processing_started_at (released from r))
        by (rewrite <- Heq; reflexivity).
      simpl in Hp. congruence.
Qed.

Lemma quota_exhaustion_leaves_item_processing_witness :
  fetch_profile Settings.defaults always_rate_limited no_faults "johndoe"
                (metrics_increment
                   "processed"
                   (worker_on (store_of [row 1 "johndoe" PROCESSING 0 (Some 100)
                                             (Some "host-1")])))
  = (Returned None,
     rate_limited_times
       Settings.defaults 3
       (metrics_increment
          "processed"
          (worker_on (store_of [row 1 "johndoe" PROCESSING 0 (Some 100)
                                    (Some "host-1")])))).
Proof.
  apply (quota_exhaustion_leaves_item_processing
           Settings.defaults no_parse always_rate_limited no_faults
           "connection lost" "johndoe" 0
           (worker_on (store_of [row 1 "johndoe" PROCESSING 0 (Some 100)
                                     (Some "host-1")]))).
  intros k _. reflexivity.
Defined.

(** ** Failures of the second [except] clause *)

Section FailureFacts.
Variable config : Settings.ScraperConfig.
Variable github : string -> nat -> attempt.
Variable faults : nat -> option nat.

Local Abbreviation fetch_from := (fetch_profile_from config github faults).

Lemma is_failure_raises a :
  is_failure a = true ->
  exists e text, a = Raises e text /\ e <> RateLimitExceededException.
Proof.
  destruct a as [user repos|[| |] text]; simpl; intros H; try discriminate H;
    eexists; eexists; (split; [reflexivity | discriminate]).
Qed.

(** One failed attempt that is not the last: the retry is counted, the
    worker backs off, and the loop goes on. *)
Lemma fetch_failure_step remaining attempt_no uname w :
  is_failure (github uname (api_calls w)) = true ->
  (Z.of_nat attempt_no <? Z.of_nat (Settings.MAX_RETRIES config) - 1) = true ->
  fetch_from (S remaining) attempt_no uname w
  = fetch_from remaining (S attempt_no) uname
               (sleep (backoff_delay config attempt_no)
                      (metrics_increment "retries" (count_api_call w))).
Proof.
  intros Hf Hlt. simpl.
  destruct (github uname (api_calls w)) as [user repos|[| |] text];
    try discriminate Hf; rewrite Hlt; reflexivity.
Qed.

(** The failed attempt that is the last: the retry is counted and the
    row is marked FAILED. *)
Lemma fetch_failure_last remaining attempt_no uname w e text :
  github uname (api_calls w) = Raises e text ->
  e <> RateLimitExceededException ->
  (Z.of_nat attempt_no <? Z.of_nat (Settings.MAX_RETRIES config) - 1) = false ->
  fetch_from (S remaining) attempt_no uname w
  = finish_failed faults uname text
                  (metrics_increment "retries" (count_api_call w)).
Proof.
  intros Ha He Hlt. simpl. rewrite Ha.
  destruct e; [congruence| |]; rewrite Hlt; reflexivity.
Qed.

(** A run of failures up to the cap: every attempt is sent, the worker
    sleeps the backoff delay between two attempts, and only then is the
    row marked FAILED, with the text of the last failure. *)
Lemma fetch_all_failures remaining attempt_no uname w :
  (attempt_no + S remaining = Settings.MAX_RETRIES config)%nat ->
  (forall k, (k <= remaining)%nat ->
             is_failure (github uname (api_calls w + k)%nat) = true) ->
  exists w1 e text,
    github uname (api_calls w + remaining)%nat = Raises e text
    /\ e <> RateLimitExceededException
    /\ db w1 = db w
    /\ transactions w1 = transactions w
    /\ github_client w1 = github_client w
    /\ api_calls w1 = (api_calls w + S remaining)%nat
    /\ slept w1 = slept w ++ map (backoff_delay config) (seq attempt_no remaining)
    /\ fetch_from (S remaining) attempt_no uname w
       = finish_failed faults uname text w1.
Proof.
  revert attempt_no w.
  induction remaining as [|remaining IH]; intros attempt_no w Hmax Hall.
  - assert (H0 : is_failure (github uname (api_calls w)) = true).
    { rewrite <- (Nat.add_0_r (api_calls w)). apply Hall. lia. }
    destruct (is_failure_raises _ H0) as (e & text & Ha & He).
    exists (metrics_increment "retries" (count_api_call w)), e, text.
    rewrite Nat.add_0_r. split; [exact Ha|]. split; [exact He|].
    do 3 (split; [reflexivity|]).
    split; [simpl; lia|]. split; [simpl; rewrite app_nil_r; reflexivity|].
    apply (fetch_failure_last _ _ _ _ e); [exact Ha | exact He | apply Z.ltb_ge; lia].
  - assert (H0 : is_failure (github uname (api_calls w)) = true).
    { rewrite <- (Nat.add_0_r (api_calls w)). apply Hall. lia. }
    rewrite (fetch_failure_step _ _ _ _ H0) by (apply Z.ltb_lt; lia).
    set (w' := sleep (backoff_delay config attempt_no)
                     (metrics_increment "retries" (count_api_call w))).
    destruct (IH (S attempt_no) w') as (w1 & e & text & Ha & He & Hd & Ht & Hg & Hc & Hs & Hf).
    { lia. }
    { intros k Hk.
      replace (api_calls w' + k)%nat with (api_calls w + S k)%nat by (simpl; lia).
      apply Hall. lia. }
    exists w1, e, text.
    replace (api_calls w + S remaining)%nat with (api_calls w' + remaining)%nat
      by (simpl; lia).
    split; [exact Ha|]. split; [exact He|].
    split; [rewrite Hd; reflexivity|]. split; [rewrite Ht; reflexivity|].
    split; [rewrite Hg; reflexivity|]. split; [rewrite Hc; simpl; lia|].
    split; [|exact Hf].
    rewrite Hs. simpl. rewrite <- app_assoc. reflexivity.
Qed.

End FailureFacts.

Lemma mark_as_failed_no_fault uname text d :
  mark_as_failed uname text None d
  = (Returned tt,
     {| db_tables := new_tables (mark_failed_stmt uname text (db_tables d)
                                                  (db_sequences d));
        db_sequences := db_sequences d |}).
Proof. reflexivity. Qed.

(** C6, as the code has it. The second [except] clause takes every
    exception that is not a rate limit, the 404 of a deleted account
    like a network error. When all MAX_RETRIES attempts of an item fail
    so, all of them are sent, the worker sleeps the backoff delay after
    each but the last, and only then is the item marked FAILED with the
    text of the last failure (retry count up by one, claim cleared). *)
Theorem failures_retried_then_failed (config : Settings.ScraperConfig)
        (github : string -> nat -> attempt) (faults : nat -> option nat)
        (uname : string) (w : world) (n : nat) :
  Settings.MAX_RETRIES config = S n ->
  (forall k, (k <= n)%nat ->
             is_failure (github uname (api_calls w + k)%nat) = true) ->
  exists w1 e text,
    github uname (api_calls w + n)%nat = Raises e text
    /\ e <> RateLimitExceededException
    /\ db w1 = db w
    /\ api_calls w1 = (api_calls w + S n)%nat
    /\ slept w1 = slept w ++ map (backoff_delay config) (seq 0 n)
    /\ fetch_profile config github faults uname w
       = finish_failed faults uname text w1
    /\ (faults (transactions w) = None ->
        exists w2,
          fetch_profile config github faults uname w = (Returned None, w2)
          /\ api_calls w2 = (api_calls w + S n)%nat
          /\ slept w2 = slept w ++ map (backoff_delay config) (seq 0 n)
          /\ forall i r,
              developers (db_tables (db w)) !! i = Some r ->
              developers (db_tables (db w2)) !! i
              = Some (if has_username uname r then failed_with text r else r)).
Proof.
  intros Hmax Hall.
  destruct (fetch_all_failures config github faults n 0 uname w)
    as (w1 & e & text & Ha & He & Hd & Ht & _ & Hc & Hs & Hf).
  { simpl. congruence. }
  { exact Hall. }
  exists w1, e, text.
  assert (Hfetch : fetch_profile config github faults uname w
                   = finish_failed faults uname text w1).
  { unfold fetch_profile. rewrite Hmax. exact Hf. }
  do 5 (split; [assumption|]). split; [exact Hfetch|].
  intros Hnf. rewrite Hfetch.
  unfold finish_failed, call_db. rewrite Ht, Hnf, Hd, mark_as_failed_no_fault.
  eexists. split; [reflexivity|].
  split; [exact Hc|]. split; [exact Hs|].
  intros i r Hr. cbn [set_db db db_tables].
  unfold mark_failed_stmt. rewrite update_developers_rows, lookup_map, Hr.
  reflexivity.
Qed.

Lemma failures_retried_then_failed_witness :
  exists w1 e text,
    always_not_found "ghost" 2%nat = Raises e text
    /\ e <> RateLimitExceededException
    /\ api_calls w1 = 3%nat
    /\ slept w1 = [5; 10]
    /\ fetch_profile Settings.defaults always_not_found no_faults "ghost"
                     (worker_on (store_of [row 1 "ghost" PROCESSING 0 (Some 100)
                                               (Some "host-1")]))
       = finish_failed no_faults "ghost" text w1.
Proof.
  destruct (failures_retried_then_failed
              Settings.defaults always_not_found no_faults "ghost"
              (worker_on (store_of [row 1 "ghost" PROCESSING 0 (Some 100)
                                        (Some "host-1")]))
              2%nat eq_refl (fun k _ => eq_refl))
    as (w1 & e & text & Ha & He & _ & Hc & Hs & Hf & _).
  exists w1, e, text. repeat split; assumption.
Defined.

(** C6 as stated fails: an account that is not found is asked for three
    times, with backoff sleeps of 5 and 10 seconds in between, before it
    is marked FAILED. *)
Lemma permanent_error_counterexample :
  ~ permanent_not_retried Settings.defaults always_not_found.
Proof.
  intros H.
  destruct (H no_faults "ghost"%string
              (worker_on (store_of [row 1 "ghost" PROCESSING 0 (Some 100)
                                        (Some "host-1")]))
              "404 Not Found"%string eq_refl) as [Hcalls Hslept].
  vm_compute in Hslept. discriminate Hslept.
Qed.

(** ** Two claims in a row

    The store of this development runs one transaction at a time. What
    follows is the serial part of claim disjointness: what two claims
    return when the second runs after the first has committed. *)

Lemma map_if_key {A K} (key : A -> K) (cond : A -> bool) (f : A -> A) (l : list A) :
  (forall x, key (f x) = key x) ->
  map key (map (fun x => if cond x then f x else x) l) = map key l.
Proof.
  intros Hf. rewrite map_map. apply map_ext.
  intros x. destruct (cond x); [apply Hf | reflexivity].
Qed.

Lemma claim_keeps_ids from limit owner timeout now d :
  map id (developers (tables_after_claim from limit owner timeout now d))
  = map id (developers (db_tables d)).
Proof.
  rewrite tables_after_claim_developers.
  rewrite (map_if_key id) by reflexivity.
  apply (map_if_key id). reflexivity.
Qed.

Lemma claim_keeps_usernames from limit owner timeout now d :
  map username (developers (tables_after_claim from limit owner timeout now d))
  = map username (developers (db_tables d)).
Proof.
  rewrite tables_after_claim_developers.
  rewrite (map_if_key username) by reflexivity.
  apply (map_if_key username). reflexivity.
Qed.

Lemma unique_username (l : list developer) a b :
  NoDup (map username l) -> a ∈ l -> b ∈ l -> username a = username b -> a = b.
Proof.
  induction l as [|x l IH]; simpl; intros Hnd Ha Hb Hk.
  - inversion Ha.
  - apply NoDup_cons in Hnd as [Hx Hnd].
    apply elem_of_cons in Ha as [->|Ha]; apply elem_of_cons in Hb as [->|Hb]; auto.
    + exfalso. apply Hx. rewrite Hk.
      apply list_elem_of_In, in_map, list_elem_of_In. exact Hb.
    + exfalso. apply Hx. rewrite <- Hk.
      apply list_elem_of_In, in_map, list_elem_of_In. exact Ha.
Qed.

(** The rows a claim returns are PROCESSING, stamped [now], afterwards. *)
Lemma claimed_rows_processing from limit owner timeout now d u :
  u ∈ claimed_by_claim from limit owner timeout now d ->
  exists x, claimed owner now x
            ∈ developers (tables_after_claim from limit owner timeout now d)
            /\ username x = u.
Proof.
  unfold claimed_by_claim, claim_rows, update_developers. cbn [rows].
  intros Hu. apply list_elem_of_In, in_map_iff in Hu. destruct Hu as (x & Hux & Hx).
  apply list_elem_of_In, list_elem_of_filter in Hx. destruct Hx as [Hin Hx].
  exists x. split; [|exact Hux].
  unfold tables_after_claim, claim_rows. rewrite update_developers_rows.
  apply list_elem_of_In, in_map_iff. exists x. rewrite Hin.
  split; [reflexivity | apply list_elem_of_In, Hx].
Qed.

(** Two claims from the same status, the second run on the store the
    first one committed, with nothing in between: they return no
    username in common, provided the status is not PROCESSING, ids and
    usernames are unique, and the second claim is not so late that the
    first one's rows are stale for it. *)
Lemma serial_claims_disjoint from limit1 limit2 owner1 owner2
      timeout1 timeout2 now1 now2 d u :
  from <> PROCESSING ->
  unique_ids d ->
  NoDup (map username (developers (db_tables d))) ->
  now2 - 60 * timeout2 <= now1 ->
  u ∈ claimed_by_claim from limit1 owner1 timeout1 now1 d ->
  u ∈ claimed_by_claim
        from limit2 owner2 timeout2 now2
        {| db_tables := tables_after_claim from limit1 owner1 timeout1 now1 d;
           db_sequences := db_sequences d |} ->
  False.
Proof.
  intros Hfrom Hids Hnames Hfresh H1 H2.
  set (d1 := {| db_tables := tables_after_claim from limit1 owner1 timeout1 now1 d;
                db_sequences := db_sequences d |}) in *.
  destruct (claimed_rows_processing _ _ _ _ _ _ _ H1) as (x & Hx & Hux).
  assert (Hx1 : claimed owner1 now1 x ∈ developers (db_tables d1)) by exact Hx.
  unfold claimed_by_claim, claim_rows, update_developers in H2. cbn [rows] in H2.
  apply list_elem_of_In, in_map_iff in H2. destruct H2 as (y & Huy & Hy).
  apply list_elem_of_In, list_elem_of_filter in Hy. destruct Hy as [Hsel Hy].
  fold (developers_after_release from timeout2 now2 d1) in Hy.
  assert (Hy' := Hy).
  unfold developers_after_release, release_stale in Hy'.
  rewrite update_developers_rows in Hy'.
  apply list_elem_of_In, in_map_iff in Hy'. destruct Hy' as (z & Hzy & Hz).
  apply list_elem_of_In in Hz.
  assert (Hzu : username z = u).
  { rewrite <- Huy, <- Hzy. destruct (is_stale now2 timeout2 z); reflexivity. }
  assert (z = claimed owner1 now1 x) as ->.
  { apply (unique_username (developers (db_tables d1))); auto.
    - unfold d1. cbn [db_tables]. rewrite claim_keeps_usernames. exact Hnames.
    - rewrite Hzu. simpl. auto. }
  assert (Hns : is_stale now2 timeout2 (claimed owner1 now1 x) = false).
  { rewrite (is_stale_processing now2 timeout2 _ now1) by reflexivity.
    apply Z.ltb_ge. exact Hfresh. }
  rewrite Hns in Hzy. subst y.
  apply id_in_spec, select_claimable_sound in Hsel.
  destruct Hsel as (r2 & Hr2 & Hs2 & Hid).
  assert (r2 = claimed owner1 now1 x) as ->.
  { apply (unique_key id (developers_after_release from timeout2 now2 d1)); auto.
    rewrite release_keeps_ids. unfold d1. cbn [db_tables].
    rewrite claim_keeps_ids. exact Hids. }
  simpl in Hs2. congruence.
Qed.

(** The lease is bounded by time alone: a claim made later than the
    timeout after another one takes over its rows, whether or not the
    first worker is still at work on them. *)
Example late_claim_takes_over :
  let d0 := store_of [row 1 "alice" INITIAL 0 None None] in
  exists d1 d2,
    claim_batch_for_processing INITIAL 50 "host-1" 30 0 None d0
    = (Returned ["alice"%string], d1)
    /\ claim_batch_for_processing INITIAL 50 "host-2" 30 1860 None d1
       = (Returned ["alice"%string], d2)
    /\ developers (db_tables d2)
       = [row 1 "alice" PROCESSING 0 (Some 1860) (Some "host-2")].
Proof.
  eexists. eexists. split; [vm_compute; reflexivity|].
  split; vm_compute; reflexivity.
Qed.

(** * More of the code *)

(** ** Token rotation ([GitHubClientManager], [GitHubConfig]) *)

Lemma rotations_tokens n m :
  GitHubClient.tokens (rotations n m) = GitHubClient.tokens m.
Proof. induction n as [|n IH]; simpl; [reflexivity | exact IH]. Qed.

Lemma rotations_index n m :
  (GitHubClient.current_token_index m < length (GitHubClient.tokens m))%nat ->
  GitHubClient.current_token_index (rotations n m)
  = ((GitHubClient.current_token_index m + n) mod length (GitHubClient.tokens m))%nat.
Proof.
  intros Hlt. induction n as [|n IH].
  - simpl. rewrite Nat.add_0_r. symmetry. apply Nat.mod_small. exact Hlt.
  - change (rotations (S n) m) with (GitHubClient.rotate_token (rotations n m)).
    unfold GitHubClient.rotate_token.
    cbn [GitHubClient.current_token_index GitHubClient.tokens].
    rewrite rotations_tokens, IH.
    rewrite Nat.Div0.add_mod_idemp_l. f_equal. lia.
Qed.

(** X1. Rotation is circular. After [n] rotations the manager holds the
    same tokens and points at position (start + n) modulo their number:
    always at a token of the list, one step further each time, back at
    the first token after the last, and at the start again after as
    many rotations as there are tokens. *)
Theorem rotate_token_circular (m : GitHubClient.GitHubClientManager) (n : nat) :
  (GitHubClient.current_token_index m < length (GitHubClient.tokens m))%nat ->
  GitHubClient.tokens (rotations n m) = GitHubClient.tokens m
  /\ GitHubClient.current_token_index (rotations n m)
     = ((GitHubClient.current_token_index m + n)
          mod length (GitHubClient.tokens m))%nat
  /\ is_Some (Tokens.current_token (rotations n m))
  /\ (S (GitHubClient.current_token_index m) = length (GitHubClient.tokens m) ->
      GitHubClient.current_token_index (GitHubClient.rotate_token m) = 0%nat)
  /\ rotations (length (GitHubClient.tokens m)) m = m.
Proof.
  intros Hlt.
  assert (Hpos : length (GitHubClient.tokens m) <> 0%nat) by lia.
  split; [apply rotations_tokens|].
  split; [apply rotations_index; exact Hlt|].
  split.
  { unfold Tokens.current_token. apply lookup_lt_is_Some.
    rewrite rotations_tokens, rotations_index by exact Hlt.
    apply Nat.mod_upper_bound. exact Hpos. }
  split.
  { intros Hlast. unfold GitHubClient.rotate_token. simpl.
    rewrite Nat.add_1_r, Hlast. apply Nat.Div0.mod_same. }
  pose proof (rotations_tokens (length (GitHubClient.tokens m)) m) as Ht.
  pose proof (rotations_index (length (GitHubClient.tokens m)) m Hlt) as Hi.
  rewrite <- (Nat.mul_1_l (length (GitHubClient.tokens m))) in Hi at 2.
  rewrite Nat.Div0.mod_add, Nat.mod_small in Hi by exact Hlt.
  destruct (rotations (length (GitHubClient.tokens m)) m) as [ts i], m as [ts0 i0].
  simpl in *. congruence.
Qed.

Lemma rotate_token_circular_witness :
  GitHubClient.current_token_index
    (rotations 5 {| GitHubClient.tokens := ["t1"; "t2"; "t3"]%string;
                    GitHubClient.current_token_index := 2 |})
  = ((2 + 5) mod 3)%nat.
Proof.
  apply (rotate_token_circular
           {| GitHubClient.tokens := ["t1"; "t2"; "t3"]%string;
              GitHubClient.current_token_index := 2 |} 5).
  simpl. lia.
Defined.

(** After any rotations the current token is one of the list. *)
Lemma rotate_token_like_lookup n m :
  (GitHubClient.current_token_index m < length (GitHubClient.tokens m))%nat ->
  exists t, Tokens.current_token (rotations n m) = Some t
            /\ t ∈ GitHubClient.tokens m.
Proof.
  intros Hlt. unfold Tokens.current_token.
  assert (Hi : (GitHubClient.current_token_index (rotations n m)
                < length (GitHubClient.tokens (rotations n m)))%nat).
  { rewrite rotations_tokens, rotations_index by exact Hlt.
    apply Nat.mod_upper_bound. lia. }
  apply lookup_lt_is_Some in Hi. destruct Hi as [t Ht].
  exists t. split; [exact Ht|].
  rewrite <- (rotations_tokens n m). eapply list_elem_of_lookup_2. exact Ht.
Qed.

Lemma length_omap_le {A B} (f : A -> option B) (l : list A) :
  (length (omap f l) <= length l)%nat.
Proof.
  induction l as [|x l IH]; csimpl; [lia|].
  destruct (f x); csimpl; lia.
Qed.

(** X2. Loading the tokens. [GitHubConfig] reads GITHUB_TOKEN and
    GITHUB_TOKEN_2 to GITHUB_TOKEN_9 and keeps the values that are not
    empty. It fails exactly when none of the nine is set to a non-empty
    value; otherwise the list is not empty, has at most nine tokens, all
    of them such values, and a client manager built on it has a current
    token of the list after any number of rotations. *)
Theorem load_tokens_gives_usable_manager (getenv : string -> option string) :
  match Tokens.load_tokens getenv with
  | Some ts =>
      ts <> []
      /\ (length ts <= 9)%nat
      /\ (forall t, t ∈ ts <->
                    t <> EmptyString
                    /\ exists i, (1 <= i <= 9)%nat
                                 /\ getenv (Tokens.token_key i) = Some t)
      /\ exists m, Tokens.new_manager ts = Some m
                   /\ forall n, exists t,
                         Tokens.current_token (rotations n m) = Some t /\ t ∈ ts
  | None =>
      forall i, (1 <= i <= 9)%nat ->
                getenv (Tokens.token_key i) = None
                \/ getenv (Tokens.token_key i) = Some EmptyString
  end.
Proof.
  unfold Tokens.load_tokens.
  set (pick := fun i => match getenv (Tokens.token_key i) with
                        | Some token => if Text.nonempty token then Some token else None
                        | None => None
                        end).
  assert (Hmem : forall t, t ∈ omap pick (seq 1 9) <->
                           t <> EmptyString
                           /\ exists i, (1 <= i <= 9)%nat
                                        /\ getenv (Tokens.token_key i) = Some t).
  { intros t. rewrite list_elem_of_omap. split.
    - intros (i & Hi & Hp). apply elem_of_seq in Hi. unfold pick in Hp.
      destruct (getenv (Tokens.token_key i)) as [token|] eqn:E; [|discriminate].
      destruct token as [|c token']; simpl in Hp; [discriminate|].
      injection Hp as <-. split; [discriminate|]. exists i. split; [lia | exact E].
    - intros (Hne & i & Hi & E). exists i. split; [apply elem_of_seq; lia|].
      unfold pick. rewrite E. destruct t; [congruence | reflexivity]. }
  destruct (omap pick (seq 1 9)) as [|t0 ts'] eqn:E.
  - intros i Hi.
    destruct (getenv (Tokens.token_key i)) as [token|] eqn:Ei; [|left; reflexivity].
    right. destruct token as [|c token']; [reflexivity|]. exfalso.
    assert (Hin : String c token' ∈ @nil string).
    { apply Hmem. split; [discriminate|]. exists i. auto. }
    inversion Hin.
  - split; [discriminate|]. split.
    { rewrite <- E. etransitivity; [apply length_omap_le|]. reflexivity. }
    split; [exact Hmem|].
    eexists. split; [reflexivity|]. intros n.
    match goal with
    | |- context [rotations n ?m0] =>
        destruct (rotate_token_like_lookup n m0) as (t & Ht & Hin);
        [simpl; lia|]
    end.
    exists t. auto.
Qed.

(** ** Connecting with retries ([DatabaseRepository.connect]) *)

Section ConnectFacts.
Variable config : Settings.ScraperConfig.
Variable accepts : nat -> bool.

Local Abbreviation connect_from := (Connection.connect_from config accepts).
Local Abbreviation MAX := (Settings.MAX_RETRIES config).

(** Refused [k] times, then accepted, within the attempts left. *)
Lemma connect_from_accepted k remaining attempt_no s :
  (k < remaining)%nat ->
  (attempt_no + remaining = MAX)%nat ->
  (forall j, (j < k)%nat -> accepts (Connection.connect_calls s + j)%nat = false) ->
  accepts (Connection.connect_calls s + k)%nat = true ->
  exists s',
    connect_from remaining attempt_no s = (Returned tt, s')
    /\ Connection.connected s' = true
    /\ Connection.store s' = Connection.store s
    /\ Connection.connect_calls s' = (Connection.connect_calls s + S k)%nat
    /\ Connection.slept s'
       = Connection.slept s ++ map (Connection.retry_sleep config) (seq attempt_no k).
Proof.
  revert remaining attempt_no s.
  induction k as [|k IH]; intros remaining attempt_no s Hk Hmax Hno Hyes.
  - destruct remaining as [|remaining]; [lia|]. simpl.
    rewrite Nat.add_0_r in Hyes. rewrite Hyes.
    eexists. split; [reflexivity|]. simpl. rewrite app_nil_r.
    repeat split; auto. lia.
  - destruct remaining as [|remaining]; [lia|]. simpl.
    assert (H0 : accepts (Connection.connect_calls s) = false).
    { rewrite <- (Nat.add_0_r (Connection.connect_calls s)). apply Hno. lia. }
    rewrite H0.
    assert (Hlt : (Z.of_nat attempt_no <? Z.of_nat MAX - 1) = true)
      by (apply Z.ltb_lt; lia).
    rewrite Hlt.
    destruct (IH remaining (S attempt_no)
                 (Connection.sleep (Connection.retry_sleep config attempt_no)
                                   (Connection.count_connect false s)))
      as (s' & Hc & Hcon & Hst & Hcalls & Hsl).
    + lia.
    + lia.
    + intros j Hj. simpl. rewrite <- Nat.add_succ_r. apply Hno. lia.
    + simpl. rewrite <- Nat.add_succ_r. exact Hyes.
    + exists s'. split; [exact Hc|]. split; [exact Hcon|].
      split; [rewrite Hst; reflexivity|].
      split; [rewrite Hcalls; simpl; lia|].
      rewrite Hsl. simpl. rewrite <- app_assoc. reflexivity.
Qed.

(** Refused at every attempt left. *)
Lemma connect_from_refused remaining attempt_no s :
  (attempt_no + S remaining = MAX)%nat ->
  (forall j, (j <= remaining)%nat ->
             accepts (Connection.connect_calls s + j)%nat = false) ->
  exists s',
    connect_from (S remaining) attempt_no s = (Exception, s')
    /\ Connection.connected s' = Connection.connected s
    /\ Connection.store s' = Connection.store s
    /\ Connection.connect_calls s' = (Connection.connect_calls s + S remaining)%nat
    /\ Connection.slept s'
       = Connection.slept s
         ++ map (Connection.retry_sleep config) (seq attempt_no remaining).
Proof.
  revert attempt_no s.
  induction remaining as [|remaining IH]; intros attempt_no s Hmax Hno.
  - simpl.
    assert (H0 : accepts (Connection.connect_calls s) = false).
    { rewrite <- (Nat.add_0_r (Connection.connect_calls s)). apply Hno. lia. }
    rewrite H0.
    assert (Hlt : (Z.of_nat attempt_no <? Z.of_nat MAX - 1) = false)
      by (apply Z.ltb_ge; lia).
    rewrite Hlt. eexists. split; [reflexivity|]. simpl. rewrite app_nil_r.
    repeat split; auto. lia.
  - cbn [Connection.connect_from].
    assert (H0 : accepts (Connection.connect_calls s) = false).
    { rewrite <- (Nat.add_0_r (Connection.connect_calls s)). apply Hno. lia. }
    rewrite H0.
    assert (Hlt : (Z.of_nat attempt_no <? Z.of_nat MAX - 1) = true)
      by (apply Z.ltb_lt; lia).
    rewrite Hlt.
    destruct (IH (S attempt_no)
                 (Connection.sleep (Connection.retry_sleep config attempt_no)
                                   (Connection.count_connect false s)))
      as (s' & Hc & Hcon & Hst & Hcalls & Hsl).
    + lia.
    + intros j Hj. simpl. rewrite <- Nat.add_succ_r. apply Hno. lia.
    + exists s'. split; [exact Hc|]. split; [rewrite Hcon; reflexivity|].
      split; [rewrite Hst; reflexivity|].
      split; [rewrite Hcalls; simpl; lia|].
      rewrite Hsl. simpl. rewrite <- app_assoc. reflexivity.
Qed.

(** The time slept over the first [k] retries: with exponential
    backoff the delays double, [RETRY_DELAY * (2^k - 1)] in all. *)
Lemma retry_sleep_total k :
  foldr Z.add 0 (map (Connection.retry_sleep config) (seq 0 k))
  = if Settings.EXPONENTIAL_BACKOFF config
    then Settings.RETRY_DELAY config * (2 ^ Z.of_nat k - 1)
    else Settings.RETRY_DELAY config * Z.of_nat k.
Proof.
  unfold Connection.retry_sleep.
  induction k as [|k IH].
  - simpl. destruct (Settings.EXPONENTIAL_BACKOFF config); lia.
  - rewrite seq_S, map_app, foldr_app. simpl.
    assert (Hshift : forall (l : list Z) a,
               foldr Z.add a l = foldr Z.add 0 l + a).
    { induction l as [|x l IHl]; intros a; simpl; [lia|]. rewrite IHl. lia. }
    rewrite Hshift, IH.
    destruct (Settings.EXPONENTIAL_BACKOFF config); [|lia].
    rewrite Nat2Z.inj_succ, Z.pow_succ_r by lia. lia.
Qed.

End ConnectFacts.

(** X3. [connect] asks the server at most MAX_RETRIES times and sleeps
    the backoff delay after every refusal but the last. Accepted at the
    attempt number [k] (counted from 0, [k < MAX_RETRIES]), it returns
    connected after [k + 1] requests and [k] sleeps; refused every time,
    it raises after MAX_RETRIES requests and MAX_RETRIES - 1 sleeps,
    which with exponential backoff add up to
    [RETRY_DELAY * (2^(MAX_RETRIES - 1) - 1)] seconds. With MAX_RETRIES
    at 0 it returns at once, without a connection and without an
    error. *)
Theorem connect_retries_with_backoff (config : Settings.ScraperConfig)
        (accepts : nat -> bool) (s : Connection.session) :
  (Settings.MAX_RETRIES config = 0%nat ->
   Connection.connect config accepts s = (Returned tt, s))
  /\ (forall k,
         (k < Settings.MAX_RETRIES config)%nat ->
         (forall j, (j < k)%nat ->
                    accepts (Connection.connect_calls s + j)%nat = false) ->
         accepts (Connection.connect_calls s + k)%nat = true ->
         exists s',
           Connection.connect config accepts s = (Returned tt, s')
           /\ Connection.connected s' = true
           /\ Connection.connect_calls s' = (Connection.connect_calls s + S k)%nat
           /\ Connection.slept s'
              = Connection.slept s
                ++ map (Connection.retry_sleep config) (seq 0 k))
  /\ (forall n,
         Settings.MAX_RETRIES config = S n ->
         (forall j, (j <= n)%nat ->
                    accepts (Connection.connect_calls s + j)%nat = false) ->
         exists s',
           Connection.connect config accepts s = (Exception, s')
           /\ Connection.connected s' = Connection.connected s
           /\ Connection.connect_calls s' = (Connection.connect_calls s + S n)%nat
           /\ Connection.slept s'
              = Connection.slept s
                ++ map (Connection.retry_sleep config) (seq 0 n)
           /\ foldr Z.add 0 (map (Connection.retry_sleep config) (seq 0 n))
              = if Settings.EXPONENTIAL_BACKOFF config
                then Settings.RETRY_DELAY config * (2 ^ Z.of_nat n - 1)
                else Settings.RETRY_DELAY config * Z.of_nat n).
Proof.
  split; [|split].
  - intros H0. unfold Connection.connect. rewrite H0. reflexivity.
  - intros k Hk Hno Hyes.
    destruct (connect_from_accepted config accepts k (Settings.MAX_RETRIES config)
                                    0 s Hk eq_refl Hno Hyes)
      as (s' & H1 & H2 & _ & H3 & H4).
    exists s'. auto.
  - intros n Hn Hno. unfold Connection.connect. rewrite Hn.
    destruct (connect_from_refused config accepts n 0 s) as (s' & H1 & H2 & _ & H3 & H4).
    { simpl. congruence. }
    { exact Hno. }
    exists s'. repeat split; auto. apply retry_sleep_total.
Qed.

Lemma connect_retries_with_backoff_witness :
  exists s',
    Connection.connect Settings.defaults (accepts_from 2) (new_session empty_database)
    = (Returned tt, s')
    /\ Connection.connected s' = true
    /\ Connection.connect_calls s' = 3%nat
    /\ Connection.slept s' = [5; 10].
Proof.
  destruct (connect_retries_with_backoff
              Settings.defaults (accepts_from 2) (new_session empty_database))
    as (_ & Hacc & _).
  destruct (Hacc 2%nat) as (s' & H1 & H2 & H3 & H4).
  - simpl. lia.
  - intros j Hj. destruct j as [|[|j]]; [reflexivity | reflexivity | lia].
  - reflexivity.
  - exists s'. auto.
Defined.

(** ** Retrying a statement ([DatabaseRepository.execute_with_retry]) *)

Section RetryFacts.
Variable config : Settings.ScraperConfig.
Variable accepts : nat -> bool.
Variable faults : nat -> option nat.
Variable closed_after : nat -> bool.

Lemma connect_from_store remaining attempt_no s :
  Connection.store (Connection.connect_from config accepts remaining attempt_no s).2
  = Connection.store s.
Proof.
  revert attempt_no s.
  induction remaining as [|remaining IH]; intros attempt_no s; simpl; [reflexivity|].
  destruct (accepts (Connection.connect_calls s)); [reflexivity|].
  destruct (_ <? _); [|reflexivity].
  rewrite IH. reflexivity.
Qed.

Lemma run_attempt_cases {A} (stmt : statement A) fetch s :
  (exists s1, Connection.run_attempt faults stmt fetch s = (Exception, s1)
              /\ db_tables (Connection.store s1) = db_tables (Connection.store s))
  \/ (exists s1,
        Connection.run_attempt faults stmt fetch s
        = (Returned
             (if fetch
              then inl (rows (stmt (db_tables (Connection.store s))
                                   (db_sequences (Connection.store s))))
              else inr (affected (stmt (db_tables (Connection.store s))
                                       (db_sequences (Connection.store s))))),
           s1)
        /\ db_tables (Connection.store s1)
           = new_tables (stmt (db_tables (Connection.store s))
                              (db_sequences (Connection.store s)))).
Proof.
  unfold Connection.run_attempt, Connection.attempt_tx, get_cursor, bind,
    execute, cursor_rowcount, ret.
  destruct (faults (Connection.transactions s)) as [[|[|n]]|];
    destruct fetch; simpl; eauto.
Qed.

Lemma execute_with_retry_from_once {A} (stmt : statement A) fetch
      remaining attempt_no s :
  (attempt_no + remaining = Settings.MAX_RETRIES config)%nat ->
  match Connection.execute_with_retry_from config accepts faults closed_after
                                           remaining attempt_no stmt fetch s with
  | (Returned (Some v), s') =>
      exists sq,
        db_tables (Connection.store s')
        = new_tables (stmt (db_tables (Connection.store s)) sq)
        /\ v = (if fetch
                then inl (rows (stmt (db_tables (Connection.store s)) sq))
                else inr (affected (stmt (db_tables (Connection.store s)) sq)))
  | (Returned None, s') => remaining = 0%nat /\ s' = s
  | (Exception, s') =>
      db_tables (Connection.store s') = db_tables (Connection.store s)
  end.
Proof.
  revert attempt_no s.
  induction remaining as [|remaining IH]; intros attempt_no s Hmax; simpl; [auto|].
  destruct (run_attempt_cases stmt fetch s) as [(s1 & -> & Ht)|(s1 & -> & Ht)].
  - destruct (_ <? _) eqn:Hlt; [|exact Ht]. apply Z.ltb_lt in Hlt.
    set (s2 := Connection.sleep (Connection.retry_sleep config attempt_no) s1).
    assert (Ht2 : db_tables (Connection.store s2) = db_tables (Connection.store s))
      by exact Ht.
    destruct (closed_after (Connection.transactions s)).
    + pose proof (connect_from_store (Settings.MAX_RETRIES config) 0 s2) as Hst.
      unfold Connection.connect.
      destruct (Connection.connect_from config accepts (Settings.MAX_RETRIES config) 0 s2)
        as [[u|] s3];
        change (Connection.store s3 = Connection.store s2) in Hst.
      * specialize (IH (S attempt_no) s3 ltac:(lia)).
        destruct (Connection.execute_with_retry_from _ _ _ _ remaining _ stmt fetch s3)
          as [[[v|]|] s'].
        -- rewrite Hst, Ht2 in IH. exact IH.
        -- destruct IH as [-> _]. lia.
        -- rewrite Hst, Ht2 in IH. exact IH.
      * rewrite Hst. exact Ht2.
    + specialize (IH (S attempt_no) s2 ltac:(lia)).
      destruct (Connection.execute_with_retry_from _ _ _ _ remaining _ stmt fetch s2)
        as [[[v|]|] s'].
      * rewrite Ht2 in IH. exact IH.
      * destruct IH as [-> _]. lia.
      * rewrite Ht2 in IH. exact IH.
  - eexists. split; [exact Ht | reflexivity].
Qed.

End RetryFacts.

(** X4. [execute_with_retry] makes its statement take effect at most
    once. When it returns a value, the tables are those the statement
    leaves when run once on the tables the call started from, whatever
    number of attempts failed before (each was rolled back), and the
    value is the statement's result set or row count as [fetch] asks;
    when it raises, the tables are as they were; it returns no value
    only when MAX_RETRIES is 0, and then nothing was sent. *)
Theorem execute_with_retry_at_most_once
        {A} (config : Settings.ScraperConfig) (accepts : nat -> bool)
        (faults : nat -> option nat) (closed_after : nat -> bool)
        (stmt : statement A) (fetch : bool) (s : Connection.session) :
  match Connection.execute_with_retry config accepts faults closed_after
                                      stmt fetch s with
  | (Returned (Some v), s') =>
      exists sq,
        db_tables (Connection.store s')
        = new_tables (stmt (db_tables (Connection.store s)) sq)
        /\ v = (if fetch
                then inl (rows (stmt (db_tables (Connection.store s)) sq))
                else inr (affected (stmt (db_tables (Connection.store s)) sq)))
  | (Returned None, s') => Settings.MAX_RETRIES config = 0%nat /\ s' = s
  | (Exception, s') =>
      db_tables (Connection.store s') = db_tables (Connection.store s)
  end.
Proof.
  apply (execute_with_retry_from_once config accepts faults closed_after stmt fetch
                                      (Settings.MAX_RETRIES config) 0 s).
  reflexivity.
Qed.

(** ** Reading the store ([get_usernames_by_status], [get_stats]) *)

Import Queries.

(** X5. [get_usernames_by_status] never changes a table. Without a
    fault, a limit of [None] and a limit of 0 both return every username
    of the status; a positive limit [n] returns the first [n] of them
    (all of them when there are fewer); a negative limit raises. *)
Theorem get_usernames_by_status_limit (status : EnrichmentStatus)
        (limit : option Z) (flt : option nat) (d : database) :
  db_tables (get_usernames_by_status status limit flt d).2 = db_tables d
  /\ (limit = None \/ limit = Some 0 ->
      (get_usernames_by_status status limit None d).1
      = Returned (usernames_in status d))
  /\ (forall n, limit = Some n -> 0 < n ->
                (get_usernames_by_status status limit None d).1
                = Returned (take (Z.to_nat n) (usernames_in status d))
                /\ length (take (Z.to_nat n) (usernames_in status d))
                   = Nat.min (Z.to_nat n) (length (usernames_in status d)))
  /\ (forall n, limit = Some n -> n < 0 ->
                (get_usernames_by_status status limit flt d).1 = Exception).
Proof.
  split; [|split; [|split]].
  - unfold get_usernames_by_status, get_cursor, raise, execute.
    destruct limit as [n|]; [destruct (n =? 0); [|destruct (n <? 0)]|];
      destruct flt as [[|[|k]]|]; reflexivity.
  - intros [-> | ->]; reflexivity.
  - intros n -> Hn. unfold get_usernames_by_status.
    destruct (n =? 0) eqn:E0; [apply Z.eqb_eq in E0; lia|].
    destruct (n <? 0) eqn:E1; [apply Z.ltb_lt in E1; lia|].
    split; [reflexivity | apply length_take].
  - intros n -> Hn. unfold get_usernames_by_status.
    destruct (n =? 0) eqn:E0; [apply Z.eqb_eq in E0; lia|].
    destruct (n <? 0) eqn:E1; [|apply Z.ltb_ge in E1; lia].
    unfold get_cursor, raise. reflexivity.
Qed.

Lemma get_usernames_by_status_limit_witness :
  (get_usernames_by_status
     INITIAL (Some 1) None
     (store_of [row 1 "alice" INITIAL 0 None None;
                row 2 "bob" INITIAL 0 None None])).1
  = Returned (take (Z.to_nat 1)
                   (usernames_in INITIAL
                                 (store_of [row 1 "alice" INITIAL 0 None None;
                                            row 2 "bob" INITIAL 0 None None]))).
Proof.
  apply (get_usernames_by_status_limit
           INITIAL (Some 1) None
           (store_of [row 1 "alice" INITIAL 0 None None;
                      row 2 "bob" INITIAL 0 None None])).
  - reflexivity.
  - lia.
Defined.

Lemma status_key_inj a b : status_key a = status_key b -> a = b.
Proof. destruct a, b; vm_compute; intros H; (reflexivity || discriminate H). Qed.

Lemma count_status_cons (status : EnrichmentStatus) (r : developer) (l : list developer) :
  length (filter (fun d => enrichment_status d = status) (r :: l))
  = ((if decide (enrichment_status r = status) then 1 else 0)
     + length (filter (fun d => enrichment_status d = status) l))%nat.
Proof. rewrite filter_cons. destruct (decide _); reflexivity. Qed.

(** Each row has one status: the counts per status add up to the number
    of rows. *)
Lemma count_status_partition t :
  count_status INITIAL t + count_status PROCESSING t + count_status PROFILED t
  + count_status ENHANCED t + count_status FAILED t
  = Z.of_nat (length (developers t)).
Proof.
  unfold count_status. induction (developers t) as [|r l IH]; [reflexivity|].
  rewrite !count_status_cons. simpl length. rewrite Nat2Z.inj_succ, <- IH.
  destruct (enrichment_status r);
    repeat match goal with
           | |- context [decide (?a = ?b)] => destruct (decide (a = b)); try discriminate
           end; try congruence; lia.
Qed.

(** The entries the [GROUP BY] rows leave in the dict. *)
Lemma stats_groups_lookup (t : tables) (statuses : list EnrichmentStatus)
      (acc : gmap string Z) (status : EnrichmentStatus) :
  NoDup statuses ->
  foldl (fun stats '(st, n) => <[ status_key st := n ]> stats) acc
        (omap (fun st => if 0 <? count_status st t
                         then Some (st, count_status st t) else None)
              statuses)
  !! status_key status
  = if decide (status ∈ statuses /\ 0 < count_status status t)
    then Some (count_status status t)
    else acc !! status_key status.
Proof.
  intros Hnd. revert acc.
  induction Hnd as [|st l Hnotin Hnd IH]; intros acc.
  - rewrite decide_False by (intros [Hin _]; inversion Hin). reflexivity.
  - csimpl. destruct (0 <? count_status st t) eqn:Hpos; csimpl.
    + rewrite IH.
      destruct (decide (status ∈ l /\ 0 < count_status status t)) as [[Hin Hc]|Hn].
      * rewrite decide_True; [reflexivity|]. split; [right; exact Hin | exact Hc].
      * destruct (decide (status = st)) as [->|Hne].
        -- rewrite lookup_insert_eq. apply Z.ltb_lt in Hpos.
           rewrite decide_True; [reflexivity|]. split; [left | exact Hpos].
        -- rewrite lookup_insert_ne by (intros Hk; apply status_key_inj in Hk; congruence).
           rewrite decide_False; [reflexivity|].
           intros [Hin Hc]. apply elem_of_cons in Hin as [->|Hin]; [congruence|].
           apply Hn. auto.
    + rewrite IH. apply Z.ltb_ge in Hpos.
      destruct (decide (status ∈ l /\ 0 < count_status status t)) as [[Hin Hc]|Hn].
      * rewrite decide_True; [reflexivity|]. split; [right; exact Hin | exact Hc].
      * rewrite decide_False; [reflexivity|].
        intros [Hin Hc]. apply elem_of_cons in Hin as [->|Hin]; [lia|].
        apply Hn. auto.
Qed.

Lemma count_status_nonneg status t : 0 <= count_status status t.
Proof. unfold count_status. lia. Qed.

Lemma all_statuses_complete status : status ∈ all_statuses.
Proof. destruct status; unfold all_statuses; set_solver. Qed.

Lemma all_statuses_NoDup : NoDup all_statuses.
Proof.
  unfold all_statuses.
  repeat (constructor; [rewrite ?elem_of_cons, elem_of_nil; intuition discriminate|]).
  constructor.
Qed.

Lemma get_stats_no_fault d :
  get_stats None d
  = (Returned
       (<[ "failed_count"%string := count_status FAILED (db_tables d) ]>
        (<[ "avg_repos"%string :=
              or_zero (avg_integer (fun r => public_repos (columns r)) (db_tables d)) ]>
         (<[ "avg_followers"%string :=
               or_zero (avg_integer (fun r => followers (columns r)) (db_tables d)) ]>
          (<[ "developers_with_social"%string := count_with_social (db_tables d) ]>
           (<[ "developers_with_email"%string := count_with_email (db_tables d) ]>
            (<[ "total_developers"%string :=
                  Z.of_nat (length (developers (db_tables d))) ]>
             (foldl (fun stats '(st, n) => <[ status_key st := n ]> stats) ∅
                    (group_by_status (db_tables d))))))))),
     d).
Proof. destruct d as [t s]. reflexivity. Qed.

Lemma status_key_not_fixed status key :
  key ∈ ["total_developers"; "developers_with_email"; "developers_with_social";
         "avg_followers"; "avg_repos"; "failed_count"]%string ->
  key <> status_key status.
Proof.
  rewrite !elem_of_cons, elem_of_nil.
  intros H E; destruct status;
    repeat (destruct H as [-> | H]; [vm_compute in E; discriminate E|]);
    exact H.
Qed.

Lemma count_with_email_le t :
  0 <= count_with_email t <= Z.of_nat (length (developers t)).
Proof.
  unfold count_with_email.
  pose proof (length_filter (fun d => is_Some (email (columns d))) (developers t)).
  lia.
Qed.

(** X6 ([get_stats]): reading the statistics never changes the store,
    whatever call fails. With no fault the dict holds, for every status,
    the number of rows in it under the status key, and the key is
    missing exactly when there is no such row (so that the five
    [stats.get(key, 0)] add up to [total_developers]); [failed_count]
    is the FAILED count, and [developers_with_email] is at most
    [total_developers]. *)
Theorem get_stats_counts (flt : option nat) (d : database) :
  (get_stats flt d).2 = d
  /\ exists stats,
      (get_stats None d).1 = Returned stats
      /\ (forall status,
             stats_get stats (status_key status) = count_status status (db_tables d)
             /\ (stats !! status_key status = None
                 <-> count_status status (db_tables d) = 0))
      /\ stats_get stats (status_key INITIAL) + stats_get stats (status_key PROCESSING)
         + stats_get stats (status_key PROFILED) + stats_get stats (status_key ENHANCED)
         + stats_get stats (status_key FAILED)
         = stats_get stats "total_developers"
      /\ stats !! "total_developers"%string
         = Some (Z.of_nat (length (developers (db_tables d))))
      /\ stats !! "failed_count"%string = Some (count_status FAILED (db_tables d))
      /\ 0 <= stats_get stats "developers_with_email"
         <= stats_get stats "total_developers".
Proof.
  split.
  - destruct d as [t s], flt as [k|]; [|reflexivity].
    do 8 (destruct k as [|k]; [reflexivity|]). reflexivity.
  - rewrite get_stats_no_fault. eexists. split; [reflexivity|].
    set (groups := foldl _ ∅ _).
    assert (Hgroup : forall status,
               groups !! status_key status
               = if decide (0 < count_status status (db_tables d))
                 then Some (count_status status (db_tables d)) else None).
    { intros status. unfold groups, group_by_status.
      rewrite (stats_groups_lookup _ _ _ _ all_statuses_NoDup), lookup_empty.
      pose proof (all_statuses_complete status).
      destruct (decide (0 < _)); [rewrite decide_True | rewrite decide_False];
        tauto. }
    assert (Hkey : forall status (a b c e f g : Z),
               let stats := <["failed_count"%string := a]>
                              (<["avg_repos"%string := b]>
                                 (<["avg_followers"%string := c]>
                                    (<["developers_with_social"%string := e]>
                                       (<["developers_with_email"%string := f]>
                                          (<["total_developers"%string := g]> groups)))))
               in
               stats_get stats (status_key status) = count_status status (db_tables d)
               /\ (stats !! status_key status = None
                   <-> count_status status (db_tables d) = 0)).
    { intros status a b c e f g. unfold stats_get. cbv zeta.
      rewrite !lookup_insert_ne
        by (apply status_key_not_fixed; rewrite !elem_of_cons; tauto).
      rewrite Hgroup. pose proof (count_status_nonneg status (db_tables d)).
      destruct (decide (0 < _)); simpl; split; try split; try lia;
        try discriminate; reflexivity. }
    split; [intros status; apply Hkey|].
    assert (Htotal : forall (m : gmap string Z) a b c e f,
               stats_get (<["failed_count"%string := a]>
                            (<["avg_repos"%string := b]>
                               (<["avg_followers"%string := c]>
                                  (<["developers_with_social"%string := e]>
                                     (<["developers_with_email"%string := f]>
                                        (<["total_developers"%string :=
                                             Z.of_nat (length (developers (db_tables d)))]>
                                           m))))))
                         "total_developers"
               = Z.of_nat (length (developers (db_tables d)))).
    { intros. unfold stats_get.
      rewrite !lookup_insert_ne by discriminate. rewrite lookup_insert_eq.
      reflexivity. }
    split; [|split; [|split]].
    + rewrite !(proj1 (Hkey _ _ _ _ _ _ _)), Htotal. apply count_status_partition.
    + rewrite !lookup_insert_ne by discriminate. apply lookup_insert_eq.
    + apply lookup_insert_eq.
    + rewrite Htotal. unfold stats_get.
      rewrite !lookup_insert_ne by discriminate. rewrite lookup_insert_eq.
      apply count_with_email_le.
Qed.

Lemma count_with_social_le t :
  foreign_keys_valid t ->
  0 <= count_with_social t <= Z.of_nat (length (developers t)).
Proof.
  intros [Hlinks _]. unfold count_with_social. split; [lia|].
  apply inj_le. rewrite <- (length_map id (developers t)).
  apply submseteq_length, NoDup_submseteq; [apply NoDup_remove_dups|].
  intros x Hx. rewrite elem_of_remove_dups in Hx.
  apply list_elem_of_In, in_map_iff in Hx as (l & <- & Hl).
  rewrite Forall_forall in Hlinks. apply Hlinks, list_elem_of_In, Hl.
Qed.

(** X7 ([get_stats]): in a store whose social links all belong to a
    developer of the table, [developers_with_social] counts each such
    developer once: it is at most [total_developers]. *)
Theorem get_stats_social_bounded (d : database) :
  foreign_keys_valid (db_tables d) ->
  exists stats,
    (get_stats None d).1 = Returned stats
    /\ stats !! "developers_with_social"%string
       = Some (Z.of_nat (length (remove_dups
                                   (map sl_developer_id (social_links (db_tables d))))))
    /\ 0 <= stats_get stats "developers_with_social"
       <= stats_get stats "total_developers".
Proof.
  intros Hfk. rewrite get_stats_no_fault. eexists. split; [reflexivity|].
  unfold stats_get.
  rewrite (lookup_insert_ne _ "failed_count"%string "developers_with_social"%string)
    by discriminate.
  rewrite (lookup_insert_ne _ "avg_repos"%string "developers_with_social"%string)
    by discriminate.
  rewrite (lookup_insert_ne _ "avg_followers"%string "developers_with_social"%string)
    by discriminate.
  rewrite lookup_insert_eq.
  rewrite !(lookup_insert_ne _ _ "total_developers"%string) by discriminate.
  rewrite lookup_insert_eq.
  split; [reflexivity|]. simpl. apply count_with_social_le, Hfk.
Qed.

Lemma get_stats_social_bounded_witness :
  foreign_keys_valid (db_tables johndoe_store)
  /\ exists stats,
      (get_stats None johndoe_store).1 = Returned stats
      /\ stats !! "developers_with_social"%string
         = Some (Z.of_nat
                   (length (remove_dups
                              (map sl_developer_id
                                   (social_links (db_tables johndoe_store))))))
      /\ 0 <= stats_get stats "developers_with_social"
         <= stats_get stats "total_developers".
Proof.
  assert (Hfk : foreign_keys_valid (db_tables johndoe_store)).
  { split; repeat constructor. }
  split; [exact Hfk | apply (get_stats_social_bounded johndoe_store Hfk)].
Defined.

Lemma round_div_bounds (num den lo hi : Z) :
  0 < den -> lo * den <= num <= hi * den ->
  lo <= round_div num den <= hi.
Proof.
  intros Hden [Hlo Hhi]. unfold round_div.
  destruct (0 <=? num) eqn:E.
  - split.
    + apply Z.div_le_lower_bound; nia.
    + apply Z.lt_succ_r, Z.div_lt_upper_bound; nia.
  - apply Z.leb_gt in E. split.
    + apply Z.opp_le_mono. rewrite Z.opp_involutive.
      apply Z.lt_succ_r, Z.div_lt_upper_bound; nia.
    + apply Z.opp_le_mono. rewrite Z.opp_involutive.
      apply Z.div_le_lower_bound; nia.
Qed.

Lemma sum_bounds (values : list Z) (lo hi : Z) :
  Forall (fun v => lo <= v <= hi) values ->
  lo * Z.of_nat (length values) <= foldr Z.add 0 values
  <= hi * Z.of_nat (length values).
Proof.
  induction 1 as [|v l Hv _ IH]; simpl foldr; simpl length; [lia|].
  rewrite Nat2Z.inj_succ. nia.
Qed.

Lemma avg_integer_bounds (col : developer -> option Z) (t : tables) (lo hi : Z) :
  lo <= 0 <= hi ->
  (forall r v, r ∈ developers t ->
               enrichment_status r = PROFILED \/ enrichment_status r = ENHANCED ->
               col r = Some v -> lo <= v <= hi) ->
  lo <= or_zero (avg_integer col t) <= hi.
Proof.
  intros H0 Hrows. unfold avg_integer.
  remember (omap col _) as values eqn:E.
  assert (Hvalues : Forall (fun v => lo <= v <= hi) values).
  { apply Forall_forall. intros v Hv. rewrite E in Hv.
    apply list_elem_of_omap in Hv as (r & Hr & Hc).
    apply list_elem_of_filter in Hr as [Hs Hr]. eauto. }
  clear E. destruct values as [|v l]; [exact H0|].
  simpl or_zero. apply round_div_bounds.
  - simpl length. lia.
  - exact (sum_bounds (v :: l) lo hi Hvalues).
Qed.

(** X8 ([get_stats]): the two averages are taken over the PROFILED and
    ENHANCED rows only, and lie within the range of the values
    averaged: if those rows have between 0 and [hi] followers (public
    repositories), so has the average; it is 0 when there is no such
    row. *)
Theorem get_stats_averages_bounded (d : database) (hi : Z) :
  0 <= hi ->
  (forall r v, r ∈ developers (db_tables d) ->
               enrichment_status r = PROFILED \/ enrichment_status r = ENHANCED ->
               followers (columns r) = Some v \/ public_repos (columns r) = Some v ->
               0 <= v <= hi) ->
  exists stats,
    (get_stats None d).1 = Returned stats
    /\ 0 <= stats_get stats "avg_followers" <= hi
    /\ 0 <= stats_get stats "avg_repos" <= hi
    /\ (count_status PROFILED (db_tables d) = 0 ->
        count_status ENHANCED (db_tables d) = 0 ->
        stats_get stats "avg_followers" = 0 /\ stats_get stats "avg_repos" = 0).
Proof.
  intros Hhi Hrows. rewrite get_stats_no_fault. eexists. split; [reflexivity|].
  unfold stats_get.
  rewrite !(lookup_insert_ne _ _ "avg_followers"%string) by discriminate.
  rewrite !(lookup_insert_ne _ _ "avg_repos"%string) by discriminate.
  rewrite !lookup_insert_eq. simpl default.
  split; [|split].
  - apply avg_integer_bounds; [lia|]. intros r v Hr Hs Hc. eauto.
  - apply avg_integer_bounds; [lia|]. intros r v Hr Hs Hc. eauto.
  - intros Hp He.
    assert (Hnone : filter (fun r => enrichment_status r = PROFILED
                                     \/ enrichment_status r = ENHANCED)
                           (developers (db_tables d)) = []).
    { unfold count_status in Hp, He.
      apply Nat2Z.inj_iff with (m := O), length_zero_iff_nil in Hp.
      apply Nat2Z.inj_iff with (m := O), length_zero_iff_nil in He.
      clear Hrows. revert Hp He.
      induction (developers (db_tables d)) as [|r l IH]; [reflexivity|].
      rewrite !filter_cons.
      destruct (decide (enrichment_status r = PROFILED)); [discriminate|].
      destruct (decide (enrichment_status r = ENHANCED)); [discriminate|].
      rewrite decide_False by tauto. exact IH. }
    unfold avg_integer. rewrite Hnone. split; reflexivity.
Qed.

Lemma get_stats_averages_bounded_witness :
  exists stats,
    (get_stats None (store_of [row 1 "alice" PROFILED 0 None None])).1 = Returned stats
    /\ 0 <= stats_get stats "avg_followers" <= 10
    /\ 0 <= stats_get stats "avg_repos" <= 10
    /\ (count_status PROFILED (db_tables (store_of [row 1 "alice" PROFILED 0 None None]))
        = 0 ->
        count_status ENHANCED (db_tables (store_of [row 1 "alice" PROFILED 0 None None]))
        = 0 ->
        stats_get stats "avg_followers" = 0 /\ stats_get stats "avg_repos" = 0).
Proof.
  apply (get_stats_averages_bounded
           (store_of [row 1 "alice" PROFILED 0 None None]) 10).
  - lia.
  - intros r v Hr _ Hv. apply list_elem_of_singleton in Hr. subst r.
    simpl in Hv. destruct Hv as [Hv | Hv]; injection Hv as <-; lia.
Defined.

(** ** Claiming in id order *)

Lemma insert_by_id_sorted r l :
  StronglySorted by_id l -> StronglySorted by_id (insert_by_id r l).
Proof.
  induction 1 as [|e l Hl IH He]; simpl.
  - repeat constructor.
  - destruct (id r <=? id e) eqn:E.
    + apply Z.leb_le in E. constructor; [constructor; assumption|].
      constructor; [exact E|].
      eapply Forall_impl; [exact He|]. unfold by_id. intros; lia.
    + apply Z.leb_gt in E. constructor; [exact IH|].
      rewrite insert_by_id_perm. constructor; [unfold by_id; lia | exact He].
Qed.

Lemma order_by_id_sorted l : StronglySorted by_id (order_by_id l).
Proof.
  induction l as [|r l IH]; simpl; [constructor | apply insert_by_id_sorted, IH].
Qed.

Lemma claimed_by_claim_rows from limit owner timeout now d :
  claimed_by_claim from limit owner timeout now d
  = map username
        (filter (fun r => id_in (select_claimable
                                   from limit
                                   (new_tables (release_stale from now timeout
                                                              (db_tables d)
                                                              (db_sequences d)))) r
                          = true)
                (developers_after_release from timeout now d)).
Proof. reflexivity. Qed.

Lemma select_claimable_ids from limit timeout now d :
  select_claimable from limit
                   (new_tables (release_stale from now timeout
                                              (db_tables d) (db_sequences d)))
  = map id (take limit (order_by_id (claimable from timeout now d))).
Proof. reflexivity. Qed.

(** With [id] a key, the rows the [UPDATE] touches are the rows the
    subquery selected. *)
Lemma claimed_rows_selected from limit timeout now d :
  unique_ids d ->
  filter (fun r => id_in (map id (take limit (order_by_id (claimable from timeout now d))))
                         r = true)
         (developers_after_release from timeout now d)
  ≡ₚ take limit (order_by_id (claimable from timeout now d)).
Proof.
  intros Hids.
  assert (Hids1 : NoDup (map id (developers_after_release from timeout now d))).
  { rewrite release_keeps_ids. exact Hids. }
  assert (Hnd1 : NoDup (developers_after_release from timeout now d)).
  { apply (NoDup_fmap_1 id). exact Hids1. }
  assert (Hsub : forall r, r ∈ take limit (order_by_id (claimable from timeout now d)) ->
                           r ∈ developers_after_release from timeout now d).
  { intros r Hr. apply (subseteq_take limit) in Hr. rewrite order_by_id_perm in Hr.
    unfold claimable in Hr. apply list_elem_of_filter in Hr. tauto. }
  apply NoDup_Permutation.
  - apply NoDup_filter, Hnd1.
  - eapply sublist_NoDup; [|apply sublist_take].
    rewrite order_by_id_perm. apply NoDup_filter, Hnd1.
  - intros r. rewrite list_elem_of_filter, id_in_spec. split.
    + intros [Hin Hr].
      apply list_elem_of_In, in_map_iff in Hin as (r' & Hid & Hr').
      apply list_elem_of_In in Hr'.
      rewrite <- (unique_key id _ r' r Hids1 (Hsub _ Hr') Hr Hid). exact Hr'.
    + intros Hr. split; [|apply Hsub, Hr].
      apply list_elem_of_In, in_map, list_elem_of_In, Hr.
Qed.

(** X9 ([claim_batch_for_processing]): in a store where ids and
    usernames are keys, a claim from a status other than PROCESSING
    returns as many usernames as the limit allows, min(limit, number of
    rows in that status once stale claims are released), each once, and
    takes the rows with the lowest ids: every row left in the status has
    a larger id than every row claimed. *)
Theorem claim_batch_lowest_ids_first (from : EnrichmentStatus) (limit : nat)
        (owner : string) (timeout now : Z) (d : database) :
  unique_ids d ->
  NoDup (map username (developers (db_tables d))) ->
  from <> PROCESSING ->
  (claim_batch_for_processing from limit owner timeout now None d).1
  = Returned (claimed_by_claim from limit owner timeout now d)
  /\ length (claimed_by_claim from limit owner timeout now d)
     = Nat.min limit (length (claimable from timeout now d))
  /\ NoDup (claimed_by_claim from limit owner timeout now d)
  /\ (forall x y,
         x ∈ developers (tables_after_claim from limit owner timeout now d) ->
         y ∈ developers (tables_after_claim from limit owner timeout now d) ->
         username y ∈ claimed_by_claim from limit owner timeout now d ->
         enrichment_status x = from ->
         id y < id x).
Proof.
  intros Hids Hnames Hfrom.
  assert (Hnames1 : NoDup (map username (developers_after_release from timeout now d))).
  { unfold developers_after_release, release_stale.
    rewrite update_developers_rows, (map_if_key username) by reflexivity.
    exact Hnames. }
  split; [rewrite claim_batch_no_fault; reflexivity|].
  rewrite claimed_by_claim_rows, select_claimable_ids.
  split; [|split].
  - rewrite length_map, (claimed_rows_selected _ _ _ _ _ Hids), length_take.
    rewrite (Permutation_length (order_by_id_perm _)). reflexivity.
  - eapply sublist_NoDup; [exact Hnames1|].
    apply (fmap_sublist username), sublist_filter.
  - intros x y Hx Hy Hu Hsx.
    unfold tables_after_claim, claim_rows in Hx, Hy.
    rewrite update_developers_rows in Hx, Hy.
    fold (developers_after_release from timeout now d) in Hx, Hy.
    rewrite select_claimable_ids in Hx, Hy.
    set (ids := map id (take limit (order_by_id (claimable from timeout now d)))) in *.
    apply list_elem_of_In, in_map_iff in Hx as (x1 & Ex & Hx1).
    apply list_elem_of_In, in_map_iff in Hy as (y1 & Ey & Hy1).
    apply list_elem_of_In in Hx1, Hy1.
    apply list_elem_of_In, in_map_iff in Hu as (y0 & Eu & Hy0).
    apply list_elem_of_In, list_elem_of_filter in Hy0 as [Hsel Hy0].
    assert (Euy : username y1 = username y0).
    { rewrite Eu, <- Ey. destruct (id_in ids y1); reflexivity. }
    apply (unique_username _ _ _ Hnames1 Hy1 Hy0) in Euy. subst y0.
    assert (Eid : id y = id y1).
    { rewrite <- Ey. destruct (id_in ids y1); reflexivity. }
    destruct (id_in ids x1) eqn:Hselx.
    { subst x. simpl in Hsx. congruence. }
    subst x. rewrite Eid.
    apply id_in_spec in Hsel.
    apply list_elem_of_In, in_map_iff in Hsel as (y' & Hid & Hy').
    apply list_elem_of_In in Hy'.
    assert (Hx' : x1 ∈ drop limit (order_by_id (claimable from timeout now d))).
    { assert (Hall : x1 ∈ order_by_id (claimable from timeout now d)).
      { rewrite order_by_id_perm. apply list_elem_of_filter. auto. }
      rewrite <- (take_drop limit) in Hall.
      apply elem_of_app in Hall as [Hin|Hin]; [|exact Hin].
      exfalso. apply not_true_iff_false in Hselx. apply Hselx, id_in_spec.
      apply list_elem_of_In, in_map, list_elem_of_In, Hin. }
    pose proof (order_by_id_sorted (claimable from timeout now d)) as Hsorted.
    rewrite <- (take_drop limit) in Hsorted.
    pose proof (StronglySorted_app_1_elem_of _ _ _ _ _ Hsorted Hy' Hx') as Hle.
    unfold by_id in Hle.
    assert (Hne : id x1 <> id y1).
    { intros E. apply not_true_iff_false in Hselx. apply Hselx, id_in_spec.
      rewrite E, <- Hid. apply list_elem_of_In, in_map, list_elem_of_In, Hy'. }
    lia.
Qed.

Lemma claim_batch_lowest_ids_first_witness :
  (claim_batch_for_processing INITIAL 2 "host-1" 30 1000 None three_initial).1
  = Returned (claimed_by_claim INITIAL 2 "host-1" 30 1000 three_initial)
  /\ length (claimed_by_claim INITIAL 2 "host-1" 30 1000 three_initial)
     = Nat.min 2 (length (claimable INITIAL 30 1000 three_initial))
  /\ NoDup (claimed_by_claim INITIAL 2 "host-1" 30 1000 three_initial)
  /\ (forall x y,
         x ∈ developers (tables_after_claim INITIAL 2 "host-1" 30 1000 three_initial) ->
         y ∈ developers (tables_after_claim INITIAL 2 "host-1" 30 1000 three_initial) ->
         username y ∈ claimed_by_claim INITIAL 2 "host-1" 30 1000 three_initial ->
         enrichment_status x = INITIAL ->
         id y < id x).
Proof.
  apply (claim_batch_lowest_ids_first INITIAL 2 "host-1" 30 1000 three_initial).
  - apply (bool_decide_unpack _). vm_compute. exact I.
  - apply (bool_decide_unpack _). vm_compute. exact I.
  - discriminate.
Defined.

(** ** A claimed batch ([scrape_profiles], the [for] loop) *)

Section BatchFacts.
Variable config : Settings.ScraperConfig.
Variable fromisoformat : string -> option Z.
Variable github : string -> nat -> attempt.
Variable faults : nat -> option nat.
Variable store_error : string.

Local Abbreviation MAX := (Settings.MAX_RETRIES config).
Local Abbreviation process_one :=
  (process_username config fromisoformat github faults store_error).
Local Abbreviation process_all :=
  (process_batch config fromisoformat github faults store_error).

Lemma on_error_effects uname processed w :
  api_calls (on_error faults store_error uname processed w).2 = api_calls w
  /\ forall p', (on_error faults store_error uname processed w).1 = Returned p' ->
                p' = processed.
Proof.
  unfold on_error.
  match goal with
  | |- context [call_db faults ?m ?w0] =>
      pose proof (call_db_api_calls faults m w0) as [Hc _];
      destruct (call_db faults m w0) as [[n|] w2]
  end; simpl in *; (split; [rewrite Hc; reflexivity|]); congruence.
Qed.


Hypothesis healthy : forall k, faults k = None.

Lemma fetch_from_healthy remaining attempt_no uname w :
  (fetch_profile_from config github faults remaining attempt_no uname w).1 <> Exception.
Proof.
  revert attempt_no w.
  induction remaining as [|remaining IH]; intros attempt_no w; simpl; [discriminate|].
  destruct (github uname (api_calls w)) as [user repos|[| |] text]; simpl.
  - discriminate.
  - apply IH.
  - destruct (_ <? _); [apply IH|].
    unfold call_db. rewrite healthy, mark_as_failed_no_fault. discriminate.
  - destruct (_ <? _); [apply IH|].
    unfold call_db. rewrite healthy, mark_as_failed_no_fault. discriminate.
Qed.


End BatchFacts.



(** ** The constraints of the schema are kept *)

Lemma seq_le_refl s : seq_le s s.
Proof. unfold seq_le. lia. Qed.

Lemma seq_le_trans s1 s2 s3 : seq_le s1 s2 -> seq_le s2 s3 -> seq_le s1 s3.
Proof. unfold seq_le. lia. Qed.

Lemma Forall_lt_mono (bound bound' : Z) (l : list Z) :
  bound <= bound' -> Forall (fun i => i < bound) l -> Forall (fun i => i < bound') l.
Proof.
  intros Hle H. eapply Forall_impl; [exact H|]. intros i Hi. simpl in Hi. lia.
Qed.

(** Moving a sequence on breaks nothing. *)
Lemma schema_constraints_mono t s s' :
  schema_constraints t s -> seq_le s s' -> schema_constraints t s'.
Proof.
  intros [] (H1 & H2 & H3). constructor; auto; eapply Forall_lt_mono; eauto.
Qed.

Lemma foreign_keys_same_ids t t' :
  map id (developers t') = map id (developers t) ->
  social_links t' = social_links t ->
  repositories t' = repositories t ->
  foreign_keys_valid t -> foreign_keys_valid t'.
Proof. unfold foreign_keys_valid. intros -> -> ->. auto. Qed.

(** *** Statements *)

(** An [UPDATE developers] that sets neither id nor username. *)
Lemma update_developers_keeps {A} cond set (out : developer -> A) P Q :
  (forall r, id (set r) = id r) ->
  (forall r, username (set r) = username r) ->
  (forall t s, schema_constraints t s -> P t ->
               Q (rows (update_developers cond set out t s))
                 (new_tables (update_developers cond set out t s))) ->
  stmt_keeps P (update_developers cond set out) Q.
Proof.
  intros Hid Hname HQ t s Hc HP.
  split; [|split; [apply seq_le_refl | apply HQ; assumption]].
  assert (Hids : map id (developers (new_tables (update_developers cond set out t s)))
                 = map id (developers t)).
  { rewrite update_developers_rows. apply (map_if_key id), Hid. }
  assert (Hnames : map username
                       (developers (new_tables (update_developers cond set out t s)))
                   = map username (developers t)).
  { rewrite update_developers_rows. apply (map_if_key username), Hname. }
  destruct Hc. constructor; try assumption.
  - rewrite Hids. assumption.
  - rewrite Hnames. assumption.
  - rewrite Hids. assumption.
  - eapply foreign_keys_same_ids; eauto.
Qed.

Lemma update_developers_has_developer {A} cond set (out : developer -> A)
      developer_id t s :
  (forall r, id (set r) = id r) ->
  has_developer developer_id t ->
  has_developer developer_id (new_tables (update_developers cond set out t s)).
Proof.
  intros Hid. unfold has_developer.
  rewrite update_developers_rows, (map_if_key id) by exact Hid. auto.
Qed.

Lemma existsb_false_Forall {A} (f : A -> bool) (l : list A) :
  existsb f l = false -> Forall (fun x => f x = false) l.
Proof.
  induction l as [|x l IH]; simpl; intros H; constructor.
  - apply orb_false_iff in H. tauto.
  - apply IH. apply orb_false_iff in H. tauto.
Qed.

Lemma fresh_serial (ids : list Z) (next : Z) :
  Forall (fun i => i < next) ids -> next ∉ ids.
Proof.
  intros Hall Hin. rewrite Forall_forall in Hall. specialize (Hall _ Hin). lia.
Qed.

Lemma NoDup_snoc {A} (l : list A) (x : A) : NoDup l -> x ∉ l -> NoDup (l ++ [x]).
Proof.
  intros Hl Hx. apply NoDup_app. split; [exact Hl|]. split; [|apply NoDup_singleton].
  intros y Hy Hy'. apply list_elem_of_singleton in Hy'. subst y. auto.
Qed.

Lemma Forall_lt_snoc (ids : list Z) (next : Z) :
  Forall (fun i => i < next) ids -> Forall (fun i => i < next + 1) (ids ++ [next]).
Proof.
  intros H. apply Forall_app. split.
  - eapply Forall_lt_mono; [|exact H]. lia.
  - repeat constructor. lia.
Qed.

(** [INSERT INTO developers ... ON CONFLICT (username) DO NOTHING] *)
Lemma insert_username_keeps now u :
  stmt_keeps (fun _ => True) (insert_username now u) (fun _ _ => True).
Proof.
  intros t s Hc _.
  assert (Hseq : seq_le s (next_developer_id s)) by (unfold seq_le; simpl; lia).
  unfold insert_username.
  destruct (existsb (has_username u) (developers t)) eqn:E; cbn [new_tables new_sequences rows].
  - split; [|split; [exact Hseq | exact I]].
    eapply schema_constraints_mono; eauto.
  - split; [|split; [exact Hseq | exact I]].
    destruct Hc. constructor; cbn [developers social_links repositories];
      rewrite ?map_app; simpl; try assumption.
    + apply NoDup_snoc; [assumption|]. apply fresh_serial. assumption.
    + apply NoDup_snoc; [assumption|]. rewrite <- has_username_elem, E. discriminate.
    + apply Forall_lt_snoc. assumption.
    + destruct foreign_keys0 as [Hl Hr]. split; cbn [developers social_links repositories].
      * eapply Forall_impl; [exact Hl|]. intros l Hin. rewrite map_app.
        apply elem_of_app. left. exact Hin.
      * eapply Forall_impl; [exact Hr|]. intros r Hin. rewrite map_app.
        apply elem_of_app. left. exact Hin.
Qed.

Lemma link_key_fresh developer_id plat (links : list social_link) :
  existsb (same_link developer_id plat) links = false ->
  (developer_id, plat) ∉ map link_key links.
Proof.
  intros E Hin. apply existsb_false_Forall in E. rewrite Forall_forall in E.
  apply list_elem_of_In, in_map_iff in Hin as (l & Hk & Hl).
  specialize (E l (proj2 (list_elem_of_In _ _) Hl)).
  apply not_true_iff_false in E. apply E, same_link_spec.
  unfold link_key in Hk. injection Hk as -> ->. auto.
Qed.

(** [INSERT INTO social_links ... ON CONFLICT (developer_id, platform)
    DO UPDATE SET url], for a developer of the table. *)
Lemma upsert_social_link_keeps_schema now developer_id plat u :
  stmt_keeps (has_developer developer_id)
             (upsert_social_link now (developer_id, plat, u))
             (fun _ => has_developer developer_id).
Proof.
  intros t s Hc Hdev.
  assert (Hseq : seq_le s (next_social_link_id s)) by (unfold seq_le; simpl; lia).
  split; [|split; [exact Hseq | exact Hdev]].
  destruct Hc. destruct foreign_keys0 as [Hl Hr].
  constructor; cbn [upsert_social_link new_tables new_sequences developers
                    social_links repositories next_social_link_id
                    developers_id_seq social_links_id_seq repositories_id_seq];
    try assumption.
  - destruct (existsb (same_link developer_id plat) (social_links t)) eqn:E.
    + rewrite (map_if_key sl_id) by reflexivity. assumption.
    + rewrite map_app. apply NoDup_snoc; [assumption|].
      apply fresh_serial. assumption.
  - destruct (existsb (same_link developer_id plat) (social_links t)) eqn:E.
    + rewrite (map_if_key link_key) by reflexivity. assumption.
    + rewrite map_app. apply NoDup_snoc; [assumption|].
      apply link_key_fresh, E.
  - destruct (existsb (same_link developer_id plat) (social_links t)) eqn:E.
    + rewrite (map_if_key sl_id) by reflexivity.
      eapply Forall_lt_mono; [|eassumption]. lia.
    + rewrite map_app. apply Forall_lt_snoc. assumption.
  - split; cbn [developers social_links repositories]; [|exact Hr].
    destruct (existsb (same_link developer_id plat) (social_links t)) eqn:E.
    + apply Forall_map. eapply Forall_impl; [exact Hl|].
      intros l Hin. destruct (same_link developer_id plat l); exact Hin.
    + apply Forall_app. split; [exact Hl|]. repeat constructor. exact Hdev.
Qed.

Lemma repo_key_fresh developer_id nm (repos : list repository) :
  existsb (same_repo developer_id nm) repos = false ->
  (developer_id, nm) ∉ map repo_key repos.
Proof.
  intros E Hin. apply existsb_false_Forall in E. rewrite Forall_forall in E.
  apply list_elem_of_In, in_map_iff in Hin as (r & Hk & Hr).
  specialize (E r (proj2 (list_elem_of_In _ _) Hr)).
  apply not_true_iff_false in E. apply E, same_repo_spec.
  unfold repo_key in Hk. injection Hk as -> ->. auto.
Qed.

Lemma map_if_repo_key developer_id idx tr (repos : list repository) :
  map repo_key
      (map (fun old => if same_repo developer_id (TopRepo.name tr) old
                       then repo_row (repo_id old) developer_id idx tr else old)
           repos)
  = map repo_key repos.
Proof.
  rewrite map_map. apply map_ext. intros old.
  destruct (same_repo developer_id (TopRepo.name tr) old) eqn:E; [|reflexivity].
  apply same_repo_spec in E as [Hd Hn]. unfold repo_key. simpl. congruence.
Qed.

Lemma map_if_repo_id developer_id idx tr (repos : list repository) :
  map repo_id
      (map (fun old => if same_repo developer_id (TopRepo.name tr) old
                       then repo_row (repo_id old) developer_id idx tr else old)
           repos)
  = map repo_id repos.
Proof.
  rewrite map_map. apply map_ext. intros old.
  destruct (same_repo developer_id (TopRepo.name tr) old); reflexivity.
Qed.

(** [INSERT INTO repositories ... ON CONFLICT (developer_id, name) DO
    UPDATE SET ...], for a developer of the table. *)
Lemma upsert_repository_keeps_schema developer_id idx tr :
  stmt_keeps (has_developer developer_id)
             (upsert_repository developer_id (idx, tr))
             (fun _ => has_developer developer_id).
Proof.
  intros t s Hc Hdev.
  assert (Hseq : seq_le s (next_repository_id s)) by (unfold seq_le; simpl; lia).
  split; [|split; [exact Hseq | exact Hdev]].
  destruct Hc. destruct foreign_keys0 as [Hl Hr].
  constructor; cbn [upsert_repository new_tables new_sequences developers
                    social_links repositories next_repository_id
                    developers_id_seq social_links_id_seq repositories_id_seq];
    try assumption.
  - destruct (existsb (same_repo developer_id (TopRepo.name tr)) (repositories t)) eqn:E.
    + rewrite map_if_repo_id. assumption.
    + rewrite map_app. apply NoDup_snoc; [assumption|].
      apply fresh_serial. assumption.
  - destruct (existsb (same_repo developer_id (TopRepo.name tr)) (repositories t)) eqn:E.
    + rewrite map_if_repo_key. assumption.
    + rewrite map_app. apply NoDup_snoc; [assumption|].
      apply repo_key_fresh, E.
  - destruct (existsb (same_repo developer_id (TopRepo.name tr)) (repositories t)) eqn:E.
    + rewrite map_if_repo_id. eapply Forall_lt_mono; [|eassumption]. lia.
    + rewrite map_app. apply Forall_lt_snoc. assumption.
  - split; cbn [developers social_links repositories]; [exact Hl|].
    destruct (existsb (same_repo developer_id (TopRepo.name tr)) (repositories t)) eqn:E.
    + apply Forall_map. eapply Forall_impl; [exact Hr|].
      intros r Hin.
      destruct (same_repo developer_id (TopRepo.name tr) r) eqn:Er; [|exact Hin].
      exact Hdev.
    + apply Forall_app. split; [exact Hr|]. repeat constructor. exact Hdev.
Qed.

(** *** Transactions *)

Lemma tx_keeps_ret {A} (P : tables -> Prop) (a : A) (Q : A -> tables -> Prop) :
  (forall t, P t -> Q a t) -> tx_keeps P (ret a) Q.
Proof.
  intros HQ st Hc HP. unfold ret.
  split; [exact Hc|]. split; [apply seq_le_refl | apply HQ, HP].
Qed.

Lemma tx_keeps_bind {A B} (P : tables -> Prop) (m : tx A) (Q : A -> tables -> Prop)
      (f : A -> tx B) (Q' : B -> tables -> Prop) :
  tx_keeps P m Q -> (forall a, tx_keeps (Q a) (f a) Q') -> tx_keeps P (bind m f) Q'.
Proof.
  intros Hm Hf st Hc HP. unfold bind. specialize (Hm st Hc HP).
  destruct (m st) as [a st1|st1]; [|exact Hm].
  destruct Hm as (Hc1 & Hle1 & HQ). specialize (Hf a st1 Hc1 HQ).
  destruct (f a st1) as [b st2|st2].
  - destruct Hf as (Hc2 & Hle2 & HQ'). split; [exact Hc2|].
    split; [eapply seq_le_trans; eauto | exact HQ'].
  - eapply seq_le_trans; eauto.
Qed.

Lemma tx_keeps_weaken {A} (P P' : tables -> Prop) (body : tx A)
      (Q Q' : A -> tables -> Prop) :
  (forall t, P' t -> P t) -> (forall a t, Q a t -> Q' a t) ->
  tx_keeps P body Q -> tx_keeps P' body Q'.
Proof.
  intros HP HQ H st Hc HP'. specialize (H st Hc (HP _ HP')).
  destruct (body st) as [a st'|st']; [|exact H].
  destruct H as (H1 & H2 & H3). auto.
Qed.

Lemma tx_keeps_execute {A} (P : tables -> Prop) (stmt : statement A)
      (Q : A -> tables -> Prop) :
  stmt_keeps P stmt Q -> tx_keeps P (execute stmt) Q.
Proof.
  intros H st Hc HP. unfold execute.
  destruct (H _ _ Hc HP) as (H1 & H2 & H3).
  destruct (fault st) as [[|n]|]; simpl; auto using seq_le_refl.
Qed.

Lemma tx_keeps_cursor_rowcount (P : tables -> Prop) :
  tx_keeps P cursor_rowcount (fun _ => P).
Proof. intros st Hc HP. simpl. auto using seq_le_refl. Qed.

Lemma stmt_keeps_joined (P : tables -> Prop) first more :
  Forall (fun stmt => stmt_keeps P stmt (fun _ => P)) (first :: more) ->
  stmt_keeps P (joined first more) (fun _ => P).
Proof.
  revert first. induction more as [|next more IH]; intros first Hall.
  - simpl. apply Forall_cons in Hall as [H _]. exact H.
  - apply Forall_cons in Hall as [Hfirst Hrest]. intros t s Hc HP. simpl.
    destruct (Hfirst t s Hc HP) as (Hc1 & Hle1 & HP1).
    destruct (IH next Hrest _ _ Hc1 HP1) as (Hc2 & Hle2 & HP2).
    split; [exact Hc2|]. split; [eapply seq_le_trans; eauto | exact HP2].
Qed.

Lemma tx_keeps_execute_pages (P : tables -> Prop) pages :
  Forall (Forall (fun stmt => stmt_keeps P stmt (fun _ => P))) pages ->
  tx_keeps P (execute_pages pages) (fun _ => P).
Proof.
  induction 1 as [|page pages Hpage _ IH].
  - apply tx_keeps_ret. auto.
  - destruct page as [|first more]; [exact IH|].
    cbn [execute_pages]. eapply tx_keeps_bind.
    + apply tx_keeps_execute, stmt_keeps_joined, Hpage.
    + intros u. exact IH.
Qed.

Lemma paginate_fuel_Forall {A} (R : A -> Prop) fuel page_size (l : list A) :
  Forall R l -> Forall (Forall R) (paginate_fuel fuel page_size l).
Proof.
  revert l. induction fuel as [|fuel IH]; intros l Hl; simpl; [constructor|].
  destruct l as [|x l']; [constructor|].
  constructor.
  - apply Forall_take, Hl.
  - apply IH, Forall_drop, Hl.
Qed.

Lemma tx_keeps_execute_batch {A} (P : tables -> Prop) (sql : A -> statement unit)
      (args : list A) (page_size : nat) :
  (forall a, a ∈ args -> stmt_keeps P (sql a) (fun _ => P)) ->
  tx_keeps P (execute_batch sql args page_size) (fun _ => P).
Proof.
  intros H. unfold execute_batch, _paginate.
  apply tx_keeps_execute_pages, paginate_fuel_Forall.
  apply Forall_map_statements. exact H.
Qed.

Lemma social_data_developer developer_id sl (row : Z * string * string) :
  row ∈ social_data developer_id sl -> row.1.1 = developer_id.
Proof.
  unfold social_data. intros Hin. apply elem_of_app in Hin as [Hin|Hin].
  - apply list_elem_of_omap in Hin as ([plat [u|]] & _ & Hrow); [|discriminate].
    destruct (Text.nonempty u && negb (String.eqb plat "other_links"));
      [|discriminate].
    injection Hrow as <-. reflexivity.
  - apply list_elem_of_In, in_map_iff in Hin as ([idx u] & <- & _). reflexivity.
Qed.

(** A method run in [get_cursor]: committed or rolled back, the store
    satisfies the constraints. *)
Lemma get_cursor_keeps {A} (body : tx A) (Q : A -> tables -> Prop) flt d :
  tx_keeps (fun _ => True) body Q ->
  store_ok d -> store_ok (get_cursor body flt d).2.
Proof.
  intros H Hd. unfold get_cursor.
  specialize (H {| tx_tables := db_tables d; tx_sequences := db_sequences d;
                   rowcount := -1; fault := flt |} Hd I).
  destruct (body _) as [a st|st].
  - destruct H as (Hc & Hle & _).
    destruct (fault st) as [[|n]|]; simpl; try exact Hc.
    eapply schema_constraints_mono; [exact Hd | exact Hle].
  - simpl. eapply schema_constraints_mono; [exact Hd | exact H].
Qed.

(** *** The methods *)

Lemma insert_usernames_batch_keeps now usernames flt d :
  store_ok d -> store_ok (insert_usernames_batch now usernames flt d).2.
Proof.
  apply get_cursor_keeps with (Q := fun _ _ => True).
  unfold insert_usernames_batch_tx.
  apply (tx_keeps_bind (fun _ => True) _ (fun _ _ => True)).
  - apply (tx_keeps_execute_batch (fun _ => True)).
    intros u _. apply insert_username_keeps.
  - intros u. apply (tx_keeps_cursor_rowcount (fun _ => True)).
Qed.

Lemma bookkeeping_update_keeps {A} cond status retries error started owner
      (out : developer -> A) :
  stmt_keeps (fun _ => True)
             (update_developers
                cond
                (fun r => with_bookkeeping r (status r) (retries r) (error r)
                                           (started r) (owner r))
                out)
             (fun _ _ => True).
Proof. apply update_developers_keeps; auto. Qed.

Lemma tx_keeps_execute_bookkeeping {A} cond status retries error started owner
      (out : developer -> A) :
  tx_keeps (fun _ => True)
           (execute (update_developers
                       cond
                       (fun r => with_bookkeeping r (status r) (retries r) (error r)
                                                  (started r) (owner r))
                       out))
           (fun _ _ => True).
Proof. apply tx_keeps_execute, bookkeeping_update_keeps. Qed.

Lemma claim_batch_keeps from limit owner timeout now flt d :
  store_ok d -> store_ok (claim_batch_for_processing from limit owner timeout now flt d).2.
Proof.
  apply get_cursor_keeps with (Q := fun _ _ => True).
  unfold claim_batch_for_processing_tx.
  apply (tx_keeps_bind (fun _ => True) _ (fun _ _ => True)).
  { exact (tx_keeps_execute_bookkeeping
             (is_stale now timeout) (fun _ => from) retry_count last_error
             (fun _ => None) (fun _ => None) (fun _ => tt)). }
  intros u. apply (tx_keeps_bind (fun _ => True) _ (fun _ _ => True)).
  { apply (tx_keeps_cursor_rowcount (fun _ => True)). }
  intros stale_released. apply (tx_keeps_bind (fun _ => True) _ (fun _ _ => True)).
  { apply tx_keeps_execute. intros t s. unfold claim_rows.
    exact (bookkeeping_update_keeps
             (id_in (select_claimable from limit t)) (fun _ => PROCESSING)
             retry_count last_error (fun _ => Some now) (fun _ => Some owner)
             username t s). }
  intros claimed. apply tx_keeps_ret. auto.
Qed.

Lemma mark_as_failed_keeps uname text flt d :
  store_ok d -> store_ok (mark_as_failed uname text flt d).2.
Proof.
  apply get_cursor_keeps with (Q := fun _ _ => True).
  apply (tx_keeps_bind (fun _ => True) _ (fun _ _ => True)).
  { exact (tx_keeps_execute_bookkeeping
             (has_username uname) (fun _ => FAILED) (fun r => retry_count r + 1)
             (fun _ => Some text) (fun _ => None) (fun _ => None) (fun _ => tt)). }
  intros u. apply tx_keeps_ret. auto.
Qed.

Lemma increment_retry_count_keeps uname text back flt d :
  store_ok d -> store_ok (increment_retry_count uname text back flt d).2.
Proof.
  apply get_cursor_keeps with (Q := fun _ _ => True).
  apply (tx_keeps_bind (fun _ => True) _ (fun _ _ => True)).
  { exact (tx_keeps_execute_bookkeeping
             (has_username uname) (fun _ => back) (fun r => retry_count r + 1)
             (fun _ => Some text) (fun _ => None) (fun _ => None) retry_count). }
  intros rs. apply tx_keeps_ret. auto.
Qed.

(** The id the [UPDATE ... RETURNING id] of [update_profile] hands to
    the child inserts is the id of a row of the table. *)
Lemma update_profile_stmt_keeps fromisoformat p now :
  stmt_keeps (fun _ => True) (update_profile_stmt fromisoformat p now)
             (fun rs t => forall developer_id,
                  fetchone rs = Some developer_id -> has_developer developer_id t).
Proof.
  unfold update_profile_stmt. apply update_developers_keeps; [reflexivity..|].
  intros t s _ _ developer_id Hone.
  apply update_developers_has_developer; [reflexivity|].
  destruct (update_profile_stmt_some fromisoformat p now t s developer_id Hone)
    as (r & Hr & _ & Hid).
  unfold has_developer. rewrite <- Hid.
  apply list_elem_of_In, in_map, list_elem_of_In, Hr.
Qed.

Lemma update_profile_keeps fromisoformat p now flt d :
  store_ok d -> store_ok (update_profile fromisoformat p now flt d).2.
Proof.
  apply get_cursor_keeps with (Q := fun _ _ => True).
  unfold update_profile_tx.
  eapply tx_keeps_bind; [apply tx_keeps_execute, update_profile_stmt_keeps|].
  intros rs. cbv beta. destruct (fetchone rs) as [developer_id|] eqn:Hone;
    [|apply tx_keeps_ret; auto].
  apply (tx_keeps_weaken (has_developer developer_id) _ _ (fun _ _ => True)
                         (fun _ _ => True));
    [intros t Ht; apply Ht; reflexivity | auto |].
  apply (tx_keeps_bind _ _ (fun _ => has_developer developer_id)).
  - unfold _insert_social_links.
    destruct (social_data developer_id (Profile.social_links p)) as [|x data] eqn:E.
    + apply tx_keeps_ret. intros t Ht. exact Ht.
    + rewrite <- E. apply tx_keeps_execute_batch. intros [[dev plat] u] Hin.
      apply social_data_developer in Hin. simpl in Hin. subst dev.
      apply upsert_social_link_keeps_schema.
  - intros u. apply (tx_keeps_bind _ _ (fun _ => has_developer developer_id)).
    + unfold _insert_repositories.
      destruct (enumerate (Profile.top_repos p)) as [|x data].
      * apply tx_keeps_ret. intros t Ht. exact Ht.
      * apply tx_keeps_execute_batch. intros [idx tr] _.
        apply upsert_repository_keeps_schema.
    + intros u'. apply tx_keeps_ret. auto.
Qed.

Lemma completed_db {A} (r : result A * database) : (completed r).2 = r.2.
Proof. destruct r as [[a|] d]; reflexivity. Qed.

Lemma empty_database_ok : store_ok empty_database.
Proof.
  constructor; simpl; try constructor; constructor.
Qed.

(** X11 (the write methods against the schema of [create_tables]): the
    primary keys, [UNIQUE (username)], [UNIQUE (developer_id, platform)],
    [UNIQUE (developer_id, name)] and both foreign keys hold in the empty
    store and are kept by every write method, whatever its arguments,
    the time, and the call that fails, committed or rolled back; so they
    hold after every history of such calls. No method ever relies on the
    server to refuse a row. *)
Theorem schema_constraints_kept (fromisoformat : string -> option Z) :
  store_ok empty_database
  /\ (forall op now flt d,
         store_ok d -> store_ok (run fromisoformat op now flt d).2)
  /\ (forall history, store_ok (run_all fromisoformat history empty_database)).
Proof.
  assert (Hstep : forall op now flt d,
             store_ok d -> store_ok (run fromisoformat op now flt d).2).
  { intros op now flt d Hd. destruct op; unfold run; rewrite completed_db.
    - apply insert_usernames_batch_keeps, Hd.
    - apply claim_batch_keeps, Hd.
    - apply update_profile_keeps, Hd.
    - apply mark_as_failed_keeps, Hd.
    - apply increment_retry_count_keeps, Hd. }
  split; [exact empty_database_ok|]. split; [exact Hstep|].
  intros history. generalize empty_database_ok. generalize empty_database.
  induction history as [|[[op now] flt] rest IH]; intros d Hd; simpl; [exact Hd|].
  apply IH, Hstep, Hd.
Qed.

Lemma schema_constraints_kept_witness :
  store_ok (run no_parse (CommitProfile johndoe_profile) 200 (Some 3%nat)
                johndoe_store).2.
Proof.
  apply (schema_constraints_kept no_parse).
  constructor; simpl; repeat constructor; set_solver.
Defined.

(** ** All or nothing *)

Lemma completed_raised {A} (r : result A * database) :
  (completed r).1 = false -> r.1 = Exception.
Proof. destruct r as [[a|] d]; [discriminate | reflexivity]. Qed.

Lemma get_cursor_raised {A} (body : tx A) flt d :
  (get_cursor body flt d).1 = Exception ->
  db_tables (get_cursor body flt d).2 = db_tables d.
Proof.
  intros H. destruct (get_cursor body flt d) as [r d'] eqn:E. simpl in H. subst r.
  apply (get_cursor_rollback _ _ _ _ E).
Qed.

(** X12 ([get_cursor] under every write method): a write method that
    raises, at whichever of its statements or at the commit, leaves the
    three tables exactly as they were; and with no fault on the way each
    of them returns. *)
Theorem write_methods_all_or_nothing (fromisoformat : string -> option Z)
        (op : operation) (now : Z) (flt : option nat) (d : database) :
  ((run fromisoformat op now flt d).1 = false ->
   db_tables (run fromisoformat op now flt d).2 = db_tables d)
  /\ (run fromisoformat op now None d).1 = true.
Proof.
  split.
  - intros Hraised.
    destruct op; unfold run in *; rewrite completed_db;
      apply completed_raised in Hraised; apply get_cursor_raised, Hraised.
  - destruct op; unfold run.
    + destruct (insert_usernames_batch_no_fault now usernames d) as (d' & -> & _).
      reflexivity.
    + rewrite claim_batch_no_fault. reflexivity.
    + destruct (update_profile_no_fault fromisoformat p now d) as (r & d' & ->).
      reflexivity.
    + reflexivity.
    + reflexivity.
Qed.

Lemma write_methods_all_or_nothing_witness :
  db_tables (run no_parse (CommitProfile johndoe_profile) 200 (Some 2%nat)
                 johndoe_store).2
  = db_tables johndoe_store.
Proof.
  apply (write_methods_all_or_nothing
           no_parse (CommitProfile johndoe_profile) 200 (Some 2%nat) johndoe_store).
  vm_compute. reflexivity.
Defined.

(** ** Failures recorded by username *)

Lemma filter_has_username_none uname (l : list developer) :
  uname ∉ map username l ->
  filter (fun r => has_username uname r = true) l = [].
Proof.
  induction l as [|x l IH]; simpl; intros Hnot; [reflexivity|].
  rewrite filter_cons. destruct (decide (has_username uname x = true)) as [E|E].
  - exfalso. apply Hnot. apply String.eqb_eq in E. rewrite <- E. left.
  - apply IH. intros Hin. apply Hnot. right. exact Hin.
Qed.

Lemma filter_has_username_unique uname (l : list developer) r :
  NoDup (map username l) -> r ∈ l -> username r = uname ->
  filter (fun x => has_username uname x = true) l = [r].
Proof.
  induction l as [|x l IH]; simpl; intros Hnd Hr Hu; [inversion Hr|].
  apply NoDup_cons in Hnd as [Hx Hnd]. rewrite filter_cons.
  apply elem_of_cons in Hr as [->|Hr].
  - rewrite decide_True by (apply String.eqb_eq, Hu).
    rewrite filter_has_username_none; [reflexivity|]. rewrite <- Hu. exact Hx.
  - rewrite decide_False.
    + apply IH; assumption.
    + intros E. apply String.eqb_eq in E. apply Hx. rewrite E, <- Hu.
      apply list_elem_of_In, in_map, list_elem_of_In, Hr.
Qed.

Lemma updated_row_present (cond : developer -> bool) (set : developer -> developer)
      (l : list developer) r :
  r ∈ l -> cond r = true -> set r ∈ map (fun x => if cond x then set x else x) l.
Proof.
  intros Hr Hc. apply list_elem_of_In, in_map_iff. exists r. rewrite Hc.
  split; [reflexivity | apply list_elem_of_In, Hr].
Qed.

(** X13 ([mark_as_failed], [increment_retry_count]): a username that is
    not in the table makes both methods a silent no-op, and
    [increment_retry_count] then returns 0; for the row of a username
    that is there, [increment_retry_count] returns the count after the
    increment, the row is stored with that count, the error text, the
    status asked for and no claim, and [mark_as_failed] stores it FAILED
    in the same way. *)
Theorem failure_methods_by_username (uname text : string) (back : EnrichmentStatus)
        (flt : option nat) (d : database) :
  (uname ∉ map username (developers (db_tables d)) ->
   db_tables (mark_as_failed uname text flt d).2 = db_tables d
   /\ db_tables (increment_retry_count uname text back flt d).2 = db_tables d
   /\ (increment_retry_count uname text back None d).1 = Returned 0
   /\ (mark_as_failed uname text None d).1 = Returned tt)
  /\ (forall r,
         NoDup (map username (developers (db_tables d))) ->
         r ∈ developers (db_tables d) -> username r = uname ->
         (increment_retry_count uname text back None d).1
         = Returned (retry_count r + 1)
         /\ with_bookkeeping r back (retry_count r + 1) (Some text) None None
            ∈ developers (db_tables (increment_retry_count uname text back None d).2)
         /\ failed_with text r
            ∈ developers (db_tables (mark_as_failed uname text None d).2)).
Proof.
  split.
  - intros Hnot. pose proof (filter_has_username_none uname _ Hnot) as Hnone.
    assert (Hsame : forall A (set : developer -> developer) (out : developer -> A),
               new_tables (update_developers (has_username uname) set out
                                             (db_tables d) (db_sequences d))
               = db_tables d).
    { intros A set out. unfold update_developers. cbn [new_tables].
      rewrite (map_if_no_match _ _ _ Hnone). destruct (db_tables d); reflexivity. }
    split; [|split; [|split]].
    + destruct (mark_as_failed_cases uname text flt d)
        as [(d' & -> & Ht)|(d' & -> & Ht)]; simpl; [exact Ht|].
      rewrite Ht. apply Hsame.
    + destruct (increment_retry_count_cases uname text back flt d)
        as [(d' & -> & Ht)|(n & d' & -> & Ht)]; simpl; [exact Ht|].
      rewrite Ht. apply Hsame.
    + unfold increment_retry_count, get_cursor, bind, execute, ret. simpl.
      rewrite Hnone. reflexivity.
    + reflexivity.
  - intros r Hnd Hr Hu.
    pose proof (filter_has_username_unique uname _ r Hnd Hr Hu) as Hone.
    assert (Hc : has_username uname r = true) by (apply String.eqb_eq, Hu).
    split; [|split].
    + unfold increment_retry_count, get_cursor, bind, execute, ret. simpl.
      rewrite Hone. reflexivity.
    + unfold increment_retry_count, get_cursor, bind, execute, ret. simpl.
      apply (updated_row_present
               (has_username uname)
               (fun x => with_bookkeeping x back (retry_count x + 1) (Some text)
                                          None None)); assumption.
    + rewrite mark_as_failed_no_fault. simpl.
      apply (updated_row_present
               (has_username uname)
               (fun x => with_bookkeeping x FAILED (retry_count x + 1) (Some text)
                                          None None)); assumption.
Qed.

Lemma failure_methods_by_username_witness :
  (increment_retry_count
     "johndoe" "connection lost" INITIAL None
     (store_of [row 1 "johndoe" PROCESSING 2 (Some 100) (Some "host-1")])).1
  = Returned (retry_count (row 1 "johndoe" PROCESSING 2 (Some 100) (Some "host-1")) + 1).
Proof.
  apply (proj2 (failure_methods_by_username
                  "johndoe" "connection lost" INITIAL None
                  (store_of [row 1 "johndoe" PROCESSING 2 (Some 100)
                                 (Some "host-1")]))
               (row 1 "johndoe" PROCESSING 2 (Some 100) (Some "host-1"))).
  - apply (bool_decide_unpack _). vm_compute. exact I.
  - left.
  - reflexivity.
Defined.

(** ** A fetch that succeeds after failed attempts *)

Section FetchSuccess.
Variable config : Settings.ScraperConfig.
Variable github : string -> nat -> attempt.
Variable faults : nat -> option nat.



End FetchSuccess.



(** ** The shape of the extracted social links *)

Section LinkFacts.
Import Links.

Lemma fold_left_invariant {A B} (f : A -> B -> A) (I : A -> Prop) (l : list B) (a : A) :
  (forall a b, I a -> I (f a b)) -> I a -> I (fold_left f l a).
Proof.
  intros Hf. revert a. induction l as [|b l IH]; simpl; intros a Ha; auto.
Qed.

Lemma dict_set_keys d key v : map fst (dict_set d key v) = map fst d.
Proof.
  induction d as [|[k w] d IH]; simpl; [reflexivity|].
  destruct (String.eqb k key); simpl; [reflexivity | rewrite IH; reflexivity].
Qed.

Lemma dict_get_set d key v key' u :
  dict_get (dict_set d key v) key' = Some u ->
  (key' = key /\ v = Some u) \/ dict_get d key' = Some u.
Proof.
  induction d as [|[k w] d IH]; simpl; [discriminate|].
  destruct (String.eqb k key) eqn:E; simpl.
  - destruct (String.eqb k key') eqn:E'; [|auto].
    apply String.eqb_eq in E, E'. intros ->. left. split; congruence.
  - destruct (String.eqb k key'); auto.
Qed.

Lemma dict_get_set_other d key v key' :
  key <> key' -> dict_get (dict_set d key v) key' = dict_get d key'.
Proof.
  intros Hne. induction d as [|[k w] d IH]; simpl; [reflexivity|].
  destruct (String.eqb k key) eqn:E; simpl.
  - destruct (String.eqb k key') eqn:E'; [|reflexivity].
    apply String.eqb_eq in E, E'. congruence.
  - destruct (String.eqb k key'); [reflexivity | exact IH].
Qed.

Lemma canonical_https platform g u :
  canonical platform g = Some u -> exists rest, u = ("https://" ++ rest)%string.
Proof.
  unfold canonical.
  repeat match goal with
         | |- context [String.eqb platform ?k] => destruct (String.eqb platform k)
         end; intros [= <-]; eexists; reflexivity.
Qed.

(** What one turn of the platform loop can do: nothing, or set the
    entry of its platform, which was falsy, to a canonical URL. *)
Lemma classify_one_cases text sl platform pattern :
  classify_one text sl (platform, pattern) = sl
  \/ exists g u,
      Text.truthy (dict_get (platforms sl) platform) = false
      /\ canonical platform g = Some u
      /\ classify_one text sl (platform, pattern) = set_platform sl platform (Some u).
Proof.
  unfold classify_one.
  destruct (Text.truthy (dict_get (platforms sl) platform)) eqn:E; [left; reflexivity|].
  destruct (Re.search true pattern text) as [[g|]|]; auto.
  destruct (canonical platform g) as [u|] eqn:Ec; auto.
  right. exists g, u. auto.
Qed.

Lemma collect_other_platforms sl u : platforms (collect_other sl u) = platforms sl.
Proof.
  unfold collect_other.
  destruct (existsb _ known_domains); [reflexivity|].
  destruct (Text.mem u (other_links sl)); reflexivity.
Qed.

Lemma text_mem_spec x xs : Text.mem x xs = true <-> x ∈ xs.
Proof.
  unfold Text.mem. rewrite existsb_exists. split.
  - intros (y & Hy & E). apply String.eqb_eq in E. subst y.
    apply list_elem_of_In, Hy.
  - intros Hin. exists x. split; [apply list_elem_of_In, Hin | apply String.eqb_refl].
Qed.

Lemma collect_other_ok sl u : other_links_ok sl -> other_links_ok (collect_other sl u).
Proof.
  intros [Hnd Hall]. unfold collect_other.
  destruct (existsb _ known_domains) eqn:Ed; [split; assumption|].
  destruct (Text.mem u (other_links sl)) eqn:Em; [split; assumption|].
  split; simpl.
  - apply NoDup_snoc; [exact Hnd|].
    rewrite <- text_mem_spec, Em. discriminate.
  - apply Forall_app. split; [exact Hall|]. repeat constructor. exact Ed.
Qed.

Lemma platforms_fold_collect urls sl :
  platforms (fold_left collect_other urls sl) = platforms sl.
Proof.
  revert sl. induction urls as [|u urls IH]; intros sl; cbn [fold_left];
    [reflexivity|].
  rewrite IH. apply collect_other_platforms.
Qed.

Lemma other_links_fold_classify text entries sl :
  other_links (fold_left (classify_one text) entries sl) = other_links sl.
Proof.
  revert sl. induction entries as [|[platform pattern] entries IH]; intros sl;
    cbn [fold_left]; [reflexivity|].
  rewrite IH.
  destruct (classify_one_cases text sl platform pattern) as [->|(g & u & _ & _ & ->)];
    reflexivity.
Qed.

Lemma classify_one_keys text sl entry :
  map fst (platforms (classify_one text sl entry)) = map fst (platforms sl).
Proof.
  destruct entry as [platform pattern].
  destruct (classify_one_cases text sl platform pattern) as [->|(g & u & _ & _ & ->)];
    [reflexivity | apply dict_set_keys].
Qed.

Lemma classify_one_https text sl entry :
  platforms_https sl -> platforms_https (classify_one text sl entry).
Proof.
  intros H. destruct entry as [platform pattern].
  destruct (classify_one_cases text sl platform pattern) as [->|(g & u & _ & Hc & ->)];
    [exact H|].
  intros key v Hget. apply dict_get_set in Hget as [[_ [= <-]]|Hget].
  - apply (canonical_https _ _ _ Hc).
  - apply (H key v Hget).
Qed.

(** A platform whose entry is set is skipped by the loop. *)
Lemma classify_one_set text sl entry key v :
  dict_get (platforms sl) key = Some v -> Text.nonempty v = true ->
  dict_get (platforms (classify_one text sl entry)) key = Some v.
Proof.
  intros Hget Hv. destruct entry as [platform pattern].
  destruct (classify_one_cases text sl platform pattern) as [->|(g & u & Hf & _ & ->)];
    [exact Hget|].
  simpl. rewrite dict_get_set_other; [exact Hget|].
  intros ->. rewrite Hget in Hf. simpl in Hf. congruence.
Qed.

Lemma dict_get_initial key : dict_get (platforms initial_links) key = None.
Proof.
  unfold initial_links. cbn [platforms dict_get].
  repeat match goal with
         | |- context [String.eqb ?k key] => destruct (String.eqb k key)
         end; reflexivity.
Qed.

Lemma dict_get_only_twitter v key :
  key <> "twitter"%string ->
  dict_get (platforms (set_platform initial_links "twitter" v)) key = None.
Proof.
  intros Hkey. unfold set_platform. cbn [platforms].
  rewrite dict_get_set_other by congruence. apply dict_get_initial.
Qed.

Lemma initial_links_https : platforms_https initial_links.
Proof. intros key v. rewrite dict_get_initial. discriminate. Qed.

Lemma initial_handle_https t :
  platforms_https (set_platform initial_links "twitter"
                                (Some ("https://twitter.com/" ++ t)%string)).
Proof.
  intros key v Hget. unfold set_platform in Hget. cbn [platforms] in Hget.
  apply dict_get_set in Hget as [[_ [= <-]]|Hget].
  - eexists. reflexivity.
  - rewrite dict_get_initial in Hget. discriminate.
Qed.

(** X15 ([_extract_social_links]): whatever the profile says, the result
    has the ten platform keys in their fixed order; every URL stored
    under a platform is in canonical form and starts with https://; a
    non-empty [twitter_username] decides the twitter entry, whatever the
    bio and the blog link to; the other links are without repetition and
    none of them contains a known domain; and a profile with neither bio
    nor blog yields no other link and no platform but twitter. *)
Theorem extract_social_links_shape (user : NamedUser) :
  map fst (platforms (_extract_social_links user)) = map fst (platforms initial_links)
  /\ (forall key u,
         dict_get (platforms (_extract_social_links user)) key = Some u ->
         exists rest, u = ("https://" ++ rest)%string)
  /\ (forall t,
         twitter_username user = Some t -> t <> EmptyString ->
         dict_get (platforms (_extract_social_links user)) "twitter"
         = Some ("https://twitter.com/" ++ t)%string)
  /\ NoDup (other_links (_extract_social_links user))
  /\ (forall u domain,
         u ∈ other_links (_extract_social_links user) -> domain ∈ known_domains ->
         Text.contains domain (Text.lower u) = false)
  /\ (Text.truthy (bio user) = false -> Text.truthy (blog user) = false ->
      other_links (_extract_social_links user) = []
      /\ forall key, key <> "twitter"%string ->
                     dict_get (platforms (_extract_social_links user)) key = None).
Proof.
  unfold _extract_social_links.
  set (text := Text.join " " _).
  set (social0 := match twitter_username user with
                  | Some t => if Text.nonempty t then _ else initial_links
                  | None => initial_links
                  end).
  assert (Hkeys0 : map fst (platforms social0) = map fst (platforms initial_links)).
  { unfold social0. destruct (twitter_username user) as [t|]; [|reflexivity].
    destruct (Text.nonempty t); reflexivity. }
  assert (Hhttps0 : platforms_https social0).
  { unfold social0. destruct (twitter_username user) as [t|];
      [|apply initial_links_https].
    destruct (Text.nonempty t); [apply initial_handle_https | apply initial_links_https]. }
  assert (Hother0 : other_links social0 = []).
  { unfold social0. destruct (twitter_username user) as [t|]; [|reflexivity].
    destruct (Text.nonempty t); reflexivity. }
  assert (Hok : other_links_ok
                  (fold_left collect_other (Re.findall url_pattern text)
                             (fold_left (classify_one text) patterns social0))).
  { apply (fold_left_invariant collect_other other_links_ok);
      [intros sl u'; apply collect_other_ok|].
    split; rewrite other_links_fold_classify, Hother0; constructor. }
  split; [|split; [|split; [|split; [|split]]]].
  - rewrite platforms_fold_collect.
    apply (fold_left_invariant
             (classify_one text)
             (fun sl => map fst (platforms sl) = map fst (platforms initial_links)));
      [|exact Hkeys0].
    intros sl entry H. rewrite classify_one_keys. exact H.
  - rewrite platforms_fold_collect.
    apply (fold_left_invariant (classify_one text) platforms_https); [|exact Hhttps0].
    intros sl entry. apply classify_one_https.
  - intros t Ht Hne. rewrite platforms_fold_collect.
    apply (fold_left_invariant
             (classify_one text)
             (fun sl => dict_get (platforms sl) "twitter"
                        = Some ("https://twitter.com/" ++ t)%string)).
    + intros sl entry H. apply classify_one_set; [exact H | reflexivity].
    + unfold social0. rewrite Ht. destruct t; [congruence | reflexivity].
  - apply Hok.
  - intros u domain Hu Hd.
    destruct Hok as [_ Hall]. rewrite Forall_forall in Hall.
    specialize (Hall u Hu). apply existsb_false_Forall in Hall.
    rewrite Forall_forall in Hall. apply Hall, Hd.
  - intros Hbio Hblog. clear Hok. unfold text. rewrite Hbio, Hblog. simpl Text.join.
    unfold social0. destruct (twitter_username user) as [t|].
    + destruct (Text.nonempty t).
      * assert (E : fold_left collect_other (Re.findall url_pattern EmptyString)
                              (fold_left (classify_one EmptyString) patterns
                                         (set_platform
                                            initial_links "twitter"
                                            (Some ("https://twitter.com/" ++ t)%string)))
                    = set_platform initial_links "twitter"
                                   (Some ("https://twitter.com/" ++ t)%string))
          by (vm_compute; reflexivity).
        rewrite E. split; [reflexivity|]. intros key. apply dict_get_only_twitter.
      * assert (E : fold_left collect_other (Re.findall url_pattern EmptyString)
                              (fold_left (classify_one EmptyString) patterns
                                         initial_links)
                    = initial_links) by (vm_compute; reflexivity).
        rewrite E. split; [reflexivity|]. intros key _. apply dict_get_initial.
    + assert (E : fold_left collect_other (Re.findall url_pattern EmptyString)
                            (fold_left (classify_one EmptyString) patterns initial_links)
                  = initial_links) by (vm_compute; reflexivity).
      rewrite E. split; [reflexivity|]. intros key _. apply dict_get_initial.
Qed.

Lemma extract_social_links_shape_witness :
  dict_get (platforms (_extract_social_links with_handle)) "twitter"
  = Some ("https://twitter.com/" ++ "janedoe")%string.
Proof.
  apply (extract_social_links_shape with_handle).
  - reflexivity.
  - discriminate.
Defined.

(** ** The rows a commit writes for the extracted links *)

Lemma str_of_nat_inj n m : str_of_nat n = str_of_nat m -> n = m.
Proof.
  unfold str_of_nat. intros H. apply Unsigned.to_uint_inj.
  apply (f_equal NilEmpty.uint_of_string) in H. rewrite !NilEmpty.usu in H.
  congruence.
Qed.

Lemma enumerate_keys {A} (l : list A) : map fst (enumerate l) = seq 0 (length l).
Proof.
  unfold enumerate. generalize 0%nat.
  induction l as [|x l IH]; intros start; simpl; [reflexivity|].
  rewrite IH. reflexivity.
Qed.

Lemma other_keys_NoDup (start n : nat) :
  NoDup (map (fun idx => ("other_" ++ str_of_nat (idx + 1))%string) (seq start n)).
Proof.
  revert start. induction n as [|n IH]; intros start; simpl; constructor; [|apply IH].
  intros Hin. apply list_elem_of_In, in_map_iff in Hin as (idx & E & Hidx).
  apply in_seq in Hidx. injection E as E. apply str_of_nat_inj in E. lia.
Qed.

Lemma platform_rows_keys developer_id (d : list (string * option string)) :
  map (fun row : Z * string * string => row.1.2)
      (omap (fun '(plat, u) =>
               match u with
               | Some u' =>
                   if Text.nonempty u' && negb (String.eqb plat "other_links")
                   then Some (developer_id, plat, u') else None
               | None => None
               end) d)
  `sublist_of` map fst d.
Proof.
  induction d as [|[plat [u|]] d IH]; csimpl.
  - constructor.
  - destruct (Text.nonempty u && negb (String.eqb plat "other_links")); csimpl.
    + apply sublist_skip, IH.
    + apply sublist_cons, IH.
  - apply sublist_cons, IH.
Qed.

(** X16 ([_insert_social_links] on the links of [_extract_social_links]):
    the rows written for a fetched profile all belong to the developer
    committed, carry pairwise different platform keys (the ten platform
    names and other_1, other_2, ...), and are at most ten plus the
    number of other links: one batch never writes the same
    (developer_id, platform) key twice. *)
Theorem social_data_distinct_keys (developer_id : Z) (user : NamedUser) :
  NoDup (map (fun row : Z * string * string => row.1.2)
             (social_data developer_id (_extract_social_links user)))
  /\ Forall (fun row : Z * string * string => row.1.1 = developer_id)
            (social_data developer_id (_extract_social_links user))
  /\ (length (social_data developer_id (_extract_social_links user))
      <= 10 + length (other_links (_extract_social_links user)))%nat.
Proof.
  destruct (extract_social_links_shape user) as (Hkeys & _).
  split; [|split].
  - unfold social_data. rewrite map_app. apply NoDup_app. split; [|split].
    + eapply sublist_NoDup; [|apply platform_rows_keys].
      rewrite Hkeys. apply (bool_decide_unpack _). vm_compute. exact I.
    + intros key Hin Hother.
      apply (fun H => elem_of_sublist _ _ _ H (platform_rows_keys developer_id _)) in Hin.
      rewrite Hkeys in Hin.
      apply list_elem_of_In, in_map_iff in Hother as (row & <- & Hrow).
      apply in_map_iff in Hrow as ([idx u] & <- & _). simpl in Hin.
      repeat (apply elem_of_cons in Hin as [Hin|Hin]; [discriminate Hin|]).
      inversion Hin.
    + rewrite map_map.
      rewrite (map_ext _ (fun entry : nat * string =>
                            ("other_" ++ str_of_nat (entry.1 + 1))%string))
        by (intros [idx u]; reflexivity).
      rewrite <- (map_map fst (fun idx => ("other_" ++ str_of_nat (idx + 1))%string)).
      rewrite enumerate_keys. apply other_keys_NoDup.
  - apply Forall_forall. intros row Hrow.
    apply (social_data_developer _ _ _ Hrow).
  - unfold social_data. rewrite length_app, length_map.
    assert (Hlen : length (enumerate (other_links (_extract_social_links user)))
                   = length (other_links (_extract_social_links user))).
    { rewrite <- (length_map fst), enumerate_keys, length_seq. reflexivity. }
    rewrite Hlen.
    pose proof (length_omap_le
                  (fun '(plat, u) =>
                     match u with
                     | Some u' =>
                         if Text.nonempty u' && negb (String.eqb plat "other_links")
                         then Some (developer_id, plat, u') else None
                     | None => None
                     end)
                  (platforms (_extract_social_links user))) as Hle.
    assert (Hten : length (platforms (_extract_social_links user)) = 10%nat).
    { rewrite <- (length_map fst), Hkeys. reflexivity. }
    lia.
Qed.

End LinkFacts.

(** ** Inserting usernames *)

Lemma insert_statements_children now usernames t s count :
  social_links (apply_statements (map (insert_username now) usernames) t s count).1.1
  = social_links t
  /\ repositories (apply_statements (map (insert_username now) usernames) t s count).1.1
     = repositories t.
Proof.
  apply (apply_statements_preserve
           (fun t' => social_links t' = social_links t
                      /\ repositories t' = repositories t)); [|auto].
  apply Forall_map_statements. intros u _ t0 s0 [Hl Hr].
  destruct (insert_username_cases now u t0 s0) as [(_ & -> & _)|(_ & -> & _)];
    simpl; auto.
Qed.

(** X17 ([insert_usernames_batch]): on a table with unique usernames an
    insert without a fault returns and works like a set union: the rows
    already there are untouched and stay in front, the child tables are
    untouched, the new rows are exactly one row for each username of the
    batch that was not in the table (INITIAL, no retry, no claim, stamped
    with the time of the insert), and inserting the same batch again
    changes no table. *)
Theorem insert_usernames_batch_set_union (now now2 : Z) (usernames : list string)
        (d : database) :
  NoDup (map username (developers (db_tables d))) ->
  exists n d' fresh,
    insert_usernames_batch now usernames None d = (Returned n, d')
    /\ developers (db_tables d') = developers (db_tables d) ++ fresh
    /\ social_links (db_tables d') = social_links (db_tables d)
    /\ repositories (db_tables d') = repositories (db_tables d)
    /\ NoDup (map username fresh)
    /\ (forall u, u ∈ map username fresh
                  <-> u ∈ usernames /\ u ∉ map username (developers (db_tables d)))
    /\ Forall (fun r => exists i, r = new_developer i (username r) now) fresh
    /\ db_tables (insert_usernames_batch now2 usernames None d').2 = db_tables d'.
Proof.
  intros Hnd.
  destruct (insert_usernames_batch_no_fault now usernames d) as (d' & E & Ht).
  unfold after_insert in Ht.
  destruct (insert_statements_developers now usernames (db_tables d) (db_sequences d)
                                         (-1)) as (fresh & Hdev & Hfresh).
  destruct (insert_statements_children now usernames (db_tables d) (db_sequences d)
                                       (-1)) as [Hl Hr].
  pose proof (insert_statements_unique now usernames (db_tables d) (db_sequences d)
                                       (-1) Hnd) as Hnd'.
  rewrite <- Ht in Hdev, Hl, Hr, Hnd'.
  rewrite Hdev, map_app in Hnd'. apply NoDup_app in Hnd' as (_ & Hdisj & Hndf).
  eexists. exists d', fresh. split; [exact E|].
  split; [exact Hdev|]. split; [exact Hl|]. split; [exact Hr|].
  split; [exact Hndf|]. split; [|split].
  - intros u. split.
    + intros Hu. split; [|intros Hold; exact (Hdisj u Hold Hu)].
      apply list_elem_of_In, in_map_iff in Hu as (r & <- & Hr0).
      rewrite Forall_forall in Hfresh.
      destruct (Hfresh r (proj2 (list_elem_of_In _ _) Hr0)) as (i & u & -> & Hu).
      exact Hu.
    + intros [Hu Hnew].
      pose proof (insert_statements_stored now usernames (db_tables d) (db_sequences d)
                                           (-1) u (or_intror Hu)) as Hstored.
      rewrite <- Ht, Hdev, map_app in Hstored.
      apply elem_of_app in Hstored as [Hold|Hf]; [contradiction | exact Hf].
  - eapply Forall_impl; [exact Hfresh|]. intros r (i & u & -> & _). exists i. reflexivity.
  - destruct (insert_usernames_batch_no_fault now2 usernames d') as (d'' & -> & Ht2).
    simpl. rewrite Ht2. apply insert_statements_present.
    apply Forall_forall. intros u Hu. rewrite Ht.
    apply insert_statements_stored. right. exact Hu.
Qed.

Lemma insert_usernames_batch_set_union_witness :
  exists n d' fresh,
    insert_usernames_batch 10 ["bob"; "alice"; "bob"] None
                           (store_of [row 1 "alice" PROFILED 0 None None])
    = (Returned n, d')
    /\ developers (db_tables d')
       = developers (db_tables (store_of [row 1 "alice" PROFILED 0 None None])) ++ fresh
    /\ map username fresh = ["bob"]%string.
Proof.
  destruct (insert_usernames_batch_set_union
              10 20 ["bob"; "alice"; "bob"]%string
              (store_of [row 1 "alice" PROFILED 0 None None]))
    as (n & d' & fresh & E & Hdev & _).
  - apply (bool_decide_unpack _). vm_compute. exact I.
  - exists n, d', fresh. split; [exact E|]. split; [exact Hdev|].
    revert E Hdev. vm_compute. intros [= <- <-] Hdev.
    injection Hdev as <-. reflexivity.
Defined.

(** ** The status machine, as the methods implement it *)

Lemma has_username_false u r : has_username u r = false -> username r <> u.
Proof.
  unfold has_username. intros E Hu. apply String.eqb_eq in Hu. congruence.
Qed.

Lemma is_stale_status now timeout r :
  is_stale now timeout r = true -> enrichment_status r = PROCESSING.
Proof.
  unfold is_stale, status_eqb. intros H. apply andb_true_iff in H as [H _].
  apply bool_decide_eq_true in H. exact H.
Qed.

Lemma claimable_status from limit t r :
  id_in (select_claimable from limit t) r = true ->
  NoDup (map id (developers t)) -> r ∈ developers t ->
  enrichment_status r = from.
Proof.
  intros Hin Hnd Hr. apply id_in_spec, select_claimable_sound in Hin.
  destruct Hin as (r0 & Hr0 & Hs & Hid).
  rewrite (unique_key id _ r r0 Hnd Hr Hr0); [exact Hs | congruence].
Qed.

(** X18 (the write methods as a status machine): a stored row is never
    deleted or moved, and a method changes only rows it addresses --
    [update_profile], [mark_as_failed] and [increment_retry_count] the
    rows of their username, whatever their status and whoever holds the
    claim; a claim, with ids unique, rows in its status or PROCESSING --
    and leaves an addressed row in its old status or in PROFILED,
    FAILED, the status handed back, or the claimed status and
    PROCESSING respectively. Rows appear only by an insert, as INITIAL.
    So no method produces ENHANCED unless it is passed in. *)
Theorem status_transitions (fromisoformat : string -> option Z) (op : operation)
        (now : Z) (flt : option nat) (d : database) :
  (forall i r,
      developers (db_tables d) !! i = Some r ->
      exists r',
        developers (db_tables (run fromisoformat op now flt d).2) !! i = Some r'
        /\ (enrichment_status r' = enrichment_status r
            \/ may_produce op (enrichment_status r'))
        /\ (unique_ids d -> ~ addresses op r -> r' = r))
  /\ (forall j r',
         (length (developers (db_tables d)) <= j)%nat ->
         developers (db_tables (run fromisoformat op now flt d).2) !! j = Some r' ->
         enrichment_status r' = INITIAL /\ exists usernames, op = InsertBatch usernames).
Proof.
  assert (Hsame : forall d', db_tables d' = db_tables d ->
            (forall i r,
                developers (db_tables d) !! i = Some r ->
                exists r',
                  developers (db_tables d') !! i = Some r'
                  /\ (enrichment_status r' = enrichment_status r
                      \/ may_produce op (enrichment_status r'))
                  /\ (unique_ids d -> ~ addresses op r -> r' = r))
            /\ (forall j r',
                   (length (developers (db_tables d)) <= j)%nat ->
                   developers (db_tables d') !! j = Some r' ->
                   enrichment_status r' = INITIAL
                   /\ exists usernames, op = InsertBatch usernames)).
  { intros d' ->. split.
    - intros i r Hr. exists r. auto.
    - intros j r' Hj Hr'. apply lookup_lt_Some in Hr'. lia. }
  assert (Hmap : forall (cond : developer -> bool) (f : developer -> developer) d',
            developers (db_tables d')
            = map (fun x => if cond x then f x else x) (developers (db_tables d)) ->
            (forall r, cond r = true ->
                       may_produce op (enrichment_status (f r)) /\ addresses op r) ->
            (forall i r,
                developers (db_tables d) !! i = Some r ->
                exists r',
                  developers (db_tables d') !! i = Some r'
                  /\ (enrichment_status r' = enrichment_status r
                      \/ may_produce op (enrichment_status r'))
                  /\ (unique_ids d -> ~ addresses op r -> r' = r))
            /\ (forall j r',
                   (length (developers (db_tables d)) <= j)%nat ->
                   developers (db_tables d') !! j = Some r' ->
                   enrichment_status r' = INITIAL
                   /\ exists usernames, op = InsertBatch usernames)).
  { intros cond f d' Hd' Hf. split.
    - intros i r Hr. rewrite Hd', lookup_map, Hr. simpl.
      eexists. split; [reflexivity|].
      destruct (cond r) eqn:E; [|auto].
      destruct (Hf r E) as [Hp Ha]. split; [right; exact Hp|].
      intros _ Hna. contradiction.
    - intros j r' Hj Hr'. apply lookup_lt_Some in Hr'.
      rewrite Hd', length_map in Hr'. lia. }
  destruct op as [usernames|from limit owner timeout|p|uname msg|uname msg back];
    unfold run; rewrite completed_db.
  - destruct (insert_usernames_batch_cases now usernames flt d)
      as [(d' & E & Ht)|(d' & E & Ht)]; rewrite E; cbn [snd]; [apply Hsame, Ht|].
    destruct (after_insert_developers now usernames d) as (fresh & Hdev & Hfresh).
    rewrite <- Ht in Hdev. split.
    + intros i r Hr. exists r. split; [|auto].
      rewrite Hdev. apply lookup_app_l_Some. exact Hr.
    + intros j r' Hj Hr'. split; [|eauto].
      rewrite Hdev, lookup_app_r in Hr' by exact Hj.
      apply list_elem_of_lookup_2 in Hr'. rewrite Forall_forall in Hfresh.
      destruct (Hfresh r' Hr') as (i & u & -> & _). reflexivity.
  - destruct (claim_batch_cases from limit owner timeout now flt d)
      as [(d' & E & Ht)|(d' & E & Ht)]; rewrite E; cbn [snd]; [apply Hsame, Ht|].
    split.
    + intros i r Hr.
      rewrite Ht, tables_after_claim_developers, !lookup_map, Hr. simpl.
      eexists. split; [reflexivity|].
      set (r1 := if is_stale now timeout r
                 then with_bookkeeping r from (retry_count r) (last_error r) None None
                 else r).
      match goal with |- context [id_in ?ids r1] => set (sel := id_in ids r1) end.
      split.
      * destruct sel; [right; right; reflexivity|].
        unfold r1. destruct (is_stale now timeout r); [right; left; reflexivity|].
        left. reflexivity.
      * intros Hids Hna. simpl in Hna.
        assert (Hstale : is_stale now timeout r = false).
        { destruct (is_stale now timeout r) eqn:Es; [|reflexivity].
          exfalso. apply Hna. right. apply (is_stale_status _ _ _ Es). }
        assert (Er1 : r1 = r) by (unfold r1; rewrite Hstale; reflexivity).
        destruct sel eqn:Esel; [|exact Er1].
        exfalso. apply Hna. left. rewrite <- Er1.
        unfold sel in Esel.
        apply (claimable_status _ _ _ _ Esel).
        -- cbn [developers]. rewrite (map_if_key id) by reflexivity. exact Hids.
        -- cbn [developers]. apply list_elem_of_lookup_2 with i.
           rewrite lookup_map, Hr. reflexivity.
    + intros j r' Hj Hr'. apply lookup_lt_Some in Hr'.
      rewrite Ht, tables_after_claim_developers, !length_map in Hr'. lia.
  - assert (Hf : forall r, has_username (Profile.username p) r = true ->
                           may_produce (CommitProfile p)
                                       (enrichment_status
                                          (set_profile fromisoformat p now r))
                           /\ addresses (CommitProfile p) r).
    { intros r Hu. split; [reflexivity | apply String.eqb_eq, Hu]. }
    destruct (update_profile_cases fromisoformat p now flt d)
      as [(d' & E & Ht)|[(d' & E & Hone & Ht)|(j & d' & E & Hone & Ht)]];
      rewrite E; cbn [snd]; [apply Hsame, Ht| |].
    + apply (Hmap (has_username (Profile.username p))
                  (set_profile fromisoformat p now) d');
        [rewrite Ht; reflexivity | exact Hf].
    + apply (Hmap (has_username (Profile.username p))
                  (set_profile fromisoformat p now) d');
        [rewrite Ht; apply tables_after_commit_developers | exact Hf].
  - destruct (mark_as_failed_cases uname msg flt d)
      as [(d' & E & Ht)|(d' & E & Ht)]; rewrite E; cbn [snd]; [apply Hsame, Ht|].
    apply (Hmap (has_username uname)
                (fun x => with_bookkeeping x FAILED (retry_count x + 1)
                                           (Some msg) None None) d');
      [rewrite Ht; reflexivity|].
    intros r Hu. split; [reflexivity | apply String.eqb_eq, Hu].
  - destruct (increment_retry_count_cases uname msg back flt d)
      as [(d' & E & Ht)|(n & d' & E & Ht)]; rewrite E; cbn [snd]; [apply Hsame, Ht|].
    apply (Hmap (has_username uname)
                (fun x => with_bookkeeping x back (retry_count x + 1)
                                           (Some msg) None None) d');
      [rewrite Ht; reflexivity|].
    intros r Hu. split; [reflexivity | apply String.eqb_eq, Hu].
Qed.

Lemma status_transitions_witness :
  exists r',
    developers (db_tables (run no_parse (RecordFailure "johndoe" "404 Not Found")
                               200 None johndoe_store).2) !! 0%nat = Some r'
    /\ (enrichment_status r'
        = enrichment_status (row 1 "johndoe" PROCESSING 2 (Some 40) (Some "host-1"))
        \/ may_produce (RecordFailure "johndoe" "404 Not Found") (enrichment_status r'))
    /\ (unique_ids johndoe_store ->
        ~ addresses (RecordFailure "johndoe" "404 Not Found")
            (row 1 "johndoe" PROCESSING 2 (Some 40) (Some "host-1")) ->
        r' = row 1 "johndoe" PROCESSING 2 (Some 40) (Some "host-1")).
Proof.
  apply (proj1 (status_transitions no_parse (RecordFailure "johndoe" "404 Not Found")
                                   200 None johndoe_store)
               0%nat (row 1 "johndoe" PROCESSING 2 (Some 40) (Some "host-1"))).
  reflexivity.
Defined.

(** ** Counting in the metrics *)

Lemma counted_refl w : counted 0 0 0 w w.
Proof. unfold counted. repeat split; auto; lia. Qed.

Lemma counted_same dp ds df w w' w'' :
  metrics w'' = metrics w' -> counted dp ds df w w' -> counted dp ds df w w''.
Proof. unfold counted. intros ->. auto. Qed.

Lemma counted_metrics w w' : metrics w' = metrics w -> counted 0 0 0 w w'.
Proof. intros H. apply (counted_same _ _ _ w w w' H), counted_refl. Qed.

Lemma counted_trans dp1 ds1 df1 dp2 ds2 df2 w1 w2 w3 :
  counted dp1 ds1 df1 w1 w2 -> counted dp2 ds2 df2 w2 w3 ->
  counted (dp1 + dp2) (ds1 + ds2) (df1 + df2) w1 w3.
Proof.
  intros (He1 & Hu1 & Hs1 & Hon1 & Hoff1) (He2 & Hu2 & Hs2 & Hon2 & Hoff2).
  split; [congruence|]. split; [congruence|]. split; [congruence|]. split.
  - intros He. destruct (Hon1 He) as (A1 & A2 & A3).
    destruct (Hon2 ltac:(congruence)) as (B1 & B2 & B3).
    rewrite B1, B2, B3, A1, A2, A3. repeat split; lia.
  - intros He. rewrite Hoff2 by congruence. auto.
Qed.

Lemma bump_counts m metric :
  Metrics.total_processed (Metrics.bump m metric 1)
  = Metrics.total_processed m + (if String.eqb metric "processed" then 1 else 0)
  /\ Metrics.total_success (Metrics.bump m metric 1)
     = Metrics.total_success m + (if String.eqb metric "success" then 1 else 0)
  /\ Metrics.total_failed (Metrics.bump m metric 1)
     = Metrics.total_failed m + (if String.eqb metric "failed" then 1 else 0).
Proof.
  unfold Metrics.bump.
  destruct (String.eqb metric "processed") eqn:E1.
  { apply String.eqb_eq in E1. subst metric. simpl. repeat split; lia. }
  destruct (String.eqb metric "success") eqn:E2.
  { apply String.eqb_eq in E2. subst metric. simpl. repeat split; lia. }
  destruct (String.eqb metric "failed") eqn:E3.
  { simpl. repeat split; lia. }
  destruct (String.eqb metric "retries").
  { simpl. repeat split; lia. }
  destruct (String.eqb metric "rate_limit"); simpl; repeat split; lia.
Qed.

Lemma counted_increment metric w :
  counted (if String.eqb metric "processed" then 1 else 0)
          (if String.eqb metric "success" then 1 else 0)
          (if String.eqb metric "failed" then 1 else 0)
          w (metrics_increment metric w).
Proof.
  unfold counted, metrics_increment, Metrics.increment. cbn [metrics].
  destruct (Metrics.enabled (metrics w)) eqn:He; cbn [negb].
  - change (String.eqb "profile_scraper" "username_scraper") with false.
    change (String.eqb "profile_scraper" "profile_scraper") with true.
    cbn [Metrics.enabled Metrics.username_scraper Metrics.social_scraper
         Metrics.profile_scraper].
    split; [reflexivity|]. split; [reflexivity|]. split; [reflexivity|].
    split; [intros _; apply bump_counts | discriminate].
  - repeat split; auto; congruence.
Qed.

Section MetricsFacts.
Variable config : Settings.ScraperConfig.
Variable fromisoformat : string -> option Z.
Variable github : string -> nat -> attempt.
Variable faults : nat -> option nat.
Variable store_error : string.

Lemma counted_call_db {A} (method : Z -> option nat -> database -> result A * database)
      dp ds df w0 w :
  counted dp ds df w0 w -> counted dp ds df w0 (call_db faults method w).2.
Proof.
  intros H. apply (counted_same _ _ _ _ w); [|exact H].
  unfold call_db. destruct (method _ _ _) as [r d]. reflexivity.
Qed.

(** A fetch counts retries and rate limits only. *)
Lemma fetch_from_counted remaining attempt_no uname w :
  counted 0 0 0 w (fetch_profile_from config github faults remaining attempt_no uname w).2.
Proof.
  revert attempt_no w.
  induction remaining as [|remaining IH]; intros attempt_no w; simpl;
    [apply counted_refl|].
  destruct (github uname (api_calls w)) as [user repos|e text]; simpl.
  - apply counted_metrics. reflexivity.
  - assert (Hretry : counted 0 0 0 w (metrics_increment "retries" (count_api_call w))).
    { apply (counted_trans 0 0 0 0 0 0 w (count_api_call w));
        [apply counted_metrics; reflexivity|].
      apply (counted_increment "retries"). }
    assert (Hother : counted 0 0 0 w
              (if Z.of_nat attempt_no <? Z.of_nat (Settings.MAX_RETRIES config) - 1
               then fetch_profile_from
                      config github faults remaining (S attempt_no) uname
                      (sleep (backoff_delay config attempt_no)
                             (metrics_increment "retries" (count_api_call w)))
               else match call_db faults (fun _ => Repository.mark_as_failed uname text)
                                  (metrics_increment "retries" (count_api_call w)) with
                    | (Returned _, w2) => (Returned None, w2)
                    | (Exception, w2) => (Exception, w2)
                    end).2).
    { destruct (_ <? _).
      - apply (counted_trans 0 0 0 0 0 0 w _ _ Hretry).
        apply (counted_trans 0 0 0 0 0 0 _
                             (sleep (backoff_delay config attempt_no)
                                    (metrics_increment "retries" (count_api_call w))));
          [apply counted_metrics; reflexivity | apply IH].
      - pose proof (counted_call_db (fun _ => Repository.mark_as_failed uname text)
                                    0 0 0 w _ Hretry) as Hc.
        destruct (call_db faults _ _) as [[u|] w2]; exact Hc. }
    destruct e; [|exact Hother|exact Hother].
    apply (counted_trans 0 0 0 0 0 0 w
             (metrics_increment
                "retries"
                (handle_rate_limit config
                                   (metrics_increment "rate_limit" (count_api_call w)))));
      [|apply IH].
    apply (counted_trans 0 0 0 0 0 0 w
             (handle_rate_limit config
                                (metrics_increment "rate_limit" (count_api_call w))));
      [|apply (counted_increment "retries")].
    apply (counted_same _ _ _ _ (metrics_increment "rate_limit" (count_api_call w)));
      [reflexivity|].
    apply (counted_trans 0 0 0 0 0 0 w (count_api_call w));
      [apply counted_metrics; reflexivity|].
    apply (counted_increment "rate_limit").
Qed.

Lemma on_error_counted uname processed w0 w dp ds df :
  counted dp ds df w0 w ->
  counted dp ds (df + 1) w0 (on_error faults store_error uname processed w).2.
Proof.
  intros H. unfold on_error.
  assert (H1 : counted dp ds (df + 1) w0 (metrics_increment "failed" w)).
  { replace dp with (dp + 0) by lia. replace ds with (ds + 0) by lia.
    apply (counted_trans _ _ _ _ _ _ w0 w _ H). apply (counted_increment "failed"). }
  pose proof (counted_call_db
                (fun _ => Repository.increment_retry_count uname store_error INITIAL)
                _ _ _ w0 _ H1) as Hc.
  destruct (call_db faults _ _) as [[n|] w2]; exact Hc.
Qed.

(** One item: [processed] is counted once; [success] moves with the
    local counter; [failed] is counted at most once, and with a store
    that never fails not together with [success]. *)
Lemma process_username_counted uname processed w :
  exists ds df,
    counted 1 ds df w
            (process_username config fromisoformat github faults store_error
                              uname processed w).2
    /\ 0 <= ds <= 1 /\ 0 <= df <= 1
    /\ (forall p',
           (process_username config fromisoformat github faults store_error
                             uname processed w).1 = Returned p' ->
           p' = processed + ds)
    /\ ((forall k, faults k = None) -> ds + df <= 1).
Proof.
  unfold process_username.
  assert (H0 : counted 1 0 0 w (metrics_increment "processed" w))
    by apply (counted_increment "processed").
  pose proof (fetch_from_counted (Settings.MAX_RETRIES config) 0 uname
                                 (metrics_increment "processed" w)) as Hf.
  pose proof (fetch_from_healthy config github faults) as Hh.
  specialize (fun H => Hh H (Settings.MAX_RETRIES config) 0%nat uname
                          (metrics_increment "processed" w)).
  fold (fetch_profile config github faults uname (metrics_increment "processed" w))
    in Hf, Hh.
  destruct (fetch_profile config github faults uname (metrics_increment "processed" w))
    as [[[p|]|] w1]; cbn [fst snd] in Hf, Hh.
  - assert (H1 : counted 1 0 0 w w1).
    { apply (counted_trans 1 0 0 0 0 0 _ _ _ H0 Hf). }
    pose proof (counted_call_db (Repository.update_profile fromisoformat p)
                                1 0 0 w w1 H1) as H2.
    destruct (call_db faults (Repository.update_profile fromisoformat p) w1)
      as [[[developer_id|]|] w2]; cbn [fst snd] in H2 |- *.
    + destruct (developer_id =? 0).
      * exists 0, 0. split; [exact H2|]. repeat split; try lia.
        intros p' [= <-]. lia.
      * assert (H3 : counted 1 1 0 w (metrics_increment "success" w2)).
        { apply (counted_trans 1 0 0 0 1 0 _ _ _ H2).
          apply (counted_increment "success"). }
        pose proof (counted_call_db
                      (fun _ => Repository.get_username_count_by_status PROFILED)
                      1 1 0 w _ H3) as H4.
        destruct (call_db faults
                          (fun _ => Repository.get_username_count_by_status PROFILED)
                          (metrics_increment "success" w2))
          as [[n|] w4] eqn:Ecount; cbn [fst snd] in H4 |- *.
        -- exists 1, 0. split; [exact H4|]. repeat split; try lia.
           intros p' [= <-]. lia.
        -- exists 1, 1. split.
           { apply (on_error_counted uname (processed + 1) w w4 1 1 0 H4). }
           repeat split; try lia.
           ++ intros p' E.
              destruct (on_error_effects faults store_error uname (processed + 1) w4)
                as [_ Hp]. rewrite (Hp p' E). lia.
           ++ intros Hnf. exfalso. revert Ecount. unfold call_db.
              rewrite Hnf. discriminate.
    + exists 0, 0. split; [exact H2|]. repeat split; try lia.
      intros p' [= <-]. lia.
    + exists 0, 1. split.
      { apply (on_error_counted uname processed w w2 1 0 0 H2). }
      repeat split; try lia.
      intros p' E.
      destruct (on_error_effects faults store_error uname processed w2)
        as [_ Hp]. rewrite (Hp p' E). lia.
  - exists 0, 1. split.
    + apply (counted_same _ _ _ w (metrics_increment "failed" w1)); [reflexivity|].
      apply (counted_trans 1 0 0 0 0 1 _ _ _ (counted_trans 1 0 0 0 0 0 _ _ _ H0 Hf)).
      apply (counted_increment "failed").
    + repeat split; try lia. intros p' [= <-]. lia.
  - exists 0, 1. split.
    + apply (on_error_counted uname processed w w1 1 0 0).
      apply (counted_trans 1 0 0 0 0 0 _ _ _ H0 Hf).
    + repeat split; try lia.
      intros p' E.
      destruct (on_error_effects faults store_error uname processed w1) as [_ Hp].
      rewrite (Hp p' E). lia.
Qed.

End MetricsFacts.

(** X19 ([scrape_profiles] and [MetricsCollector.increment]): over a
    batch that is worked through to its end, the profile scraper's
    counter [processed] goes up by the size of the batch, [success] by
    exactly as much as the local counter [processed] of the method, and
    [failed] by at most the size of the batch; with a store that never
    fails no item is counted both as a success and as a failure. The
    counters of the other scrapers are untouched, and with metrics
    disabled the collector does not change at all. *)
Theorem process_batch_metrics (config : Settings.ScraperConfig)
        (fromisoformat : string -> option Z) (github : string -> nat -> attempt)
        (faults : nat -> option nat) (store_error : string)
        (claimed : list string) (processed p' : Z) (w w' : world) :
  process_batch config fromisoformat github faults store_error claimed processed w
  = (Returned p', w') ->
  exists df,
    counted (Z.of_nat (length claimed)) (p' - processed) df w w'
    /\ 0 <= p' - processed <= Z.of_nat (length claimed)
    /\ 0 <= df <= Z.of_nat (length claimed)
    /\ ((forall k, faults k = None) ->
        (p' - processed) + df <= Z.of_nat (length claimed)).
Proof.
  revert processed w.
  induction claimed as [|uname rest IH]; intros processed w E.
  - simpl in E. injection E as <- <-. exists 0.
    replace (processed - processed) with 0 by lia.
    split; [apply counted_refl|]. simpl. lia.
  - cbn [process_batch] in E.
    destruct (process_username_counted config fromisoformat github faults store_error
                                       uname processed w)
      as (ds & df1 & Hc & Hds & Hdf & Hp & Hh).
    destruct (process_username config fromisoformat github faults store_error
                               uname processed w) as [[p1|] w1];
      [|discriminate E].
    cbn [fst snd] in Hc, Hp. specialize (Hp p1 eq_refl). subst p1.
    destruct (IH _ _ E) as (df2 & Hc2 & Hs2 & Hdf2 & Hh2).
    exists (df1 + df2). cbn [length]. rewrite Nat2Z.inj_succ.
    split; [|split; [lia|split; [lia|]]].
    + replace (Z.succ (Z.of_nat (length rest))) with (1 + Z.of_nat (length rest)) by lia.
      replace (p' - processed) with (ds + (p' - (processed + ds))) by lia.
      exact (counted_trans _ _ _ _ _ _ _ _ _ Hc Hc2).
    + intros Hnf. specialize (Hh Hnf). specialize (Hh2 Hnf). lia.
Qed.

Lemma process_batch_metrics_witness :
  exists df,
    counted (Z.of_nat (length ["johndoe"; "janedoe"]%string)) (2 - 0) df
            (worker_on johndoe_store)
            (process_batch Settings.defaults no_parse fails_once no_faults
                           "connection lost" ["johndoe"; "janedoe"] 0
                           (worker_on johndoe_store)).2.
Proof.
  destruct (process_batch_metrics
              Settings.defaults no_parse fails_once no_faults "connection lost"
              ["johndoe"; "janedoe"]%string 0 2 (worker_on johndoe_store)
              (process_batch Settings.defaults no_parse fails_once no_faults
                             "connection lost" ["johndoe"; "janedoe"] 0
                             (worker_on johndoe_store)).2)
    as (df & Hc & _).
  - vm_compute. reflexivity.
  - exists df. exact Hc.
Defined.

(** ** A profile that comes back under another login *)

(** X20 ([scrape_profiles] with [update_profile]): the profile is
    stored under [user.login], not under the username that was claimed.
    If the remote API answers the request for a claimed username with a
    user of another login, then, with a store that never fails, the item
    is worked through without an error, and the claimed row is left
    exactly as it was, claim included: it is neither PROFILED nor FAILED
    nor handed back. If moreover no row has that login, no table changes
    at all, the counter [processed] stays, and neither [success] nor
    [failed] is counted. *)
Theorem login_mismatch_leaves_claim (config : Settings.ScraperConfig)
        (fromisoformat : string -> option Z) (github : string -> nat -> attempt)
        (faults : nat -> option nat) (store_error uname : string) (processed : Z)
        (w : world) (user : Links.NamedUser) (repos : list (option TopRepo.top_repo)) :
  (0 < Settings.MAX_RETRIES config)%nat ->
  (forall k, faults k = None) ->
  github uname (api_calls w) = Fetched user repos ->
  Links.login user <> uname ->
  exists p' w',
    process_username config fromisoformat github faults store_error uname processed w
    = (Returned p', w')
    /\ (forall i r, developers (db_tables (db w)) !! i = Some r ->
                    username r = uname ->
                    developers (db_tables (db w')) !! i = Some r)
    /\ (Links.login user ∉ map username (developers (db_tables (db w))) ->
        db_tables (db w') = db_tables (db w)
        /\ p' = processed
        /\ counted 1 0 0 w w').
Proof.
  intros Hmax Hnf Hfetch Hlogin.
  unfold process_username, fetch_profile.
  destruct (Settings.MAX_RETRIES config) as [|n] eqn:Emax; [lia|].
  cbn [fetch_profile_from]. cbn [api_calls metrics_increment]. rewrite Hfetch.
  set (p := build_profile user repos).
  set (w0 := count_api_call (metrics_increment "processed" w)).
  assert (Hw0 : counted 1 0 0 w w0).
  { apply (counted_same _ _ _ w (metrics_increment "processed" w) w0); [reflexivity|].
    apply (counted_increment "processed"). }
  unfold call_db at 1. rewrite Hnf.
  destruct (update_profile_no_fault fromisoformat p (clock w0) (db w0))
    as (res & d' & Eup).
  pose proof (update_profile_cases fromisoformat p (clock w0) None (db w0)) as Hcases.
  cbv zeta in Hcases. rewrite Eup in Hcases. rewrite Eup.
  assert (Hdev : developers (db_tables d')
                 = map (fun r => if has_username (Links.login user) r
                                 then set_profile fromisoformat p (clock w0) r else r)
                       (developers (db_tables (db w)))
                 /\ (res = None -> db_tables d' = db_tables (db w))).
  { destruct Hcases as [(d1 & E & _)|[(d1 & E & Hone & Ht)|(j & d1 & E & Hone & Ht)]].
    - discriminate E.
    - injection E as E1 E2. subst res d1. split; [rewrite Ht; reflexivity|].
      intros _. rewrite Ht.
      apply (update_profile_stmt_none fromisoformat p (clock w0) _ _ Hone).
    - injection E as E1 E2. subst res d1. split; [|discriminate].
      rewrite Ht. apply tables_after_commit_developers. }
  destruct Hdev as [Hdev Hnone].
  assert (Hrow : forall i r, developers (db_tables (db w)) !! i = Some r ->
                             username r = uname ->
                             developers (db_tables d') !! i = Some r).
  { intros i r Hr Hu. rewrite Hdev, lookup_map, Hr. simpl.
    unfold has_username. rewrite Hu.
    destruct (String.eqb uname (Links.login user)) eqn:E; [|reflexivity].
    apply String.eqb_eq in E. congruence. }
  assert (Hmissing : Links.login user ∉ map username (developers (db_tables (db w))) ->
                     res = None).
  { intros Hnot. destruct Hcases as [(d1 & E & _)|[(d1 & E & _)|(j & d1 & E & Hone & _)]].
    - discriminate E.
    - congruence.
    - exfalso. apply Hnot.
      destruct (update_profile_stmt_some fromisoformat p (clock w0) _ _ _ Hone)
        as (r & Hr & Hu & _).
      change (Profile.username p) with (Links.login user) in Hu. rewrite <- Hu.
      apply list_elem_of_In, in_map, list_elem_of_In, Hr. }
  destruct res as [developer_id|].
  - destruct (developer_id =? 0).
    + eexists. eexists. split; [reflexivity|]. split; [exact Hrow|].
      intros Hnot. specialize (Hmissing Hnot). discriminate.
    + unfold call_db. rewrite Hnf. cbn [get_username_count_by_status].
      eexists. eexists. split; [reflexivity|]. split; [exact Hrow|].
      intros Hnot. specialize (Hmissing Hnot). discriminate.
  - eexists. eexists. split; [reflexivity|]. split; [exact Hrow|].
    intros _. split; [apply Hnone; reflexivity|]. split; [reflexivity|].
    apply (counted_same _ _ _ w w0); [reflexivity | exact Hw0].
Qed.

Lemma login_mismatch_leaves_claim_witness :
  exists p' w',
    process_username Settings.defaults no_parse always_johndoe no_faults
                     "connection lost" "JohnDoe" 0
                     (worker_on (store_of [row 1 "JohnDoe" PROCESSING 0 (Some 90)
                                               (Some "host-1")]))
    = (Returned p', w')
    /\ developers (db_tables (db w')) !! 0%nat
       = Some (row 1 "JohnDoe" PROCESSING 0 (Some 90) (Some "host-1")).
Proof.
  destruct (login_mismatch_leaves_claim
              Settings.defaults no_parse always_johndoe no_faults
              "connection lost" "JohnDoe" 0
              (worker_on (store_of [row 1 "JohnDoe" PROCESSING 0 (Some 90)
                                        (Some "host-1")]))
              johndoe [])
    as (p' & w' & E & Hrow & _).
  - simpl. lia.
  - intros k. reflexivity.
  - reflexivity.
  - discriminate.
  - exists p', w'. split; [exact E|]. apply Hrow; reflexivity.
Defined.

(** ** A commit undone by the progress query *)

(** X21 ([scrape_profiles], the [except] of the loop body): the query
    that only reads the PROFILED count for the log sits inside the
    [try]. If the profile of a claimed username is fetched and committed
    and that query then fails, the handler hands the row back: it keeps
    the profile columns just written but is INITIAL again, with retry
    count 1 and the error text, so that it will be claimed and fetched
    once more; the local counter has counted it, and the metrics count
    the item both as a success and as a failure. *)
Theorem progress_query_failure_undoes_commit (config : Settings.ScraperConfig)
        (fromisoformat : string -> option Z) (github : string -> nat -> attempt)
        (faults : nat -> option nat) (store_error uname : string) (processed : Z)
        (w : world) (user : Links.NamedUser) (repos : list (option TopRepo.top_repo))
        (i : nat) (r : developer) :
  (0 < Settings.MAX_RETRIES config)%nat ->
  github uname (api_calls w) = Fetched user repos ->
  Links.login user = uname ->
  faults (transactions w) = None ->
  faults (S (transactions w)) = Some 0%nat ->
  faults (S (S (transactions w))) = None ->
  Forall (fun x => id x <> 0) (developers (db_tables (db w))) ->
  developers (db_tables (db w)) !! i = Some r ->
  username r = uname ->
  exists w',
    process_username config fromisoformat github faults store_error uname processed w
    = (Returned (processed + 1), w')
    /\ developers (db_tables (db w')) !! i
       = Some (with_bookkeeping
                 (set_profile fromisoformat (build_profile user repos) (clock w) r)
                 INITIAL 1 (Some store_error) None None)
    /\ counted 1 1 1 w w'.
Proof.
  intros Hmax Hfetch Hlogin Hf0 Hf1 Hf2 Hids Hr Hu.
  unfold process_username, fetch_profile.
  destruct (Settings.MAX_RETRIES config) as [|n] eqn:Emax; [lia|].
  cbn [fetch_profile_from]. cbn [api_calls metrics_increment]. rewrite Hfetch.
  set (p := build_profile user repos).
  set (w0 := count_api_call (metrics_increment "processed" w)).
  assert (Hw0 : counted 1 0 0 w w0).
  { apply (counted_same _ _ _ w (metrics_increment "processed" w) w0); [reflexivity|].
    apply (counted_increment "processed"). }
  unfold call_db at 1.
  change (transactions w0) with (transactions w). rewrite Hf0.
  change (clock w0) with (clock w). change (db w0) with (db w).
  destruct (update_profile_no_fault fromisoformat p (clock w) (db w))
    as (res & d' & Eup).
  pose proof (update_profile_cases fromisoformat p (clock w) None (db w)) as Hcases.
  cbv zeta in Hcases. rewrite Eup in Hcases. rewrite Eup.
  assert (Hp : Profile.username p = uname) by exact Hlogin.
  destruct Hcases as [(d1 & E & _)|[(d1 & E & Hone & Ht)|(j & d1 & E & Hone & Ht)]].
  - discriminate E.
  - exfalso.
    destruct (update_profile_stmt_none fromisoformat p (clock w) _ _ Hone) as [_ Hall].
    rewrite Forall_forall in Hall.
    apply (Hall r (list_elem_of_lookup_2 _ _ _ Hr)). congruence.
  - injection E as E1 E2. subst res d1.
    destruct (update_profile_stmt_some fromisoformat p (clock w) _ _ _ Hone)
      as (r0 & Hr0 & _ & Hj).
    rewrite Forall_forall in Hids. specialize (Hids r0 Hr0).
    destruct (j =? 0) eqn:Ej; [apply Z.eqb_eq in Ej; congruence|].
    assert (Hrow : developers (db_tables d') !! i
                   = Some (set_profile fromisoformat p (clock w) r)).
    { rewrite Ht, tables_after_commit_developers, lookup_map, Hr.
      assert (Hh : has_username (Profile.username p) r = true)
        by (apply String.eqb_eq; congruence).
      change ((fun x => if has_username (Profile.username p) x
                        then set_profile fromisoformat p (clock w) x else x) <$> Some r)
        with (Some (if has_username (Profile.username p) r
                    then set_profile fromisoformat p (clock w) r else r)).
      rewrite Hh. reflexivity. }
    unfold call_db at 1. cbn [transactions set_db metrics_increment].
    change (transactions w0) with (transactions w). rewrite Hf1.
    unfold get_username_count_by_status at 1, get_cursor at 1, execute at 1.
    cbn [fault db_tables db_sequences tx_sequences].
    unfold on_error, call_db. cbn [transactions set_db metrics_increment clock db].
    change (transactions w0) with (transactions w). rewrite Hf2.
    unfold increment_retry_count, get_cursor, bind, execute, ret.
    cbn [fault tx_tables tx_sequences db_tables db_sequences new_tables
         new_sequences rows affected].
    eexists. split; [reflexivity|]. split.
    + cbn [db set_db db_tables]. unfold increment_retry_stmt.
      rewrite update_developers_rows. destruct d' as [t' s']. cbn [db_tables] in *.
      rewrite lookup_map, Hrow. simpl.
      unfold has_username. cbn [username set_profile]. rewrite Hu, String.eqb_refl.
      reflexivity.
    + apply (counted_same _ _ _ w
               (metrics_increment "failed" (metrics_increment "success" w0)));
        [reflexivity|].
      apply (counted_trans 1 1 0 0 0 1 w (metrics_increment "success" w0));
        [|apply (counted_increment "failed")].
      apply (counted_trans 1 0 0 0 1 0 w w0 _ Hw0), (counted_increment "success").
Qed.

Lemma progress_query_failure_undoes_commit_witness :
  exists w',
    process_username Settings.defaults no_parse always_johndoe second_fails
                     "connection lost" "johndoe" 0 (worker_on johndoe_store)
    = (Returned (0 + 1), w')
    /\ developers (db_tables (db w')) !! 0%nat
       = Some (with_bookkeeping
                 (set_profile no_parse (build_profile johndoe [])
                              (clock (worker_on johndoe_store))
                              (row 1 "johndoe" PROCESSING 2 (Some 40) (Some "host-1")))
                 INITIAL 1 (Some "connection lost") None None)
    /\ counted 1 1 1 (worker_on johndoe_store) w'.
Proof.
  apply (progress_query_failure_undoes_commit
           Settings.defaults no_parse always_johndoe second_fails
           "connection lost" "johndoe" 0 (worker_on johndoe_store) johndoe []
           0%nat (row 1 "johndoe" PROCESSING 2 (Some 40) (Some "host-1"))).
  - simpl. lia.
  - reflexivity.
  - reflexivity.
  - reflexivity.
  - reflexivity.
  - reflexivity.
  - repeat constructor. discriminate.
  - reflexivity.
  - reflexivity.
Defined.

(** ** The whole loop of [scrape_profiles] *)

Lemma count_pending_map (g : developer -> developer) (l : list developer) :
  (forall r, r ∈ l -> is_pending (g r) = true -> is_pending r = true) ->
  (count_pending (map g l) <= count_pending l)%nat
  /\ ((exists r, r ∈ l /\ is_pending r = true /\ is_pending (g r) = false) ->
      (count_pending (map g l) < count_pending l)%nat).
Proof.
  unfold count_pending. induction l as [|x l IH]; intros Hg.
  - split; [reflexivity|]. intros (r & Hr & _). inversion Hr.
  - destruct IH as [IHle IHlt].
    { intros r Hr. apply Hg. right. exact Hr. }
    specialize (Hg x ltac:(left)).
    cbn [map]. rewrite !filter_cons.
    destruct (decide (is_pending (g x) = true)) as [Egx|Egx];
      destruct (decide (is_pending x = true)) as [Ex|Ex]; cbn [length].
    + split; [lia|]. intros (r & Hr & Hp & Hq).
      apply elem_of_cons in Hr as [->|Hr]; [congruence|].
      apply -> Nat.succ_lt_mono. apply IHlt. eauto.
    + exfalso. auto.
    + split; lia.
    + split; [lia|]. intros (r & Hr & Hp & Hq).
      apply elem_of_cons in Hr as [->|Hr]; [congruence|].
      apply IHlt. eauto.
Qed.

Lemma count_pending_same (g : developer -> developer) (l : list developer) :
  (forall r, r ∈ l -> is_pending (g r) = is_pending r) ->
  count_pending (map g l) = count_pending l.
Proof.
  unfold count_pending. induction l as [|x l IH]; intros Hg; [reflexivity|].
  cbn [map]. rewrite !filter_cons, (Hg x ltac:(left)).
  destruct (decide (is_pending x = true)); cbn [length]; rewrite IH; auto;
    intros r Hr; apply Hg; right; exact Hr.
Qed.

Lemma is_pending_status r :
  is_pending r = true
  <-> enrichment_status r = INITIAL \/ enrichment_status r = PROCESSING.
Proof.
  unfold is_pending, status_eqb.
  rewrite orb_true_iff, !bool_decide_eq_true. reflexivity.
Qed.

Lemma get_username_count_healthy status d :
  get_username_count_by_status status None d
  = (Returned (count_status status (db_tables d)), d).
Proof. destruct d as [t s]. reflexivity. Qed.

Section LoopFacts.
Variable config : Settings.ScraperConfig.
Variable instance_id : string.
Variable fromisoformat : string -> option Z.
Variable github : string -> nat -> attempt.
Variable store_error : string.
Hypothesis some_attempt : (0 < Settings.MAX_RETRIES config)%nat.
Hypothesis good_api : answers_as_asked github.

Local Abbreviation process_one :=
  (process_username config fromisoformat github no_faults store_error).
Local Abbreviation process_all :=
  (process_batch config fromisoformat github no_faults store_error).

(** One item, with a healthy store and the API answering: it is
    committed, and every row of that username is PROFILED. *)
Lemma process_username_commits uname processed w :
  exists p' w' f,
    process_one uname processed w = (Returned p', w')
    /\ processed <= p'
    /\ (forall r, enrichment_status (f r) = PROFILED
                  /\ username (f r) = username r /\ id (f r) = id r)
    /\ developers (db_tables (db w'))
       = map (fun r => if has_username uname r then f r else r)
             (developers (db_tables (db w))).
Proof.
  unfold process_username, fetch_profile.
  destruct (Settings.MAX_RETRIES config) as [|n] eqn:Emax; [lia|].
  cbn [fetch_profile_from]. cbn [api_calls metrics_increment].
  destruct (good_api uname (api_calls w)) as (user & repos & Hfetch & Hlogin).
  rewrite Hfetch.
  set (p := build_profile user repos).
  set (w0 := count_api_call (metrics_increment "processed" w)).
  unfold call_db at 1. unfold no_faults at 1.
  change (clock w0) with (clock w). change (db w0) with (db w).
  destruct (update_profile_no_fault fromisoformat p (clock w) (db w))
    as (res & d' & Eup).
  pose proof (update_profile_cases fromisoformat p (clock w) None (db w)) as Hcases.
  cbv zeta in Hcases. rewrite Eup in Hcases. rewrite Eup.
  assert (Hname : Profile.username p = uname) by exact Hlogin.
  assert (Hdev : developers (db_tables d')
                 = map (fun r => if has_username uname r
                                 then set_profile fromisoformat p (clock w) r else r)
                       (developers (db_tables (db w)))).
  { rewrite <- Hname.
    destruct Hcases as [(d1 & E & _)|[(d1 & E & Hone & Ht)|(j & d1 & E & Hone & Ht)]].
    - discriminate E.
    - injection E as E1 E2. subst res d1. rewrite Ht. reflexivity.
    - injection E as E1 E2. subst res d1. rewrite Ht.
      apply tables_after_commit_developers. }
  assert (Hf : forall r, enrichment_status (set_profile fromisoformat p (clock w) r)
                         = PROFILED
                         /\ username (set_profile fromisoformat p (clock w) r)
                            = username r
                         /\ id (set_profile fromisoformat p (clock w) r) = id r).
  { intros r. repeat split. }
  destruct res as [developer_id|].
  - destruct (developer_id =? 0).
    + eexists. eexists. exists (set_profile fromisoformat p (clock w)).
      split; [reflexivity|]. split; [lia|]. split; [exact Hf | exact Hdev].
    + unfold call_db, no_faults. rewrite get_username_count_healthy.
      eexists. eexists. exists (set_profile fromisoformat p (clock w)).
      split; [reflexivity|]. split; [lia|]. split; [exact Hf | exact Hdev].
  - eexists. eexists. exists (set_profile fromisoformat p (clock w)).
    split; [reflexivity|]. split; [lia|]. split; [exact Hf | exact Hdev].
Qed.

(** A batch: every row of a claimed username ends PROFILED, the others
    are untouched. *)
Lemma process_batch_commits claimed :
  forall processed w,
  exists p' w' g,
    process_all claimed processed w = (Returned p', w')
    /\ processed <= p'
    /\ (forall r, profiled_rows claimed r (g r))
    /\ developers (db_tables (db w')) = map g (developers (db_tables (db w))).
Proof.
  induction claimed as [|uname rest IH]; intros processed w.
  - exists processed, w, (fun r => r). split; [reflexivity|]. split; [lia|].
    split; [|rewrite map_id; reflexivity].
    intros r. repeat split; auto. intros Hin. inversion Hin.
  - cbn [process_batch].
    destruct (process_username_commits uname processed w)
      as (p1 & w1 & f & -> & Hp1 & Hf & Hdev1).
    destruct (IH p1 w1) as (p' & w' & g & -> & Hp' & Hg & Hdev').
    exists p', w', (fun r => g (if has_username uname r then f r else r)).
    split; [reflexivity|]. split; [lia|]. split.
    + intros r. destruct (Hf r) as (Hs & Hu & Hi).
      destruct (has_username uname r) eqn:E.
      * destruct (Hg (f r)) as (Gu & Gi & Gin & Gout).
        split; [congruence|]. split; [congruence|]. split.
        -- intros _. destruct (decide (username (f r) ∈ rest)) as [Hin|Hnot].
           ++ apply Gin, Hin.
           ++ rewrite (Gout Hnot). exact Hs.
        -- intros Hnot. exfalso. apply Hnot. apply String.eqb_eq in E.
           rewrite E. left.
      * destruct (Hg r) as (Gu & Gi & Gin & Gout).
        split; [exact Gu|]. split; [exact Gi|]. split.
        -- intros Hin. apply elem_of_cons in Hin as [Heq|Hin]; [|apply Gin, Hin].
           exfalso. apply (has_username_false _ _ E). exact Heq.
        -- intros Hnot. apply Gout. intros Hin. apply Hnot. right. exact Hin.
    + rewrite Hdev', Hdev1, map_map. reflexivity.
Qed.

End LoopFacts.

Lemma claim_healthy instance_id w :
  claim instance_id no_faults w
  = (Returned (claimed_by_claim INITIAL 50 instance_id 30 (clock w) (db w)),
     set_db w {| db_tables := tables_after_claim INITIAL 50 instance_id 30
                                                 (clock w) (db w);
                 db_sequences := db_sequences (db w) |}).
Proof. unfold claim, call_db, no_faults. rewrite claim_batch_no_fault. reflexivity. Qed.

(** A claim moves rows between INITIAL and PROCESSING only. *)
Lemma claim_keeps_pending limit owner timeout now d :
  unique_ids d ->
  count_pending (developers (tables_after_claim INITIAL limit owner timeout now d))
  = count_pending (developers (db_tables d)).
Proof.
  intros Hids. rewrite tables_after_claim_developers.
  set (h1 := fun r => if is_stale now timeout r
                      then with_bookkeeping r INITIAL (retry_count r) (last_error r)
                                            None None
                      else r).
  assert (Hh1 : forall r, is_pending (h1 r) = is_pending r).
  { intros r. unfold h1. destruct (is_stale now timeout r) eqn:E; [|reflexivity].
    apply is_stale_status in E. unfold is_pending. cbn [enrichment_status with_bookkeeping].
    rewrite E. reflexivity. }
  rewrite count_pending_same.
  - apply count_pending_same. intros r _. apply Hh1.
  - intros r1 Hr1.
    match goal with |- context [id_in ?ids r1] => destruct (id_in ids r1) eqn:Esel end;
      [|reflexivity].
    assert (Hs : enrichment_status r1 = INITIAL).
    { apply (claimable_status _ _ _ _ Esel).
      - unfold release_stale. cbn [developers new_tables update_developers].
        rewrite (map_if_key id) by reflexivity. exact Hids.
      - exact Hr1. }
    unfold is_pending. cbn [enrichment_status with_bookkeeping]. rewrite Hs. reflexivity.
Qed.

(** A claim that returns nothing leaves no row in the status it claims
    from. *)
Lemma claim_nothing_left from limit owner timeout now d :
  (0 < limit)%nat ->
  claimed_by_claim from limit owner timeout now d = [] ->
  count_status from (tables_after_claim from limit owner timeout now d) = 0.
Proof.
  intros Hlimit Hnone. rewrite claimed_by_claim_rows, select_claimable_ids in Hnone.
  apply map_eq_nil in Hnone.
  assert (Hclaimable : claimable from timeout now d = []).
  { destruct (claimable from timeout now d) as [|x l] eqn:E; [reflexivity|]. exfalso.
    pose proof (order_by_id_perm (x :: l)) as Hperm.
    destruct (order_by_id (x :: l)) as [|y sorted] eqn:Es.
    { apply Permutation_length in Hperm. discriminate Hperm. }
    destruct limit as [|limit]; [lia|].
    assert (Hy : y ∈ filter (fun r => id_in (map id (take (S limit) (y :: sorted))) r
                                      = true)
                            (developers_after_release from timeout now d)).
    { apply list_elem_of_filter. split.
      - apply id_in_spec. cbn [take map]. left.
      - assert (Hin : y ∈ claimable from timeout now d).
        { rewrite E, <- Hperm. left. }
        unfold claimable in Hin. apply list_elem_of_filter in Hin. tauto. }
    rewrite Hnone in Hy. inversion Hy. }
  unfold count_status, tables_after_claim, claim_rows.
  rewrite update_developers_rows, select_claimable_ids, Hclaimable.
  cbn [order_by_id fold_right take map].
  rewrite map_if_no_match.
  - fold (developers_after_release from timeout now d).
    fold (claimable from timeout now d). rewrite Hclaimable. reflexivity.
  - rewrite take_nil. cbn [map]. clear.
    induction (developers _) as [|r l IH]; [reflexivity|].
    rewrite filter_cons. destruct (decide _) as [E|E]; [discriminate E | exact IH].
Qed.

Lemma claimed_row_pending from limit owner timeout now d u :
  u ∈ claimed_by_claim from limit owner timeout now d ->
  exists r, r ∈ developers (tables_after_claim from limit owner timeout now d)
            /\ username r = u /\ is_pending r = true.
Proof.
  intros Hu. destruct (claimed_rows_processing _ _ _ _ _ _ _ Hu) as (x & Hx & Hux).
  exists (claimed owner now x). split; [exact Hx|]. split; [exact Hux | reflexivity].
Qed.

Lemma profiled_not_pending r : enrichment_status r = PROFILED -> is_pending r = false.
Proof. unfold is_pending. intros ->. reflexivity. Qed.

(** A claim does not touch a row that is neither in its status nor
    PROCESSING. *)
Lemma claim_untouched from limit owner timeout now d i r :
  unique_ids d ->
  developers (db_tables d) !! i = Some r ->
  enrichment_status r <> from -> enrichment_status r <> PROCESSING ->
  developers (tables_after_claim from limit owner timeout now d) !! i = Some r.
Proof.
  intros Hids Hr Hfrom Hproc.
  rewrite tables_after_claim_developers, !lookup_map, Hr.
  assert (Hstale : is_stale now timeout r = false).
  { destruct (is_stale now timeout r) eqn:Es; [|reflexivity].
    apply is_stale_status in Es. contradiction. }
  cbn [fmap option_fmap option_map]. rewrite Hstale.
  match goal with |- context [id_in ?ids r] => destruct (id_in ids r) eqn:Esel end;
    [|reflexivity].
  exfalso. apply Hfrom. apply (claimable_status _ _ _ _ Esel).
  - unfold release_stale. cbn [developers new_tables update_developers].
    rewrite (map_if_key id) by reflexivity. exact Hids.
  - unfold release_stale. cbn [developers new_tables update_developers].
    apply list_elem_of_lookup_2 with i. rewrite lookup_map, Hr.
    cbn [fmap option_fmap option_map]. rewrite Hstale. reflexivity.
Qed.

(** Turn by turn: the rows waiting get fewer, so the loop comes to its
    end. *)
Lemma scrape_loop_returns (config : Settings.ScraperConfig) (instance_id : string)
      (fromisoformat : string -> option Z) (github : string -> nat -> attempt)
      (store_error : string) :
  (0 < Settings.MAX_RETRIES config)%nat ->
  answers_as_asked github ->
  forall fuel processed w,
    (pending (db w) < fuel)%nat ->
    unique_ids (db w) ->
    NoDup (map username (developers (db_tables (db w)))) ->
    exists p w',
      ProfileLoop.scrape_loop config instance_id fromisoformat github no_faults
                              store_error fuel processed w
      = Some (Returned p, w')
      /\ processed <= p
      /\ (Settings.TARGET_PROFILES config <= count_status PROFILED (db_tables (db w'))
          \/ count_status INITIAL (db_tables (db w')) = 0)
      /\ map username (developers (db_tables (db w')))
         = map username (developers (db_tables (db w)))
      /\ map id (developers (db_tables (db w')))
         = map id (developers (db_tables (db w)))
      /\ (forall i r, developers (db_tables (db w)) !! i = Some r ->
                      is_pending r = false ->
                      developers (db_tables (db w')) !! i = Some r).
Proof.
  intros Hmax Hgood fuel.
  induction fuel as [|fuel IH]; intros processed w Hfuel Hids Hnames; [lia|].
  cbn [ProfileLoop.scrape_loop].
  unfold ProfileLoop.count_profiled, call_db at 1, no_faults at 1.
  rewrite get_username_count_healthy.
  destruct (Settings.TARGET_PROFILES config <=? count_status PROFILED (db_tables (db w)))
    eqn:Etarget.
  { apply Z.leb_le in Etarget. eexists. eexists. split; [reflexivity|].
    split; [lia|]. split; [left; exact Etarget|].
    split; [reflexivity|]. split; [reflexivity|]. auto. }
  rewrite claim_healthy. cbn [clock db set_db].
  set (claimed := claimed_by_claim INITIAL 50 instance_id 30 (clock w) (db w)).
  set (d2 := {| db_tables := tables_after_claim INITIAL 50 instance_id 30
                                                (clock w) (db w);
                db_sequences := db_sequences (db w) |}).
  set (w2 := set_db (set_db w (db w)) d2).
  assert (Hnames2 : map username (developers (db_tables d2))
                    = map username (developers (db_tables (db w))))
    by apply claim_keeps_usernames.
  assert (Hids2 : map id (developers (db_tables d2))
                  = map id (developers (db_tables (db w))))
    by apply claim_keeps_ids.
  assert (Hrow2 : forall i r, developers (db_tables (db w)) !! i = Some r ->
                              is_pending r = false ->
                              developers (db_tables d2) !! i = Some r).
  { intros i r Hr Hp. apply claim_untouched; [exact Hids | exact Hr | |];
      intros Hs; apply (proj2 (not_true_iff_false _) Hp), is_pending_status; auto. }
  destruct claimed as [|u rest] eqn:Eclaimed.
  { eexists. eexists. split; [reflexivity|]. split; [lia|].
    split; [|split; [exact Hnames2 | split; [exact Hids2 | exact Hrow2]]].
    right. apply claim_nothing_left; [lia | exact Eclaimed]. }
  destruct (process_batch_commits config fromisoformat github store_error Hmax Hgood
                                  (u :: rest) processed w2)
    as (p1 & w3 & g & -> & Hp1 & Hg & Hdev3).
  assert (Hnames3 : map username (developers (db_tables (db w3)))
                    = map username (developers (db_tables (db w)))).
  { rewrite Hdev3, map_map, <- Hnames2. apply map_ext. intros r. apply (Hg r). }
  assert (Hids3 : map id (developers (db_tables (db w3)))
                  = map id (developers (db_tables (db w)))).
  { rewrite Hdev3, map_map, <- Hids2. apply map_ext. intros r. apply (Hg r). }
  assert (Hrow3 : forall i r, developers (db_tables (db w)) !! i = Some r ->
                              is_pending r = false ->
                              developers (db_tables (db w3)) !! i = Some r).
  { intros i r Hr Hp. specialize (Hrow2 i r Hr Hp).
    rewrite Hdev3, lookup_map. change (db_tables (db w2)) with (db_tables d2).
    rewrite Hrow2. cbn [fmap option_fmap option_map]. f_equal.
    apply (Hg r). intros Hin.
    destruct (claimed_row_pending INITIAL 50 instance_id 30 (clock w) (db w)
                                  (username r))
      as (r' & Hr' & Hu' & Hpend).
    { fold claimed. rewrite Eclaimed. exact Hin. }
    assert (r' = r).
    { apply (unique_username (developers (db_tables d2)));
        [rewrite Hnames2; exact Hnames | exact Hr' | | exact Hu'].
      apply (list_elem_of_lookup_2 _ i). exact Hrow2. }
    congruence. }
  destruct (IH p1 w3) as (p & w' & E & Hp & Hend & Hn & Hi & Hrow).
  - assert (Hless : (pending (db w3) < pending (db w))%nat); [|lia].
    unfold pending. rewrite Hdev3.
    rewrite <- (claim_keeps_pending 50 instance_id 30 (clock w) (db w) Hids).
    apply count_pending_map.
    + intros r _ Hpg. destruct (Hg r) as (_ & _ & Gin & Gout).
      destruct (decide (username r ∈ u :: rest)) as [Hin|Hnot].
      * rewrite (profiled_not_pending _ (Gin Hin)) in Hpg. discriminate.
      * rewrite (Gout Hnot) in Hpg. exact Hpg.
    + destruct (claimed_row_pending INITIAL 50 instance_id 30 (clock w) (db w) u)
        as (r & Hr & Hu & Hpend).
      { fold claimed. rewrite Eclaimed. left. }
      exists r. split; [exact Hr|]. split; [exact Hpend|].
      apply profiled_not_pending. apply (Hg r). rewrite Hu. left.
  - unfold unique_ids. rewrite Hids3. exact Hids.
  - rewrite Hnames3. exact Hnames.
  - exists p, w'. split; [exact E|]. split; [lia|]. split; [exact Hend|].
    split; [congruence|]. split; [congruence|].
    intros i r Hr Hpend. apply Hrow; [apply Hrow3; assumption | exact Hpend].
Qed.

(** X22 ([scrape_profiles], the whole method): with a store that never
    fails, ids and usernames unique, and a remote API that answers every
    request with the user asked for, the method returns -- the loop ends
    after at most as many turns as there are INITIAL and PROCESSING rows
    -- and then the target is reached or no INITIAL row is left. No row
    is added, removed or renamed, and the rows that were PROFILED,
    ENHANCED or FAILED at the start are untouched: finished and failed
    items are not fetched again. *)
Theorem scrape_profiles_completes (config : Settings.ScraperConfig)
        (instance_id : string) (fromisoformat : string -> option Z)
        (github : string -> nat -> attempt) (store_error : string)
        (fuel : nat) (w : world) :
  (0 < Settings.MAX_RETRIES config)%nat ->
  answers_as_asked github ->
  unique_ids (db w) ->
  NoDup (map username (developers (db_tables (db w)))) ->
  (pending (db w) < fuel)%nat ->
  exists p w',
    ProfileLoop.scrape_profiles config instance_id fromisoformat github no_faults
                                store_error fuel w
    = Some (Returned p, w')
    /\ 0 <= p
    /\ (Settings.TARGET_PROFILES config <= count_status PROFILED (db_tables (db w'))
        \/ count_status INITIAL (db_tables (db w')) = 0)
    /\ map username (developers (db_tables (db w')))
       = map username (developers (db_tables (db w)))
    /\ map id (developers (db_tables (db w')))
       = map id (developers (db_tables (db w)))
    /\ (forall i r, developers (db_tables (db w)) !! i = Some r ->
                    is_pending r = false ->
                    developers (db_tables (db w')) !! i = Some r).
Proof.
  intros Hmax Hgood Hids Hnames Hfuel.
  unfold ProfileLoop.scrape_profiles, ProfileLoop.count_profiled, call_db, no_faults.
  rewrite get_username_count_healthy.
  destruct (Settings.TARGET_PROFILES config <=? count_status PROFILED (db_tables (db w)))
    eqn:Etarget.
  { apply Z.leb_le in Etarget. eexists. eexists. split; [reflexivity|].
    split; [lia|]. split; [left; exact Etarget|].
    split; [reflexivity|]. split; [reflexivity|]. auto. }
  apply (scrape_loop_returns config instance_id fromisoformat github store_error
                             Hmax Hgood fuel 0 (set_db w (db w)));
    assumption.
Qed.

Lemma scrape_profiles_completes_witness :
  exists p w',
    ProfileLoop.scrape_profiles Settings.defaults "host-1" no_parse everyone_exists
                                no_faults "connection lost" 4
                                (worker_on three_initial)
    = Some (Returned p, w')
    /\ 0 <= p
    /\ (Settings.TARGET_PROFILES Settings.defaults
        <= count_status PROFILED (db_tables (db w'))
        \/ count_status INITIAL (db_tables (db w')) = 0).
Proof.
  destruct (scrape_profiles_completes
              Settings.defaults "host-1" no_parse everyone_exists "connection lost"
              4 (worker_on three_initial))
    as (p & w' & E & Hp & Hend & _).
  - simpl. lia.
  - intros u k. exists (plain_user u), []. split; reflexivity.
  - apply (bool_decide_unpack _). vm_compute. exact I.
  - apply (bool_decide_unpack _). vm_compute. exact I.
  - vm_compute. lia.
  - exists p, w'. split; [exact E|]. split; [exact Hp | exact Hend].
Defined.

(** ** Two claims, one after the other *)

(** X23 ([claim_batch_for_processing], run twice in a row): take a store
    with unique ids and usernames and a status other than PROCESSING. If
    a second claim runs on the store the first one committed, at a time
    when the first claim is not yet stale for it, the two return no
    username in common, and after the second claim every row of the
    first is still PROCESSING, held by the first owner since the time
    of the first claim. *)
Theorem claims_within_lease_disjoint (from : EnrichmentStatus) (limit1 limit2 : nat)
        (owner1 owner2 : string) (timeout1 timeout2 now1 now2 : Z) (d : database) :
  from <> PROCESSING ->
  unique_ids d ->
  NoDup (map username (developers (db_tables d))) ->
  now2 - 60 * timeout2 <= now1 ->
  forall u,
    u ∈ claimed_by_claim from limit1 owner1 timeout1 now1 d ->
    (u ∉ claimed_by_claim
           from limit2 owner2 timeout2 now2
           {| db_tables := tables_after_claim from limit1 owner1 timeout1 now1 d;
              db_sequences := db_sequences d |})
    /\ exists x,
        x ∈ developers
              (tables_after_claim
                 from limit2 owner2 timeout2 now2
                 {| db_tables := tables_after_claim from limit1 owner1 timeout1 now1 d;
                    db_sequences := db_sequences d |})
        /\ username x = u
        /\ enrichment_status x = PROCESSING
        /\ claimed_by x = Some owner1
        /\ processing_started_at x = Some now1.
Proof.
  intros Hfrom Hids Hnames Hfresh u H1.
  set (d1 := {| db_tables := tables_after_claim from limit1 owner1 timeout1 now1 d;
                db_sequences := db_sequences d |}).
  assert (Hdisjoint : u ∉ claimed_by_claim from limit2 owner2 timeout2 now2 d1).
  { intros H2.
    exact (serial_claims_disjoint from limit1 limit2 owner1 owner2 timeout1 timeout2
                                  now1 now2 d u Hfrom Hids Hnames Hfresh H1 H2). }
  split; [exact Hdisjoint|].
  destruct (claimed_rows_processing _ _ _ _ _ _ _ H1) as (x0 & Hx0 & Hux).
  change (claimed owner1 now1 x0 ∈ developers (db_tables d1)) in Hx0.
  apply list_elem_of_lookup_1 in Hx0 as [i Hi].
  pose proof (after_release_lookup from timeout2 now2 d1 i _ Hi) as Hrel.
  rewrite (is_stale_processing now2 timeout2 _ now1) in Hrel by reflexivity.
  assert (Hns : (now1 <? now2 - 60 * timeout2) = false) by (apply Z.ltb_ge; lia).
  rewrite Hns in Hrel.
  pose proof (after_claim_lookup from limit2 owner2 timeout2 now2 d1 i _ Hrel) as Hclaim.
  match type of Hclaim with
  | context [id_in ?ids ?r] => destruct (id_in ids r) eqn:Esel
  end.
  - exfalso. apply Hdisjoint. rewrite <- Hux.
    change (username x0) with (username (claimed owner1 now1 x0)).
    unfold claimed_by_claim.
    apply claim_rows_returned; [|exact Esel].
    apply (list_elem_of_lookup_2 _ i). exact Hrel.
  - exists (claimed owner1 now1 x0).
    split; [apply (list_elem_of_lookup_2 _ i); exact Hclaim|].
    repeat split. exact Hux.
Qed.

Lemma claims_within_lease_disjoint_witness :
  "alice"%string
  ∉ claimed_by_claim
      INITIAL 2 "host-2" 30 1000
      {| db_tables := tables_after_claim INITIAL 2 "host-1" 30 400 three_initial;
         db_sequences := db_sequences three_initial |}.
Proof.
  apply (claims_within_lease_disjoint
           INITIAL 2 2 "host-1" "host-2" 30 30 400 1000 three_initial).
  - discriminate.
  - apply (bool_decide_unpack _). vm_compute. exact I.
  - apply (bool_decide_unpack _). vm_compute. exact I.
  - lia.
  - apply (bool_decide_unpack _). vm_compute. exact I.
Defined.

(** ** The username search ([search_users]) *)

Lemma insert_usernames_batch_effect now usernames flt d :
  (forall u, u ∈ map username (developers (db_tables d)) ->
             u ∈ map username
                   (developers
                      (db_tables (insert_usernames_batch now usernames flt d).2)))
  /\ (forall n, (insert_usernames_batch now usernames flt d).1 = Returned n ->
                forall u, u ∈ usernames ->
                          u ∈ map username
                                (developers
                                   (db_tables
                                      (insert_usernames_batch now usernames flt d).2)))
  /\ ((insert_usernames_batch now usernames flt d).1 = Exception ->
      db_tables (insert_usernames_batch now usernames flt d).2 = db_tables d).
Proof.
  destruct (insert_usernames_batch_cases now usernames flt d)
    as [(d' & -> & Ht)|(d' & -> & Ht)]; cbn [fst snd]; rewrite Ht.
  - split; [auto|]. split; [discriminate | reflexivity].
  - unfold after_insert. split; [|split; [|discriminate]].
    + intros u Hu. apply insert_statements_stored. left. exact Hu.
    + intros n _ u Hu. apply insert_statements_stored. right. exact Hu.
Qed.

Lemma get_username_count_tables status flt d :
  db_tables (get_username_count_by_status status flt d).2 = db_tables d.
Proof.
  unfold get_username_count_by_status, get_cursor, execute.
  destruct flt as [[|[|k]]|]; reflexivity.
Qed.

Lemma advance_refl st : advance 0 st st.
Proof. unfold advance. repeat split; auto. lia. Qed.

Lemma advance_trans k1 k2 st1 st2 st3 :
  advance k1 st1 st2 -> advance k2 st2 st3 -> advance (k1 + k2) st1 st3.
Proof.
  intros (A1 & A2 & A3) (B1 & B2 & B3). repeat split; auto. lia.
Qed.

Lemma advance_more k k' st st' : (k <= k')%nat -> advance k st st' -> advance k' st st'.
Proof. intros Hk (A1 & A2 & A3). repeat split; auto. lia. Qed.

(** A step that leaves the tables, the batch and the API's record
    alone. *)
Lemma advance_same k st st' :
  db_tables (db (UsernameScraper.world_of st'))
  = db_tables (db (UsernameScraper.world_of st)) ->
  UsernameScraper.batch_usernames st' = UsernameScraper.batch_usernames st ->
  UsernameScraper.served st' = UsernameScraper.served st ->
  (searches st' <= searches st + k)%nat ->
  advance k st st'.
Proof.
  intros Ht Hb Hs Hk. unfold advance, no_loss, stored. rewrite Ht, Hb, Hs. auto.
Qed.

Section SearchFacts.
Variable config : Settings.ScraperConfig.
Variable search : SearchSettings.SearchConfig.
Variable github_search : string -> Z -> nat -> list string * option exception_class.
Variable faults : nat -> option nat.

Local Abbreviation count_initial := (UsernameScraper.count_initial faults).
Local Abbreviation save_batch := (UsernameScraper.save_batch faults).
Local Abbreviation save_remaining := (UsernameScraper.save_remaining faults).
Local Abbreviation iterate := (UsernameScraper.iterate config search faults).
Local Abbreviation one_search :=
  (UsernameScraper.one_search config search github_search faults).
Local Abbreviation years_loop :=
  (UsernameScraper.years_loop config search github_search faults).
Local Abbreviation locations_loop :=
  (UsernameScraper.locations_loop config search github_search faults).

Lemma count_initial_keeps st :
  db_tables (db (UsernameScraper.world_of (count_initial st).2))
  = db_tables (db (UsernameScraper.world_of st))
  /\ UsernameScraper.batch_usernames (count_initial st).2
     = UsernameScraper.batch_usernames st
  /\ UsernameScraper.served (count_initial st).2 = UsernameScraper.served st
  /\ searches (count_initial st).2 = searches st.
Proof.
  unfold UsernameScraper.count_initial, UsernameScraper.db_call, call_db.
  pose proof (get_username_count_tables
                INITIAL (faults (transactions (UsernameScraper.world_of st)))
                (db (UsernameScraper.world_of st))) as Ht.
  destruct (get_username_count_by_status _ _ _) as [r d].
  split; [exact Ht|]. repeat split.
Qed.

Lemma count_initial_advance st : advance 0 st (count_initial st).2.
Proof.
  destruct (count_initial_keeps st) as (Ht & Hb & Hs & Hk).
  apply advance_same; try assumption. lia.
Qed.

Lemma count_initial_all_stored st : all_stored st -> all_stored (count_initial st).2.
Proof.
  destruct (count_initial_keeps st) as (Ht & Hb & Hs & Hk).
  unfold all_stored, stored. rewrite Ht, Hs. auto.
Qed.

Lemma metrics_increment_advance metric value st :
  advance 0 st (UsernameScraper.metrics_increment metric value st).
Proof. apply advance_same; try reflexivity. unfold searches. simpl. lia. Qed.

Lemma sleep_advance seconds st :
  advance 0 st (UsernameScraper.lift (sleep seconds) st).
Proof. apply advance_same; try reflexivity. unfold searches. simpl. lia. Qed.

Lemma handle_rate_limit_advance st :
  advance 0 st (UsernameScraper.lift (handle_rate_limit config) st).
Proof. apply advance_same; try reflexivity. unfold searches. simpl. lia. Qed.

Lemma count_api_call_advance st :
  advance 1 st (UsernameScraper.lift count_api_call st).
Proof. apply advance_same; try reflexivity. unfold searches. simpl. lia. Qed.

(** Saving the batch: stored and emptied, or rolled back and kept. *)
Lemma save_batch_advance st :
  advance 0 st (save_batch st).2
  /\ ((save_batch st).1 = Returned tt ->
      UsernameScraper.batch_usernames (save_batch st).2 = []
      /\ forall u, u ∈ UsernameScraper.batch_usernames st -> stored u (save_batch st).2).
Proof.
  unfold UsernameScraper.save_batch, UsernameScraper.db_call, call_db.
  destruct (insert_usernames_batch_effect
              (clock (UsernameScraper.world_of st))
              (UsernameScraper.batch_usernames st)
              (faults (transactions (UsernameScraper.world_of st)))
              (db (UsernameScraper.world_of st))) as (Hold & Hnew & Hraise).
  destruct (insert_usernames_batch _ _ _ _) as [[inserted|] d'];
    cbn [fst snd] in Hold, Hnew, Hraise |- *.
  - specialize (Hnew inserted eq_refl).
    assert (Hall : forall u, u ∈ UsernameScraper.batch_usernames st \/ stored u st ->
                             u ∈ map username (developers (db_tables d'))).
    { intros u [Hu|Hu]; [apply Hnew, Hu | apply Hold, Hu]. }
    split.
    + unfold advance, no_loss, stored, searches. cbn.
      split; [|split; [intros u Hu; apply Hold, Hu | lia]].
      intros Hinv u Hu. right. apply Hall, Hinv, Hu.
    + intros _. split; [reflexivity|]. intros u Hu. apply Hnew, Hu.
  - split; [|discriminate].
    apply advance_same; try reflexivity; [apply Hraise; reflexivity|].
    unfold searches. simpl. lia.
Qed.

Lemma save_remaining_advance st :
  advance 0 st (save_remaining st).2
  /\ ((save_remaining st).1 = Returned tt ->
      forall u, u ∈ UsernameScraper.batch_usernames st -> stored u (save_remaining st).2).
Proof.
  unfold UsernameScraper.save_remaining.
  destruct (UsernameScraper.batch_usernames st) as [|x l] eqn:E.
  - split; [apply advance_refl|]. intros _ u Hu. inversion Hu.
  - destruct (save_batch_advance st) as [Ha Hr]. split; [exact Ha|].
    intros Hret u Hu. apply (Hr Hret). rewrite E. exact Hu.
Qed.

Lemma take_user_advance user_login st :
  advance 0 st (UsernameScraper.take_user user_login st).
Proof.
  unfold advance, no_loss, stored, searches, UsernameScraper.take_user. cbn.
  split; [|split; [auto | lia]].
  intros Hinv u Hu. apply elem_of_app in Hu as [Hu|Hu].
  - destruct (Hinv u Hu) as [Hb|Hs]; [left; apply elem_of_app; auto | right; exact Hs].
  - left. apply elem_of_app. right. exact Hu.
Qed.

Lemma iterate_advance items ending :
  forall count st, advance 0 st (iterate items ending count st).2.
Proof.
  induction items as [|user_login rest IH]; intros count st.
  - cbn [UsernameScraper.iterate]. destruct ending; apply advance_refl.
  - cbn [UsernameScraper.iterate].
    set (st1 := UsernameScraper.take_user user_login st).
    assert (H1 : advance 0 st st1) by apply take_user_advance.
    assert (H2 : advance 0 st
                   (if Settings.BATCH_SIZE config
                       <=? Z.of_nat (length (UsernameScraper.batch_usernames st1))
                    then save_batch st1 else (Returned tt, st1)).2).
    { destruct (_ <=? _); [|exact H1].
      apply (advance_trans 0 0 _ _ _ H1), save_batch_advance. }
    destruct (if Settings.BATCH_SIZE config
                 <=? Z.of_nat (length (UsernameScraper.batch_usernames st1))
              then save_batch st1 else (Returned tt, st1)) as [[u|] st2];
      cbn [fst snd] in H2; [|exact H2].
    pose proof (advance_trans 0 0 _ _ _ H2 (count_initial_advance st2)) as H3.
    destruct (count_initial st2) as [[current_count|] st3]; cbn [fst snd] in H3;
      [|exact H3].
    destruct (_ <=? current_count); [exact H3|].
    destruct (_ <=? count + 1); [exact H3|].
    apply (advance_trans 0 0 _ _ _ H3), IH.
Qed.

Lemma on_failure_advance st :
  advance 0 st (UsernameScraper.on_failure config st).2.
Proof.
  unfold UsernameScraper.on_failure. cbn [snd].
  apply (advance_trans 0 0 _ _ _ (metrics_increment_advance "failed" 1 st)),
    sleep_advance.
Qed.

Lemma one_search_advance location year st :
  advance 1 st (one_search location year st).2.
Proof.
  unfold UsernameScraper.one_search.
  destruct (github_search location year _) as [items ending].
  pose proof (advance_trans 1 0 _ _ _ (count_api_call_advance st)
                            (iterate_advance items ending 0
                                             (UsernameScraper.lift count_api_call st)))
    as H1.
  destruct (iterate items ending 0 (UsernameScraper.lift count_api_call st))
    as [[|e] st1]; cbn [fst snd] in H1.
  - pose proof (advance_trans 1 0 _ _ _ H1 (proj1 (save_remaining_advance st1))) as H2.
    destruct (save_remaining st1) as [[u|] st2]; cbn [fst snd] in H2.
    + pose proof (advance_trans 1 0 _ _ _ H2 (count_initial_advance st2)) as H3.
      destruct (count_initial st2) as [[c|] st3]; cbn [fst snd] in H3 |- *.
      * apply (advance_trans 1 0 _ _ _ H3), sleep_advance.
      * apply (advance_trans 1 0 _ _ _ H3), on_failure_advance.
    + apply (advance_trans 1 0 _ _ _ H2), on_failure_advance.
  - assert (Hfail : advance 1 st (UsernameScraper.on_failure config st1).2).
    { apply (advance_trans 1 0 _ _ _ H1), on_failure_advance. }
    destruct e; [|exact Hfail|exact Hfail].
    pose proof (advance_trans 1 0 _ _ _ H1 (proj1 (save_remaining_advance st1))) as H2.
    destruct (save_remaining st1) as [[u|] st2]; cbn [fst snd] in H2 |- *;
      [|exact H2].
    apply (advance_trans 1 0 _ _ _ H2).
    apply (advance_trans 0 0 _ _ _ (metrics_increment_advance "rate_limit" 1 st2)),
      handle_rate_limit_advance.
Qed.

Lemma years_loop_advance location years :
  forall st, advance (length years) st (years_loop location years st).2.
Proof.
  induction years as [|year years IH]; intros st.
  - apply advance_refl.
  - cbn [UsernameScraper.years_loop length].
    pose proof (count_initial_advance st) as H1.
    destruct (count_initial st) as [[c|] st1]; cbn [fst snd] in H1 |- *;
      [|apply (advance_more 0); [lia | exact H1]].
    destruct (_ <=? c); [apply (advance_more 0); [lia | exact H1]|].
    pose proof (advance_trans 0 1 _ _ _ H1 (one_search_advance location year st1)) as H2.
    destruct (one_search location year st1) as [[u|] st2]; cbn [fst snd] in H2 |- *;
      [|apply (advance_more 1); [lia | exact H2]].
    exact (advance_trans 1 (length years) _ _ _ H2 (IH st2)).
Qed.

Lemma locations_loop_advance locations :
  forall st,
    advance (length locations * length (SearchSettings.years search)) st
            (locations_loop locations st).2.
Proof.
  induction locations as [|location locations IH]; intros st.
  - apply advance_refl.
  - cbn [UsernameScraper.locations_loop length].
    pose proof (years_loop_advance location (SearchSettings.years search) st) as H1.
    destruct (years_loop location (SearchSettings.years search) st) as [[u|] st1];
      cbn [fst snd] in H1 |- *; [|eapply advance_more; [|exact H1]; lia].
    pose proof (advance_trans _ 0 _ _ _ H1 (count_initial_advance st1)) as H2.
    destruct (count_initial st1) as [[c|] st2]; cbn [fst snd] in H2 |- *;
      [|eapply advance_more; [|exact H2]; lia].
    destruct (_ <=? c); [eapply advance_more; [|exact H2]; lia|].
    eapply advance_more; [|exact (advance_trans _ _ _ _ _ H2 (IH st2))]. lia.
Qed.

(** The save after the loops: if it returns, nothing is left in the
    batch that is not stored. *)
Lemma final_save_advance st :
  advance 0 st (UsernameScraper.final_save faults st).2
  /\ ((UsernameScraper.final_save faults st).1 = Returned tt ->
      no_loss st -> all_stored (UsernameScraper.final_save faults st).2).
Proof.
  unfold UsernameScraper.final_save.
  destruct (UsernameScraper.batch_usernames st) as [|x l] eqn:Eb.
  - split; [apply advance_refl|]. intros _ Hinv u Hu.
    destruct (Hinv u Hu) as [Hb|Hs]; [rewrite Eb in Hb; inversion Hb | exact Hs].
  - rewrite <- Eb. clear Eb.
    unfold UsernameScraper.db_call, call_db.
    destruct (insert_usernames_batch_effect
                (clock (UsernameScraper.world_of st))
                (UsernameScraper.batch_usernames st)
                (faults (transactions (UsernameScraper.world_of st)))
                (db (UsernameScraper.world_of st))) as (Hold & Hnew & Hraise).
    destruct (insert_usernames_batch _ _ _ _) as [[inserted|] d'];
      cbn [fst snd] in Hold, Hnew, Hraise |- *.
    + specialize (Hnew inserted eq_refl). split.
      * unfold advance, no_loss, stored, searches. cbn.
        split; [|split; [intros u Hu; apply Hold, Hu | lia]].
        intros Hinv u Hu. destruct (Hinv u Hu) as [Hb|Hs]; [left; exact Hb|].
        right. apply Hold, Hs.
      * intros _ Hinv u Hu. unfold stored. cbn.
        destruct (Hinv u Hu) as [Hb|Hs]; [apply Hnew, Hb | apply Hold, Hs].
    + split; [|discriminate].
      apply advance_same; try reflexivity; [apply Hraise; reflexivity|].
      unfold searches. simpl. lia.
Qed.

End SearchFacts.

Lemma years_length search :
  length (SearchSettings.years search)
  = Z.to_nat (SearchSettings.YEARS_END search - SearchSettings.YEARS_START search).
Proof. unfold SearchSettings.years. rewrite length_map, length_seq. reflexivity. Qed.

(** X24 ([search_users]): a run sends at most one search per location
    and year, the years being YEARS_START up to but not including
    YEARS_END; no row of the store disappears; at every exit, by return
    or by an exception, each login the API handed out is in the store
    or still in the batch; and when the method returns, each of them is
    in the store: an insert that failed on the way was made up for by a
    later one. *)
Theorem search_users_loses_no_login (config : Settings.ScraperConfig)
        (search : SearchSettings.SearchConfig)
        (github_search : string -> Z -> nat -> list string * option exception_class)
        (faults : nat -> option nat) (w : world) :
  (searches (UsernameScraper.search_users config search github_search faults w).2
   <= api_calls w
      + length (SearchSettings.LOCATIONS search)
        * Z.to_nat (SearchSettings.YEARS_END search
                    - SearchSettings.YEARS_START search))%nat
  /\ (forall u, u ∈ map username (developers (db_tables (db w))) ->
                stored u (UsernameScraper.search_users
                            config search github_search faults w).2)
  /\ no_loss (UsernameScraper.search_users config search github_search faults w).2
  /\ ((UsernameScraper.search_users config search github_search faults w).1
      = Returned tt ->
      all_stored (UsernameScraper.search_users config search github_search faults w).2).
Proof.
  rewrite <- years_length.
  set (total := (length (SearchSettings.LOCATIONS search)
                 * length (SearchSettings.years search))%nat).
  set (st0 := {| UsernameScraper.world_of := w;
                 UsernameScraper.batch_usernames := [];
                 UsernameScraper.served := [] |}).
  assert (Hinv0 : no_loss st0) by (intros u Hu; inversion Hu).
  assert (Hgoal : forall out : result unit * UsernameScraper.state,
             advance total st0 out.2 ->
             (out.1 = Returned tt -> all_stored out.2) ->
             (searches out.2 <= api_calls w + total)%nat
             /\ (forall u, u ∈ map username (developers (db_tables (db w))) ->
                           stored u out.2)
             /\ no_loss out.2
             /\ (out.1 = Returned tt -> all_stored out.2)).
  { intros out (A1 & A2 & A3) Hret. split; [exact A3|]. split; [exact A2|]. auto. }
  unfold UsernameScraper.search_users. fold st0.
  pose proof (count_initial_advance faults st0) as H1.
  destruct (UsernameScraper.count_initial faults st0) as [[c|] st1];
    cbn [fst snd] in H1.
  2: { apply Hgoal; cbn [fst snd]; [|discriminate].
       eapply advance_more; [|exact H1]. lia. }
  pose proof (advance_trans
                _ _ _ _ _ H1
                (locations_loop_advance config search github_search faults
                                        (SearchSettings.LOCATIONS search) st1)) as H2.
  fold total in H2.
  destruct (UsernameScraper.locations_loop _ _ _ _ _ st1) as [[u1|] st2];
    cbn [fst snd] in H2.
  2: { apply Hgoal; cbn [fst snd]; [exact H2 | discriminate]. }
  destruct (final_save_advance faults st2) as [Hs Hall].
  pose proof (advance_trans _ 0 _ _ _ H2 Hs) as H3.
  destruct (UsernameScraper.final_save faults st2) as [[u2|] st3];
    cbn [fst snd] in H3, Hall.
  2: { apply Hgoal; cbn [fst snd]; [|discriminate].
       eapply advance_more; [|exact H3]. lia. }
  pose proof (advance_trans _ 0 _ _ _ H3 (count_initial_advance faults st3)) as H4.
  pose proof (count_initial_all_stored faults st3) as Hall4.
  destruct (UsernameScraper.count_initial faults st3) as [[c'|] st4];
    cbn [fst snd] in H4, Hall4; apply Hgoal; cbn [fst snd];
    try (eapply advance_more; [|exact H4]; lia); [|discriminate].
  intros _. apply Hall4, Hall; [destruct u2; reflexivity|].
  apply H2, Hinv0.
Qed.

Lemma search_users_loses_no_login_witness :
  (UsernameScraper.search_users
     Settings.defaults one_city two_then_limit no_faults
     (worker_on empty_database)).1 = Returned tt
  /\ all_stored (UsernameScraper.search_users
                   Settings.defaults one_city two_then_limit no_faults
                   (worker_on empty_database)).2.
Proof.
  split; [vm_compute; reflexivity|].
  apply (proj2 (proj2 (proj2 (search_users_loses_no_login
                                Settings.defaults one_city two_then_limit no_faults
                                (worker_on empty_database))))).
  vm_compute. reflexivity.
Defined.
